(* ===== verification/_CoqProject ===== *)
-Q . S2P
Prelude.v
CText.v
Posix.v
Wire.v
Server.v
ServerSpec.v
Mover.v
NodeProps.v
NodeThreads.v
AddrFile.v
FirstOpens.v
FdState.v
FdLocks.v
Sync.v
Comm.v
Stats.v
StatsThreads.v
ClientComm.v
ClientCommProps.v
Client.v
Wrappers.v
ClientProps.v
Service.v
Sim.v
ClientInv.v
ClientTables.v
TableCalls.v
Cut.v
OpenSteps.v
ReadSteps.v
CallSteps.v
Threads.v
ThreadSteps.v
ThreadInv.v
Ledger.v
ThreadsProps.v
Job.v
Room.v
Boot.v
Delivery.v
Transparency.v
System.v
SystemProps.v
JobExample.v
RacingSystem.v
Whole.v
Timer.v
Logging.v
Startup.v
