(* ===== verification/Prelude.v ===== *)
(** * MT-HVAC: a verification library

    MT-HVAC is a read cache for training jobs. A library preloaded into the
    application intercepts [open], [read], [pread] and [close]; files of a data
    directory are read through RPCs (Mercury) from server processes, one per
    node, and a server copies every file it has served to its node-local NVMe
    and opens the copy from then on. This development models the C and C++
    code under [src/src] and proves what it promises, ending in a refinement:
    an application that uses the library sees what the operating system alone
    would show it.

    ** Files and what they model

    Foundations
    - [Prelude.v] C integer conversions, outcomes ([fault]) and the state
      monad [St], labelled runs ([steps], [reachable]), tactics, hints.
    - [CText.v] printf, atoi, fscanf, strstr and path operations on text.
    - [Posix.v] the operating system: paths, file contents, descriptors with
      offsets, and the calls open, close, read, pread, lseek, mkdtemp and
      std::filesystem::copy. It is also the reference of the refinement.
    - [Wire.v] the RPC messages of mthvac_comm.h with the width conversions
      of the assignments that fill them; the interface [Mercury] to bulk
      transfers with its laws [MercuryOk], and an instance of both.

    The server
    - [Server.v] the state of a server ([server]) and the handlers of
      mthvac_comm.cpp: [hvac_open_rpc_handler], [hvac_rpc_handler] (read),
      [hvac_seek_rpc_handler], [hvac_close_rpc_handler] and the print-stats
      handler; the invariant [server_inv].
    - [ServerSpec.v] what each handler does and that it keeps the invariant.
    - [Mover.v] the thread of mthvac_data_mover.cpp cut at its operations on
      the mutex ([mover_run]), and the node as a transition system of handlers
      and mover segments in any order ([node_step]).
    - [NodeProps.v] properties of a node.
    - [NodeThreads.v] the same node at the grain of its shared accesses: the
      handlers' thread ([handler_next]) and the mover's ([fine_run]) cut at
      every access to a global and every system call, their races and what
      survives them.
    - [Startup.v] mthvac_server.cpp: main up to its sleep loop, the signal
      handler, and the RPCs that both sides register.
    - [Comm.v] hvac_init_comm, hvac_shutdown_comm and the progress thread.
    - [FirstOpens.v] the test of g_mercury_init in hvac_track_file and what
      follows it, hvac_init_comm included, by several threads at once.
    - [AddrFile.v] the file .ports.cfg.<job>: a server's post and a client's
      scan.

    The client
    - [FdState.v] the states of a descriptor (opening, ready, error), the
      operations on them and hvac_wait_fd_ready, as one thread runs it and as
      a transition system of threads that sleep, are woken, or have their
      deadline pass and only later get the mutex back.
    - [FdLocks.v] the 64 reader-writer locks over the one map of states, and
      their initialisation by the first access.
    - [Sync.v] hvac_sync_context: the waiting thread and the callback, one
      access at a time.
    - [Stats.v] the counters of wrappers.c, IEEE doubles and their output;
      [StatsThreads.v] the same counters under threads, one access at a time.
    - [ClientComm.v] the stubs of mthvac_comm_client.cpp over the interface
      [Transport] to Mercury and the network: a forwarded request is not sent,
      answered, answered with an error, or never answered ([reply]); which of
      these a request to a server that is gone meets is a parameter ([losses]).
      [ClientCommProps.v] has their properties, whatever the network does.
    - [Client.v] mthvac_client.cpp: constructor, the tracking decision
      ([hvac_track_file]) and the remote operations. [Wrappers.v]: the four
      intercepted calls of wrappers.c. [ClientProps.v]: their properties.
    - [ClientInv.v] the invariant of the client's three tables ([tables_ok])
      under every call and every behaviour of the network; programs are shown
      to keep a relation by their structure ([keeps]).
    - [ClientTables.v] fd_map, fd_redir_map and address_cache under threads: each
      intercepted call as the sequence of its accesses to them ([call_prog]),
      the application's threads and the progress thread taking theirs in any
      order ([table_run]), and what races ([table_race]). [TableCalls.v]: those
      sequences are the calls of [Wrappers.v].
    - [Timer.v] mthvac_timer.h: the table, histories, resets and reports.
    - [Logging.v] hvac_logging.c and the macros of hvac_logging.h in front of
      log4c.

    The whole
    - [Service.v] the interface between client and servers, a class
      [FileService] with laws [FileServiceOk]: descriptors at a server are a
      file's bytes and an offset; opens, reads and closes act on them as POSIX
      does; what servers do unasked changes no descriptor; a server may be
      down, or go down while it has no file open, if requests to it are refused.
    - [Sim.v] the client against that interface: the reference calls, and a
      relation [sim] between a process with the library and a plain process
      that opens and reads the address file for the addresses it lacks; what a
      step leaves alone ([frame]).
    - [Cut.v] the intercepted calls cut at their waits: the part up to the
      first wait ([op_begin]), the callbacks, the part after the last
      ([op_end]); put together they are the calls of [Wrappers.v].
      [OpenSteps.v], [ReadSteps.v]: each part keeps the relation.
      [CallSteps.v]: so does every call and every server event.
      [Transparency.v]: runs of calls.
    - [Delivery.v] a transport in which a close, which nobody waits for,
      reaches its server at any later moment.
    - [Threads.v] several threads of one process inside open, read, pread and
      close at once: up to the first wait, the wait for another thread's open
      and its timeout, the server's answer, the callback, the return
      ([threads_run]); the histories an observer sees. [ThreadSteps.v],
      [ThreadInv.v]: the invariant of the calls in progress and the steps that
      begin and end calls. [Ledger.v]: what the servers have open is what the
      client's tables say ([accounted]). [ThreadsProps.v]: the other steps,
      runs, linearizability and completion of one process.
    - [Job.v] several such processes in front of the same servers ([job_run]);
      [Room.v]: how many descriptors they need. [Boot.v]: the same job in which
      the test of g_mercury_init in an open and the initialisation after it are
      steps of their own ([boot_run]), with the other processes' steps between
      them.
    - [System.v] the servers against that interface: a transport that runs
      the handlers on the nodes of a cluster, and its laws.
    - [SystemProps.v] the composition, and the calls at its edge;
      [JobExample.v] two processes on one of its servers.
    - [RacingSystem.v] the same interface kept by nodes of [NodeThreads.v]: a
      request runs the handler access by access while the mover goes on as an
      arbitrary plan says ([serve_racing]).
    - [Whole.v] everything at once: processes and their threads, closes that
      arrive later, nodes whose handlers race their movers.

    ** What the theorems show

    End to end: [whole_job_is_transparent]. From a start in which the servers
    have posted their addresses and the processes know none of them, whatever
    the threads of whatever processes open, read and close, however late closes
    arrive, whatever the movers do between two accesses of a handler, no
    process ends and the calls of each have, in the order of their effects, the
    answers of [Posix.v] for a process that opens the address file once per
    server. It rests on [racing_cluster_keeps_promises] (the plans of
    [RacingSystem.v] are all runs of the two threads of a node:
    [plans_are_the_interleavings]), and on the theorems of the parts: for one
    thread and handlers that run whole, [started_cluster_is_transparent]
    and [library_is_transparent]; [cluster_is_transparent] once the addresses
    are known; and for late closes [late_closes_are_invisible], which also says
    that no descriptor stays open at a server behind the client's back.

    Allowed calls: opens without O_CREAT and O_TRUNC, counts below 2^31, preads
    at offsets from 0. The hypotheses: the servers see the files the client
    sees, their addresses are in the client's cache or in the address file,
    memory for 2^31 bytes, a transport that delivers, and for a cold cache room
    for the descriptors that lookups leak. A server may be down, or go down
    while it has no file open; what Mercury does with a request to it is not in
    this code, so the theorems assume that HG_Forward refuses it ([when_down] is
    [Refused]) and say nothing of servers that go down otherwise:
    [down_server_read_restarts] has what happens there, an error handed to the
    callback included.

    Concurrency: whatever the threads of whatever processes of a job open, read
    and close at once, in every process the calls have the answers of a process
    without the library that makes them one after the other, each within its
    call ([job_is_linearizable]); once the addresses are known those of the
    operating system alone, and nobody's process ends
    ([warm_job_is_transparent]); and every call in progress can be moved on and
    ends, from processes that have not started Mercury on
    ([boot_calls_complete]). [concurrent_calls_are_linearizable] and its
    companions say the same of one process. Hypotheses: no thread closes a
    descriptor another one is using, no wait for an open reaches its timeout,
    and a process's other threads wait while one of them is between the test
    and the set of g_mercury_init.

    What happens outside: [lseek_is_lost], [pread_minus_one_is_a_read],
    [negative_pread_kills_server], [read_of_closed_fd_aborts_server];
    [down_server_read_restarts] (a server that goes down with the file open:
    if its requests are refused, pread still answers right and read starts
    again at the local offset; if the callback is told, the process ends);
    [timed_out_wait_repeats_bytes] (a wait for an open that times out).

    Servers: the cache is coherent in every reachable state
    ([node_reachable_coherent]), opens and reads serve the requested bytes
    ([open_serves_requested_bytes], [read_handler_returns_slice]), paths to
    move form a queue that loses nothing, a woken mover empties it, a
    closed file becomes cached; and a wakeup can be lost. At the finer grain
    [path_cache_map_races] exhibits the data race on the cache's table, and
    [interleaved_node_coherent] and [interleaved_open_serves_bytes] say that,
    as long as the table's single operations are not torn, the bytes served are
    right in every interleaving.

    Client: the tables agree between calls ([client_tables_well_typed]: an open
    settles its descriptor, closing forgets it), reads are refused until READY,
    no thread sleeps through READY (though one whose deadline passed answers
    false on it), waits end with the published result, one shard's locks exclude
    races and two shards' do not, nor two first uses of the locks, which files
    are tracked, how addresses are found and leaked. Its tables have no lock:
    [safe_client_calls] says which calls may coincide nevertheless (one caller
    next to the progress thread; any number of reads), [client_tables_race]
    which may not, and [accesses_are_the_calls] that this is about the code.
    What a table's operation reads and writes ([footprint]) is libstdc++'s:
    operator[] only reads when the key is present. The C++ standard promises
    that of find, not of operator[].
    The statistics have none either ([counters_lose_updates]).

    Starting Mercury: when the first opens do not coincide it is started once
    and every open is answered ([one_initialisation_serves_all_opens]); when
    they do, one of them can wait for ever
    ([concurrent_first_opens_can_hang]).

    Periphery: progress thread, start-up, address file, timers, logging.

    ** Fuel, bounds and atomicity

    Recursion is structural except for [find_rank], whose fuel is the file's
    length plus one (every turn consumes input: [address_scan_terminates]),
    [put_digits], whose fuel is the bit length, and [first_free], whose fuel
    is the number of descriptors. The wait loops are transition systems or
    take the finite list of returns before the deadline. C integers are Z with
    their conversions written at each assignment that narrows.

    A handler, a mover segment, a stub with its callback, and a timer
    operation are atomic steps, except where a file is about their threads:
    [NodeThreads.v] cuts handlers and mover at every shared access, and
    [Threads.v] cuts calls at their waits, where a thread stops until another
    one, a server or the progress thread has acted; in both the cut program,
    run without interruption, is proved to be the atomic one. What a client's
    thread does between two waits is one step there: fd_map and fd_redir_map have
    no lock, so two threads that touch one of them at the very same moment race,
    and what C++ then does is undefined. Which calls can come to that is
    [ClientTables.v]'s matter. In [Threads.v] and [Job.v] the start of Mercury is
    part of the first open's step; [Boot.v] takes it apart, and first opens of
    one process that coincide there are [FirstOpens.v]'s; additions to the statistics [StatsThreads.v]'s. The
    threads inside a wait, the locks and the synchronisation context are finer
    still, in their own files. A single operation on a map is one step: what a
    torn std::map does is undefined.

    ** Not modelled

    Mercury, log4c, pthread and the C++ library beyond the calls above;
    permissions, links, signals and partial reads; memory exhaustion except
    the server's calloc; buffers of PATH_MAX bytes are long enough; the order
    of an unordered_map is a parameter, and so are std::hash,
    std::filesystem::canonical, the environment and how far a stream reads
    ahead of a scan. The timing scopes
    (HVAC_TIMING) and log lines inside the operations are not repeated there:
    they touch only the state of [Timer.v] and [Logging.v]. The test programs
    under tests and the build scripts are no part of the system.

    What the program's files hold beyond that is not code of the build: the
    wrappers under [#if 0] and those in comments, prototypes, and getters of
    Mercury's handles.

    Left out on purpose as well: the threads of [Threads.v] are not cut further,
    at their accesses to the unlocked tables, since a run in which two of those
    coincide has no defined behaviour; a server process that ends does not come
    back, and no other one takes over its address. *)

From stdpp Require Export base numbers list gmap strings.
From Stdlib Require Export Lia.

Declare Scope hvac_scope.
Delimit Scope hvac_scope with hvac.

Local Open Scope Z_scope.

(** ** C integer conversions

    The code runs on LP64 Linux: [int] is 32 bits, [ssize_t], [off_t] and
    [size_t] are 64 bits; a narrowing conversion keeps the low bits. *)

Definition to_unsigned (w z : Z) : Z := z mod 2 ^ w.

Definition to_signed (w z : Z) : Z :=
  let m := z mod 2 ^ w in
  if m <? 2 ^ (w - 1) then m else m - 2 ^ w.

Definition to_int32 (z : Z) : Z := to_signed 32 z.
Definition to_int64 (z : Z) : Z := to_signed 64 z.
Definition to_uint32 (z : Z) : Z := to_unsigned 32 z.
Definition to_uint64 (z : Z) : Z := to_unsigned 64 z.

(** ** Outcomes and the state monad

    A computation either returns, or ends the process (or the calling thread)
    in one of the ways the code can end it. *)

Inductive fault : Type :=
| AssertFailed           (* assert(...) of a false condition *)
| NullDeref              (* a NULL handed to a libc function that reads it *)
| DivByZero              (* integer remainder by zero *)
| Exited (code : Z)      (* exit(code) *)
| Blocked.               (* a condition wait that is never signalled *)

Inductive res (A : Type) : Type :=
| Ret (a : A)
| Fault (f : fault).
Arguments Ret {A} _.
Arguments Fault {A} _.

Definition St (S A : Type) : Type := S → res (S * A).

Global Instance St_ret S : MRet (St S) := λ A a s, Ret (s, a).
Global Instance St_bind S : MBind (St S) := λ A B f m s,
  match m s with
  | Ret (s', a) => f a s'
  | Fault e => Fault e
  end.

(** Read a part of the state. *)
Definition gets {S A} (f : S → A) : St S A := λ s, Ret (s, f s).
(** Change the state. *)
Definition modify {S} (f : S → S) : St S unit := λ s, Ret (f s, tt).
(** End the process. *)
Definition fail {S A} (e : fault) : St S A := λ _, Fault e.
(** assert(b). *)
Definition assert_true {S} (b : bool) : St S unit :=
  if b then mret tt else fail AssertFailed.
(** Run a total operation of the state. *)
Definition run {S A} (f : S → S * A) : St S A := λ s, Ret (f s).
(** Run a computation on a part of the state. *)
Definition zoom {S T A} (get : S → T) (put : T → S → S) (m : St T A) : St S A :=
  λ s, match m (get s) with
       | Ret (t, a) => Ret (put t s, a)
       | Fault e => Fault e
       end.

Definition is_ret {A} (r : res A) : bool :=
  match r with Ret _ => true | Fault _ => false end.

(** ** Labelled runs of a transition system *)

Section traces.
Context {S L : Type} (step : L → S → S → Prop).

Inductive steps : list L → S → S → Prop :=
| steps_nil s : steps [] s s
| steps_snoc ls l s1 s2 s3 :
    steps ls s1 s2 → step l s2 s3 → steps (ls ++ [l]) s1 s3.

Definition reachable (init : S → Prop) (s : S) : Prop :=
  ∃ s0 ls, init s0 ∧ steps ls s0 s.

Definition inductive_inv (P : S → Prop) : Prop :=
  ∀ l s s', P s → step l s s' → P s'.

Lemma steps_inv P ls s s' :
  inductive_inv P → P s → steps ls s s' → P s'.
Proof. intros HP Hs Hst. induction Hst; eauto. Qed.

Lemma reachable_inv init P s :
  (∀ s0, init s0 → P s0) → inductive_inv P → reachable init s → P s.
Proof. intros Hi HP (s0 & ls & H0 & Hst). by eapply (steps_inv P); eauto. Qed.

Lemma steps_one l s s' : step l s s' → steps [l] s s'.
Proof. intros H. apply (steps_snoc [] l s s s'); [constructor|done]. Qed.

Lemma steps_app ls1 ls2 s1 s2 s3 :
  steps ls1 s1 s2 → steps ls2 s2 s3 → steps (ls1 ++ ls2) s1 s3.
Proof.
  intros H1 H2. induction H2 as [|ls l a b c _ IH Hl].
  - by rewrite app_nil_r.
  - rewrite (assoc_L (++)). by econstructor; [apply IH|].
Qed.

Lemma steps_cons l ls s1 s2 s3 :
  step l s1 s2 → steps ls s2 s3 → steps (l :: ls) s1 s3.
Proof. intros H1 H2. apply (steps_app [l] ls s1 s2 s3); [by apply steps_one|done]. Qed.
End traces.

Create HintDb hvac.
#[export] Hint Resolve steps_one steps_nil steps_cons : hvac.

(** ** Tactics *)

(** Unfold the monad so that [simpl] can run a handler. *)
Ltac unfold_st :=
  unfold mbind, St_bind, gets, modify, assert_true, fail, run, zoom, mret, St_ret; simpl.
Ltac unfold_st_in H :=
  unfold mbind, St_bind, gets, modify, assert_true, fail, run, zoom, mret, St_ret in H;
  simpl in H.

(** Split the innermost [match] or [if] of a hypothesis, dropping the
    impossible cases. *)
Ltac case_in H :=
  match type of H with
  | context [match ?x with _ => _ end] =>
      lazymatch x with
      | context [match _ with _ => _ end] => fail
      | _ => destruct x eqn:?; simpl in H; simplify_eq
      end
  end.
Ltac cases_in H := repeat case_in H.

Ltac bool_to_prop :=
  repeat match goal with
  | H : bool_decide _ = true |- _ => apply bool_decide_eq_true in H
  | H : bool_decide _ = false |- _ => apply bool_decide_eq_false in H
  | H : (_ =? _) = true |- _ => apply Z.eqb_eq in H
  | H : (_ =? _) = false |- _ => apply Z.eqb_neq in H
  | H : (_ <? _) = true |- _ => apply Z.ltb_lt in H
  | H : (_ <? _) = false |- _ => apply Z.ltb_ge in H
  | H : (_ <=? _) = true |- _ => apply Z.leb_le in H
  | H : (_ <=? _) = false |- _ => apply Z.leb_gt in H
  | H : _ && _ = true |- _ => apply andb_true_iff in H as [? ?]
  | H : _ || _ = false |- _ => apply orb_false_iff in H as [? ?]
  | H : negb _ = true |- _ => apply negb_true_iff in H
  | H : negb _ = false |- _ => apply negb_false_iff in H
  end.

(** ** Inverting a run that returned *)

Lemma bind_Ret {S A B} (m : St S A) (f : A → St S B) s s' b :
  (m ≫= f) s = Ret (s', b) ↔ ∃ s1 a, m s = Ret (s1, a) ∧ f a s1 = Ret (s', b).
Proof.
  unfold mbind, St_bind. split.
  - destruct (m s) as [[s1 a]|]; [eauto|done].
  - by intros (s1 & a & -> & ?).
Qed.

Lemma assert_Ret {S} b (s s' : S) u :
  assert_true b s = Ret (s', u) ↔ b = true ∧ s' = s.
Proof. unfold assert_true. destruct b, u; unfold_st; naive_solver. Qed.

Lemma mret_Ret {S A} (a a' : A) (s s' : S) : mret (M:=St S) a s = Ret (s', a') ↔ s' = s ∧ a' = a.
Proof. unfold_st. naive_solver. Qed.

Lemma bind_run {S A B} (m : St S A) (f : A → St S B) s s1 a :
  m s = Ret (s1, a) → (m ≫= f) s = f a s1.
Proof. unfold mbind, St_bind. by intros ->. Qed.

(** Runs as programs: binds re-associate, and equal continuations give equal
    runs. *)
Lemma bind_bind {S A B C} (m : St S A) (f : A → St S B) (g : B → St S C) s :
  ((m ≫= f) ≫= g) s = (m ≫= λ a, f a ≫= g) s.
Proof. unfold mbind, St_bind. by destruct (m s) as [[? ?]|]. Qed.

Lemma bind_ext {S A B} (m : St S A) (f g : A → St S B) s :
  (∀ s' a, m s = Ret (s', a) → f a s' = g a s') → (m ≫= f) s = (m ≫= g) s.
Proof. unfold mbind, St_bind. intros Hfg. destruct (m s) as [[? ?]|]; auto. Qed.

Lemma bind_Fault {S A B} (m : St S A) (f : A → St S B) s e :
  m s = Fault e → (m ≫= f) s = Fault e.
Proof. unfold mbind, St_bind. by intros ->. Qed.

(** Take the first step of a returning run apart. *)
Ltac bind_in H s1 a E := apply bind_Ret in H as (s1 & a & E & H).
Ltac assert_in H :=
  let u := fresh "u" in let s1 := fresh "s" in let E := fresh "E" in let Hb := fresh "Hb" in
  bind_in H s1 u E; apply assert_Ret in E as [Hb ->].

(** ** Lemmas on conversions *)

Lemma to_unsigned_id w z : 0 ≤ z < 2 ^ w → to_unsigned w z = z.
Proof. intros. by apply Z.mod_small. Qed.

Lemma to_unsigned_range w z : 0 ≤ w → 0 ≤ to_unsigned w z < 2 ^ w.
Proof. intros. apply Z.mod_pos_bound. by apply Z.pow_pos_nonneg. Qed.

Lemma pow2_half w : 0 < w → 2 ^ w = 2 * 2 ^ (w - 1).
Proof. intros. rewrite <-Z.pow_succ_r by lia. f_equal. lia. Qed.

Lemma to_signed_id w z :
  0 < w → - 2 ^ (w - 1) ≤ z < 2 ^ (w - 1) → to_signed w z = z.
Proof.
  intros Hw Hz. unfold to_signed. pose proof (pow2_half w Hw) as Hp.
  destruct (Z_lt_le_dec z 0) as [Hn|Hn].
  - assert (z mod 2 ^ w = z + 2 ^ w) as ->.
    { symmetry. apply Z.mod_unique with (q := -1); lia. }
    destruct (Z.ltb_spec (z + 2 ^ w) (2 ^ (w - 1))); lia.
  - rewrite Z.mod_small by lia. destruct (Z.ltb_spec z (2 ^ (w - 1))); lia.
Qed.

Lemma to_signed_range w z :
  0 < w → - 2 ^ (w - 1) ≤ to_signed w z < 2 ^ (w - 1).
Proof.
  intros Hw. unfold to_signed. pose proof (pow2_half w Hw) as Hp.
  pose proof (Z.mod_pos_bound z (2 ^ w)) as Hm.
  destruct (Z.ltb_spec (z mod 2 ^ w) (2 ^ (w - 1))); lia.
Qed.

(** A narrowing conversion only looks at the low bits. *)
Lemma to_signed_mod w v z :
  0 < w ≤ v → to_signed w (z mod 2 ^ v) = to_signed w z.
Proof.
  intros [Hw Hv]. unfold to_signed.
  assert ((z mod 2 ^ v) mod 2 ^ w = z mod 2 ^ w) as ->; [|done].
  replace (2 ^ v) with (2 ^ w * 2 ^ (v - w)) by (rewrite <-Z.pow_add_r by lia; f_equal; lia).
  rewrite Z.rem_mul_r by (try apply Z.pow_nonzero; lia || apply Z.pow_pos_nonneg; lia).
  rewrite Z.mul_comm, Z_mod_plus_full. apply Z.mod_mod. apply Z.pow_nonzero; lia.
Qed.

Lemma to_int32_id z : - 2 ^ 31 ≤ z < 2 ^ 31 → to_int32 z = z.
Proof. intros. apply to_signed_id; lia. Qed.

Lemma to_int32_range z : - 2 ^ 31 ≤ to_int32 z < 2 ^ 31.
Proof. apply (to_signed_range 32). lia. Qed.

Lemma to_int32_uint64 z : to_int32 (to_uint64 z) = to_int32 z.
Proof. apply to_signed_mod. lia. Qed.

Lemma to_int32_uint32 z : to_int32 (to_uint32 z) = to_int32 z.
Proof. apply to_signed_mod. lia. Qed.

Lemma to_uint64_id z : 0 ≤ z < 2 ^ 64 → to_uint64 z = z.
Proof. apply to_unsigned_id. Qed.

Lemma to_int64_id z : - 2 ^ 63 ≤ z < 2 ^ 63 → to_int64 z = z.
Proof. intros. apply to_signed_id; lia. Qed.
