(* ===== verification/CText.v ===== *)
(** * C text

    What the program uses of the C and C++ libraries to read and write text:
    [%d] and [%u] conversions of printf, [atoi], the [%d] and [%s]
    conversions of [fscanf], [strstr] / [std::string::find], and the
    [filename] and [parent_path] of a [std::filesystem::path]. Text is a list
    of characters; a path used as a map key is a [string]. *)

From S2P Require Import Prelude.
From Stdlib Require Import Ascii.

Local Open Scope Z_scope.

Abbreviation text := (list ascii).

Definition s2t : string → text := String.list_ascii_of_string.
Definition t2s : text → string := String.string_of_list_ascii.

(** ** Character classes *)

Definition chr (z : Z) : ascii := ascii_of_nat (Z.to_nat z).
Definition code (c : ascii) : Z := Z.of_nat (nat_of_ascii c).

Definition nl : ascii := chr 10.
Definition sp : ascii := chr 32.
Definition slash : ascii := chr 47.
Definition minus : ascii := chr 45.
Definition plus : ascii := chr 43.

(** isspace in the C locale: blank, \t \n \v \f \r. *)
Definition is_space (c : ascii) : bool :=
  (code c =? 32) || ((9 <=? code c) && (code c <=? 13)).
Definition is_digit (c : ascii) : bool :=
  (48 <=? code c) && (code c <=? 57).

Definition digit_chr (d : Z) : ascii := chr (48 + d).
Definition digit_val (c : ascii) : Z := code c - 48.

(** ** Decimal output *)

Fixpoint put_digits (fuel : nat) (n : Z) (acc : text) : text :=
  match fuel with
  | O => acc
  | S f => let acc' := digit_chr (n mod 10) :: acc in
           if n <? 10 then acc' else put_digits f (n / 10) acc'
  end.

(** %u / %zu / operator<< of an unsigned integer; the binary logarithm bounds
    the number of decimal digits. *)
Definition print_u (n : Z) : text := put_digits (S (Z.to_nat (Z.log2 n))) n [].

(** %d *)
Definition print_d (z : Z) : text :=
  if z <? 0 then minus :: print_u (- z) else print_u z.

(** ** Decimal input *)

Fixpoint skip_ws (s : text) : text :=
  match s with
  | c :: s' => if is_space c then skip_ws s' else s
  | [] => []
  end.

Fixpoint scan_digits (acc : Z) (s : text) : Z * text :=
  match s with
  | c :: s' => if is_digit c then scan_digits (acc * 10 + digit_val c) s' else (acc, s)
  | [] => (acc, [])
  end.

Definition scan_sign (s : text) : Z * text :=
  match s with
  | c :: s' => if Ascii.eqb c minus then (-1, s')
               else if Ascii.eqb c plus then (1, s') else (1, s)
  | [] => (1, s)
  end.

Definition starts_digit (s : text) : bool :=
  match s with c :: _ => is_digit c | [] => false end.

Definition clamp_long (z : Z) : Z := Z.max (- 2 ^ 63) (Z.min (2 ^ 63 - 1) z).

(** glibc: atoi(s) is (int) strtol(s, NULL, 10). *)
Definition atoi (s : text) : Z :=
  let '(sg, s1) := scan_sign (skip_ws s) in
  to_int32 (clamp_long (sg * fst (scan_digits 0 s1))).

(** The %d conversion of fscanf: [None] is a matching failure. *)
Definition scan_d (s : text) : option (Z * text) :=
  let '(sg, s1) := scan_sign (skip_ws s) in
  if starts_digit s1 then
    let '(n, s2) := scan_digits 0 s1 in
    Some (to_int32 (clamp_long (sg * n)), s2)
  else None.

(** The %s conversion of fscanf: a non-empty run of non-blank characters. *)
Fixpoint scan_word (s : text) : text * text :=
  match s with
  | c :: s' => if is_space c then ([], s)
               else let '(w, r) := scan_word s' in (c :: w, r)
  | [] => ([], [])
  end.

Definition scan_s (s : text) : option (text * text) :=
  match scan_word (skip_ws s) with
  | ([], _) => None
  | (w, r) => Some (w, r)
  end.

(** ** Substrings *)

Fixpoint contains (pat s : text) : bool :=
  bool_decide (pat `prefix_of` s) ||
  match s with [] => false | _ :: s' => contains pat s' end.

(** strstr(s, pat) != NULL, and s.find(pat) != npos *)
Definition strstr (s pat : string) : bool := contains (s2t pat) (s2t s).

(** ** Paths *)

Fixpoint last_component (s cur : text) : text :=
  match s with
  | [] => cur
  | c :: s' => if Ascii.eqb c slash then last_component s' []
               else last_component s' (cur ++ [c])
  end.

(** fs::path(s).filename() *)
Definition filename (s : text) : text := last_component s [].

(** parent_path() of an absolute path without a trailing separator, the form
    std::filesystem::canonical returns. *)
Definition parent_path (s : text) : text :=
  match take (length s - length (filename s) - 1) s with
  | [] => match s with c :: _ => if Ascii.eqb c slash then [slash] else [] | [] => [] end
  | d => d
  end.

(** ** Lemmas *)

Lemma t2s_s2t s : t2s (s2t s) = s.
Proof. apply String.string_of_list_ascii_of_string. Qed.

Lemma s2t_t2s t : s2t (t2s t) = t.
Proof. apply String.list_ascii_of_string_of_list_ascii. Qed.

Global Instance s2t_inj : Inj (=) (=) s2t.
Proof. intros s1 s2 H. by rewrite <-(t2s_s2t s1), <-(t2s_s2t s2), H. Qed.

Global Instance t2s_inj : Inj (=) (=) t2s.
Proof. intros s1 s2 H. by rewrite <-(s2t_t2s s1), <-(s2t_t2s s2), H. Qed.

Lemma code_chr z : 0 ≤ z < 256 → code (chr z) = z.
Proof.
  intros. unfold code, chr. rewrite nat_ascii_embedding; lia.
Qed.

Lemma is_digit_chr d : 0 ≤ d < 10 → is_digit (digit_chr d) = true.
Proof.
  intros. unfold is_digit, digit_chr. rewrite code_chr by lia.
  apply andb_true_iff. rewrite !Z.leb_le. lia.
Qed.

Lemma digit_val_chr d : 0 ≤ d < 10 → digit_val (digit_chr d) = d.
Proof. intros. unfold digit_val, digit_chr. rewrite code_chr; lia. Qed.

Lemma digit_not_space c : is_digit c = true → is_space c = false.
Proof.
  unfold is_digit, is_space. intros H. bool_to_prop.
  apply orb_false_iff. rewrite andb_false_iff, Z.eqb_neq, !Z.leb_gt. lia.
Qed.

Lemma digit_not_sign c :
  is_digit c = true → Ascii.eqb c minus = false ∧ Ascii.eqb c plus = false.
Proof.
  unfold is_digit. intros H. bool_to_prop.
  split; apply Ascii.eqb_neq; intros ->.
  - assert (code minus = 45) by reflexivity. lia.
  - assert (code plus = 43) by reflexivity. lia.
Qed.

(** Reading back what [put_digits] wrote continues with the rest. *)
Lemma scan_put_digits fuel n acc :
  0 ≤ n < 2 ^ Z.of_nat fuel →
  scan_digits 0 (put_digits fuel n acc) = scan_digits n acc.
Proof.
  revert n acc. induction fuel as [|f IH]; intros n acc Hn.
  - simpl in *. by replace n with 0 by lia.
  - cbn [put_digits]. pose proof (Z.mod_pos_bound n 10 ltac:(lia)) as Hm.
    rewrite Nat2Z.inj_succ, Z.pow_succ_r in Hn by lia.
    destruct (Z.ltb_spec n 10) as [Hlt|Hge].
    + cbn [scan_digits]. rewrite is_digit_chr, digit_val_chr by lia.
      f_equal. rewrite Z.mod_small; lia.
    + rewrite IH.
      2: { split; [apply Z.div_pos; lia|]. apply Z.div_lt_upper_bound; lia. }
      cbn [scan_digits]. rewrite is_digit_chr, digit_val_chr by lia.
      f_equal. pose proof (Z.div_mod n 10 ltac:(lia)). lia.
Qed.

Lemma scan_digits_stop n s : starts_digit s = false → scan_digits n s = (n, s).
Proof. destruct s as [|c s]; [done|]. simpl. by intros ->. Qed.

Lemma put_digits_app fuel n acc rest :
  put_digits fuel n acc ++ rest = put_digits fuel n (acc ++ rest).
Proof.
  revert n acc. induction fuel as [|f IH]; intros n acc; [done|].
  cbn [put_digits]. destruct (n <? 10); [done|]. apply IH.
Qed.

Lemma print_u_fuel n : 0 ≤ n → 0 ≤ n < 2 ^ Z.of_nat (S (Z.to_nat (Z.log2 n))).
Proof.
  intros Hn. split; [done|]. rewrite Nat2Z.inj_succ, Z2Nat.id by apply Z.log2_nonneg.
  destruct (Z.eq_dec n 0) as [->|]; [done|]. apply Z.log2_spec. lia.
Qed.

Lemma scan_print_u n rest :
  0 ≤ n → starts_digit rest = false → scan_digits 0 (print_u n ++ rest) = (n, rest).
Proof.
  intros Hn Hr. unfold print_u. rewrite put_digits_app, scan_put_digits.
  - by apply scan_digits_stop.
  - by apply print_u_fuel.
Qed.

Lemma put_digits_starts fuel n acc :
  starts_digit acc = true → starts_digit (put_digits fuel n acc) = true.
Proof.
  revert n acc. induction fuel as [|f IH]; intros n acc H; [done|].
  cbn [put_digits]. pose proof (Z.mod_pos_bound n 10 ltac:(lia)).
  assert (Hd : starts_digit (digit_chr (n mod 10) :: acc) = true) by (by apply is_digit_chr).
  destruct (n <? 10); [done|]. by apply IH.
Qed.

Lemma print_u_starts n rest : starts_digit (print_u n ++ rest) = true.
Proof.
  unfold print_u. cbn [put_digits]. pose proof (Z.mod_pos_bound n 10 ltac:(lia)).
  assert (Hd : ∀ l, starts_digit (digit_chr (n mod 10) :: l) = true)
    by (intros; by apply is_digit_chr).
  destruct (n <? 10); [apply Hd|]. rewrite put_digits_app. apply put_digits_starts, Hd.
Qed.

Lemma skip_ws_id s : (∀ c s', s = c :: s' → is_space c = false) → skip_ws s = s.
Proof. destruct s as [|c s]; [done|]. intros H. simpl. by rewrite (H c s). Qed.

Lemma skip_ws_digit s : starts_digit s = true → skip_ws s = s.
Proof. intros H. apply skip_ws_id. intros c s' ->. by apply digit_not_space. Qed.

Lemma scan_sign_digit s : starts_digit s = true → scan_sign s = (1, s).
Proof.
  destruct s as [|c s]; [done|]. simpl. intros [-> ->]%digit_not_sign. done.
Qed.

Lemma scan_sign_minus s : scan_sign (minus :: s) = (-1, s).
Proof. done. Qed.

Lemma clamp_int32 z : - 2 ^ 31 ≤ z < 2 ^ 31 → to_int32 (clamp_long z) = z.
Proof. intros. unfold clamp_long. rewrite to_int32_id; lia. Qed.

(** fscanf's [%d] reads back what fprintf's [%d] wrote. *)
Lemma scan_d_print_d z rest :
  - 2 ^ 31 ≤ z < 2 ^ 31 → starts_digit rest = false →
  scan_d (print_d z ++ rest) = Some (z, rest).
Proof.
  intros Hz Hr. unfold scan_d, print_d. destruct (Z.ltb_spec z 0) as [Hn|Hn].
  - rewrite <-app_comm_cons, skip_ws_id by (by intros ? ? [= <- <-]).
    rewrite scan_sign_minus, print_u_starts, scan_print_u by (lia || done).
    rewrite clamp_int32 by lia. do 2 f_equal. lia.
  - rewrite skip_ws_digit, scan_sign_digit by apply print_u_starts.
    rewrite print_u_starts, scan_print_u by done.
    rewrite clamp_int32 by lia. do 2 f_equal. lia.
Qed.

Lemma skip_ws_print_d z rest : skip_ws (print_d z ++ rest) = print_d z ++ rest.
Proof.
  unfold print_d. destruct (z <? 0); [done|]. apply skip_ws_digit, print_u_starts.
Qed.

Lemma atoi_print_d z : - 2 ^ 31 ≤ z < 2 ^ 31 → atoi (print_d z) = z.
Proof.
  intros Hz. unfold atoi, print_d. destruct (Z.ltb_spec z 0) as [Hn|Hn].
  - rewrite skip_ws_id by (by intros ? ? [= <- <-]).
    rewrite scan_sign_minus, <-(app_nil_r (print_u _)), scan_print_u by (lia || done).
    simpl fst. rewrite clamp_int32 by lia. lia.
  - rewrite <-(app_nil_r (print_u _)), skip_ws_digit, scan_sign_digit by apply print_u_starts.
    rewrite scan_print_u by done. simpl fst. rewrite clamp_int32 by lia. lia.
Qed.

Lemma atoi_range s : - 2 ^ 31 ≤ atoi s < 2 ^ 31.
Proof. unfold atoi. destruct (scan_sign _). apply to_int32_range. Qed.

Lemma scan_word_app w rest :
  Forall (λ c, is_space c = false) w →
  (∀ c r, rest = c :: r → is_space c = true) →
  scan_word (w ++ rest) = (w, rest).
Proof.
  intros Hw Hr. induction Hw as [|c w Hc _ IH]; simpl.
  - destruct rest as [|c r]; [done|]. simpl. by rewrite (Hr c r).
  - by rewrite Hc, IH.
Qed.

Lemma scan_s_word w rest :
  w ≠ [] → Forall (λ c, is_space c = false) w →
  (∀ c r, rest = c :: r → is_space c = true) →
  scan_s (w ++ rest) = Some (w, rest).
Proof.
  intros Hne Hw Hr. unfold scan_s.
  destruct w as [|c w]; [done|]. inversion Hw; subst.
  rewrite skip_ws_id by (by intros ? ? [= <- <-]).
  rewrite scan_word_app by done. done.
Qed.

Lemma contains_spec pat s :
  contains pat s = true ↔ ∃ l1 l2, s = l1 ++ pat ++ l2.
Proof.
  induction s as [|c s IH]; simpl.
  - rewrite orb_false_r, bool_decide_eq_true. split.
    + intros [k Hk]. by exists [], k.
    + intros (l1 & l2 & H). destruct l1; [|done]. by exists l2.
  - rewrite orb_true_iff, bool_decide_eq_true, IH. split.
    + intros [[k Hk]|(l1 & l2 & ->)]; [by exists [], k|by exists (c :: l1), l2].
    + intros ([|c' l1] & l2 & H); simplify_eq/=; [left; by exists l2|right; eauto].
Qed.

Lemma strstr_spec s pat :
  strstr s pat = true ↔ ∃ l1 l2, s2t s = l1 ++ s2t pat ++ l2.
Proof. apply contains_spec. Qed.

Lemma last_component_app d n cur :
  last_component (d ++ slash :: n) cur = last_component n [].
Proof.
  revert cur. induction d as [|c d IH]; intros cur; simpl; [done|].
  destruct (Ascii.eqb c slash); apply IH.
Qed.

Lemma last_component_plain n cur : slash ∉ n → last_component n cur = cur ++ n.
Proof.
  revert cur. induction n as [|c n IH]; intros cur Hn; simpl; [by rewrite app_nil_r|].
  apply not_elem_of_cons in Hn as [Hc Hn].
  destruct (Ascii.eqb_spec c slash); [congruence|].
  rewrite IH, <-(assoc_L (++)) by done. done.
Qed.

Lemma last_component_no_slash s cur : slash ∉ cur → slash ∉ last_component s cur.
Proof.
  revert cur. induction s as [|c s IH]; intros cur Hc; simpl; [done|].
  destruct (Ascii.eqb_spec c slash) as [->|]; apply IH; [apply not_elem_of_nil|].
  rewrite elem_of_app, list_elem_of_singleton. intros [?|?]; congruence.
Qed.

Lemma filename_app d n : slash ∉ n → filename (d ++ slash :: n) = n.
Proof.
  intros. unfold filename. rewrite last_component_app.
  by rewrite last_component_plain.
Qed.

Lemma filename_no_slash s : slash ∉ filename s.
Proof. apply last_component_no_slash. set_solver. Qed.

(** The directory of [d/n] is [d], for a non-empty [d]. *)
Lemma parent_path_app d n :
  d ≠ [] → slash ∉ n → parent_path (d ++ slash :: n) = d.
Proof.
  intros Hd Hn. unfold parent_path. rewrite filename_app by done.
  rewrite length_app. simpl length.
  replace (length d + S (length n) - length n - 1)%nat with (length d) by lia.
  rewrite take_app_length. by destruct d.
Qed.
