(* ===== verification/Posix.v ===== *)
(** * The operating system the program runs on

    The file calls of the C library the program makes, over regular files: a
    directory of paths, inode contents, and a table of open descriptors with
    their offsets. One [posix] is one process: the client's or a server's.
    Not in the model: permissions, links, signals (EINTR), partial reads of a
    regular file before its end. *)

From S2P Require Import Prelude CText.
From Stdlib Require Import Ascii.

Local Open Scope Z_scope.

Abbreviation bytes := (list ascii).

(** ** Constants of <fcntl.h> and <unistd.h> (Linux) *)

Definition O_ACCMODE : Z := 3.
Definition O_RDONLY : Z := 0.
Definition O_WRONLY : Z := 1.
Definition O_RDWR : Z := 2.
Definition O_CREAT : Z := 64.
Definition O_TRUNC : Z := 512.
Definition O_APPEND : Z := 1024.
Definition SEEK_SET : Z := 0.
Definition SEEK_CUR : Z := 1.
Definition SEEK_END : Z := 2.

(** read(2), NOTES: one call transfers at most 0x7ffff000 bytes. *)
Definition MAX_RW_COUNT : Z := 2147479552.

(** ** State *)

Record ofd : Type := Ofd {
  ofd_ino : positive;
  ofd_mode : Z;
  ofd_off : Z
}.

Record posix : Type := Posix {
  px_paths : gmap string positive;
  px_data : gmap positive bytes;
  px_dirs : gset string;
  px_fds : gmap Z ofd;
  px_nofile : Z            (* RLIMIT_NOFILE *)
}.

Definition set_fds (f : gmap Z ofd) (p : posix) : posix :=
  {| px_paths := px_paths p; px_data := px_data p; px_dirs := px_dirs p;
     px_fds := f; px_nofile := px_nofile p |}.

Definition set_data (d : gmap positive bytes) (p : posix) : posix :=
  {| px_paths := px_paths p; px_data := d; px_dirs := px_dirs p;
     px_fds := px_fds p; px_nofile := px_nofile p |}.

Definition add_file (path : string) (i : positive) (d : bytes) (p : posix) : posix :=
  {| px_paths := <[path := i]> (px_paths p); px_data := <[i := d]> (px_data p);
     px_dirs := px_dirs p; px_fds := px_fds p; px_nofile := px_nofile p |}.

Definition add_dir (d : string) (p : posix) : posix :=
  {| px_paths := px_paths p; px_data := px_data p; px_dirs := {[d]} ∪ px_dirs p;
     px_fds := px_fds p; px_nofile := px_nofile p |}.

(** The bytes of the file at a path, and behind a descriptor. *)
Definition content (p : posix) (path : string) : option bytes :=
  px_paths p !! path ≫= λ i, px_data p !! i.

Definition fd_content (p : posix) (fd : Z) : option bytes :=
  px_fds p !! fd ≫= λ o, px_data p !! ofd_ino o.

(** ** Calls *)

Fixpoint first_free_from {A} (fuel : nat) (m : gmap Z A) (n : Z) : Z :=
  match fuel with
  | O => n
  | S f => match m !! n with None => n | Some _ => first_free_from f m (n + 1) end
  end.

(** The lowest-numbered free descriptor; [size m] steps find one. *)
Definition first_free {A} (m : gmap Z A) : Z := first_free_from (size m) m 0.

Definition has_flag (flags f : Z) : bool := negb (Z.land flags f =? 0).

Definition os_open (path : string) (flags : Z) (p : posix) : posix * Z :=
  let fd := first_free (px_fds p) in
  if px_nofile p <=? fd then (p, -1)
  else
    let opened i p' :=
      (set_fds (<[fd := Ofd i (Z.land flags O_ACCMODE) 0]> (px_fds p')) p', fd) in
    match px_paths p !! path with
    | Some i =>
        opened i (if has_flag flags O_TRUNC then set_data (<[i := []]> (px_data p)) p else p)
    | None =>
        if has_flag flags O_CREAT && bool_decide (t2s (parent_path (s2t path)) ∈ px_dirs p)
        then let i := fresh (dom (px_data p)) in opened i (add_file path i [] p)
        else (p, -1)
    end.

Definition os_close (fd : Z) (p : posix) : posix * Z :=
  match px_fds p !! fd with
  | Some _ => (set_fds (delete fd (px_fds p)) p, 0)
  | None => (p, -1)
  end.

(** The number of bytes a read of [count] bytes at [off] transfers. *)
Definition n_read (d : bytes) (off count : Z) : Z :=
  Z.max 0 (Z.min (Z.min count MAX_RW_COUNT) (Z.of_nat (length d) - off)).

Definition slice (d : bytes) (off n : Z) : bytes :=
  if n =? 0 then [] else take (Z.to_nat n) (drop (Z.to_nat off) d).

Definition readable (o : ofd) : bool := negb (ofd_mode o =? O_WRONLY).

(** pread: the result and the bytes stored in the caller's buffer. *)
Definition os_pread (fd count off : Z) (p : posix) : Z * bytes :=
  match px_fds p !! fd with
  | Some o =>
      match px_data p !! ofd_ino o with
      | Some d =>
          if readable o && (0 <=? off)
          then (n_read d off count, slice d off (n_read d off count))
          else (-1, [])
      | None => (-1, [])
      end
  | None => (-1, [])
  end.

(** read: a pread at the descriptor's offset, which it advances. *)
Definition os_read (fd count : Z) (p : posix) : posix * (Z * bytes) :=
  match px_fds p !! fd with
  | Some o =>
      let '(n, b) := os_pread fd count (ofd_off o) p in
      if n =? -1 then (p, (-1, []))
      else (set_fds (<[fd := Ofd (ofd_ino o) (ofd_mode o) (ofd_off o + n)]> (px_fds p)) p,
            (n, b))
  | None => (p, (-1, []))
  end.

Definition os_lseek (fd offset whence : Z) (p : posix) : posix * Z :=
  match px_fds p !! fd with
  | Some o =>
      let size := match px_data p !! ofd_ino o with
                  | Some d => Z.of_nat (length d) | None => 0 end in
      let base := if whence =? SEEK_SET then Some 0
                  else if whence =? SEEK_CUR then Some (ofd_off o)
                  else if whence =? SEEK_END then Some size else None in
      match base with
      | Some b =>
          let pos := b + offset in
          if (0 <=? pos) && (pos <? 2 ^ 63)
          then (set_fds (<[fd := Ofd (ofd_ino o) (ofd_mode o) pos]> (px_fds p)) p, pos)
          else (p, -1)
      | None => (p, -1)
      end
  | None => (p, -1)
  end.

(** std::filesystem::copy with its default options; [None] is the
    filesystem_error it throws: no source, the target exists, its directory
    does not, or it names no file. *)
Definition fs_copy (from to : string) (p : posix) : option posix :=
  match content p from, px_paths p !! to with
  | Some d, None =>
      if bool_decide (t2s (parent_path (s2t to)) ∈ px_dirs p) &&
         negb (bool_decide (filename (s2t to) = []))
      then Some (add_file to (fresh (dom (px_data p))) d p)
      else None
  | _, _ => None
  end.

(** mkdtemp: the system picks six characters for the template's XXXXXX
    ([chosen]); [None] is its failure. It never returns a directory that
    exists. *)
Definition os_mkdtemp (chosen : option text) (template : text) (p : posix) :
    posix * option text :=
  match chosen with
  | Some six =>
      let d := take (length template - 6) template ++ six in
      if bool_decide (t2s d ∈ px_dirs p) then (p, None)
      else (add_dir (t2s d) p, Some d)
  | None => (p, None)
  end.

(** ** Well-formed states and how the calls change them *)

Record posix_ok (p : posix) : Prop := {
  ok_paths path i : px_paths p !! path = Some i → is_Some (px_data p !! i);
  ok_fds fd o : px_fds p !! fd = Some o →
    is_Some (px_data p !! ofd_ino o) ∧ 0 ≤ fd ∧ 0 ≤ ofd_off o
}.

(** Files are only ever added: no path is rebound, no content changes. *)
Definition files_extend (p p' : posix) : Prop :=
  px_paths p ⊆ px_paths p' ∧ px_data p ⊆ px_data p'.

(** An open that creates and truncates nothing. *)
Definition plain_flags (flags : Z) : bool :=
  negb (has_flag flags O_CREAT) && negb (has_flag flags O_TRUNC).

Global Instance files_extend_preorder : PreOrder files_extend.
Proof.
  split.
  - intros p. by split.
  - intros p q r [H1 H2] [H3 H4]. split; by etrans.
Qed.

Lemma content_extend p p' path d :
  files_extend p p' → content p path = Some d → content p' path = Some d.
Proof.
  intros [H1 H2] (i & Hi & Hd)%bind_Some. apply bind_Some. exists i.
  split; by eapply lookup_weaken.
Qed.

Lemma first_free_from_ge {A} fuel (m : gmap Z A) n : n ≤ first_free_from fuel m n.
Proof.
  revert n. induction fuel as [|f IH]; intros n; simpl; [lia|].
  destruct (m !! n); [|lia]. specialize (IH (n + 1)). lia.
Qed.

Lemma first_free_from_used {A} fuel (m : gmap Z A) n :
  is_Some (m !! first_free_from fuel m n) →
  ∀ i, n ≤ i ≤ n + Z.of_nat fuel → is_Some (m !! i).
Proof.
  revert n. induction fuel as [|f IH]; intros n H i Hi; simpl in H.
  - by replace i with n by lia.
  - destruct (m !! n) eqn:E; [|by rewrite E in H; inversion H].
    destruct (Z.eq_dec i n) as [->|]; [by rewrite E|]. apply (IH (n + 1)); [done|lia].
Qed.

Lemma first_free_fresh {A} (m : gmap Z A) : m !! first_free m = None.
Proof.
  apply eq_None_not_Some. intros H.
  pose proof (first_free_from_used _ _ _ H) as Hall.
  set (l := seqZ 0 (Z.of_nat (S (size m)))).
  assert (Hsub : (list_to_set l : gset Z) ⊆ dom m).
  { intros i Hi%elem_of_list_to_set. apply elem_of_seqZ in Hi.
    apply elem_of_dom, Hall. lia. }
  apply subseteq_size in Hsub. rewrite size_list_to_set in Hsub by apply NoDup_seqZ.
  unfold l in Hsub. rewrite length_seqZ, size_dom in Hsub. lia.
Qed.

Lemma first_free_nonneg {A} (m : gmap Z A) : 0 ≤ first_free m.
Proof. apply first_free_from_ge. Qed.

(** At most as many descriptors are skipped as are open. *)
Lemma first_free_from_le {A} fuel (m : gmap Z A) n : first_free_from fuel m n ≤ n + Z.of_nat fuel.
Proof.
  revert n. induction fuel as [|f IH]; intros n; simpl; [lia|].
  destruct (m !! n); [|lia]. specialize (IH (n + 1)). lia.
Qed.

Lemma first_free_le {A} (m : gmap Z A) : first_free m ≤ Z.of_nat (size m).
Proof. apply first_free_from_le. Qed.

(** The lowest free descriptor depends only on which ones are taken. *)
Lemma first_free_from_dom {A B} fuel (m : gmap Z A) (m' : gmap Z B) n :
  dom m = dom m' → first_free_from fuel m n = first_free_from fuel m' n.
Proof.
  intros Hd. revert n. induction fuel as [|fuel IH]; intros n; simpl; [done|].
  assert (m !! n = None ↔ m' !! n = None) as Hn by (rewrite <-!not_elem_of_dom; set_solver).
  destruct (m !! n), (m' !! n); naive_solver.
Qed.

Lemma first_free_dom {A B} (m : gmap Z A) (m' : gmap Z B) :
  dom m = dom m' → first_free m = first_free m'.
Proof.
  intros Hd. unfold first_free. rewrite <-!size_dom, Hd. by apply first_free_from_dom.
Qed.

Lemma content_set_fds f p path : content (set_fds f p) path = content p path.
Proof. done. Qed.

Lemma n_read_range d off count : 0 ≤ n_read d off count ≤ MAX_RW_COUNT.
Proof. unfold n_read, MAX_RW_COUNT. lia. Qed.

Lemma slice_length d off count :
  0 ≤ off → Z.of_nat (length (slice d off (n_read d off count))) = n_read d off count.
Proof.
  intros Ho. unfold slice. destruct (Z.eqb_spec (n_read d off count) 0) as [->|Hn]; [done|].
  rewrite length_take, length_drop. unfold n_read in *. lia.
Qed.

Lemma os_open_plain path flags p :
  plain_flags flags = true →
  os_open path flags p =
    let fd := first_free (px_fds p) in
    if px_nofile p <=? fd then (p, -1)
    else match px_paths p !! path with
         | Some i => (set_fds (<[fd := Ofd i (Z.land flags O_ACCMODE) 0]> (px_fds p)) p, fd)
         | None => (p, -1)
         end.
Proof.
  unfold plain_flags, os_open. intros H. bool_to_prop. simpl.
  destruct (_ <=? _); [done|]. destruct (px_paths p !! path).
  - by replace (has_flag flags O_TRUNC) with false.
  - by replace (has_flag flags O_CREAT) with false.
Qed.

(** Whether an open succeeded is whether its result is a descriptor. *)
Lemma os_open_result path flags p p' fd :
  os_open path flags p = (p', fd) → fd = -1 ∨ 0 ≤ fd ∧ px_fds p !! fd = None.
Proof.
  unfold os_open. intros H.
  repeat case_match; simplify_eq; auto;
    right; split; auto using first_free_nonneg, first_free_fresh.
Qed.

(** Such an open leaves the files and the open descriptors alone. *)
Lemma os_open_keeps path flags p p' fd :
  plain_flags flags = true → os_open path flags p = (p', fd) →
  px_paths p' = px_paths p ∧ px_data p' = px_data p ∧
  (∀ g o, px_fds p !! g = Some o → px_fds p' !! g = Some o).
Proof.
  intros Hf. rewrite os_open_plain by done. cbv zeta. pose proof (first_free_fresh (px_fds p)) as Hfr.
  repeat case_match; intros [= <- <-]; split_and!; try done.
  intros g o Hg. simpl. rewrite lookup_insert_ne; [done|congruence].
Qed.

(** What any open, close or read does to the descriptor table. *)
Lemma os_open_fds path flags p p' fd :
  os_open path flags p = (p', fd) →
  px_nofile p' = px_nofile p ∧
  (fd = -1 ∧ px_fds p' = px_fds p ∨
   0 ≤ fd < px_nofile p ∧ px_fds p !! fd = None ∧ ∃ o, px_fds p' = <[fd := o]> (px_fds p)).
Proof.
  unfold os_open. pose proof (first_free_nonneg (px_fds p)) as Hn.
  pose proof (first_free_fresh (px_fds p)) as Hf.
  destruct (Z.leb_spec (px_nofile p) (first_free (px_fds p))); intros E; [simplify_eq; auto|].
  repeat case_match; simplify_eq/=; (split; [done|]); eauto 6.
Qed.

Lemma os_close_fds fd p p' r :
  os_close fd p = (p', r) → px_nofile p' = px_nofile p ∧ px_fds p' = delete fd (px_fds p).
Proof.
  unfold os_close. destruct (px_fds p !! fd) eqn:E; intros [= <- <-]; [done|].
  by rewrite delete_id.
Qed.

Lemma os_read_fds fd count p p' a :
  os_read fd count p = (p', a) →
  px_nofile p' = px_nofile p ∧ dom (px_fds p') = dom (px_fds p).
Proof.
  unfold os_read. intros E. repeat case_match; simplify_eq/=; split; try done.
  rewrite dom_insert_lookup_L; [done|]. by eexists.
Qed.

Lemma os_read_keeps fd count p :
  px_paths (fst (os_read fd count p)) = px_paths p ∧ px_data (fst (os_read fd count p)) = px_data p ∧
  ∀ g, g ≠ fd → px_fds (fst (os_read fd count p)) !! g = px_fds p !! g.
Proof.
  unfold os_read. destruct (px_fds p !! fd); [|done]. destruct (os_pread _ _ _ _).
  destruct (_ =? -1); [done|]. split_and!; [done|done|]. intros g Hg. simpl.
  by rewrite lookup_insert_ne.
Qed.

Lemma os_open_spec path flags p p' fd :
  plain_flags flags = true → posix_ok p → os_open path flags p = (p', fd) →
  files_extend p p' ∧ px_dirs p' = px_dirs p ∧ px_nofile p' = px_nofile p ∧
  posix_ok p' ∧
  (fd = -1 ∧ p' = p ∨
   ∃ i, 0 ≤ fd < px_nofile p ∧ px_fds p !! fd = None ∧ px_paths p !! path = Some i ∧
     px_fds p' = <[fd := Ofd i (Z.land flags O_ACCMODE) 0]> (px_fds p) ∧
     fd_content p' fd = content p path).
Proof.
  intros Hf [Hp Ho]. rewrite os_open_plain by done. cbv zeta.
  pose proof (first_free_nonneg (px_fds p)) as Hn.
  pose proof (first_free_fresh (px_fds p)) as Hfr.
  destruct (Z.leb_spec (px_nofile p) (first_free (px_fds p))) as [|Hlt];
    [intros [= <- <-]; split_and!; auto; done|].
  destruct (px_paths p !! path) as [i|] eqn:Hi;
    [|intros [= <- <-]; split_and!; auto; done].
  intros [= <- <-]. split_and!; [by split|done|done| |].
  - split; [done|]. simpl. intros fd o Hl.
    destruct (Z.eq_dec fd (first_free (px_fds p))) as [->|]; simplify_map_eq; eauto with lia.
  - right. exists i. split_and!; auto. unfold fd_content, content. simpl.
    rewrite lookup_insert_eq. by rewrite Hi.
Qed.

Lemma os_close_spec fd p p' r :
  posix_ok p → os_close fd p = (p', r) →
  files_extend p p' ∧ px_dirs p' = px_dirs p ∧ px_nofile p' = px_nofile p ∧
  posix_ok p' ∧ px_fds p' = delete fd (px_fds p) ∧
  r = (if bool_decide (is_Some (px_fds p !! fd)) then 0 else -1).
Proof.
  intros [Hp Ho]. unfold os_close. destruct (px_fds p !! fd) as [o|] eqn:E; intros [= <- <-].
  - split_and!; try done.
    split; [done|]. simpl. intros fd' o' [? ?]%lookup_delete_Some. eauto.
  - split_and!; try done. by rewrite delete_id.
Qed.

Lemma os_close_files fd p :
  px_paths (fst (os_close fd p)) = px_paths p ∧ px_data (fst (os_close fd p)) = px_data p.
Proof. unfold os_close. by destruct (px_fds p !! fd). Qed.

Lemma os_read_spec fd count p p' n b :
  posix_ok p → os_read fd count p = (p', (n, b)) →
  files_extend p p' ∧ px_dirs p' = px_dirs p ∧ px_nofile p' = px_nofile p ∧
  px_paths p' = px_paths p ∧ px_data p' = px_data p ∧ posix_ok p' ∧
  (n = -1 ∧ b = [] ∧ p' = p ∨
   ∃ o d, px_fds p !! fd = Some o ∧ px_data p !! ofd_ino o = Some d ∧ readable o = true ∧
     n = n_read d (ofd_off o) count ∧ b = slice d (ofd_off o) n ∧
     px_fds p' = <[fd := Ofd (ofd_ino o) (ofd_mode o) (ofd_off o + n)]> (px_fds p)).
Proof.
  intros [Hp Ho]. unfold os_read, os_pread.
  destruct (px_fds p !! fd) as [o|] eqn:E; [|intros [= <- <- <-]; split_and!; auto; done].
  destruct (Ho _ _ E) as ([d Hd] & Hfd & Hoff). rewrite Hd.
  destruct (Z.leb_spec 0 (ofd_off o)); [|lia]. rewrite andb_true_r.
  pose proof (n_read_range d (ofd_off o) count) as Hr.
  destruct (readable o) eqn:Er; [|intros [= <- <- <-]; split_and!; auto; done].
  destruct (Z.eqb_spec (n_read d (ofd_off o) count) (-1)); [lia|].
  intros [= <- <- <-]. split_and!; try done.
  - split; [done|]. simpl. intros fd' o' Hl.
    destruct (Z.eq_dec fd' fd) as [->|]; simplify_map_eq; eauto with lia.
  - right. eauto 10.
Qed.

Lemma os_pread_spec fd count off p n b :
  posix_ok p → os_pread fd count off p = (n, b) →
  n = -1 ∧ b = [] ∨
  ∃ o d, px_fds p !! fd = Some o ∧ px_data p !! ofd_ino o = Some d ∧ readable o = true ∧
    0 ≤ off ∧ n = n_read d off count ∧ b = slice d off n.
Proof.
  intros [Hp Ho]. unfold os_pread.
  destruct (px_fds p !! fd) as [o|] eqn:E; [|intros [= <- <-]; auto].
  destruct (Ho _ _ E) as ([d Hd] & _). rewrite Hd.
  destruct (readable o) eqn:Er; simpl; [|intros [= <- <-]; auto].
  destruct (Z.leb_spec 0 off); intros [= <- <-]; [right; eauto 10|auto].
Qed.

Lemma os_lseek_spec fd off wh p p' r :
  posix_ok p → os_lseek fd off wh p = (p', r) →
  files_extend p p' ∧ px_nofile p' = px_nofile p ∧ posix_ok p' ∧
  (∀ f o, px_fds p' !! f = Some o → ∃ o', px_fds p !! f = Some o' ∧ ofd_ino o' = ofd_ino o).
Proof.
  intros Ho. unfold os_lseek. destruct (px_fds p !! fd) as [o|] eqn:Eo;
    [|intros [= <- _]; split_and!; eauto; done].
  destruct (ok_fds _ Ho _ _ Eo) as (Hd & Hp & _). intros E.
  repeat case_match; simplify_eq; bool_to_prop; split_and!; eauto; try done.
  all: try (intros f o'; simpl; rewrite lookup_insert_Some; intros [[<- <-]|[_ ?]]; by eauto).
  all: destruct Ho as [Hop Hof]; split; simpl; [done|];
    intros f o'; rewrite lookup_insert_Some; intros [[<- <-]|[_ ?]]; eauto.
Qed.

Lemma os_lseek_files fd off wh p p' r :
  os_lseek fd off wh p = (p', r) →
  px_paths p' = px_paths p ∧ px_data p' = px_data p ∧ px_dirs p' = px_dirs p ∧
  ∀ g, px_fds p' !! g = px_fds p !! g ∨
    g = fd ∧ ∃ o o', px_fds p !! fd = Some o ∧ px_fds p' !! fd = Some o' ∧
      ofd_ino o = ofd_ino o' ∧ ofd_mode o = ofd_mode o'.
Proof.
  unfold os_lseek. destruct (px_fds p !! fd) as [o|] eqn:Ho; [|intros [= <- _]; auto].
  intros E. repeat case_match; simplify_eq; split_and!; auto; simpl; intros g;
    (destruct (decide (g = fd)) as [->|]; [right|left; by rewrite lookup_insert_ne]);
    (split; [done|]); rewrite lookup_insert_eq; eauto 10.
Qed.

Lemma fs_copy_spec from to p p' :
  posix_ok p → fs_copy from to p = Some p' →
  ∃ d, content p from = Some d ∧ content p' to = Some d ∧
    px_paths p !! to = None ∧ files_extend p p' ∧ posix_ok p' ∧
    px_fds p' = px_fds p ∧ px_dirs p' = px_dirs p ∧ px_nofile p' = px_nofile p.
Proof.
  intros [Hp Ho]. unfold fs_copy. intros H.
  destruct (content p from) as [d|] eqn:Hd; [|done].
  destruct (px_paths p !! to) eqn:Ht; [done|].
  destruct (_ && _); [|done]. simplify_eq.
  pose proof (is_fresh (dom (px_data p))) as Hfr%not_elem_of_dom.
  set (i := fresh (dom (px_data p))) in *.
  exists d. split_and!; try done.
  - unfold content. simpl. rewrite lookup_insert_eq. simpl. by rewrite lookup_insert_eq.
  - split; simpl; by apply insert_subseteq.
  - split; simpl.
    + intros path j. rewrite lookup_insert_Some. intros [[_ <-]|[_ Hj]].
      * by rewrite lookup_insert_eq.
      * destruct (Hp _ _ Hj) as [x Hx]. rewrite lookup_insert_ne; [by rewrite Hx|congruence].
    + intros fd o Hfd. destruct (Ho _ _ Hfd) as ([x Hx] & ? & ?). split_and!; auto.
      rewrite lookup_insert_ne; [by rewrite Hx|congruence].
Qed.

Lemma os_mkdtemp_spec chosen tpl p p' r :
  posix_ok p → os_mkdtemp chosen tpl p = (p', r) →
  files_extend p p' ∧ posix_ok p' ∧ px_fds p' = px_fds p ∧
  px_nofile p' = px_nofile p ∧ px_paths p' = px_paths p.
Proof.
  intros [Hp Ho]. unfold os_mkdtemp. intros H.
  repeat case_match; simplify_eq; by split_and!.
Qed.
