(* ===== verification/Wire.v ===== *)
(** * RPC messages

    The structures of [src/src/mthvac_comm.h] that travel between client and
    server, with the C conversion of every value assigned to a field, and the
    part of Mercury's bulk interface both sides rely on. *)

From S2P Require Import Prelude CText.

Local Open Scope Z_scope.

(** ** Mercury

    Mercury is a library outside the repository: its bulk descriptors and the
    return codes of its calls are parameters. *)

Class Mercury : Type := {
  hg_bulk_t : Type;
  (* HG_Bulk_create for one region: return code and descriptor *)
  hg_bulk_create : Z → Z * hg_bulk_t;
  (* HG_Bulk_transfer(origin, local, size): return code *)
  hg_bulk_transfer : hg_bulk_t → hg_bulk_t → Z → Z
}.

Definition HG_SUCCESS : Z := 0.

(** What the program relies on: registering a region succeeds, and a transfer
    succeeds exactly when it fits both regions. *)
Class MercuryOk (H : Mercury) : Prop := {
  bulk_create_ok n : fst (hg_bulk_create n) = HG_SUCCESS;
  bulk_fits a b n : 0 ≤ n → n ≤ a → n ≤ b →
    hg_bulk_transfer (snd (hg_bulk_create a)) (snd (hg_bulk_create b)) n = HG_SUCCESS;
  bulk_exceeds a b n : a < n ∨ b < n →
    hg_bulk_transfer (snd (hg_bulk_create a)) (snd (hg_bulk_create b)) n ≠ HG_SUCCESS
}.

(** ** Message structures *)

Record hvac_open_in_t : Type := { open_path : string }.
Record hvac_open_out_t : Type := { ret_status : Z }.

Record hvac_rpc_in_t {H : Mercury} : Type := {
  input_val : Z;          (* int32_t *)
  bulk_handle : hg_bulk_t;
  accessfd : Z;           (* int32_t *)
  rd_offset : Z           (* int64_t *)
}.
Arguments hvac_rpc_in_t : clear implicits.
Record hvac_rpc_out_t : Type := { rpc_ret : Z }.

Record hvac_seek_in_t : Type := { seek_fd : Z; seek_offset : Z; seek_whence : Z }.
Record hvac_seek_out_t : Type := { seek_ret : Z }.

Record hvac_close_in_t : Type := { close_fd : Z }.

Record hvac_rpc_trigger_srv_print_stats_in_t : Type := { dummy_arg : Z }.
Record hvac_rpc_trigger_srv_print_stats_out_t : Type := { status : Z }.

(** The assignments that fill a message convert to the field's width. *)
Definition mk_open_out (r : Z) : hvac_open_out_t := {| ret_status := to_int32 r |}.

Definition mk_rpc_in `{H : Mercury} (count : Z) (b : hg_bulk_t) (fd offset : Z) :
    hvac_rpc_in_t H :=
  {| input_val := to_int32 count; bulk_handle := b; accessfd := to_int32 fd;
     rd_offset := to_int64 offset |}.

Definition mk_rpc_out (size : Z) : hvac_rpc_out_t := {| rpc_ret := to_int32 size |}.

Definition mk_seek_in (fd offset whence : Z) : hvac_seek_in_t :=
  {| seek_fd := to_int32 fd; seek_offset := to_int32 offset;
     seek_whence := to_int32 whence |}.

Definition mk_seek_out (r : Z) : hvac_seek_out_t := {| seek_ret := to_int32 r |}.

Definition mk_close_in (fd : Z) : hvac_close_in_t := {| close_fd := to_int32 fd |}.

(** A Mercury whose descriptors are the region sizes. *)
Definition sized_mercury : Mercury := {|
  hg_bulk_t := Z;
  hg_bulk_create n := (HG_SUCCESS, n);
  hg_bulk_transfer a b n := if (n <=? a) && (n <=? b) then HG_SUCCESS else 1
|}.

Lemma sized_mercury_ok : MercuryOk sized_mercury.
Proof.
  split; simpl.
  - done.
  - intros a b n _ Ha Hb. by rewrite (proj2 (Z.leb_le _ _) Ha), (proj2 (Z.leb_le _ _) Hb).
  - intros a b n [Hn|Hn]; apply Z.leb_gt in Hn as ->; [done|by rewrite andb_false_r].
Qed.
