(* ===== verification/Server.v ===== *)
(** * The server: state and RPC handlers

    [src/src/mthvac_comm.cpp] (the handlers) over the globals of
    [src/src/mthvac_data_mover.cpp]. A handler runs in Mercury's progress
    thread, one at a time; [Mover.v] interleaves it with the data mover's
    thread. *)

From S2P Require Import Prelude CText Posix Wire.

Local Open Scope Z_scope.

(** ** State *)

(** Where the data mover's thread is: about to lock and wait, inside
    pthread_cond_wait, woken from it, or copying its local list. *)
Inductive mover_pc : Type := MvTop | MvWaiting | MvWoken | MvCopying.

Record server : Type := Server {
  sv_os : posix;
  fd_to_path : gmap Z string;
  path_cache_map : gmap string string;
  data_queue : list string;
  mv_pc : mover_pc;
  local_list : list string
}.

Definition set_os (p : posix) (s : server) : server :=
  {| sv_os := p; fd_to_path := fd_to_path s; path_cache_map := path_cache_map s;
     data_queue := data_queue s; mv_pc := mv_pc s; local_list := local_list s |}.

Definition set_fd_to_path (m : gmap Z string) (s : server) : server :=
  {| sv_os := sv_os s; fd_to_path := m; path_cache_map := path_cache_map s;
     data_queue := data_queue s; mv_pc := mv_pc s; local_list := local_list s |}.

Definition set_cache (m : gmap string string) (s : server) : server :=
  {| sv_os := sv_os s; fd_to_path := fd_to_path s; path_cache_map := m;
     data_queue := data_queue s; mv_pc := mv_pc s; local_list := local_list s |}.

Definition set_queue (q : list string) (s : server) : server :=
  {| sv_os := sv_os s; fd_to_path := fd_to_path s; path_cache_map := path_cache_map s;
     data_queue := q; mv_pc := mv_pc s; local_list := local_list s |}.

Definition set_mover (pc : mover_pc) (l : list string) (s : server) : server :=
  {| sv_os := sv_os s; fd_to_path := fd_to_path s; path_cache_map := path_cache_map s;
     data_queue := data_queue s; mv_pc := pc; local_list := l |}.

(** A system call made by the server process. *)
Definition sys {A} (f : posix → posix * A) : St server A :=
  zoom sv_os set_os (run f).

(** [fd_to_path\[fd\]] used as a value: std::map inserts an empty string when
    the key is absent. *)
Definition index_fd_to_path (fd : Z) : St server string :=
  run (λ s, match fd_to_path s !! fd with
            | Some p => (s, p)
            | None => (set_fd_to_path (<[fd := ""]> (fd_to_path s)) s, "")
            end).

(** pthread_cond_signal(&data_cond): wakes the data mover if it waits, and is
    lost if it does not. *)
Definition cond_signal (s : server) : server :=
  match mv_pc s with
  | MvWaiting => set_mover MvWoken (local_list s) s
  | _ => s
  end.

(** ** Handlers *)

Section handlers.
Context {H : Mercury}.
(** calloc(1, n) returns memory *)
Context (calloc_ok : Z → bool).

(** The bulk-transfer callback: answers with the number of bytes pushed. *)
Definition hvac_rpc_handler_bulk_cb (info_ret respond_ret : Z) (size : Z) :
    St server hvac_rpc_out_t :=
  assert_true (info_ret =? HG_SUCCESS) ;;
  assert_true (respond_ret =? HG_SUCCESS) ;;
  mret (mk_rpc_out size).

(** The read handler, up to and including its callback: the response and the
    bytes pushed into the client's buffer. *)
Definition hvac_rpc_handler (info_ret respond_ret : Z) (inp : hvac_rpc_in_t H) :
    St server (hvac_rpc_out_t * bytes) :=
  let size := to_uint64 (input_val inp) in
  assert_true (calloc_ok size) ;;
  let '(rc, local_handle) := hg_bulk_create size in
  assert_true (rc =? HG_SUCCESS) ;;
  r ← (if rd_offset inp =? -1
       then sys (os_read (accessfd inp) size)
       else sys (λ p, (p, os_pread (accessfd inp) size (rd_offset inp) p)));
  index_fd_to_path (accessfd inp) ;;
  let size' := to_uint64 (fst r) in
  assert_true (hg_bulk_transfer (bulk_handle inp) local_handle size' =? HG_SUCCESS) ;;
  out ← hvac_rpc_handler_bulk_cb info_ret respond_ret size';
  mret (out, snd r).

Definition hvac_open_rpc_handler (get_input_ret : Z) (inp : hvac_open_in_t) :
    St server hvac_open_out_t :=
  assert_true (get_input_ret =? 0) ;;
  cache ← gets path_cache_map;
  let redir_path := default (open_path inp) (cache !! open_path inp) in
  fd ← sys (os_open redir_path O_RDONLY);
  let out := mk_open_out fd in
  modify (λ s, set_fd_to_path (<[ret_status out := open_path inp]> (fd_to_path s)) s) ;;
  mret out.

Definition hvac_close_rpc_handler (get_input_ret : Z) (inp : hvac_close_in_t) :
    St server unit :=
  assert_true (get_input_ret =? HG_SUCCESS) ;;
  ret ← sys (os_close (close_fd inp));
  assert_true (ret =? 0) ;;
  path ← index_fd_to_path (close_fd inp);
  cache ← gets path_cache_map;
  match cache !! path with
  | Some _ => mret tt
  | None => modify (λ s, cond_signal (set_queue (data_queue s ++ [path]) s))
  end ;;
  modify (λ s, set_fd_to_path (delete (close_fd inp) (fd_to_path s)) s).

Definition hvac_seek_rpc_handler (get_input_ret : Z) (inp : hvac_seek_in_t) :
    St server hvac_seek_out_t :=
  assert_true (get_input_ret =? 0) ;;
  r ← sys (os_lseek (seek_fd inp) (seek_offset inp) (seek_whence inp));
  mret (mk_seek_out r).

(** The print-stats handler: return code, and response status. *)
Definition hvac_trigger_srv_print_stats_handler (get_input_ret respond_ret : Z) :
    Z * hvac_rpc_trigger_srv_print_stats_out_t :=
  if get_input_ret =? HG_SUCCESS
  then (respond_ret, {| status := 0 |})
  else (respond_ret, {| status := -1 |}).

End handlers.

(** ** The server's invariant *)

(** The redirection table only sends a path to a file with the same bytes. *)
Definition cache_coherent (s : server) : Prop :=
  ∀ p q, path_cache_map s !! p = Some q →
    ∃ d, content (sv_os s) p = Some d ∧ content (sv_os s) q = Some d.

(** An open descriptor handed out for a path reads that path's bytes. *)
Definition fds_faithful (s : server) : Prop :=
  ∀ f p o, fd_to_path s !! f = Some p → p ≠ "" → px_fds (sv_os s) !! f = Some o →
    ∃ d, content (sv_os s) p = Some d ∧ px_data (sv_os s) !! ofd_ino o = Some d.

Record server_inv (s : server) : Prop := {
  si_os : posix_ok (sv_os s);
  si_cache : cache_coherent s;
  si_fds : fds_faithful s;
  si_nofile : px_nofile (sv_os s) ≤ 2 ^ 31    (* descriptors fit an int *)
}.

(** ** Lemmas *)

Lemma cache_coherent_extend s s' :
  files_extend (sv_os s) (sv_os s') → path_cache_map s' = path_cache_map s →
  cache_coherent s → cache_coherent s'.
Proof.
  intros He Hc Hs p q. rewrite Hc. intros (d & ? & ?)%Hs. exists d.
  split; by eapply content_extend.
Qed.

(** A fresh server descriptor table entry is enough to keep [fds_faithful]
    when every old descriptor keeps its inode. *)
Lemma fds_faithful_extend s s' :
  files_extend (sv_os s) (sv_os s') →
  (∀ f p o, fd_to_path s' !! f = Some p → p ≠ "" → px_fds (sv_os s') !! f = Some o →
     ∃ o', fd_to_path s !! f = Some p ∧ px_fds (sv_os s) !! f = Some o' ∧
           ofd_ino o' = ofd_ino o) →
  fds_faithful s → fds_faithful s'.
Proof.
  intros He Hf Hs f p o H1 H2 H3.
  destruct (Hf _ _ _ H1 H2 H3) as (o' & H4 & H5 & <-).
  destruct (Hs _ _ _ H4 H2 H5) as (d & ? & ?). exists d.
  split; [by eapply content_extend|]. destruct He as [_ He]. by eapply lookup_weaken.
Qed.

(** Reading the table for a log line leaves the invariant alone. *)
Lemma index_fd_to_path_inv fd s s' p :
  index_fd_to_path fd s = Ret (s', p) → server_inv s →
  server_inv s' ∧ sv_os s' = sv_os s ∧ path_cache_map s' = path_cache_map s ∧
  data_queue s' = data_queue s ∧ mv_pc s' = mv_pc s ∧ local_list s' = local_list s.
Proof.
  unfold index_fd_to_path, run. intros Heq [Ho Hc Hf Hn].
  destruct (fd_to_path s !! fd) eqn:E; simplify_eq/=; [done|].
  split_and!; try done. split; [done| | |done].
  - by apply (cache_coherent_extend s).
  - apply (fds_faithful_extend s); [done| |done].
    intros f q o. simpl. rewrite lookup_insert_Some.
    intros [[_ <-]|[_ Hq]] Hne Hfd; [done|]. eauto.
Qed.
