(* ===== verification/ServerSpec.v ===== *)
(** * The server's handlers: what each one does, and the invariant they keep

    Functional behaviour of the handlers of [Server.v] on every branch, and
    preservation of [server_inv]. *)

From S2P Require Import Prelude CText Posix Wire Server.

Local Open Scope Z_scope.

(** ** Running a handler *)

Lemma open_handler_run inp s :
  hvac_open_rpc_handler 0 inp s =
    let '(p', fd) := os_open (default (open_path inp) (path_cache_map s !! open_path inp))
                             O_RDONLY (sv_os s) in
    Ret (set_fd_to_path (<[to_int32 fd := open_path inp]> (fd_to_path s)) (set_os p' s),
         mk_open_out fd).
Proof.
  unfold hvac_open_rpc_handler, sys. unfold_st. by destruct (os_open _ _ _).
Qed.

Lemma close_handler_run inp s :
  is_Some (px_fds (sv_os s) !! close_fd inp) →
  ∃ s', hvac_close_rpc_handler 0 inp s = Ret (s', tt) ∧
    let path := default "" (fd_to_path s !! close_fd inp) in
    sv_os s' = fst (os_close (close_fd inp) (sv_os s)) ∧
    fd_to_path s' = delete (close_fd inp) (fd_to_path s) ∧
    path_cache_map s' = path_cache_map s ∧
    local_list s' = local_list s ∧
    data_queue s' = data_queue s ++
      (if path_cache_map s !! path is Some _ then [] else [path]) ∧
    mv_pc s' = match mv_pc s with
               | MvWaiting => if path_cache_map s !! path is Some _ then MvWaiting else MvWoken
               | pc => pc
               end.
Proof.
  intros [o Ho]. unfold hvac_close_rpc_handler, sys, index_fd_to_path. unfold_st.
  unfold os_close. rewrite Ho. simpl.
  destruct (fd_to_path s !! close_fd inp) as [p|] eqn:Ep; simpl.
  all: destruct (path_cache_map s !! _) eqn:Ec; simpl;
    eexists; (split; [done|]); split_and!; simpl; try done;
    unfold cond_signal; simpl; try (destruct (mv_pc s) eqn:Epc; simpl; done);
    try (by rewrite app_nil_r).
  all: destruct (mv_pc s) eqn:Epc; simpl; rewrite ?delete_insert_eq; done.
Qed.

(** An open of a file that exists: the descriptor handed out, if the table
    has room, is new and reads that file's bytes from the start, whether or
    not the open was redirected. *)
Lemma open_handler_serves inp s d :
  server_inv s → content (sv_os s) (open_path inp) = Some d →
  ∃ s' out, hvac_open_rpc_handler 0 inp s = Ret (s', out) ∧
    let fd := first_free (px_fds (sv_os s)) in
    if px_nofile (sv_os s) <=? fd then ret_status out = -1 ∧ sv_os s' = sv_os s
    else ret_status out = fd ∧ 0 ≤ fd < 2 ^ 31 ∧ fd_to_path s' !! fd = Some (open_path inp) ∧
      ∃ i, px_data (sv_os s) !! i = Some d ∧
        sv_os s' = set_fds (<[fd := Ofd i O_RDONLY 0]> (px_fds (sv_os s))) (sv_os s).
Proof.
  intros [Ho Hc Hf Hn] Hd. rewrite open_handler_run.
  set (redir := default _ _).
  assert (Hrd : content (sv_os s) redir = Some d).
  { unfold redir. destruct (path_cache_map s !! open_path inp) as [q|] eqn:Hq; simpl; [|done].
    destruct (Hc _ _ Hq) as (d' & ? & ?). congruence. }
  unfold os_open. pose proof (first_free_nonneg (px_fds (sv_os s))).
  destruct (Z.leb_spec (px_nofile (sv_os s)) (first_free (px_fds (sv_os s)))); [by eexists _, _|].
  unfold content in Hrd. destruct (px_paths (sv_os s) !! redir) as [i|]; [|done].
  simpl in Hrd. do 2 eexists. split; [done|]. simpl. rewrite to_int32_id by lia.
  split_and!; [done|lia|lia|by rewrite lookup_insert_eq|]. by exists i.
Qed.

(** A close for a descriptor the server does not have open ends it. *)
Lemma close_handler_bad inp s :
  px_fds (sv_os s) !! close_fd inp = None →
  hvac_close_rpc_handler 0 inp s = Fault AssertFailed.
Proof.
  intros Ho. unfold hvac_close_rpc_handler, sys. unfold_st. unfold os_close.
  by rewrite Ho.
Qed.

(** ** Preservation of the invariant *)

Lemma open_handler_inv rc inp s s' out :
  hvac_open_rpc_handler rc inp s = Ret (s', out) → server_inv s → server_inv s'.
Proof.
  intros Hr Hi. destruct (Z.eqb_spec rc 0) as [->|Hne];
    [|apply Z.eqb_neq in Hne; unfold hvac_open_rpc_handler in Hr; by rewrite Hne in Hr].
  rewrite open_handler_run in Hr. destruct Hi as [Ho Hc Hf Hn].
  destruct (os_open _ _ _) as [p' fd] eqn:E. simplify_eq.
  destruct (os_open_spec _ O_RDONLY _ _ _ eq_refl Ho E) as (He & _ & Hnf & Hok & Hcase).
  split; simpl; [done| | |congruence].
  - by apply (cache_coherent_extend s).
  - intros f p o. simpl. rewrite lookup_insert_Some.
    destruct Hcase as [[-> ->]|(i & Hfd & Hfree & Hi & Hfds & Hcont)].
    + change (to_int32 (-1)) with (-1). intros [[<- <-]|[_ Hp]] Hp0 Hfo; [|by eapply Hf].
      destruct (ok_fds _ Ho _ _ Hfo) as (_ & ? & _). lia.
    + rewrite to_int32_id by lia. rewrite Hfds, lookup_insert_Some.
      intros [[<- <-]|[Hne Hp]] Hp0 [[Heq <-]|[Hne' Hfo]]; try congruence.
      * simpl. unfold content in *. rewrite Hi in Hcont. simpl in Hcont.
        destruct (ok_paths _ Ho _ _ Hi) as [d Hd].
        pose proof (proj2 He) as Hed.
        assert (Hpc : content (sv_os s) (open_path inp) = Some d).
        { destruct (path_cache_map s !! open_path inp) as [q|] eqn:Hq; simpl in Hi.
          - destruct (Hc _ _ Hq) as (d' & Hd1 & Hd2). unfold content in *.
            rewrite Hi in Hd2. simpl in Hd2. congruence.
          - unfold content. by rewrite Hi. }
        exists d. split; [exact (content_extend _ _ _ _ He Hpc)|by eapply lookup_weaken].
      * destruct (Hf _ _ _ Hp Hp0 Hfo) as (d & Hd1 & Hd2). exists d.
        split; [by eapply content_extend|]. destruct He. by eapply lookup_weaken.
Qed.

Lemma close_handler_inv rc inp s s' :
  hvac_close_rpc_handler rc inp s = Ret (s', tt) → server_inv s → server_inv s'.
Proof.
  intros Hr [Ho Hc Hf Hn]. destruct (Z.eqb_spec rc HG_SUCCESS) as [->|Hne];
    [|apply Z.eqb_neq in Hne; unfold hvac_close_rpc_handler in Hr; by rewrite Hne in Hr].
  destruct (px_fds (sv_os s) !! close_fd inp) as [o|] eqn:E;
    [|by rewrite close_handler_bad in Hr].
  destruct (close_handler_run inp s) as (s1 & Hs1 & Hos & Hfd & Hca & _);
    [by eauto|]. change HG_SUCCESS with 0 in Hr. assert (s1 = s') as -> by congruence.
  destruct (os_close (close_fd inp) (sv_os s)) as [p' r] eqn:Ec.
  destruct (os_close_spec _ _ _ _ Ho Ec) as (He & _ & Hnf & Hok & Hfds & _).
  simpl in Hos. subst p'. split; [done| | |congruence].
  - by apply (cache_coherent_extend s).
  - apply (fds_faithful_extend s); [done| |done].
    intros f p o'. rewrite Hfd, Hfds. intros [? ?]%lookup_delete_Some _ [_ ?]%lookup_delete_Some.
    eauto.
Qed.

Lemma seek_handler_inv rc inp s s' out :
  hvac_seek_rpc_handler rc inp s = Ret (s', out) → server_inv s → server_inv s'.
Proof.
  unfold hvac_seek_rpc_handler, sys. unfold_st. intros Hr [Ho Hc Hf Hn].
  destruct (rc =? 0); [|done]. simpl in Hr.
  destruct (os_lseek _ _ _ _) as [p' r] eqn:E. simplify_eq/=.
  destruct (os_lseek_spec _ _ _ _ _ _ Ho E) as (He & Hnf & Hok & Hfd).
  split; simpl; [done| | |congruence].
  - by apply (cache_coherent_extend s).
  - apply (fds_faithful_extend s); [done| |done]. simpl.
    intros f q o Hq _ (o' & ? & ?)%Hfd. eauto.
Qed.

(** ** The read handler *)

Section spec.
Context {H : Mercury} {HOk : MercuryOk H}.
Context (calloc_ok : Z → bool).

Lemma read_handler_calloc_fail ir rr inp s :
  calloc_ok (to_uint64 (input_val inp)) = false →
  hvac_rpc_handler calloc_ok ir rr inp s = Fault AssertFailed.
Proof. intros Hc. unfold hvac_rpc_handler. rewrite Hc. by unfold_st. Qed.

(** The raw outcome of the read the handler performs. *)
Definition server_read (inp : hvac_rpc_in_t H) (p : posix) : posix * (Z * bytes) :=
  let size := to_uint64 (input_val inp) in
  if rd_offset inp =? -1 then os_read (accessfd inp) size p
  else (p, os_pread (accessfd inp) size (rd_offset inp) p).

Lemma server_read_run inp s p' r :
  server_read inp (sv_os s) = (p', r) →
  (if rd_offset inp =? -1
   then sys (os_read (accessfd inp) (to_uint64 (input_val inp)))
   else sys (λ p, (p, os_pread (accessfd inp) (to_uint64 (input_val inp)) (rd_offset inp) p))) s
  = Ret (set_os p' s, r).
Proof.
  unfold server_read. destruct (rd_offset inp =? -1); unfold sys; unfold_st; intros E.
  - by rewrite E.
  - by injection E as <- <-.
Qed.

Lemma read_handler_run inp b s p' n d :
  bulk_handle inp = snd (hg_bulk_create b) →
  calloc_ok (to_uint64 (input_val inp)) = true →
  server_read inp (sv_os s) = (p', (n, d)) →
  0 ≤ n ≤ b → n ≤ to_uint64 (input_val inp) → n < 2 ^ 64 →
  ∃ s1, index_fd_to_path (accessfd inp) (set_os p' s) =
          Ret (s1, default "" (fd_to_path s !! accessfd inp)) ∧
    hvac_rpc_handler calloc_ok 0 0 inp s = Ret (s1, (mk_rpc_out n, d)).
Proof.
  intros Hb Hc Hr Hn Hs H64. unfold hvac_rpc_handler.
  pose proof (bulk_create_ok (to_uint64 (input_val inp))) as Hbc.
  destruct (hg_bulk_create (to_uint64 (input_val inp))) as [rc lh] eqn:El.
  simpl in Hbc. subst rc. rewrite Hc.
  set (r := if rd_offset inp =? -1 then _ else _).
  assert (Hrs : r s = Ret (set_os p' s, (n, d))) by (by apply server_read_run).
  unfold_st. rewrite Hrs. simpl. unfold index_fd_to_path, run. simpl.
  assert (Hu : to_uint64 n = n) by (apply to_uint64_id; lia).
  assert (Ht : hg_bulk_transfer (bulk_handle inp) lh n = HG_SUCCESS).
  { rewrite Hb. replace lh with (snd (hg_bulk_create (to_uint64 (input_val inp)))) by (by rewrite El).
    apply bulk_fits; lia. }
  destruct (fd_to_path s !! accessfd inp); simpl; eexists; (split; [done|]);
    rewrite Hu, Ht; simpl; done.
Qed.

(** A read the transfer can carry: the next bytes, or the bytes at the offset
    asked for, and where the server's own offset is left. *)
Lemma read_handler_slice inp s o d b :
  px_fds (sv_os s) !! accessfd inp = Some o → px_data (sv_os s) !! ofd_ino o = Some d →
  readable o = true → 0 ≤ ofd_off o → (rd_offset inp = -1 ∨ 0 ≤ rd_offset inp) →
  0 ≤ input_val inp < 2 ^ 31 → calloc_ok (input_val inp) = true →
  bulk_handle inp = snd (hg_bulk_create b) → input_val inp ≤ b →
  let off := if rd_offset inp =? -1 then ofd_off o else rd_offset inp in
  let n := n_read d off (input_val inp) in
  ∃ s', hvac_rpc_handler calloc_ok 0 0 inp s =
          Ret (s', ({| rpc_ret := n |}, slice d off n)) ∧
    sv_os s' = if rd_offset inp =? -1
               then set_fds (<[accessfd inp := Ofd (ofd_ino o) (ofd_mode o) (ofd_off o + n)]>
                               (px_fds (sv_os s))) (sv_os s)
               else sv_os s.
Proof.
  intros Ho Hd Hr H0 Hoff Hcnt Hc Hb Hle off n.
  assert (Hu : to_uint64 (input_val inp) = input_val inp) by (apply to_uint64_id; lia).
  assert (Hn : 0 ≤ n ≤ input_val inp) by (unfold n, n_read; lia).
  set (p' := if rd_offset inp =? -1
             then set_fds (<[accessfd inp := Ofd (ofd_ino o) (ofd_mode o) (ofd_off o + n)]>
                             (px_fds (sv_os s))) (sv_os s) else sv_os s).
  assert (Hsr : server_read inp (sv_os s) = (p', (n, slice d off n))).
  { unfold server_read, os_read, os_pread, p'. rewrite Hu, Ho, Hd, Hr. unfold n, off in *.
    destruct (Z.eqb_spec (rd_offset inp) (-1)) as [He|He].
    - destruct (Z.leb_spec 0 (ofd_off o)); [|lia]. simpl.
      destruct (Z.eqb_spec (n_read d (ofd_off o) (input_val inp)) (-1)); [lia|done].
    - destruct (Z.leb_spec 0 (rd_offset inp)); [|lia]. done. }
  destruct (read_handler_run inp b s p' n (slice d off n))
    as (s1 & Hi & Hrun); [done|by rewrite Hu|done|lia|lia|lia|].
  exists s1. rewrite Hrun. unfold mk_rpc_out. rewrite to_int32_id by lia.
  split; [done|]. unfold index_fd_to_path, run in Hi. simpl in Hi.
  destruct (fd_to_path s !! accessfd inp); by simplify_eq/=.
Qed.

(** A failed read has no size the transfer can accept: the server asserts. *)
Lemma read_handler_bad ir rr inp b s p' :
  bulk_handle inp = snd (hg_bulk_create b) → b < 2 ^ 63 →
  server_read inp (sv_os s) = (p', (-1, [])) →
  hvac_rpc_handler calloc_ok ir rr inp s = Fault AssertFailed.
Proof.
  intros Hb Hlt Hr. unfold hvac_rpc_handler.
  destruct (calloc_ok _); [|done].
  pose proof (bulk_create_ok (to_uint64 (input_val inp))) as Hbc.
  destruct (hg_bulk_create (to_uint64 (input_val inp))) as [rc lh] eqn:El.
  simpl in Hbc. subst rc.
  set (r := if rd_offset inp =? -1 then _ else _).
  assert (Hrs : r s = Ret (set_os p' s, (-1, []))) by (by apply server_read_run).
  unfold_st. rewrite Hrs. simpl. unfold index_fd_to_path, run. simpl.
  assert (Ht : hg_bulk_transfer (bulk_handle inp) lh (to_uint64 (-1)) ≠ HG_SUCCESS).
  { rewrite Hb. replace lh with (snd (hg_bulk_create (to_uint64 (input_val inp)))) by (by rewrite El).
    apply bulk_exceeds. left. change (to_uint64 (-1)) with (2 ^ 64 - 1). lia. }
  apply Z.eqb_neq in Ht.
  destruct (fd_to_path s !! accessfd inp); simpl; rewrite Ht; done.
Qed.

Lemma server_read_spec inp p p' n d :
  posix_ok p → server_read inp p = (p', (n, d)) →
  files_extend p p' ∧ px_nofile p' = px_nofile p ∧ posix_ok p' ∧
  (∀ f o, px_fds p' !! f = Some o → ∃ o', px_fds p !! f = Some o' ∧ ofd_ino o' = ofd_ino o).
Proof.
  intros Ho. unfold server_read. destruct (rd_offset inp =? -1).
  - intros E. destruct (os_read_spec _ _ _ _ _ _ Ho E)
      as (? & _ & ? & _ & _ & ? & Hcase). split_and!; [done..|].
    destruct Hcase as [(_ & _ & ->)|(o & d' & Hfo & _ & _ & _ & _ & ->)]; [by eauto|].
    intros f o'. rewrite lookup_insert_Some. intros [[<- <-]|[_ ?]]; eauto.
  - intros [= <- _]. split_and!; eauto. done.
Qed.

Lemma read_handler_inv ir rr inp s s' out :
  hvac_rpc_handler calloc_ok ir rr inp s = Ret (s', out) → server_inv s → server_inv s'.
Proof.
  intros Hr Hi. unfold hvac_rpc_handler in Hr. assert_in Hr.
  destruct (hg_bulk_create _) as [rc lh]. assert_in Hr.
  destruct (server_read inp (sv_os s)) as [p' [n d]] eqn:Er.
  bind_in Hr s1 r Ers. rewrite (server_read_run _ _ _ _ Er) in Ers. simplify_eq.
  bind_in Hr s2 x Ei. assert_in Hr. bind_in Hr s3 y Ecb.
  unfold hvac_rpc_handler_bulk_cb in Ecb. do 2 assert_in Ecb.
  apply mret_Ret in Ecb as [-> _]. apply mret_Ret in Hr as [-> _].
  eapply index_fd_to_path_inv in Ei; [apply Ei|].
  destruct Hi as [Ho Hc Hf Hn].
  destruct (server_read_spec _ _ _ _ _ Ho Er) as (He & Hnf & Hok & Hfd).
  split; simpl; [done| | |congruence].
  - by apply (cache_coherent_extend s).
  - apply (fds_faithful_extend s); [done| |done]. simpl.
    intros f q o Hq _ (o' & ? & ?)%Hfd. eauto.
Qed.

End spec.
