(* ===== verification/Mover.v ===== *)
(** * The data mover and the server node

    [hvac_data_mover_fn] of [src/src/mthvac_data_mover.cpp], and the
    interleaving of its thread with the RPC handlers: a server node is a
    labelled transition system whose steps are one handler or one segment of
    the mover's loop between two operations on the mutex. *)

From S2P Require Import Prelude CText Posix Wire Server ServerSpec.

Local Open Scope Z_scope.

(** ** The mover thread *)

(** The start of the thread: string(getenv("BBPATH")) + "/XXXXXX". A missing
    BBPATH is logged and then handed to std::string all the same. *)
Definition nvmepath (bbpath : option text) : res text :=
  match bbpath with
  | None => Fault NullDeref
  | Some b => Ret (b ++ s2t "/XXXXXX")
  end.

(** while (!data_queue.empty()) local_list.push(data_queue.front()) ... *)
Fixpoint drain (q l : list string) : list string * list string :=
  match q with
  | [] => ([], l)
  | x :: q' => drain q' (l ++ [x])
  end.

(** One turn of the copying loop, for the front of the local list. [chosen]
    is what mkdtemp puts in place of XXXXXX. *)
Definition copy_front (template : text) (chosen : option text) (front : string)
    (s : server) : server :=
  let '(p1, r) := os_mkdtemp chosen template (sv_os s) in
  let dirpath := default template r in
  let target := t2s (dirpath ++ slash :: filename (s2t front)) in
  match fs_copy front target p1 with
  | Some p2 => set_cache (<[front := target]> (path_cache_map s)) (set_os p2 s)
  | None => set_os p1 s
  end.

Inductive mover_event : Type :=
| EvWait                          (* lock the mutex and wait *)
| EvSpurious                      (* pthread_cond_wait returns unsignalled *)
| EvDrain                         (* empty the queue, unlock *)
| EvCopy (chosen : option text)   (* move one file *)
| EvLoop.                         (* the local list is empty: loop *)

(** The mover's thread as a partial function of its state and the event. *)
Definition mover_run (template : text) (e : mover_event) (s : server) : option server :=
  match e, mv_pc s, local_list s with
  | EvWait, MvTop, _ => Some (set_mover MvWaiting (local_list s) s)
  | EvSpurious, MvWaiting, _ => Some (set_mover MvWoken (local_list s) s)
  | EvDrain, MvWoken, _ =>
      let '(q, l) := drain (data_queue s) (local_list s) in
      Some (set_mover MvCopying l (set_queue q s))
  | EvCopy chosen, MvCopying, x :: l =>
      Some (set_mover MvCopying l (copy_front template chosen x s))
  | EvLoop, MvCopying, [] => Some (set_mover MvTop [] s)
  | _, _, _ => None
  end.

Fixpoint mover_runs (template : text) (es : list mover_event) (s : server) : option server :=
  match es with
  | [] => Some s
  | e :: es' => mover_run template e s ≫= mover_runs template es'
  end.

(** ** The node *)

Section node.
Context {H : Mercury}.
Context (calloc_ok : Z → bool) (template : text).

Inductive node_label : Type :=
| LOpen (inp : hvac_open_in_t) (out : hvac_open_out_t)
| LRead (inp : hvac_rpc_in_t H) (out : hvac_rpc_out_t * bytes)
| LSeek (inp : hvac_seek_in_t) (out : hvac_seek_out_t)
| LClose (inp : hvac_close_in_t)
| LMover (e : mover_event).

Inductive node_step : node_label → server → server → Prop :=
| step_open rc inp out s s' :
    hvac_open_rpc_handler rc inp s = Ret (s', out) → node_step (LOpen inp out) s s'
| step_read ir rr inp out s s' :
    hvac_rpc_handler calloc_ok ir rr inp s = Ret (s', out) → node_step (LRead inp out) s s'
| step_seek rc inp out s s' :
    hvac_seek_rpc_handler rc inp s = Ret (s', out) → node_step (LSeek inp out) s s'
| step_close rc inp s s' :
    hvac_close_rpc_handler rc inp s = Ret (s', tt) → node_step (LClose inp) s s'
| step_mover e s s' :
    mover_run template e s = Some s' → node_step (LMover e) s s'.

(** The state in which the server starts serving: nothing tracked, nothing
    cached, the mover before its first wait. *)
Definition node_init (s : server) : Prop :=
  posix_ok (sv_os s) ∧ px_nofile (sv_os s) ≤ 2 ^ 31 ∧ fd_to_path s = ∅ ∧
  path_cache_map s = ∅ ∧ data_queue s = [] ∧ mv_pc s = MvTop ∧ local_list s = [].

(** What a step adds to the queue of paths to move, and what it takes off. *)
Definition queued (l : node_label) (s : server) : list string :=
  match l with
  | LClose inp =>
      let path := default "" (fd_to_path s !! close_fd inp) in
      if path_cache_map s !! path is Some _ then [] else [path]
  | _ => []
  end.

Definition moved (l : node_label) (s : server) : list string :=
  match l with
  | LMover (EvCopy _) => take 1 (local_list s)
  | _ => []
  end.

(** The same run, with the history of queued and moved paths. *)
Inductive node_run : list string → list string → server → server → Prop :=
| run_nil s : node_run [] [] s s
| run_snoc qs ms l s s1 s2 :
    node_run qs ms s s1 → node_step l s1 s2 →
    node_run (qs ++ queued l s1) (ms ++ moved l s1) s s2.

End node.

(** ** Lemmas *)

Section mover.
Context (template : text).

Lemma drain_app q l : drain q l = ([], l ++ q).
Proof.
  revert l. induction q as [|x q IH]; intros l; simpl.
  - by rewrite app_nil_r.
  - by rewrite IH, <-(assoc_L (++)).
Qed.

Lemma copy_front_inv chosen x s : server_inv s → server_inv (copy_front template chosen x s).
Proof.
  intros [Ho Hc Hf Hn]. unfold copy_front.
  destruct (os_mkdtemp _ _ _) as [p1 r] eqn:E1.
  destruct (os_mkdtemp_spec _ _ _ _ _ Ho E1) as (He1 & Hok1 & Hfd1 & Hn1 & _).
  destruct (fs_copy _ _ p1) as [p2|] eqn:E2; [|split; simpl; [done| | |congruence]].
  - destruct (fs_copy_spec _ _ _ _ Hok1 E2) as (d & Hd & Hd2 & _ & He2 & Hok2 & Hfd2 & _ & Hn2).
    assert (He : files_extend (sv_os s) p2) by (by etrans).
    split; simpl; [done| | |congruence].
    + intros p q. simpl. rewrite lookup_insert_Some. intros [[<- <-]|[_ Hq]].
      * exists d. split; [exact (content_extend _ _ _ _ He2 Hd)|done].
      * destruct (Hc _ _ Hq) as (d' & ? & ?). exists d'. split; by apply (content_extend _ _ _ _ He).
    + apply (fds_faithful_extend s); [done| |done]. simpl.
      intros f p o Hp _. rewrite Hfd2, Hfd1. eauto.
  - by apply (cache_coherent_extend s).
  - apply (fds_faithful_extend s); [done| |done]. simpl.
    intros f p o Hp _. rewrite Hfd1. eauto.
Qed.

Lemma set_mover_inv pc l s : server_inv s → server_inv (set_mover pc l s).
Proof. by intros [? ? ? ?]. Qed.

Lemma set_queue_inv q s : server_inv s → server_inv (set_queue q s).
Proof. by intros [? ? ? ?]. Qed.

Lemma mover_run_inv e s s' :
  mover_run template e s = Some s' → server_inv s → server_inv s'.
Proof.
  unfold mover_run. intros E Hi.
  destruct e, (mv_pc s), (local_list s); simplify_eq; try done;
    try (destruct (drain _ _); simplify_eq);
    eauto using set_mover_inv, set_queue_inv, copy_front_inv.
Qed.

(** The mover adds files and directories, and touches no descriptor. *)
Lemma copy_front_os chosen x s :
  posix_ok (sv_os s) →
  files_extend (sv_os s) (sv_os (copy_front template chosen x s)) ∧
  px_fds (sv_os (copy_front template chosen x s)) = px_fds (sv_os s).
Proof.
  intros Ho. unfold copy_front. destruct (os_mkdtemp _ _ _) as [p1 r] eqn:E1.
  destruct (os_mkdtemp_spec _ _ _ _ _ Ho E1) as (He1 & Hok1 & Hfd1 & _).
  destruct (fs_copy _ _ p1) as [p2|] eqn:E2; simpl; [|done].
  destruct (fs_copy_spec _ _ _ _ Hok1 E2) as (d & _ & _ & _ & He2 & _ & Hfd2 & _).
  split; [by etrans|congruence].
Qed.

Lemma mover_run_os e s s' :
  mover_run template e s = Some s' → posix_ok (sv_os s) →
  files_extend (sv_os s) (sv_os s') ∧ px_fds (sv_os s') = px_fds (sv_os s).
Proof.
  unfold mover_run. intros E Ho.
  destruct e, (mv_pc s), (local_list s); simplify_eq; try done;
    try (destruct (drain _ _); simplify_eq; done); by apply copy_front_os.
Qed.

Lemma copy_front_keep chosen x s :
  data_queue (copy_front template chosen x s) = data_queue s ∧
  local_list (copy_front template chosen x s) = local_list s ∧
  mv_pc (copy_front template chosen x s) = mv_pc s.
Proof.
  unfold copy_front. destruct (os_mkdtemp _ _ _). by destruct (fs_copy _ _ _).
Qed.

(** A copy into the fresh directory mkdtemp makes succeeds when the source
    exists, and installs the redirection. *)
Lemma copy_front_success six x s d :
  posix_ok (sv_os s) → content (sv_os s) x = Some d → filename (s2t x) ≠ [] →
  let dir := take (length template - 6) template ++ six in
  let target := t2s (dir ++ slash :: filename (s2t x)) in
  dir ≠ [] → t2s dir ∉ px_dirs (sv_os s) → px_paths (sv_os s) !! target = None →
  let s' := copy_front template (Some six) x s in
  path_cache_map s' = <[x := target]> (path_cache_map s) ∧
  content (sv_os s') target = Some d ∧ content (sv_os s') x = Some d.
Proof.
  intros Ho Hd Hfn dir target Hdir Hfresh Hnew s'.
  set (p1 := add_dir (t2s dir) (sv_os s)).
  assert (Hmk : os_mkdtemp (Some six) template (sv_os s) = (p1, Some dir)).
  { unfold os_mkdtemp. by rewrite bool_decide_eq_false_2. }
  destruct (os_mkdtemp_spec _ _ _ _ _ Ho Hmk) as (_ & Hok1 & _).
  assert (∃ p2, fs_copy x target p1 = Some p2) as [p2 Hcp].
  { unfold fs_copy. change (content p1 x) with (content (sv_os s) x). rewrite Hd.
    change (px_paths p1 !! target) with (px_paths (sv_os s) !! target). rewrite Hnew.
    unfold target. rewrite s2t_t2s, parent_path_app, filename_app
      by (first [done|apply filename_no_slash]).
    rewrite bool_decide_eq_true_2, bool_decide_eq_false_2 by (first [done|simpl; set_solver]).
    simpl. eauto. }
  unfold s', copy_front. rewrite Hmk. cbn [default id]. change (id dir) with dir. fold target. rewrite Hcp. simpl.
  destruct (fs_copy_spec _ _ _ _ Hok1 Hcp) as (d' & Hd1 & Hd2 & _ & He & _).
  change (content p1 x) with (content (sv_os s) x) in Hd1. assert (d' = d) as -> by congruence.
  split_and!; [done|done|]. exact (content_extend _ _ _ _ He Hd1).
Qed.

Lemma mover_runs_app es1 es2 s :
  mover_runs template (es1 ++ es2) s = mover_runs template es1 s ≫= mover_runs template es2.
Proof.
  revert s. induction es1 as [|e es1 IH]; intros s; simpl; [done|].
  destruct (mover_run template e s); simpl; auto.
Qed.

(** A pass of the mover over a local list takes one step per file. *)
Lemma mover_copies l cs s :
  mv_pc s = MvCopying → local_list s = l → length cs = length l →
  ∃ s', mover_runs template (EvCopy <$> cs) s = Some s' ∧
    mv_pc s' = MvCopying ∧ local_list s' = [] ∧ data_queue s' = data_queue s.
Proof.
  revert l s. induction cs as [|c cs IH]; intros [|x l] s Hpc Hl Hlen; simplify_eq/=.
  - eauto.
  - destruct (IH l (set_mover MvCopying l (copy_front template c x s)))
      as (s' & Hs' & ? & ? & Hq); [done|done|lia|].
    exists s'. split; [|split_and!; auto].
    + unfold mover_run. by rewrite Hpc, Hl.
    + rewrite Hq. simpl. apply copy_front_keep.
Qed.

End mover.

Section node_lemmas.
Context {H : Mercury}.
Context (calloc_ok : Z → bool) (template : text).

Lemma node_step_inv l s s' : node_step calloc_ok template l s s' → server_inv s → server_inv s'.
Proof.
  intros Hs Hi. destruct Hs.
  - by eapply open_handler_inv.
  - by eapply read_handler_inv.
  - by eapply seek_handler_inv.
  - by eapply close_handler_inv.
  - by eapply mover_run_inv.
Qed.

Lemma node_init_inv s : node_init s → server_inv s.
Proof.
  intros (Ho & Hn & Hf & Hc & _). split; [done| | |done].
  - intros p q. by rewrite Hc, lookup_empty.
  - intros f p o. by rewrite Hf, lookup_empty.
Qed.

Lemma close_handler_queue rc inp s s' :
  hvac_close_rpc_handler rc inp s = Ret (s', tt) →
  local_list s' = local_list s ∧ data_queue s' = data_queue s ++ queued (LClose inp) s.
Proof.
  intros Hr. pose proof Hr as Hr2. unfold hvac_close_rpc_handler in Hr2. assert_in Hr2.
  apply Z.eqb_eq in Hb as ->. clear Hr2. change HG_SUCCESS with 0 in Hr.
  destruct (px_fds (sv_os s) !! close_fd inp) as [o|] eqn:E;
    [|by rewrite close_handler_bad in Hr].
  destruct (close_handler_run inp s) as (s1 & Hs1 & _ & _ & _ & Hl & Hq & _); [by eauto|].
  assert (s1 = s') as -> by congruence. done.
Qed.

Lemma index_fd_to_path_keep fd s s' p :
  index_fd_to_path fd s = Ret (s', p) →
  data_queue s' = data_queue s ∧ local_list s' = local_list s ∧ mv_pc s' = mv_pc s.
Proof. unfold index_fd_to_path, run. intros E. by destruct (_ !! _); simplify_eq/=. Qed.

Lemma sys_keep {A} (f : posix → posix * A) s s' a :
  sys f s = Ret (s', a) → ∃ p, s' = set_os p s.
Proof. unfold sys. unfold_st. destruct (f (sv_os s)). intros [= <- <-]. eauto. Qed.

Lemma read_handler_keep ir rr inp s s' out :
  hvac_rpc_handler calloc_ok ir rr inp s = Ret (s', out) →
  data_queue s' = data_queue s ∧ local_list s' = local_list s ∧ mv_pc s' = mv_pc s.
Proof.
  intros Hr. unfold hvac_rpc_handler in Hr. assert_in Hr.
  destruct (hg_bulk_create _) as [rc lh]. assert_in Hr.
  bind_in Hr s1 r Er. bind_in Hr s2 x Ei. assert_in Hr. bind_in Hr s3 y Ecb.
  unfold hvac_rpc_handler_bulk_cb in Ecb. do 2 assert_in Ecb.
  apply mret_Ret in Ecb as [-> _]. apply mret_Ret in Hr as [-> _].
  apply index_fd_to_path_keep in Ei as (-> & -> & ->).
  destruct (rd_offset inp =? -1); by apply sys_keep in Er as [p ->].
Qed.

Lemma open_handler_keep rc inp s s' out :
  hvac_open_rpc_handler rc inp s = Ret (s', out) →
  data_queue s' = data_queue s ∧ local_list s' = local_list s ∧ mv_pc s' = mv_pc s.
Proof.
  intros Hr. unfold hvac_open_rpc_handler in Hr. assert_in Hr.
  unfold_st_in Hr. unfold sys in Hr. unfold_st_in Hr.
  destruct (os_open _ _ _). by simplify_eq/=.
Qed.

Lemma seek_handler_keep rc inp s s' out :
  hvac_seek_rpc_handler rc inp s = Ret (s', out) →
  data_queue s' = data_queue s ∧ local_list s' = local_list s ∧ mv_pc s' = mv_pc s.
Proof.
  intros Hr. unfold hvac_seek_rpc_handler in Hr. assert_in Hr.
  bind_in Hr s1 r Er. apply sys_keep in Er as [p ->]. by apply mret_Ret in Hr as [-> _].
Qed.

(** One step conserves the paths in flight. *)
Lemma node_step_conserves l s s' :
  node_step calloc_ok template l s s' →
  local_list s ++ data_queue s ++ queued l s = moved l s ++ local_list s' ++ data_queue s'.
Proof.
  intros Hs. destruct Hs as [? ? ? ? ? E|? ? ? ? ? ? E|? ? ? ? ? E|? ? ? ? E|e s s' E]; simpl.
  - apply open_handler_keep in E as (-> & -> & _). by rewrite app_nil_r.
  - apply read_handler_keep in E as (-> & -> & _). by rewrite app_nil_r.
  - apply seek_handler_keep in E as (-> & -> & _). by rewrite app_nil_r.
  - apply close_handler_queue in E as [-> ->]. done.
  - rewrite app_nil_r. unfold mover_run in E.
    destruct e, (mv_pc s), (local_list s) as [|x l] eqn:El; try done;
      rewrite ?drain_app in E; simplify_eq/=; rewrite ?El, ?app_nil_r; try done.
    by destruct (copy_front_keep template chosen x s) as (-> & _ & _).
Qed.

(** Neither a close, which may signal the condition, nor a spurious return of
    the wait. *)
Definition wakes_nobody (l : node_label) : Prop :=
  match l with LClose _ | LMover EvSpurious => False | _ => True end.

(** Without those a waiting mover stays where it is. *)
Lemma asleep_stays ls s s' :
  steps (node_step calloc_ok template) ls s s' → Forall wakes_nobody ls → mv_pc s = MvWaiting →
  mv_pc s' = MvWaiting ∧ data_queue s' = data_queue s.
Proof.
  intros Hst. induction Hst as [s|ls l s1 s2 s3 _ IH Hs]; intros Hall Hw; [done|].
  apply Forall_app in Hall as [Hall [Hl _]%Forall_cons]. destruct (IH Hall Hw) as [IH1 <-].
  rewrite <-IH1. destruct Hs as [? ? ? ? ? E|? ? ? ? ? ? E|? ? ? ? ? E|? ? ? ? E|e s s' E].
  - by apply open_handler_keep in E as (-> & _ & ->).
  - by apply read_handler_keep in E as (-> & _ & ->).
  - by apply seek_handler_keep in E as (-> & _ & ->).
  - done.
  - unfold mover_run in E. rewrite IH1 in E. by destruct e.
Qed.

End node_lemmas.
