(* ===== verification/NodeProps.v ===== *)
(** * Properties of a server node

    What the handlers and the data mover guarantee together: redirection to
    the cache is invisible in the bytes served, no path queued for caching is
    lost or reordered, the mover empties its queue once woken, and the error
    branches that end the server. *)

From S2P Require Import Prelude CText Posix Wire Server ServerSpec Mover.

Local Open Scope Z_scope.

(** ** A small concrete node, for the witnesses *)

Definition ex_path : string := "/pfs/train/a.dat".
Definition ex_bytes : bytes := s2t "0123456789".
Definition ex_template : text := s2t "/mnt/bb/XXXXXX".

Definition ex_os : posix := {|
  px_paths := {[ ex_path := 1%positive ]};
  px_data := {[ 1%positive := ex_bytes ]};
  px_dirs := {[ "/pfs/train" ]};
  px_fds := {[ 0 := Ofd 1 O_RDONLY 0 ]};
  px_nofile := 1024
|}.

Definition ex_node : server := {|
  sv_os := ex_os; fd_to_path := ∅; path_cache_map := ∅; data_queue := [];
  mv_pc := MvTop; local_list := []
|}.

(** The node after serving an open of [ex_path], the mover waiting. *)
Definition ex_open_node : server := {|
  sv_os := set_fds (<[1 := Ofd 1 O_RDONLY 0]> (px_fds ex_os)) ex_os;
  fd_to_path := {[ 1 := ex_path ]}; path_cache_map := ∅; data_queue := [];
  mv_pc := MvWaiting; local_list := []
|}.

(** The inode a handler's fd reads is a property of lookups alone; these two
    facts discharge the well-formedness of the concrete states. *)
Lemma ex_os_ok : posix_ok ex_os.
Proof.
  split; simpl.
  - intros path i [<- <-]%lookup_singleton_Some. by eexists.
  - intros fd o [<- <-]%lookup_singleton_Some. split; [by eexists|done].
Qed.

Lemma ex_node_init : node_init ex_node.
Proof. split_and!; [apply ex_os_ok|vm_compute; congruence|done..]. Qed.

Lemma ex_open_node_inv : server_inv ex_open_node.
Proof.
  eapply (open_handler_inv 0 {| open_path := ex_path |}
            (set_mover MvWaiting [] ex_node)).
  - vm_compute. reflexivity.
  - apply set_mover_inv, node_init_inv, ex_node_init.
Qed.

Section properties.
Context {H : Mercury} {HOk : MercuryOk H}.
Context (calloc_ok : Z → bool) (template : text).

(** In every state a server node can reach, by any interleaving of RPC
    handlers and data-mover steps, the redirection table only maps a path to
    a file holding the same bytes, and every descriptor handed out for a path
    reads exactly that path's bytes. *)
Theorem node_reachable_coherent s :
  reachable (node_step calloc_ok template) node_init s →
  cache_coherent s ∧ fds_faithful s.
Proof.
  intros Hr. enough (server_inv s) as [_ ? ? _] by done. revert Hr.
  apply (reachable_inv (node_step calloc_ok template)); [apply node_init_inv|].
  intros l s1 s2 ? ?. by eapply node_step_inv.
Qed.

(** Opening a file that exists succeeds while a descriptor is free, and
    every later read of the descriptor the client gets, at any offset and of
    any count, finds the bytes of the path it asked for, whether or not the
    open was redirected to a cached copy. *)
Theorem open_serves_requested_bytes inp s d count off :
  server_inv s → content (sv_os s) (open_path inp) = Some d →
  first_free (px_fds (sv_os s)) < px_nofile (sv_os s) → 0 ≤ off →
  ∃ s' out, hvac_open_rpc_handler 0 inp s = Ret (s', out) ∧
    ret_status out = first_free (px_fds (sv_os s)) ∧
    fd_to_path s' !! ret_status out = Some (open_path inp) ∧
    os_pread (ret_status out) count off (sv_os s') =
      (n_read d off count, slice d off (n_read d off count)) ∧
    snd (os_read (ret_status out) count (sv_os s')) =
      (n_read d 0 count, slice d 0 (n_read d 0 count)).
Proof.
  intros Hi Hd Hfree Hoff. destruct (open_handler_serves inp s d Hi Hd) as (s' & out & Hrun & Hc).
  exists s', out. split; [done|]. cbv zeta in Hc.
  destruct (Z.leb_spec (px_nofile (sv_os s)) (first_free (px_fds (sv_os s)))); [lia|].
  destruct Hc as (-> & _ & Hp & i & Hdi & Hos). split_and!; [done|done|..].
  - unfold os_pread. rewrite Hos. simpl. rewrite lookup_insert_eq. simpl. rewrite Hdi.
    unfold readable. simpl. by rewrite (proj2 (Z.leb_le 0 off)).
  - unfold os_read, os_pread. rewrite Hos. simpl. rewrite lookup_insert_eq. simpl. rewrite Hdi.
    pose proof (n_read_range d 0 count). unfold readable. simpl.
    by destruct (Z.eqb_spec (n_read d 0 count) (-1)); [lia|].
Qed.

(** C10. A read RPC on an open descriptor returns the file's next bytes (offset
    -1, advancing the server's offset) or the bytes at the given offset (the
    server's offset untouched), and its 32-bit result is their number. *)
Theorem read_handler_returns_slice inp s o d b :
  px_fds (sv_os s) !! accessfd inp = Some o → px_data (sv_os s) !! ofd_ino o = Some d →
  readable o = true → 0 ≤ ofd_off o → (rd_offset inp = -1 ∨ 0 ≤ rd_offset inp) →
  0 ≤ input_val inp < 2 ^ 31 → calloc_ok (input_val inp) = true →
  bulk_handle inp = snd (hg_bulk_create b) → input_val inp ≤ b →
  let off := if rd_offset inp =? -1 then ofd_off o else rd_offset inp in
  let n := n_read d off (input_val inp) in
  ∃ s', hvac_rpc_handler calloc_ok 0 0 inp s =
          Ret (s', ({| rpc_ret := n |}, slice d off n)) ∧
    Z.of_nat (length (slice d off n)) = n ∧
    px_fds (sv_os s') !! accessfd inp =
      Some (if rd_offset inp =? -1 then Ofd (ofd_ino o) (ofd_mode o) (ofd_off o + n) else o).
Proof.
  intros Ho Hd Hr H0 Hoff Hcnt Hc Hb Hle off n.
  destruct (read_handler_slice calloc_ok inp s o d b) as (s' & Hrun & Hos); try done.
  exists s'. split_and!; [done| |].
  - apply slice_length. unfold off. destruct (Z.eqb_spec (rd_offset inp) (-1)); lia.
  - rewrite Hos. destruct (rd_offset inp =? -1); [|done]. simpl. by rewrite lookup_insert_eq.
Qed.

(** A read RPC for a descriptor that is not open takes the server down:
    the failed read's size -1 becomes 2^64-1 and the transfer's assertion
    fails. *)
Theorem read_of_closed_fd_aborts_server ir rr inp s b :
  px_fds (sv_os s) !! accessfd inp = None →
  bulk_handle inp = snd (hg_bulk_create b) → b < 2 ^ 63 →
  hvac_rpc_handler calloc_ok ir rr inp s = Fault AssertFailed.
Proof.
  intros Ho Hb Hlt. apply (read_handler_bad calloc_ok ir rr inp b s (sv_os s)); [done|done|].
  unfold server_read, os_read, os_pread. rewrite Ho. by destruct (_ =? _).
Qed.

(** C11. Along every run from the start, the paths queued by close RPCs are, in
    order, those the mover has taken, those on its local list and those still
    in the shared queue: nothing is lost, duplicated or reordered. *)
Theorem move_queue_is_fifo qs ms s0 s :
  node_init s0 → node_run calloc_ok template qs ms s0 s →
  qs = ms ++ local_list s ++ data_queue s.
Proof.
  intros (_ & _ & _ & _ & Hq & _ & Hl) Hrun. induction Hrun as [s|qs ms l s s1 s2 _ IH Hs].
  - by rewrite Hq, Hl.
  - rewrite IH by done. pose proof (node_step_conserves _ _ _ _ _ Hs) as Hc.
    rewrite <-!(assoc_L (++)). f_equal. done.
Qed.

End properties.

Section mover_properties.
Context {H : Mercury} (calloc_ok : Z → bool) (template : text).

(** A path that exists nowhere is answered -1, and the handler still
    records it: its entry for descriptor -1 stays in fd_to_path. *)
Theorem open_missing_answers_error inp s :
  content (sv_os s) (open_path inp) = None → posix_ok (sv_os s) →
  path_cache_map s !! open_path inp = None →
  hvac_open_rpc_handler 0 inp s =
    Ret (set_fd_to_path (<[-1 := open_path inp]> (fd_to_path s)) s, {| ret_status := -1 |}).
Proof.
  intros Hd Ho Hc. rewrite open_handler_run, Hc. simpl. unfold os_open.
  assert (px_paths (sv_os s) !! open_path inp = None) as ->.
  { unfold content in Hd. destruct (px_paths (sv_os s) !! open_path inp) as [i|] eqn:Hi; [|done].
    destruct (ok_paths _ Ho _ _ Hi) as [? Hx]. simpl in Hd. congruence. }
  destruct s. by destruct (_ <=? _).
Qed.

(** C12. When a client closes an uncached file while the mover waits, the
    signal and one pass of the mover install a redirection to a copy with the
    file's bytes. *)
Theorem closed_file_becomes_cached inp s p d six :
  posix_ok (sv_os s) → mv_pc s = MvWaiting → local_list s = [] → data_queue s = [] →
  is_Some (px_fds (sv_os s) !! close_fd inp) →
  fd_to_path s !! close_fd inp = Some p → path_cache_map s !! p = None →
  content (sv_os s) p = Some d → filename (s2t p) ≠ [] →
  let dir := take (length template - 6) template ++ six in
  let target := t2s (dir ++ slash :: filename (s2t p)) in
  dir ≠ [] → t2s dir ∉ px_dirs (sv_os s) → px_paths (sv_os s) !! target = None →
  ∃ s1 s2, hvac_close_rpc_handler 0 inp s = Ret (s1, tt) ∧
    mover_runs template [EvDrain; EvCopy (Some six); EvLoop; EvWait] s1 = Some s2 ∧
    path_cache_map s2 !! p = Some target ∧
    content (sv_os s2) target = Some d ∧ content (sv_os s2) p = Some d.
Proof.
  intros Ho Hpc Hl Hq Hfd Hp Hc Hd Hfn dir target Hdir Hfresh Hnew.
  destruct (close_handler_run inp s Hfd) as (s1 & Hs1 & Hos & _ & Hca & Hl1 & Hq1 & Hpc1).
  rewrite Hp in Hq1, Hpc1. simpl in Hq1, Hpc1. rewrite Hc in Hq1, Hpc1.
  rewrite Hpc in Hpc1. rewrite Hq in Hq1. rewrite Hl in Hl1. simpl in Hq1.
  destruct (os_close (close_fd inp) (sv_os s)) as [p' r] eqn:Ecl. simpl in Hos.
  destruct (os_close_spec _ _ _ _ Ho Ecl) as (He & Hdirs & _ & Hok & _).
  assert (Hpaths : px_paths p' = px_paths (sv_os s)).
  { destruct Hfd as [o Hfo]. unfold os_close in Ecl. rewrite Hfo in Ecl.
    by injection Ecl as <- <-. }
  destruct (copy_front_success template six p (set_mover MvCopying [p] (set_queue [] s1)) d)
    as (Hm & Ht & Hx); simpl; rewrite ?Hos, ?Hdirs, ?Hpaths; try done.
  { exact (content_extend _ _ _ _ He Hd). }
  do 2 eexists. split_and!; [exact Hs1| |..].
  - cbn [mover_runs]. rewrite Hpc1, Hq1, Hl1. simpl. done.
  - simpl. rewrite Hm. apply lookup_insert_eq.
  - exact Ht.
  - exact Hx.
Qed.

(** C13. Once woken, the mover needs exactly one drain, one copy per file in
    flight (whether or not a copy succeeds) and two more steps to be waiting
    again with nothing left to move. *)
Theorem woken_mover_empties_queue s cs :
  mv_pc s = MvWoken → length cs = length (local_list s ++ data_queue s) →
  ∃ s', mover_runs template (EvDrain :: (EvCopy <$> cs) ++ [EvLoop; EvWait]) s = Some s' ∧
    mv_pc s' = MvWaiting ∧ local_list s' = [] ∧ data_queue s' = [].
Proof.
  intros Hpc Hlen. set (l := local_list s ++ data_queue s) in *.
  destruct (mover_copies template l cs (set_mover MvCopying l (set_queue [] s)))
    as (s1 & Hs1 & Hpc1 & Hl1 & Hq1); [done..|].
  exists (set_mover MvWaiting [] (set_mover MvTop [] s1)).
  split_and!; [|done|done|exact Hq1].
  cbn [mover_runs]. unfold mover_run at 1. rewrite Hpc, drain_app. simpl. fold l.
  rewrite mover_runs_app, Hs1. simpl. by rewrite Hpc1, Hl1.
Qed.

(** C35. The mover waits without looking at its queue, so a signal sent while it
    is not waiting is lost: if a client closes an uncached file while the mover
    is on its way to its wait, at the start or in the middle of a pass, the mover
    goes to sleep with the path in the queue; and however many requests are
    served after that, it sleeps and the path stays, until another close or a
    spurious wakeup. *)
Theorem wakeup_can_be_lost inp s p cs :
  mv_pc s = MvTop ∧ cs = [] ∨ mv_pc s = MvCopying ∧ length cs = length (local_list s) →
  is_Some (px_fds (sv_os s) !! close_fd inp) →
  fd_to_path s !! close_fd inp = Some p → path_cache_map s !! p = None →
  ∃ s1 s2, hvac_close_rpc_handler 0 inp s = Ret (s1, tt) ∧
    mover_runs template ((EvCopy <$> cs) ++ (if mv_pc s is MvTop then [] else [EvLoop]) ++ [EvWait]) s1
      = Some s2 ∧
    mv_pc s2 = MvWaiting ∧ data_queue s2 = data_queue s ++ [p] ∧
    ∀ ls s3, steps (node_step calloc_ok template) ls s2 s3 → Forall wakes_nobody ls →
      mv_pc s3 = MvWaiting ∧ data_queue s3 = data_queue s ++ [p].
Proof.
  intros Hpc Hfd Hp Hc.
  destruct (close_handler_run inp s Hfd) as (s1 & Hs1 & _ & _ & _ & Hl1 & Hq1 & Hpc1).
  rewrite Hp in Hq1, Hpc1. simpl in Hq1, Hpc1. rewrite Hc in Hq1, Hpc1.
  assert (∃ s2, mover_runs template ((EvCopy <$> cs) ++
      (if mv_pc s is MvTop then [] else [EvLoop]) ++ [EvWait]) s1 = Some s2 ∧
    mv_pc s2 = MvWaiting ∧ data_queue s2 = data_queue s ++ [p]) as (s2 & Hs2 & Hw & Hq).
  { destruct Hpc as [[Hpc ->]|[Hpc Hlen]]; rewrite Hpc in Hpc1 |- *.
    - exists (set_mover MvWaiting (local_list s1) s1). simpl. by rewrite Hpc1.
    - destruct (mover_copies template (local_list s1) cs s1) as (s' & Hs' & Hpc' & Hl' & Hq');
        [done|done|congruence|].
      exists (set_mover MvWaiting [] (set_mover MvTop [] s')). split_and!; [|done|simpl; congruence].
      rewrite mover_runs_app, Hs'. simpl. by rewrite Hpc', Hl'. }
  exists s1, s2. split_and!; [done..|].
  intros ls s3 Hst Hall. rewrite <-Hq.
  destruct (asleep_stays calloc_ok template ls s2 s3 Hst Hall Hw) as [-> ->]. done.
Qed.

End mover_properties.

(** A seek RPC moves the server's offset, but its 32-bit result is the
    new offset only below 2^31; past it the client sees another number. *)
Theorem seek_result_is_truncated inp s p' pos :
  os_lseek (seek_fd inp) (seek_offset inp) (seek_whence inp) (sv_os s) = (p', pos) →
  0 ≤ pos →
  ∃ out, hvac_seek_rpc_handler 0 inp s = Ret (set_os p' s, out) ∧
    (seek_ret out = pos ↔ pos < 2 ^ 31).
Proof.
  intros E Hpos. unfold hvac_seek_rpc_handler, sys. unfold_st. rewrite E.
  eexists. split; [done|]. simpl. pose proof (to_int32_range pos). split; intros.
  - lia.
  - apply to_int32_id. lia.
Qed.

(** ** Witnesses *)

(** The first close comes before the mover has ever waited. *)
Lemma wakeup_can_be_lost_witness :
  ∃ s1 s2, hvac_close_rpc_handler 0 {| close_fd := 1 |} (set_mover MvTop [] ex_open_node) = Ret (s1, tt) ∧
    mover_runs ex_template [EvWait] s1 = Some s2 ∧ mv_pc s2 = MvWaiting ∧ data_queue s2 = [ex_path].
Proof.
  destruct (wakeup_can_be_lost (H:=sized_mercury) (λ _, true) ex_template {| close_fd := 1 |}
    (set_mover MvTop [] ex_open_node) ex_path []) as (s1 & s2 & H1 & H2 & H3 & H4 & _).
  - by left.
  - by eexists.
  - reflexivity.
  - reflexivity.
  - exists s1, s2. split_and!; [exact H1|exact H2|exact H3|exact H4].
Defined.

Lemma node_reachable_coherent_witness :
  cache_coherent ex_open_node ∧ fds_faithful ex_open_node.
Proof.
  apply (node_reachable_coherent (H:=sized_mercury) (λ _, true) ex_template).
  exists ex_node, [LMover EvWait; LOpen {| open_path := ex_path |} {| ret_status := 1 |}].
  split; [apply ex_node_init|].
  apply steps_cons with (s2 := set_mover MvWaiting [] ex_node); [by apply step_mover|].
  apply steps_one, (step_open _ _ 0). vm_compute. reflexivity.
Defined.

Lemma open_serves_requested_bytes_witness :
  ∃ s' out, hvac_open_rpc_handler 0 {| open_path := ex_path |} ex_open_node = Ret (s', out) ∧
    os_pread (ret_status out) 4 7 (sv_os s') = (3, s2t "789").
Proof.
  destruct (open_serves_requested_bytes {| open_path := ex_path |}
              ex_open_node ex_bytes 4 7) as (s' & out & H1 & _ & _ & H2 & _).
  - apply ex_open_node_inv.
  - reflexivity.
  - reflexivity.
  - lia.
  - exists s', out. split; [exact H1|]. rewrite H2. reflexivity.
Defined.

Lemma open_missing_answers_error_witness :
  hvac_open_rpc_handler 0 {| open_path := "/nowhere" |} ex_node =
    Ret (set_fd_to_path {[ -1 := "/nowhere" ]} ex_node, {| ret_status := -1 |}).
Proof.
  apply (open_missing_answers_error {| open_path := "/nowhere" |} ex_node);
    [reflexivity|apply ex_os_ok|reflexivity].
Defined.

Definition ex_read_in (off : Z) : hvac_rpc_in_t sized_mercury :=
  {| input_val := 4; bulk_handle := (4 : @hg_bulk_t sized_mercury); accessfd := 1; rd_offset := off |}.

Lemma read_handler_returns_slice_witness :
  ∃ s', hvac_rpc_handler (H:=sized_mercury) (λ _, true) 0 0 (ex_read_in 8) ex_open_node =
    Ret (s', ({| rpc_ret := 2 |}, s2t "89")).
Proof.
  destruct (read_handler_returns_slice (H:=sized_mercury) (HOk:=sized_mercury_ok) (λ _, true)
    (ex_read_in 8) ex_open_node (Ofd 1 O_RDONLY 0) ex_bytes 4) as (s' & E & _);
    try reflexivity; try (simpl; lia).
  exists s'. exact E.
Defined.

Lemma read_of_closed_fd_aborts_server_witness :
  hvac_rpc_handler (H:=sized_mercury) (λ _, true) 0 0 (ex_read_in 8) ex_node = Fault AssertFailed.
Proof.
  apply (read_of_closed_fd_aborts_server (H:=sized_mercury) (HOk:=sized_mercury_ok)
           (λ _, true) 0 0 (ex_read_in 8) ex_node 4); reflexivity.
Defined.

Lemma move_queue_is_fifo_witness :
  ∃ s, node_run (H:=sized_mercury) (λ _, true) ex_template [ex_path] [] ex_node s ∧
    [ex_path] = [] ++ local_list s ++ data_queue s.
Proof.
  exists (set_queue [ex_path] ex_node).
  assert (Hr : node_run (H:=sized_mercury) (λ _, true) ex_template [ex_path] [] ex_node
                 (set_queue [ex_path] ex_node)).
  { apply (run_snoc _ _ [] [] (LClose {| close_fd := 1 |}) ex_node (set_mover MvTop [] ex_open_node)).
    - apply (run_snoc _ _ [] [] (LOpen {| open_path := ex_path |} {| ret_status := 1 |})
        ex_node ex_node); [constructor|].
      apply (step_open _ _ 0). vm_compute. reflexivity.
    - apply (step_close _ _ 0). vm_compute. reflexivity. }
  split; [exact Hr|].
  exact (move_queue_is_fifo (H:=sized_mercury) (λ _, true) ex_template [ex_path] [] ex_node _
           ex_node_init Hr).
Defined.

Lemma woken_mover_empties_queue_witness :
  ∃ s', mover_runs ex_template [EvDrain; EvCopy None; EvLoop; EvWait]
          (set_mover MvWoken [] (set_queue [ex_path] ex_node)) = Some s' ∧ data_queue s' = [].
Proof.
  destruct (woken_mover_empties_queue ex_template
    (set_mover MvWoken [] (set_queue [ex_path] ex_node)) [None]) as (s' & E & _ & _ & Hq);
    [reflexivity|reflexivity|].
  exists s'. split; [exact E|exact Hq].
Defined.

Lemma closed_file_becomes_cached_witness :
  ∃ s1 s2, hvac_close_rpc_handler 0 {| close_fd := 1 |} ex_open_node = Ret (s1, tt) ∧
    mover_runs ex_template [EvDrain; EvCopy (Some (s2t "Ab3xYz")); EvLoop; EvWait] s1 = Some s2 ∧
    path_cache_map s2 !! ex_path = Some "/mnt/bb/Ab3xYz/a.dat".
Proof.
  destruct (closed_file_becomes_cached ex_template {| close_fd := 1 |} ex_open_node ex_path
    ex_bytes (s2t "Ab3xYz")) as (s1 & s2 & E1 & E2 & E3 & _).
  - apply ex_open_node_inv.
  - reflexivity.
  - reflexivity.
  - reflexivity.
  - by eexists.
  - reflexivity.
  - reflexivity.
  - reflexivity.
  - vm_compute. congruence.
  - vm_compute. congruence.
  - simpl. apply not_elem_of_singleton. vm_compute. congruence.
  - reflexivity.
  - exists s1, s2. split; [exact E1|]. split; [exact E2|]. rewrite E3. reflexivity.
Defined.

Lemma seek_result_is_truncated_witness :
  ∃ s' out, hvac_seek_rpc_handler 0
      {| seek_fd := 1; seek_offset := 2 ^ 31; seek_whence := SEEK_SET |} ex_open_node
      = Ret (s', out) ∧ (seek_ret out = 2 ^ 31 ↔ 2 ^ 31 < 2 ^ 31).
Proof.
  destruct (seek_result_is_truncated
    {| seek_fd := 1; seek_offset := 2 ^ 31; seek_whence := SEEK_SET |}
    ex_open_node (fst (os_lseek 1 (2 ^ 31) SEEK_SET (sv_os ex_open_node))) (2 ^ 31))
    as (out & Hr & Hs); [vm_compute; reflexivity|lia|].
  eexists _, out. split; [exact Hr|exact Hs].
Defined.
