(* ===== verification/NodeThreads.v ===== *)
(** * A server node at the grain of its shared accesses

    [Server.v] and [Mover.v] run a handler and a turn of the copying loop
    whole. The program runs them in two threads, Mercury's progress thread and
    the data mover's, and they share [path_cache_map] without a lock. Here
    both are cut at every access to a global and at every system call, so that
    the mover runs between a handler's lookup, its open and its answer, and a
    handler between the mover's copy and its insertion. *)

From S2P Require Import Prelude CText Posix Wire Server ServerSpec Mover NodeProps.

Local Open Scope Z_scope.

(** ** The handlers, one access at a time *)

Section defs.
Context {H : Mercury}.
Context (calloc_ok : Z → bool) (template : text).

Inductive rpc_call : Type :=
| CallOpen (get_input_ret : Z) (inp : hvac_open_in_t)
| CallRead (info_ret respond_ret : Z) (inp : hvac_rpc_in_t H)
| CallSeek (get_input_ret : Z) (inp : hvac_seek_in_t)
| CallClose (get_input_ret : Z) (inp : hvac_close_in_t).

Inductive rpc_answer : Type :=
| AnOpen (inp : hvac_open_in_t) (out : hvac_open_out_t)
| AnRead (out : hvac_rpc_out_t * bytes)
| AnSeek (out : hvac_seek_out_t)
| AnClose.

(** What the progress thread does next. The read and seek handlers touch
    nothing the mover's thread touches, except the file system through one
    call; they stay whole. *)
Inductive handler_pc : Type :=
| HIdle
| HOpenFind (inp : hvac_open_in_t)                     (* path_cache_map.find *)
| HOpenLog (inp : hvac_open_in_t)                      (* path_cache_map[redir_path], logged *)
| HOpenIndex (inp : hvac_open_in_t)                    (* path_cache_map[redir_path] *)
| HOpenCall (inp : hvac_open_in_t) (redir_path : string)      (* open *)
| HOpenRecord (inp : hvac_open_in_t) (out : hvac_open_out_t)  (* fd_to_path[...] = *)
| HRead (info_ret respond_ret : Z) (inp : hvac_rpc_in_t H)
| HSeek (inp : hvac_seek_in_t)
| HCloseCall (inp : hvac_close_in_t)                   (* close *)
| HCloseFind (inp : hvac_close_in_t)                   (* path_cache_map.find *)
| HClosePush (inp : hvac_close_in_t)                   (* lock, push, signal, unlock *)
| HCloseErase (inp : hvac_close_in_t)                  (* fd_to_path.erase *)
| HDone (a : rpc_answer).                              (* respond and return *)

(** [path_cache_map\[path\]] as a value: std::map inserts an absent key. *)
Definition index_cache (path : string) : St server string :=
  run (λ s, match path_cache_map s !! path with
            | Some q => (s, q)
            | None => (set_cache (<[path := ""]> (path_cache_map s)) s, "")
            end).

Definition handler_begin (c : rpc_call) : St server handler_pc :=
  match c with
  | CallOpen rc inp => assert_true (rc =? 0) ;; mret (HOpenFind inp)
  | CallRead ir rr inp => mret (HRead ir rr inp)
  | CallSeek rc inp => assert_true (rc =? 0) ;; mret (HSeek inp)
  | CallClose rc inp => assert_true (rc =? HG_SUCCESS) ;; mret (HCloseCall inp)
  end.

Definition handler_next (pc : handler_pc) : St server handler_pc :=
  match pc with
  | HOpenFind inp =>
      cache ← gets path_cache_map;
      mret (if cache !! open_path inp is Some _ then HOpenLog inp
            else HOpenCall inp (open_path inp))
  | HOpenLog inp => index_cache (open_path inp) ;; mret (HOpenIndex inp)
  | HOpenIndex inp => q ← index_cache (open_path inp); mret (HOpenCall inp q)
  | HOpenCall inp redir_path =>
      fd ← sys (os_open redir_path O_RDONLY); mret (HOpenRecord inp (mk_open_out fd))
  | HOpenRecord inp out =>
      modify (λ s, set_fd_to_path (<[ret_status out := open_path inp]> (fd_to_path s)) s) ;;
      mret (HDone (AnOpen inp out))
  | HRead ir rr inp => out ← hvac_rpc_handler calloc_ok ir rr inp; mret (HDone (AnRead out))
  | HSeek inp => out ← hvac_seek_rpc_handler 0 inp; mret (HDone (AnSeek out))
  | HCloseCall inp =>
      ret ← sys (os_close (close_fd inp)); assert_true (ret =? 0) ;; mret (HCloseFind inp)
  | HCloseFind inp =>
      path ← index_fd_to_path (close_fd inp);
      cache ← gets path_cache_map;
      mret (if cache !! path is Some _ then HCloseErase inp else HClosePush inp)
  | HClosePush inp =>
      path ← index_fd_to_path (close_fd inp);
      modify (λ s, cond_signal (set_queue (data_queue s ++ [path]) s)) ;;
      mret (HCloseErase inp)
  | HCloseErase inp =>
      modify (λ s, set_fd_to_path (delete (close_fd inp) (fd_to_path s)) s) ;;
      mret (HDone AnClose)
  | HIdle | HDone _ => mret pc
  end.

(** Accesses an open handler still makes. *)
Definition open_left (pc : handler_pc) : nat :=
  match pc with
  | HOpenFind _ => 5 | HOpenLog _ => 4 | HOpenIndex _ => 3 | HOpenCall _ _ => 2
  | HOpenRecord _ _ => 1 | _ => 0
  end.

(** A handler whose thread is never interrupted. *)
Fixpoint handler_alone (fuel : nat) (pc : handler_pc) : St server rpc_answer :=
  match pc, fuel with
  | HDone a, _ => mret a
  | _, O => fail Blocked
  | _, Datatypes.S n => pc' ← handler_next pc; handler_alone n pc'
  end.

(** The handler of [Server.v] for a call. *)
Definition handler_of (c : rpc_call) : St server rpc_answer :=
  match c with
  | CallOpen rc inp => out ← hvac_open_rpc_handler rc inp; mret (AnOpen inp out)
  | CallRead ir rr inp => out ← hvac_rpc_handler calloc_ok ir rr inp; mret (AnRead out)
  | CallSeek rc inp => out ← hvac_seek_rpc_handler rc inp; mret (AnSeek out)
  | CallClose rc inp => hvac_close_rpc_handler rc inp ;; mret AnClose
  end.

(** ** The node *)

(** Where the mover is within a turn of its copying loop. *)
Inductive copy_pc : Type :=
| CpIdle
| CpMade (filename : string)     (* mkdtemp done: fs::copy *)
| CpCopied (filename : string)   (* copied: path_cache_map[...] = filename *)
| CpDone.                        (* local_list.pop *)

Record node : Type := Node {
  nd_server : server;
  nd_handler : handler_pc;
  nd_copy : copy_pc
}.

Inductive fine_label : Type :=
| FBegin (c : rpc_call)             (* HG_Trigger starts a handler *)
| FHandler                          (* its next access *)
| FRespond                          (* it responds and returns *)
| FMover (e : mover_event)          (* the mover's loop around the copies *)
| FMkdtemp (chosen : option text)
| FCopy
| FInsert
| FPop.

(** One step: [None] where it cannot be taken, a fault where the server
    process ends. *)
Definition fine_run (l : fine_label) (n : node) : option (res node) :=
  let s := nd_server n in
  match l with
  | FBegin c =>
      match nd_handler n with
      | HIdle => Some match handler_begin c s with
                      | Ret (s', pc) => Ret (Node s' pc (nd_copy n))
                      | Fault f => Fault f
                      end
      | _ => None
      end
  | FHandler =>
      match nd_handler n with
      | HIdle | HDone _ => None
      | pc => Some match handler_next pc s with
                   | Ret (s', pc') => Ret (Node s' pc' (nd_copy n))
                   | Fault f => Fault f
                   end
      end
  | FRespond =>
      match nd_handler n with
      | HDone _ => Some (Ret (Node s HIdle (nd_copy n)))
      | _ => None
      end
  | FMover e =>
      match e, nd_copy n with
      | EvCopy _, _ => None
      | _, CpIdle => s' ← mover_run template e s; Some (Ret (Node s' (nd_handler n) CpIdle))
      | _, _ => None
      end
  | FMkdtemp chosen =>
      match nd_copy n, mv_pc s, local_list s with
      | CpIdle, MvCopying, front :: _ =>
          let '(p, r) := os_mkdtemp chosen template (sv_os s) in
          let target := t2s (default template r ++ slash :: filename (s2t front)) in
          Some (Ret (Node (set_os p s) (nd_handler n) (CpMade target)))
      | _, _, _ => None
      end
  | FCopy =>
      match nd_copy n, local_list s with
      | CpMade target, front :: _ =>
          Some (Ret match fs_copy front target (sv_os s) with
                    | Some p => Node (set_os p s) (nd_handler n) (CpCopied target)
                    | None => Node s (nd_handler n) CpDone
                    end)
      | _, _ => None
      end
  | FInsert =>
      match nd_copy n, local_list s with
      | CpCopied target, front :: _ =>
          Some (Ret (Node (set_cache (<[front := target]> (path_cache_map s)) s)
                          (nd_handler n) CpDone))
      | _, _ => None
      end
  | FPop =>
      match nd_copy n, local_list s with
      | CpDone, _ :: l => Some (Ret (Node (set_mover MvCopying l s) (nd_handler n) CpIdle))
      | _, _ => None
      end
  end.

Definition fine_step (l : fine_label) (n n' : node) : Prop := fine_run l n = Some (Ret n').

Fixpoint fine_runs (ls : list fine_label) (n : node) : option (res node) :=
  match ls with
  | [] => Some (Ret n)
  | l :: ls' =>
      r ← fine_run l n;
      match r with Ret n' => fine_runs ls' n' | Fault f => Some (Fault f) end
  end.

Definition fine_init (n : node) : Prop :=
  node_init (nd_server n) ∧ nd_handler n = HIdle ∧ nd_copy n = CpIdle.

(** ** Which global a thread touches next *)

Inductive global : Type := PathCacheMap | DataQueue.
Inductive access_kind : Type := Reads | Writes.

(** The global, how, and whether data_mutex is held. *)
Definition handler_access (pc : handler_pc) : option (global * access_kind * bool) :=
  match pc with
  | HOpenFind _ | HOpenLog _ | HOpenIndex _ | HCloseFind _ => Some (PathCacheMap, Reads, false)
  | HClosePush _ => Some (DataQueue, Writes, true)
  | _ => None
  end.

Definition mover_access (n : node) : option (global * access_kind * bool) :=
  match nd_copy n, mv_pc (nd_server n) with
  | CpCopied _, _ => Some (PathCacheMap, Writes, false)
  | CpIdle, MvWoken => Some (DataQueue, Writes, true)
  | _, _ => None
  end.

(** The two threads are about to touch one global, one of them to write it,
    and not both hold the mutex. *)
Definition node_races (n : node) : Prop :=
  ∃ g k1 k2 m1 m2, handler_access (nd_handler n) = Some (g, k1, m1) ∧
    mover_access n = Some (g, k2, m2) ∧ (k1 = Writes ∨ k2 = Writes) ∧ m1 && m2 = false.

(** ** What holds between the accesses *)

Definition same_bytes (s : server) (p q : string) : Prop :=
  ∃ d, content (sv_os s) p = Some d ∧ content (sv_os s) q = Some d.

(** The descriptor that is open but not yet recorded. *)
Definition unrecorded (pc : handler_pc) (f : Z) : Prop :=
  match pc with HOpenRecord _ out => ret_status out = f | _ => False end.

Definition handler_ok (pc : handler_pc) (s : server) : Prop :=
  match pc with
  | HOpenLog inp | HOpenIndex inp => is_Some (path_cache_map s !! open_path inp)
  | HOpenCall inp redir => redir = open_path inp ∨ same_bytes s (open_path inp) redir
  | HOpenRecord inp out =>
      ret_status out = -1 ∨
      ∃ o d, px_fds (sv_os s) !! ret_status out = Some o ∧
        content (sv_os s) (open_path inp) = Some d ∧ px_data (sv_os s) !! ofd_ino o = Some d
  | _ => True
  end.

Definition copy_ok (c : copy_pc) (s : server) : Prop :=
  match c with
  | CpCopied target => ∃ front l, local_list s = front :: l ∧ same_bytes s front target
  | _ => True
  end.

Record fine_inv (n : node) : Prop := {
  fi_os : posix_ok (sv_os (nd_server n));
  fi_nofile : px_nofile (sv_os (nd_server n)) ≤ 2 ^ 31;
  fi_cache : cache_coherent (nd_server n);
  fi_fds f p o : ¬ unrecorded (nd_handler n) f →
    fd_to_path (nd_server n) !! f = Some p → p ≠ "" → px_fds (sv_os (nd_server n)) !! f = Some o →
    ∃ d, content (sv_os (nd_server n)) p = Some d ∧
         px_data (sv_os (nd_server n)) !! ofd_ino o = Some d;
  fi_handler : handler_ok (nd_handler n) (nd_server n);
  fi_copy : copy_ok (nd_copy n) (nd_server n)
}.

End defs.

Global Arguments HIdle {H}.
Global Arguments FHandler {H}.
Global Arguments FRespond {H}.

(** ** Lemmas: the cut *)

Section cut.
Context {H : Mercury}.
Context (calloc_ok : Z → bool) (template : text).

Lemma index_cache_hit p q s : path_cache_map s !! p = Some q → index_cache p s = Ret (s, q).
Proof. unfold index_cache, run. by intros ->. Qed.

Lemma alone_next n pc (s : server) :
  (∀ a, pc ≠ HDone a) →
  handler_alone calloc_ok (Datatypes.S n) pc s =
  (pc' ← handler_next (H:=H) calloc_ok pc; handler_alone calloc_ok n pc') s.
Proof. intros Hd. destruct pc; try done. by destruct (Hd a). Qed.

Lemma open_find_next inp s :
  handler_next (H:=H) calloc_ok (HOpenFind inp) s =
  Ret (s, if path_cache_map s !! open_path inp is Some _ then HOpenLog inp
          else HOpenCall inp (open_path inp)).
Proof. done. Qed.

Lemma open_index_next inp s q :
  path_cache_map s !! open_path inp = Some q →
  handler_next (H:=H) calloc_ok (HOpenLog inp) s = Ret (s, HOpenIndex inp) ∧
  handler_next (H:=H) calloc_ok (HOpenIndex inp) s = Ret (s, HOpenCall inp q).
Proof.
  intros Hq. split; cbn [handler_next]; by rewrite (bind_run _ _ _ _ _ (index_cache_hit _ _ _ Hq)).
Qed.

Lemma open_call_next inp redir s p fd :
  os_open redir O_RDONLY (sv_os s) = (p, fd) →
  handler_next (H:=H) calloc_ok (HOpenCall inp redir) s =
  Ret (set_os p s, HOpenRecord inp (mk_open_out fd)).
Proof.
  intros Ho. cbn [handler_next]. unfold sys, zoom, run, mbind, St_bind. by rewrite Ho.
Qed.

Lemma alone_open inp s :
  handler_alone (H:=H) calloc_ok 6 (HOpenFind inp) s =
  (out ← hvac_open_rpc_handler 0 inp; mret (AnOpen inp out)) s.
Proof.
  assert (Hlast : ∀ n q, default (open_path inp) (path_cache_map s !! open_path inp) = q →
    handler_alone (H:=H) calloc_ok (Datatypes.S (Datatypes.S (Datatypes.S n))) (HOpenCall inp q) s =
    (out ← hvac_open_rpc_handler 0 inp; mret (AnOpen inp out)) s).
  { intros n q <-. rewrite alone_next by done.
    unfold mbind at 2, St_bind at 2. rewrite open_handler_run.
    destruct (os_open _ _ _) as [p fd] eqn:Ho.
    rewrite (bind_run _ _ _ _ _ (open_call_next _ _ _ _ _ Ho)). by destruct n. }
  rewrite alone_next by done. rewrite (bind_run _ _ _ _ _ (open_find_next inp s)).
  destruct (path_cache_map s !! open_path inp) as [q|] eqn:Hq; [|by apply Hlast].
  destruct (open_index_next inp s q Hq) as [Hlog Hidx].
  rewrite alone_next by done. rewrite (bind_run _ _ _ _ _ Hlog).
  rewrite alone_next by done. rewrite (bind_run _ _ _ _ _ Hidx). by apply Hlast.
Qed.

Lemma close_call_next inp s p r :
  os_close (close_fd inp) (sv_os s) = (p, r) →
  handler_next (H:=H) calloc_ok (HCloseCall inp) s =
  if r =? 0 then Ret (set_os p s, HCloseFind inp) else Fault AssertFailed.
Proof.
  intros Ho. cbn [handler_next]. unfold sys, zoom, run, mbind, St_bind. rewrite Ho.
  by destruct (r =? 0).
Qed.

Lemma index_fd_to_path_twice fd s s' p :
  index_fd_to_path fd s = Ret (s', p) → index_fd_to_path fd s' = Ret (s', p).
Proof.
  unfold index_fd_to_path, run. destruct (fd_to_path s !! fd) eqn:E; intros [= <- <-].
  - by rewrite E.
  - simpl. by rewrite lookup_insert_eq.
Qed.

Lemma index_fd_to_path_run fd s : ∃ s' p, index_fd_to_path fd s = Ret (s', p).
Proof. unfold index_fd_to_path, run. destruct (fd_to_path s !! fd); eauto. Qed.

Lemma alone_close inp s :
  handler_alone (H:=H) calloc_ok 6 (HCloseCall inp) s =
  (hvac_close_rpc_handler 0 inp ;; mret AnClose) s.
Proof.
  rewrite alone_next by done. unfold hvac_close_rpc_handler. rewrite bind_bind.
  erewrite (bind_run (assert_true _)) by done. rewrite bind_bind.
  destruct (os_close (close_fd inp) (sv_os s)) as [p r] eqn:Hc.
  erewrite (bind_run (sys _)) by (unfold sys, zoom, run; by rewrite Hc).
  pose proof (close_call_next inp s p r Hc) as Hn. destruct (r =? 0) eqn:Hr;
    [|rewrite (bind_Fault _ _ _ _ Hn); reflexivity].
  rewrite (bind_run _ _ _ _ _ Hn), bind_bind. erewrite (bind_run (assert_true _)) by done.
  rewrite alone_next by done. rewrite bind_bind. cbn [handler_next]. rewrite bind_bind.
  destruct (index_fd_to_path_run (close_fd inp) (set_os p s)) as (s1 & path & Hi).
  rewrite !(bind_run _ _ _ _ _ Hi). rewrite bind_bind.
  erewrite (bind_run (gets _)) by done.
  rewrite bind_bind. erewrite (bind_run (gets _)) by done.
  destruct (path_cache_map s1 !! path); [done|].
  erewrite (bind_run (mret _)) by done.
  rewrite alone_next by done. cbn [handler_next]. rewrite !bind_bind.
  by rewrite (bind_run _ _ _ _ _ (index_fd_to_path_twice _ _ _ _ Hi)).
Qed.

End cut.

(** ** Lemmas: what a handler's step leaves alone *)

Section frame.
Context {H : Mercury} {HOk : MercuryOk H}.
Context (calloc_ok : Z → bool).

(** Files only grow, and the mover's own variables are the mover's. *)
Definition frame (s s' : server) : Prop :=
  files_extend (sv_os s) (sv_os s') ∧ local_list s' = local_list s.

#[local] Instance frame_preorder : PreOrder frame.
Proof.
  split; [by intros s; split|]. intros s1 s2 s3 [? ?] [? ?]. split; [by etrans|congruence].
Qed.

Lemma frame_index fd s s' p : index_fd_to_path fd s = Ret (s', p) → frame s s'.
Proof. unfold index_fd_to_path, run. intros E. by destruct (_ !! _); simplify_eq/=. Qed.

Lemma frame_cache p s s' q : index_cache p s = Ret (s', q) → frame s s'.
Proof. unfold index_cache, run. intros E. by destruct (_ !! _); simplify_eq/=. Qed.

Lemma frame_sys {A} (f : posix → posix * A) s s' a :
  (∀ p' a', f (sv_os s) = (p', a') → files_extend (sv_os s) p') →
  sys f s = Ret (s', a) → frame s s'.
Proof.
  unfold sys, zoom, run. intros Hf. destruct (f (sv_os s)) as [p' a'] eqn:E. intros [= <- <-].
  split; [by eapply Hf|done].
Qed.

Lemma read_handler_frame ir rr inp s s' out :
  posix_ok (sv_os s) → hvac_rpc_handler (H:=H) calloc_ok ir rr inp s = Ret (s', out) → frame s s'.
Proof.
  intros Ho Hr. unfold hvac_rpc_handler in Hr. assert_in Hr.
  destruct (hg_bulk_create _) as [rc lh]. assert_in Hr.
  destruct (server_read inp (sv_os s)) as [p' [n d]] eqn:Er.
  bind_in Hr s1 r Ers. rewrite (server_read_run _ _ _ _ Er) in Ers. simplify_eq.
  bind_in Hr s2 x Ei. assert_in Hr. bind_in Hr s3 y Ecb.
  unfold hvac_rpc_handler_bulk_cb in Ecb. do 2 assert_in Ecb.
  apply mret_Ret in Ecb as [-> _]. apply mret_Ret in Hr as [-> _].
  etrans; [|by eapply frame_index]. split; [|done]. by eapply server_read_spec.
Qed.

Lemma handler_next_frame pc pc' s s' :
  posix_ok (sv_os s) → handler_next (H:=H) calloc_ok pc s = Ret (s', pc') → frame s s'.
Proof.
  intros Ho Hr. destruct pc; cbn [handler_next] in Hr;
    try (apply mret_Ret in Hr as [-> _]; done).
  - bind_in Hr s1 q E. apply mret_Ret in Hr as [-> _]. by eapply frame_cache.
  - bind_in Hr s1 q E. apply mret_Ret in Hr as [-> _]. by eapply frame_cache.
  - bind_in Hr s1 fd E. apply mret_Ret in Hr as [-> _]. eapply frame_sys, E.
    intros p' a' Hop. by eapply (os_open_spec _ O_RDONLY _ _ _ eq_refl Ho).
  - bind_in Hr s1 o E. apply mret_Ret in Hr as [-> _]. by eapply read_handler_frame.
  - bind_in Hr s1 o E. apply mret_Ret in Hr as [-> _]. unfold hvac_seek_rpc_handler in E.
    assert_in E. bind_in E s2 r Es. apply mret_Ret in E as [-> _]. eapply frame_sys, Es.
    intros p' a' Hl. by eapply (os_lseek_spec _ _ _ _ _ _ Ho).
  - bind_in Hr s1 r E. assert_in Hr. apply mret_Ret in Hr as [-> _]. eapply frame_sys, E.
    intros p' a' Hc. by eapply (os_close_spec _ _ _ _ Ho).
  - bind_in Hr s1 path E. bind_in Hr s2 cache E2. unfold gets in E2; simplify_eq.
    apply mret_Ret in Hr as [-> _]. by eapply frame_index.
  - bind_in Hr s1 path E. bind_in Hr s2 u E2. apply mret_Ret in Hr as [-> _].
    injection E2 as <- _. etrans; [by eapply frame_index|].
    unfold cond_signal. simpl. by destruct (mv_pc s1).
Qed.

Lemma copy_ok_frame c s s' : frame s s' → copy_ok c s → copy_ok c s'.
Proof.
  intros [He Hl]. destruct c; simpl; [done..| |done]. intros (front & l & Hll & d & ? & ?).
  exists front, l. split; [by rewrite Hl|]. exists d. split; by eapply content_extend.
Qed.

End frame.

(** ** Lemmas: the invariant *)

Section inv.
Context {H : Mercury} {HOk : MercuryOk H}.
Context (calloc_ok : Z → bool) (template : text).

Lemma fine_inv_server (s : server) (pc : handler_pc (H:=H)) c :
  fine_inv (Node s pc c) → (∀ f, ¬ unrecorded pc f) → server_inv s.
Proof. intros [Ho Hn Hc Hf _ _] Hset. split; [done..| |done]. intros f p o. by apply Hf, Hset. Qed.

Lemma server_inv_fine (s : server) (pc : handler_pc (H:=H)) c :
  server_inv s → handler_ok pc s → copy_ok c s → fine_inv (Node s pc c).
Proof. intros [Ho Hc Hf Hn] Hh Hcp. split; simpl; try done. intros f p o _. apply Hf. Qed.

Lemma fine_init_inv (n : node (H:=H)) : fine_init n → fine_inv n.
Proof.
  intros (Hi & Hh & Hc). destruct n as [s pc c]. simpl in *. subst.
  apply server_inv_fine; [by apply node_init_inv|done..].
Qed.

(** Nothing but descriptors changes when one is closed. *)
Lemma close_os_inv fd s s' r :
  server_inv s → sys (os_close fd) s = Ret (s', r) → server_inv s'.
Proof.
  unfold sys, zoom, run. intros [Ho Hc Hf Hn]. destruct (os_close fd (sv_os s)) as [p a] eqn:E.
  intros [= <- <-]. destruct (os_close_spec _ _ _ _ Ho E) as (He & _ & Hnf & Hok & Hfds & _).
  split; simpl; [done| | |congruence].
  - by apply (cache_coherent_extend s).
  - apply (fds_faithful_extend s); [done| |done]. simpl.
    intros f p' o. rewrite Hfds. intros ? _ [_ ?]%lookup_delete_Some. eauto.
Qed.

Lemma erase_inv fd s :
  server_inv s → server_inv (set_fd_to_path (delete fd (fd_to_path s)) s).
Proof.
  intros [Ho Hc Hf Hn]. split; try done. intros f p o. simpl. intros [_ ?]%lookup_delete_Some. by apply Hf.
Qed.

Lemma cond_signal_inv s : server_inv s → server_inv (cond_signal s).
Proof. intros Hi. unfold cond_signal. destruct (mv_pc s); try done. by apply set_mover_inv. Qed.

(** The open between the lookup and the record. *)
Lemma open_call_inv inp redir (s s' : server) pc' c :
  fine_inv (H:=H) (Node s (HOpenCall inp redir) c) →
  handler_next calloc_ok (HOpenCall inp redir) s = Ret (s', pc') → copy_ok c s' →
  fine_inv (Node s' pc' c).
Proof.
  intros Hi Hr Hc'. pose proof (fine_inv_server _ _ _ Hi (λ f Hf, Hf)) as [Ho Hc Hf Hn].
  pose proof (fi_handler _ Hi) as Hh. simpl in Hh. clear Hi.
  destruct (os_open redir O_RDONLY (sv_os s)) as [p fd] eqn:E.
  rewrite (open_call_next _ _ _ _ _ _ E) in Hr. simplify_eq.
  destruct (os_open_spec _ O_RDONLY _ _ _ eq_refl Ho E) as (He & _ & Hnf & Hok & Hcase).
  split; simpl; [done|congruence|by apply (cache_coherent_extend s)| | |done].
  - intros f q o Hne Hq Hq0 Hfo. destruct (px_fds (sv_os s) !! f) as [o'|] eqn:Hold.
    + destruct (Hf _ _ _ Hq Hq0 Hold) as (d & Hd1 & Hd2). exists d.
      assert (o' = o) as ->.
      { destruct Hcase as [[_ ->]|(i & _ & Hfree & _ & Hfds & _)]; [congruence|].
        rewrite Hfds, lookup_insert_ne in Hfo by congruence. congruence. }
      split; [by eapply content_extend|]. destruct He as [_ He]. by eapply lookup_weaken.
    + destruct Hcase as [[_ ->]|(i & ? & _ & _ & Hfds & _)]; [congruence|].
      rewrite Hfds, lookup_insert_Some in Hfo. destruct Hfo as [[<- _]|[_ ?]]; [|congruence].
      destruct Hne. apply to_int32_id. lia.
  - destruct Hcase as [[-> ->]|(i & ? & _ & Hi & Hfds & Hcont)]; [by left|right].
    rewrite to_int32_id by lia. rewrite Hfds, lookup_insert_eq.
    destruct (ok_paths _ Ho _ _ Hi) as [d Hd].
    assert (Hred : content (sv_os s) redir = Some d) by (unfold content; by rewrite Hi).
    eexists _, d. split_and!; [done| |].
    + apply (content_extend _ _ _ _ He).
      destruct Hh as [<-|(d' & Hp & Hq)]; [done|congruence].
    + simpl. destruct He as [_ He]. by eapply lookup_weaken.
Qed.

Lemma open_record_inv inp out (s : server) c :
  fine_inv (H:=H) (Node s (HOpenRecord inp out) c) →
  server_inv (set_fd_to_path (<[ret_status out := open_path inp]> (fd_to_path s)) s).
Proof.
  intros [Ho Hn Hc Hf Hh _]. simpl in *. split; simpl; try done.
  intros f p o. simpl. rewrite lookup_insert_Some. intros [[<- <-]|[Hne Hp]] Hp0 Hfo.
  - destruct Hh as [Hm|(o' & d & ? & ? & ?)]; [|exists d; split; congruence].
    destruct (ok_fds _ Ho _ _ Hfo) as (_ & ? & _). lia.
  - by eapply Hf.
Qed.

Lemma handler_next_inv pc pc' (s s' : server) c :
  fine_inv (H:=H) (Node s pc c) → handler_next calloc_ok pc s = Ret (s', pc') →
  fine_inv (Node s' pc' c).
Proof.
  intros Hi Hr. pose proof (fi_os _ Hi) as Ho. simpl in Ho.
  pose proof (copy_ok_frame _ _ _ (handler_next_frame _ _ _ _ _ Ho Hr) (fi_copy _ Hi)) as Hc.
  pose proof (fi_handler _ Hi) as Hh. simpl in Hh.
  destruct pc as [|inp|inp|inp|inp redir|inp out|ir rr inp|inp|inp|inp|inp|inp|a];
    try (apply mret_Ret in Hr as [-> ->]; done);
    try (pose proof (fine_inv_server _ _ _ Hi (λ f Hf, Hf)) as Hs).
  - injection Hr as <- <-. apply server_inv_fine; try done.
    destruct (path_cache_map s !! open_path inp) eqn:E; simpl; eauto.
  - destruct Hh as [q Hq]. destruct (open_index_next calloc_ok inp s q Hq) as [Hl _].
    rewrite Hl in Hr. simplify_eq. apply server_inv_fine; try done. by exists q.
  - destruct Hh as [q Hq]. destruct (open_index_next calloc_ok inp s q Hq) as [_ Hl].
    rewrite Hl in Hr. simplify_eq. apply server_inv_fine; try done. right. by apply si_cache.
  - by eapply open_call_inv.
  - injection Hr as <- <-. apply server_inv_fine; try done. by eapply open_record_inv.
  - cbn [handler_next] in Hr. bind_in Hr s1 o E. apply mret_Ret in Hr as [-> ->].
    apply server_inv_fine; try done. by eapply read_handler_inv.
  - cbn [handler_next] in Hr. bind_in Hr s1 o E. apply mret_Ret in Hr as [-> ->].
    apply server_inv_fine; try done. by eapply seek_handler_inv.
  - cbn [handler_next] in Hr. bind_in Hr s1 r E. assert_in Hr. apply mret_Ret in Hr as [-> ->].
    apply server_inv_fine; try done. by eapply close_os_inv.
  - cbn [handler_next] in Hr. bind_in Hr s1 path E. apply index_fd_to_path_inv in E as [Hs1 _]; [|done].
    injection Hr as <- <-. apply server_inv_fine; try done. by destruct (path_cache_map s1 !! path).
  - cbn [handler_next] in Hr. bind_in Hr s1 path E. apply index_fd_to_path_inv in E as [Hs1 _]; [|done].
    injection Hr as <- <-. apply server_inv_fine; try done. by apply cond_signal_inv, set_queue_inv.
  - injection Hr as <- <-. apply server_inv_fine; try done. by apply erase_inv.
Qed.

End inv.

(** ** Lemmas: the mover's steps *)

Section mover_steps.
Context {H : Mercury} {HOk : MercuryOk H}.
Context (calloc_ok : Z → bool) (template : text).

(** What the mover's thread may do under a handler's feet. *)
Record mover_frame (s s' : server) : Prop := {
  mf_os : posix_ok (sv_os s');
  mf_files : files_extend (sv_os s) (sv_os s');
  mf_fds : px_fds (sv_os s') = px_fds (sv_os s) ∧ px_nofile (sv_os s') = px_nofile (sv_os s);
  mf_table : fd_to_path s' = fd_to_path s;
  mf_cache p : is_Some (path_cache_map s !! p) → is_Some (path_cache_map s' !! p)
}.

Lemma same_bytes_extend (s s' : server) p q :
  files_extend (sv_os s) (sv_os s') → same_bytes s p q → same_bytes s' p q.
Proof. intros He (d & ? & ?). exists d. split; by eapply content_extend. Qed.

Lemma mover_frame_inv s s' (pc : handler_pc (H:=H)) c c' :
  fine_inv (Node s pc c) → mover_frame s s' → cache_coherent s' → copy_ok c' s' →
  fine_inv (Node s' pc c').
Proof.
  intros [Ho Hn Hc Hf Hh _] [Ho' He [Hfd Hnf] Ht Hca] Hc' Hcp. simpl in *.
  split; simpl; try done; [congruence| |].
  - rewrite Ht, Hfd. intros f p o Hu Hp Hp0 Hfo. destruct (Hf f p o Hu Hp Hp0 Hfo) as (d & ? & ?).
    exists d. split; [by eapply content_extend|]. destruct He as [_ He]. by eapply lookup_weaken.
  - destruct pc as [|inp|inp|inp|inp redir|inp out| | | | | | |]; simpl in *; try done; try (by apply Hca).
    + destruct Hh as [?|?]; [by left|right]. by eapply same_bytes_extend.
    + rewrite Hfd. destruct Hh as [?|(o & d & ? & ? & ?)]; [by left|right].
      exists o, d. split_and!; [done|by eapply content_extend|].
      destruct He as [_ He]. by eapply lookup_weaken.
Qed.

Lemma loop_frame e s s' :
  (∀ chosen, e ≠ EvCopy chosen) → mover_run template e s = Some s' →
  sv_os s' = sv_os s ∧ fd_to_path s' = fd_to_path s ∧ path_cache_map s' = path_cache_map s.
Proof.
  unfold mover_run. intros Hne E.
  destruct e as [| | |chosen|], (mv_pc s), (local_list s); simplify_eq; try done;
    try (by destruct (Hne chosen)); destruct (drain _ _); by simplify_eq.
Qed.

(** Whose step it is. *)
Definition is_mover (l : fine_label (H:=H)) : bool :=
  match l with FBegin _ | FHandler | FRespond => false | _ => true end.

Lemma mover_step_frame l (n n' : node (H:=H)) :
  is_mover l = true → fine_step calloc_ok template l n n' → fine_inv n →
  nd_handler n' = nd_handler n ∧ mover_frame (nd_server n) (nd_server n') ∧
  cache_coherent (nd_server n') ∧ copy_ok (nd_copy n') (nd_server n').
Proof.
  unfold fine_step. intros Hl Hr Hi. destruct n as [s pc c].
  pose proof (fi_os _ Hi) as Ho. pose proof (fi_cache _ Hi) as Hca. simpl in Ho, Hca.
  destruct l as [cl| | |e|chosen| | |]; try done; clear Hl;
    cbn [fine_run nd_server nd_handler nd_copy] in Hr.
  - assert (∃ s1, mover_run template e s = Some s1 ∧ (∀ ch, e ≠ EvCopy ch) ∧ n' = Node s1 pc CpIdle)
      as (s1 & E & Hne & ->).
    { destruct e, c; try done; apply bind_Some in Hr as (s1 & ? & ?); simplify_eq; eauto. }
    destruct (loop_frame _ _ _ Hne E) as (Hos & Ht & Hcm). simpl. split_and!; try done.
    + split; rewrite ?Hos, ?Hcm; done.
    + by apply (cache_coherent_extend s); [rewrite Hos|..].
  - destruct c, (mv_pc s), (local_list s) as [|front l]; try done.
    destruct (os_mkdtemp _ _ _) as [p r] eqn:E. simplify_eq/=.
    destruct (os_mkdtemp_spec _ _ _ _ _ Ho E) as (He & Hok & Hfd & Hn & _).
    split_and!; [done|by split|by apply (cache_coherent_extend s)|done].
  - destruct c as [|target| |]; try done. destruct (local_list s) as [|front l] eqn:El; try done.
    destruct (fs_copy front target (sv_os s)) as [p|] eqn:E; simplify_eq/=; [|done].
    destruct (fs_copy_spec _ _ _ _ Ho E) as (d & Hd & Hd2 & _ & He & Hok & Hfd & _ & Hn).
    split_and!; [done|by split|by apply (cache_coherent_extend s)|].
    exists front, l. split; [done|]. exists d. split; [exact (content_extend _ _ _ _ He Hd)|done].
  - destruct c as [| |target|]; try done. pose proof (fi_copy _ Hi) as Hcp. simpl in Hcp.
    destruct Hcp as (front & l & El & Hsame). rewrite El in Hr. simplify_eq/=.
    split_and!; [done| | |done].
    + split; try done. intros p Hp. simpl. rewrite lookup_insert. by case_decide.
    + intros p q. simpl. rewrite lookup_insert_Some. intros [[<- <-]|[_ Hq]]; [done|by apply Hca].
  - destruct c; try done. destruct (local_list s) as [|front l]; try done. by simplify_eq/=.
Qed.

Lemma fine_runs_steps ls (n n' : node (H:=H)) :
  fine_runs calloc_ok template ls n = Some (Ret n') → steps (fine_step calloc_ok template) ls n n'.
Proof.
  revert n. induction ls as [|l ls IH]; intros n Hr.
  - injection Hr as ->. constructor.
  - cbn [fine_runs] in Hr. apply bind_Some in Hr as (r & Hl & Hr). destruct r as [n1|]; [|done].
    by apply steps_cons with (s2 := n1); [|apply IH].
Qed.

Lemma fine_handler (s : server) pc c (n' : node (H:=H)) :
  fine_step calloc_ok template FHandler (Node s pc c) n' →
  ∃ s' pc', handler_next calloc_ok pc s = Ret (s', pc') ∧ n' = Node s' pc' c.
Proof.
  unfold fine_step. cbn [fine_run nd_server nd_handler nd_copy]. intros Hr.
  assert (match handler_next calloc_ok pc s with
          | Ret (s', pc') => Ret (Node s' pc' c) | Fault f => Fault f end = Ret n')
    by (destruct pc; try done; by apply (inj Some) in Hr).
  destruct (handler_next calloc_ok pc s) as [[s1 pc1]|]; simplify_eq. by exists s1, pc1.
Qed.

Lemma fine_handler_run (s s' : server) pc pc' c :
  (0 < open_left pc)%nat → handler_next (H:=H) calloc_ok pc s = Ret (s', pc') →
  fine_step calloc_ok template FHandler (Node s pc c) (Node s' pc' c).
Proof.
  intros Hpc Hn. unfold fine_step.
  assert (fine_run calloc_ok template FHandler (Node s pc c) = Some
    match handler_next calloc_ok pc s with
    | Ret (s', pc') => Ret (Node s' pc' c) | Fault f => Fault f end) as ->
    by (destruct pc; try done; simpl in Hpc; lia).
  by rewrite Hn.
Qed.

Lemma fine_step_inv l (n n' : node (H:=H)) :
  fine_step calloc_ok template l n n' → fine_inv n → fine_inv n'.
Proof.
  intros Hr Hi. destruct n as [s pc c]. destruct (is_mover l) eqn:Hl.
  { destruct (mover_step_frame _ _ _ Hl Hr Hi) as (Hpc & Hf & Hc & Hcp).
    destruct n' as [s' pc' c']. simpl in *. subst pc'. by eapply mover_frame_inv. }
  destruct l; try done.
  - unfold fine_step in Hr. cbn [fine_run nd_server nd_handler nd_copy] in Hr.
    destruct pc; try done. injection Hr as Hr.
    destruct (handler_begin c0 s) as [[s1 pc1]|] eqn:E; simplify_eq.
    assert (s1 = s ∧ handler_ok pc1 s) as [-> Hok].
    { destruct c0; cbn [handler_begin] in E; try assert_in E;
        by apply mret_Ret in E as [-> ->]. }
    apply server_inv_fine; [exact (fine_inv_server _ _ _ Hi (λ f Hf, Hf))|done|].
    apply (fi_copy _ Hi).
  - destruct (fine_handler _ _ _ _ Hr) as (s1 & pc1 & E & ->). by eapply handler_next_inv.
  - unfold fine_step in Hr. simpl in Hr. destruct pc; simplify_eq. apply server_inv_fine; [|done|apply (fi_copy _ Hi)].
    exact (fine_inv_server _ _ _ Hi (λ f Hf, Hf)).
Qed.

(** A turn of the copying loop that no handler interrupts. *)
Lemma turn_runs chosen x l s pc :
  mv_pc s = MvCopying → local_list s = x :: l →
  fine_runs (H:=H) calloc_ok template
    (FMkdtemp chosen :: FCopy ::
     (let '(p, r) := os_mkdtemp chosen template (sv_os s) in
      if fs_copy x (t2s (default template r ++ slash :: filename (s2t x))) p is Some _
      then [FInsert; FPop] else [FPop])) (Node s pc CpIdle) =
  Some (Ret (Node (set_mover MvCopying l (copy_front template chosen x s)) pc CpIdle)).
Proof.
  intros Hpc Hl. cbn [fine_runs fine_run nd_server nd_copy nd_handler]. rewrite Hpc, Hl.
  unfold copy_front. destruct (os_mkdtemp _ _ _) as [p r].
  set (target := t2s _). simpl. rewrite Hl. simpl.
  destruct (fs_copy x target p) as [p'|]; simpl; rewrite Hl; simpl; [rewrite Hl|]; done.
Qed.

End mover_steps.

(** ** Lemmas: an open that is under way *)

Section opening.
Context {H : Mercury} {HOk : MercuryOk H}.
Context (calloc_ok : Z → bool) (template : text).

(** The open of a file with the bytes [d], which will get descriptor [f]. *)
Definition opening (inp : hvac_open_in_t) (d : bytes) (f : Z) (pc : handler_pc (H:=H))
    (s : server) : Prop :=
  content (sv_os s) (open_path inp) = Some d ∧
  let before i := i = inp ∧ first_free (px_fds (sv_os s)) = f ∧ f < px_nofile (sv_os s) in
  let after i out := i = inp ∧ ret_status out = f ∧
    ∃ ino, px_fds (sv_os s) !! f = Some (Ofd ino O_RDONLY 0) ∧
           px_data (sv_os s) !! ino = Some d in
  match pc with
  | HOpenFind i | HOpenLog i | HOpenIndex i => before i
  | HOpenCall i redir => before i ∧ content (sv_os s) redir = Some d
  | HOpenRecord i out | HDone (AnOpen i out) => after i out
  | _ => False
  end.

Lemma opening_frame inp d f pc s s' :
  mover_frame s s' → opening inp d f pc s → opening inp d f pc s'.
Proof.
  intros [_ He [Hfd Hnf] _ _] [Hd Hpc]. split; [by eapply content_extend|].
  pose proof He as [_ Hdata].
  destruct pc as [| | | | | | | | | | | |[| | |]]; try done; rewrite ?Hfd, ?Hnf; try done.
  - destruct Hpc as [? ?]. split; [done|by eapply content_extend].
  - destruct Hpc as (? & ? & ino & ? & ?). split_and!; try done. exists ino.
    split; [done|by eapply lookup_weaken].
  - destruct Hpc as (? & ? & ino & ? & ?). split_and!; try done. exists ino.
    split; [done|by eapply lookup_weaken].
Qed.

Lemma opening_next inp d f pc s c :
  fine_inv (Node s pc c) → opening inp d f pc s →
  (∃ out, pc = HDone (AnOpen inp out)) ∨
  ∃ s' pc', handler_next calloc_ok pc s = Ret (s', pc') ∧ opening inp d f pc' s' ∧
    (open_left pc' < open_left pc)%nat.
Proof.
  intros Hi [Hd Hpc]. pose proof (fi_handler _ Hi) as Hh. simpl in Hh.
  pose proof (fi_cache _ Hi) as Hca. simpl in Hca.
  destruct pc as [|i|i|i|i redir|i out| | | | | | |[i out| | |]]; try done.
  - right. destruct Hpc as (-> & Hf & Hlt). eexists _, _. split; [by apply open_find_next|].
    destruct (path_cache_map s !! open_path inp); simpl; (split; [by split_and!|lia]).
  - right. destruct Hpc as (-> & Hf & Hlt). destruct Hh as [q Hq].
    eexists _, _. split; [by apply (open_index_next _ _ _ q)|]. simpl. split; [by split_and!|lia].
  - right. destruct Hpc as (-> & Hf & Hlt). destruct Hh as [q Hq].
    eexists _, _. split; [by apply (open_index_next _ _ _ q)|]. simpl. split; [|lia].
    destruct (Hca _ _ Hq) as (d' & Hp & Hq'). assert (d' = d) as -> by congruence.
    by split_and!.
  - right. destruct Hpc as ((-> & Hf & Hlt) & Hred).
    pose proof (fi_os _ Hi) as Ho. pose proof (fi_nofile _ Hi) as Hn. simpl in Ho, Hn.
    pose proof (first_free_nonneg (px_fds (sv_os s))).
    unfold content in Hred. destruct (px_paths (sv_os s) !! redir) as [ino|] eqn:Hino; [|done].
    assert (Hop : os_open redir O_RDONLY (sv_os s) =
      (set_fds (<[f := Ofd ino O_RDONLY 0]> (px_fds (sv_os s))) (sv_os s), f)).
    { rewrite os_open_plain by done. rewrite Hf. cbv zeta.
      destruct (Z.leb_spec (px_nofile (sv_os s)) f); [lia|]. by rewrite Hino. }
    eexists _, _. split; [by apply open_call_next|]. simpl. split; [|lia].
    split; [done|]. simpl. rewrite to_int32_id by lia. rewrite lookup_insert_eq.
    split_and!; [done..|]. by exists ino.
  - right. eexists _, _. split; [done|]. simpl. split; [by split|lia].
  - left. destruct Hpc as (-> & _). by exists out.
Qed.

(** Whatever the mover does, an open stays on its way. *)
Lemma opening_steps inp d f ls (n n' : node (H:=H)) :
  steps (fine_step calloc_ok template) ls n n' → FRespond ∉ ls → fine_inv n →
  opening inp d f (nd_handler n) (nd_server n) →
  fine_inv n' ∧ opening inp d f (nd_handler n') (nd_server n').
Proof.
  intros Hs. induction Hs as [n|ls l n n1 n2 _ IH Hl]; [done|].
  intros [Hls Hne]%not_elem_of_app Hi Ho. destruct (IH Hls Hi Ho) as [Hi1 Ho1]. clear IH.
  split; [by eapply fine_step_inv|]. destruct (is_mover l) eqn:Hm.
  { destruct (mover_step_frame _ _ _ _ _ Hm Hl Hi1) as (-> & Hf & _). by eapply opening_frame. }
  destruct n1 as [s pc c]. destruct l; try done.
  - unfold fine_step in Hl. cbn [fine_run nd_server nd_handler nd_copy] in *. destruct pc; try done. by destruct Ho1.
  - destruct (fine_handler _ _ _ _ _ _ Hl) as (s2 & pc2 & E & ->).
    destruct (opening_next _ _ _ _ _ _ Hi1 Ho1) as [(out & ->)|(s1 & pc1 & Hn & Ho2 & _)]; [done|].
    rewrite Hn in E. by simplify_eq.
  - set_solver.
Qed.

End opening.

(** ** Properties *)

(** A file is opened and closed; the mover has copied it and is about to
    record the copy when the file is opened again. *)
Definition ex_race {H : Mercury} : list (fine_label (H:=H)) :=
  [FMover EvWait; FBegin (CallOpen 0 {| open_path := ex_path |}); FHandler; FHandler;
   FHandler; FRespond; FBegin (CallClose 0 {| close_fd := 1 |}); FHandler; FHandler; FHandler;
   FHandler; FRespond; FMover EvDrain; FMkdtemp (Some (s2t "Ab3xYz")); FCopy;
   FBegin (CallOpen 0 {| open_path := ex_path |})].

Section properties.
Context {H : Mercury} {HOk : MercuryOk H}.
Context (calloc_ok : Z → bool) (template : text).

(** C26. The cut is the code: a handler that is not interrupted, one access
    after the other, is the handler of [Server.v] on every branch, and a turn
    of the mover's loop that is not interrupted is [copy_front]. *)
Theorem uninterrupted_node_is_the_node :
  (∀ c s, (pc ← handler_begin (H:=H) c; handler_alone calloc_ok 6 pc) s =
          handler_of calloc_ok c s) ∧
  (∀ chosen x l s pc, mv_pc s = MvCopying → local_list s = x :: l →
    ∃ ls, forallb is_mover ls = true ∧
      fine_runs (H:=H) calloc_ok template ls (Node s pc CpIdle) =
        Some (Ret (Node (set_mover MvCopying l (copy_front template chosen x s)) pc CpIdle))).
Proof.
  split.
  - intros [rc inp|ir rr inp|rc inp|rc inp] s; cbn [handler_begin handler_of].
    + rewrite bind_bind. unfold assert_true at 1. destruct (rc =? 0) eqn:Hrc.
      * erewrite (bind_run (mret _)) by done. erewrite (bind_run (mret _)) by done.
        rewrite alone_open. apply Z.eqb_eq in Hrc as ->. done.
      * unfold hvac_open_rpc_handler. rewrite Hrc. done.
    + erewrite (bind_run (mret _)) by done. rewrite alone_next by done. cbn [handler_next].
      by rewrite bind_bind.
    + rewrite bind_bind. unfold assert_true at 1. destruct (rc =? 0) eqn:Hrc.
      * erewrite (bind_run (mret _)) by done. erewrite (bind_run (mret _)) by done.
        rewrite alone_next by done. cbn [handler_next]. apply Z.eqb_eq in Hrc as ->.
        by rewrite bind_bind.
      * unfold hvac_seek_rpc_handler. rewrite Hrc. done.
    + rewrite bind_bind. unfold assert_true at 1. destruct (rc =? HG_SUCCESS) eqn:Hrc.
      * erewrite (bind_run (mret _)) by done. erewrite (bind_run (mret _)) by done.
        rewrite alone_close. apply Z.eqb_eq in Hrc as ->. done.
      * unfold hvac_close_rpc_handler. rewrite Hrc. done.
  - intros chosen x l s pc Hpc Hl. eexists. split; [|by apply turn_runs].
    destruct (os_mkdtemp _ _ _) as [p r]. by destruct (fs_copy _ _ _).
Qed.

(** C9. With the mover running between any two accesses of a handler, and a
    handler between any two of the mover's, the cache still only redirects a
    path to a file with the same bytes, and whenever no handler is between
    its open and its record every descriptor handed out reads the bytes of
    its path. *)
Theorem interleaved_node_coherent (n : node (H:=H)) :
  reachable (fine_step calloc_ok template) fine_init n →
  cache_coherent (nd_server n) ∧
  ((∀ inp out, nd_handler n ≠ HOpenRecord inp out) → fds_faithful (nd_server n)).
Proof.
  intros Hr. assert (fine_inv n) as Hi.
  { revert Hr. apply (reachable_inv (fine_step calloc_ok template)); [apply fine_init_inv|].
    intros l n1 n2 ? ?. by eapply fine_step_inv. }
  split; [apply (fi_cache _ Hi)|]. intros Hn f p o Hp Hp0 Hfo. eapply (fi_fds _ Hi); try done.
  intros Hu. destruct (nd_handler n) as [| | | | |i r| | | | | | |] eqn:E; try done. by destruct (Hn i r).
Qed.

(** C24. An open races the mover and still serves the right bytes: from the
    moment its handler starts, whatever the mover does meanwhile, the handler
    can always take its next access, has at most five, and ends with the
    descriptor that was free, every read of which finds the requested path's
    bytes. *)
Theorem interleaved_open_serves_bytes inp d ls (n n' : node (H:=H)) :
  reachable (fine_step calloc_ok template) fine_init n →
  nd_handler n = HOpenFind inp → content (sv_os (nd_server n)) (open_path inp) = Some d →
  first_free (px_fds (sv_os (nd_server n))) < px_nofile (sv_os (nd_server n)) →
  steps (fine_step calloc_ok template) ls n n' → FRespond ∉ ls →
  (open_left (nd_handler n') ≤ 5)%nat ∧
  ((∃ n2, fine_step calloc_ok template FHandler n' n2 ∧
     (open_left (nd_handler n2) < open_left (nd_handler n'))%nat) ∨
   ∃ out, nd_handler n' = HDone (AnOpen inp out) ∧
     ret_status out = first_free (px_fds (sv_os (nd_server n))) ∧
     ∀ count off, 0 ≤ off → os_pread (ret_status out) count off (sv_os (nd_server n')) =
       (n_read d off count, slice d off (n_read d off count))).
Proof.
  intros Hr Hpc Hd Hfree Hs Hls.
  assert (fine_inv n) as Hi.
  { revert Hr. apply (reachable_inv (fine_step calloc_ok template)); [apply fine_init_inv|].
    intros l n1 n2 ? ?. by eapply fine_step_inv. }
  destruct (opening_steps calloc_ok template inp d
    (first_free (px_fds (sv_os (nd_server n)))) ls n n' Hs Hls Hi) as [Hi' Ho'].
  { split; [done|]. by rewrite Hpc. }
  split; [destruct (nd_handler n'); simpl; lia|].
  destruct n' as [s' pc' c']. simpl in *.
  destruct (opening_next calloc_ok _ _ _ _ _ _ Hi' Ho')
    as [(out & ->)|(s2 & pc2 & Hn & _ & Hlt)].
  - right. exists out. destruct Ho' as (_ & _ & Hret & ino & Hfd & Hdata).
    split_and!; [done..|]. intros count off Hoff. unfold os_pread. rewrite Hret, Hfd. simpl.
    rewrite Hdata. unfold readable. simpl. by rewrite (proj2 (Z.leb_le 0 off)).
  - left. exists (Node s2 pc2 c'). split; [|done]. apply fine_handler_run; [lia|done].
Qed.

(** C36. path_cache_map is shared without a lock: a node reaches a state in
    which the mover is about to insert into it while an open handler is about
    to look it up; and this is the only kind of data race, since data_queue
    is only touched under the mutex. *)
Theorem path_cache_map_races :
  (∀ n : node (H:=H), node_races n →
     handler_access (nd_handler n) = Some (PathCacheMap, Reads, false) ∧
     ∃ target, nd_copy n = CpCopied target) ∧
  (∃ n : node (H:=H), reachable (fine_step calloc_ok ex_template) fine_init n ∧ node_races n).
Proof.
  split.
  - intros n (g & k1 & k2 & m1 & m2 & H1 & H2 & Hk & Hm). unfold mover_access in H2.
    destruct (nd_handler n), (nd_copy n), (mv_pc (nd_server n)); simplify_eq/=; eauto.
  - set (ls := ex_race).
    assert (match fine_runs (H:=H) calloc_ok ex_template ls (Node ex_node HIdle CpIdle) with
            | Some (Ret n) => handler_access (nd_handler n) = Some (PathCacheMap, Reads, false) ∧
                              mover_access n = Some (PathCacheMap, Writes, false)
            | _ => False end) as Hn by (vm_compute; by split).
    destruct (fine_runs calloc_ok ex_template ls _) as [[n|]|] eqn:E; [|destruct Hn..].
    exists n. split.
    + exists (Node ex_node HIdle CpIdle), ls. split; [|by apply fine_runs_steps].
      split; [exact ex_node_init|split; reflexivity].
    + destruct Hn as [Hh Hm]. exists PathCacheMap, Reads, Writes, false, false. auto.
Qed.

End properties.

(** ** Witnesses *)

Abbreviation ex_fine_runs := (fine_runs (H:=sized_mercury) (λ _, true) ex_template).

(** The node at the race. *)
Definition ex_race_node : node (H:=sized_mercury) :=
  match ex_fine_runs ex_race (Node ex_node HIdle CpIdle) with
  | Some (Ret n) => n
  | _ => Node ex_node HIdle CpIdle
  end.

Lemma ex_race_reachable :
  reachable (fine_step (H:=sized_mercury) (λ _, true) ex_template) fine_init ex_race_node.
Proof.
  exists (Node ex_node HIdle CpIdle), ex_race. split; [split; [apply ex_node_init|done]|].
  apply fine_runs_steps. vm_compute. reflexivity.
Qed.

Lemma uninterrupted_node_is_the_node_witness :
  ∃ ls, ex_fine_runs ls (Node (set_mover MvCopying [ex_path] ex_node) HIdle CpIdle) =
    Some (Ret (Node (set_mover MvCopying [] (copy_front ex_template None ex_path
      (set_mover MvCopying [ex_path] ex_node))) HIdle CpIdle)).
Proof.
  destruct (uninterrupted_node_is_the_node (H:=sized_mercury) (λ _, true) ex_template) as [_ Ht].
  destruct (Ht None ex_path [] (set_mover MvCopying [ex_path] ex_node) HIdle) as (ls & _ & Hr);
    [reflexivity|reflexivity|]. exists ls. exact Hr.
Defined.

Lemma interleaved_node_coherent_witness :
  cache_coherent (nd_server ex_race_node) ∧ fds_faithful (nd_server ex_race_node).
Proof.
  destruct (interleaved_node_coherent (H:=sized_mercury) (λ _, true) ex_template
    ex_race_node ex_race_reachable) as [Hc Hf].
  split; [exact Hc|]. apply Hf. intros inp out. vm_compute. discriminate.
Defined.

(** The lookup misses the copy that is then recorded, and the open goes on. *)
Lemma interleaved_open_serves_bytes_witness :
  ∃ n' out, ex_fine_runs [FHandler; FInsert; FHandler; FPop; FHandler] ex_race_node =
      Some (Ret n') ∧
    nd_handler n' = HDone (AnOpen {| open_path := ex_path |} out) ∧
    os_pread (ret_status out) 4 7 (sv_os (nd_server n')) = (3, s2t "789").
Proof.
  destruct (ex_fine_runs [FHandler; FInsert; FHandler; FPop; FHandler] ex_race_node)
    as [[n'|]|] eqn:E; [|vm_compute in E; discriminate..].
  destruct (interleaved_open_serves_bytes (H:=sized_mercury) (HOk:=sized_mercury_ok) (λ _, true) ex_template
    {| open_path := ex_path |} ex_bytes [FHandler; FInsert; FHandler; FPop; FHandler]
    ex_race_node n') as (_ & [(n2 & _ & Hlt)|(out & Hout & _ & Hread)]).
  - apply ex_race_reachable.
  - reflexivity.
  - reflexivity.
  - reflexivity.
  - apply fine_runs_steps. exact E.
  - intros Hin. repeat (apply elem_of_cons in Hin as [Hin|Hin]; [discriminate Hin|]).
    by apply elem_of_nil in Hin.
  - exfalso. assert (open_left (nd_handler n') = 0%nat) as Hz; [|rewrite Hz in Hlt; lia].
    clear Hlt. vm_compute in E. by simplify_eq.
  - exists n', out. split; [reflexivity|]. split; [exact Hout|]. by rewrite Hread.
Defined.

Lemma path_cache_map_races_witness : ∃ target, nd_copy ex_race_node = CpCopied target.
Proof.
  refine (proj2 (proj1 (path_cache_map_races (H:=sized_mercury) (λ _, true))
    ex_race_node _)).
  exists PathCacheMap, Reads, Writes, false, false.
  split; [reflexivity|]. split; [reflexivity|]. split; [right; reflexivity|reflexivity].
Defined.
