(* ===== verification/AddrFile.v ===== *)
(** * The address file

    Servers post their Mercury address in [./.ports.cfg.<job>] and clients
    find a server by its rank there: [hvac_comm_list_addr] of
    [src/src/mthvac_comm.cpp] and the file part of
    [hvac_client_comm_lookup_addr] of [src/src/mthvac_comm_client.cpp]. *)

From S2P Require Import Prelude CText Posix.
From Stdlib Require Import Ascii.

Local Open Scope Z_scope.

(** sprintf(filename, "./.ports.cfg.%s", jobid); glibc prints a NULL string as
    (null). *)
Definition ports_file (jobid : option text) : string :=
  t2s (s2t "./.ports.cfg." ++ default (s2t "(null)") jobid).

(** ** The server's side *)

(** fprintf(na_config, "%d %s\n", hvac_server_rank, self_addr_string) *)
Definition print_entry (rank : Z) (addr : text) : text :=
  print_d rank ++ [sp] ++ addr ++ [nl].

(** fopen(path, "a+"), one fprintf, fclose; [None] when fopen fails. *)
Definition append_file (path : string) (line : text) (p : posix) : option posix :=
  match px_paths p !! path with
  | Some i => Some (set_data (alter (λ d, d ++ line) i (px_data p)) p)
  | None =>
      if bool_decide (t2s (parent_path (s2t path)) ∈ px_dirs p)
      then Some (add_file path (fresh (dom (px_data p))) line p) else None
  end.

(** Post this server's address, or exit(0). *)
Definition hvac_comm_list_addr (jobid : option text) (hvac_server_rank : Z)
    (self_addr_string : text) : St posix unit := λ p,
  match append_file (ports_file jobid) (print_entry hvac_server_rank self_addr_string) p with
  | Some p' => Ret (p', tt)
  | None => Fault (Exited 0)
  end.

(** ** The client's side *)

(** fscanf(na_config, "%d %s\n", &svr_rank, svr_str) == 2, with the unread
    rest. *)
Definition fscanf_entry (s : text) : option (Z * text * text) :=
  match scan_d s with
  | Some (r, s1) =>
      match scan_s (skip_ws s1) with
      | Some (w, s2) => Some (r, w, skip_ws s2)
      | None => None
      end
  | None => None
  end.

(** The loop that looks for a rank; every turn consumes input, so the length
    of the file bounds the turns. *)
Fixpoint find_rank (fuel : nat) (rank : Z) (s : text) : option text :=
  match fuel with
  | O => None
  | S f =>
      match fscanf_entry s with
      | Some (svr_rank, svr_str, s') =>
          if svr_rank =? rank then Some svr_str else find_rank f rank s'
      | None => None
      end
  end.

Definition lookup_in_file (rank : Z) (s : text) : option text :=
  find_rank (S (length s)) rank s.

(** ** Reference: the file as a list of posts *)

(** What a server posts: a rank that is an int, an address that is a word. *)
Definition good_post (e : Z * text) : Prop :=
  - 2 ^ 31 ≤ fst e < 2 ^ 31 ∧ snd e ≠ [] ∧ Forall (λ c, is_space c = false) (snd e).

Definition posts_text (es : list (Z * text)) : text :=
  concat ((λ e, print_entry (fst e) (snd e)) <$> es).

(** The address of the first post of a rank. *)
Fixpoint first_post (rank : Z) (es : list (Z * text)) : option text :=
  match es with
  | [] => None
  | (r, a) :: es' => if r =? rank then Some a else first_post rank es'
  end.

(** ** Lemmas *)

Lemma skip_ws_length s : (length (skip_ws s) ≤ length s)%nat.
Proof. induction s as [|c s IH]; simpl; [lia|]. destruct (is_space c); simpl; lia. Qed.

Lemma scan_digits_length n s m r :
  scan_digits n s = (m, r) → (length r ≤ length s)%nat.
Proof.
  revert n. induction s as [|c s IH]; intros n; simpl; [intros [= _ <-]; simpl; lia|].
  destruct (is_digit c); [intros ?%IH; lia|intros [= _ <-]; simpl; lia].
Qed.

Lemma scan_digits_shorter n s m r :
  starts_digit s = true → scan_digits n s = (m, r) → (length r < length s)%nat.
Proof.
  destruct s as [|c s]; [done|]. simpl. intros -> E. apply scan_digits_length in E. lia.
Qed.

Lemma scan_sign_length s : (length (snd (scan_sign s)) ≤ length s)%nat.
Proof. destruct s as [|c s]; simpl; [lia|]. repeat case_match; simpl; lia. Qed.

Lemma scan_d_shorter s z r : scan_d s = Some (z, r) → (length r < length s)%nat.
Proof.
  unfold scan_d. pose proof (skip_ws_length s). pose proof (scan_sign_length (skip_ws s)).
  destruct (scan_sign (skip_ws s)) as [sg s1] eqn:E. simpl in *.
  destruct (starts_digit s1) eqn:Ed; [|done].
  destruct (scan_digits 0 s1) as [n s2] eqn:En. intros [= _ <-].
  apply scan_digits_shorter in En; [lia|done].
Qed.

Lemma scan_word_length s : (length (snd (scan_word s)) ≤ length s)%nat.
Proof.
  induction s as [|c s IH]; simpl; [lia|]. destruct (is_space c); simpl; [lia|].
  destruct (scan_word s); simpl in *. lia.
Qed.

Lemma fscanf_entry_shorter s r w s' :
  fscanf_entry s = Some (r, w, s') → (length s' < length s)%nat.
Proof.
  unfold fscanf_entry, scan_s. destruct (scan_d s) as [[z s1]|] eqn:E; [|done].
  apply scan_d_shorter in E. pose proof (skip_ws_length s1).
  pose proof (skip_ws_length (skip_ws s1)). pose proof (scan_word_length (skip_ws (skip_ws s1))).
  destruct (scan_word (skip_ws (skip_ws s1))) as [w2 s2]. simpl in *.
  destruct w2; [done|]. intros [= _ _ <-]. pose proof (skip_ws_length s2). lia.
Qed.

(** More fuel than characters changes nothing. *)
Lemma find_rank_fuel_any rank n f g s :
  (length s < n)%nat → (length s < f)%nat → (length s < g)%nat →
  find_rank f rank s = find_rank g rank s.
Proof.
  revert f g s. induction n as [|n IH]; [lia|]. intros [|f] [|g] s Hn Hf Hg; try lia.
  simpl. destruct (fscanf_entry s) as [[[r w] s']|] eqn:E; [|done].
  apply fscanf_entry_shorter in E. destruct (r =? rank); [done|]. apply IH; lia.
Qed.

Lemma find_rank_fuel f rank s :
  (length s < f)%nat → find_rank f rank s = lookup_in_file rank s.
Proof. intros. apply (find_rank_fuel_any rank f); lia. Qed.

(** One posted line is read back as its rank and address. *)
Lemma fscanf_print_entry r a rest :
  good_post (r, a) → fscanf_entry (print_entry r a ++ rest) = Some (r, a, skip_ws rest).
Proof.
  intros (Hr & Ha & Hw). simpl in *. unfold fscanf_entry, print_entry.
  rewrite <-!(assoc_L (++)), scan_d_print_d by done. simpl.
  assert (Hws : ∀ t, skip_ws (a ++ t) = a ++ t).
  { intros t. destruct a as [|c a]; [done|]. apply skip_ws_id.
    inversion Hw; subst. by intros ? ? [= <- <-]. }
  change ((sp :: a ++ nl :: rest)) with ([sp] ++ a ++ nl :: rest). simpl.
  rewrite Hws, scan_s_word; [done|done|done|]. by intros c t [= <- <-].
Qed.

Lemma skip_ws_posts es : skip_ws (posts_text es) = posts_text es.
Proof.
  destruct es as [|[r a] es]; [done|]. unfold posts_text. simpl. unfold print_entry.
  rewrite <-(assoc_L (++)). apply skip_ws_print_d.
Qed.

(** Looking a rank up in a file of posts gives its first post. *)
Lemma find_rank_posts f rank es :
  Forall good_post es → (length (posts_text es) < f)%nat →
  find_rank f rank (posts_text es) = first_post rank es.
Proof.
  intros He. revert f. induction He as [|[r a] es Hp _ IH]; intros [|f] Hf; try lia.
  - done.
  - change (posts_text ((r, a) :: es)) with (print_entry r a ++ posts_text es) in *.
    cbn [find_rank first_post]. rewrite fscanf_print_entry by done.
    rewrite skip_ws_posts. destruct (r =? rank); [done|]. apply IH.
    rewrite length_app in Hf. unfold print_entry in Hf. rewrite !length_app in Hf.
    simpl in Hf. lia.
Qed.

Lemma posts_text_snoc es r a :
  posts_text (es ++ [(r, a)]) = posts_text es ++ print_entry r a.
Proof. unfold posts_text. rewrite fmap_app, concat_app. simpl. by rewrite app_nil_r. Qed.

Lemma append_file_content path line p p' d :
  content p path = Some d → append_file path line p = Some p' →
  content p' path = Some (d ++ line).
Proof.
  intros (i & Hi & Hd)%bind_Some. unfold append_file. rewrite Hi. intros [= <-].
  unfold content. simpl. rewrite Hi. simpl. by rewrite lookup_alter_eq, Hd.
Qed.

Lemma append_file_new path line p p' :
  px_paths p !! path = None → append_file path line p = Some p' →
  content p' path = Some line.
Proof.
  intros Hn. unfold append_file. rewrite Hn. case_bool_decide; [|done]. intros [= <-].
  unfold content. simpl. rewrite lookup_insert_eq. simpl. by rewrite lookup_insert_eq.
Qed.

(** ** Properties *)

(** C21. A server's post is found by the clients: if the address file holds
    the posts [es] (or does not exist yet, [es = []]) and a server adds its
    own, a lookup of any rank in the new file returns the first address posted
    for that rank, or none when the rank has not posted. *)
Theorem posted_address_is_found jobid p p' es rank addr r :
  Forall good_post (es ++ [(rank, addr)]) →
  (content p (ports_file jobid) = Some (posts_text es) ∨
   px_paths p !! ports_file jobid = None ∧ es = []) →
  hvac_comm_list_addr jobid rank addr p = Ret (p', tt) →
  ∃ file, content p' (ports_file jobid) = Some file ∧
    lookup_in_file r file = first_post r (es ++ [(rank, addr)]).
Proof.
  intros He Hold. unfold hvac_comm_list_addr.
  destruct (append_file _ _ p) as [p1|] eqn:E; [|done]. intros [= ->].
  exists (posts_text (es ++ [(rank, addr)])). split; [|apply find_rank_posts; [done|lia]].
  rewrite posts_text_snoc. destruct Hold as [Hc|[Hn ->]].
  - by eapply append_file_content.
  - by eapply append_file_new.
Qed.

(** The scan of the address file always stops: a number of turns larger
    than the file's length gives one and the same answer, whatever the file
    holds. *)
Theorem address_scan_terminates fuel rank s :
  (length s < fuel)%nat → find_rank fuel rank s = lookup_in_file rank s.
Proof. apply find_rank_fuel. Qed.

(** ** Witnesses *)

Definition ex_posts : list (Z * text) := [(0, s2t "ofi+tcp://10.0.0.1:5000"); (1, s2t "ofi+tcp://10.0.0.2:5000")].

Definition ex_ports_os : posix := {|
  px_paths := {[ "./.ports.cfg.77" := 1%positive ]};
  px_data := {[ 1%positive := posts_text ex_posts ]};
  px_dirs := {[ "." ]}; px_fds := ∅; px_nofile := 64
|}.

Lemma ex_posts_good : Forall good_post (ex_posts ++ [(2, s2t "ofi+tcp://10.0.0.3:5000")]).
Proof.
  repeat constructor; simpl; try lia; try done.
Qed.

Lemma posted_address_is_found_witness :
  ∃ p' file, hvac_comm_list_addr (Some (s2t "77")) 2 (s2t "ofi+tcp://10.0.0.3:5000") ex_ports_os
    = Ret (p', tt) ∧ content p' "./.ports.cfg.77" = Some file ∧
    lookup_in_file 2 file = Some (s2t "ofi+tcp://10.0.0.3:5000").
Proof.
  eexists. destruct (posted_address_is_found (Some (s2t "77")) ex_ports_os _ ex_posts 2
    (s2t "ofi+tcp://10.0.0.3:5000") 2 ex_posts_good (or_introl eq_refl) eq_refl)
    as (file & E1 & E2).
  exists file. split; [reflexivity|]. split; [exact E1|]. rewrite E2. reflexivity.
Defined.

Lemma address_scan_terminates_witness :
  find_rank 1000 1 (posts_text ex_posts) = Some (s2t "ofi+tcp://10.0.0.2:5000").
Proof.
  rewrite (address_scan_terminates 1000 1 (posts_text ex_posts)).
  - vm_compute. reflexivity.
  - apply Nat.ltb_lt. vm_compute. reflexivity.
Defined.
