(* ===== verification/FirstOpens.v ===== *)
(** * The first opens of a client

    [hvac_track_file] starts Mercury when g_mercury_init is not set and sets it
    afterwards, without a lock: hvac_init_comm writes hg_class and hg_context
    and starts a progress thread, which reads hg_context anew in every turn.
    Here the opens of a client's threads are cut at their accesses to these
    globals. When a thread does not test the flag while another one is inside
    the initialisation, Mercury is started once and every open is answered;
    otherwise a second initialisation can take the context away under an open
    that waits for it. *)

From S2P Require Import Prelude.

(** ** State *)

(** The globals of the process. Classes are numbered in the order in which
    HG_Init returns them, contexts in that of HG_Context_create; Mercury's
    initialisation calls are taken to succeed. *)
Record globals : Type := Globals {
  made_classes : nat;              (* the calls of HG_Init so far *)
  cur_class : option nat;          (* hg_class *)
  made_contexts : nat;             (* the calls of HG_Context_create so far *)
  cur_context : option (nat * nat); (* hg_context, and the class it is of *)
  registered : gset nat;           (* the classes that have the client's RPCs *)
  mercury_init : bool;             (* g_mercury_init *)
  progress : list (option nat)     (* the progress threads: the hg_context each
                                      one read last *)
}.

(** Where a tracked open is in hvac_track_file, hvac_init_comm and
    hvac_client_comm_gen_open_rpc. *)
Inductive open_pc : Type :=
| FoTest                           (* if (!g_mercury_init) *)
| FoInit                           (* hg_class = HG_Init(...) *)
| FoContext                        (* hg_context = HG_Context_create(hg_class) *)
| FoThread                         (* pthread_create(..., hvac_progress_fn, ...) *)
| FoRegister                       (* hvac_client_comm_register_rpc() *)
| FoSet                            (* g_mercury_init = true *)
| FoLookup                         (* HG_Addr_lookup2(hvac_comm_get_class(), ...) *)
| FoCreate (addr_class : nat)      (* HG_Create(hg_context, ...); HG_Forward *)
| FoFree (addr_class context : nat) (* HG_Addr_free(hg_class, ...) *)
| FoWait (context : nat)           (* hvac_wait_for_operation *)
| FoDone
| FoAborted.                       (* assert(ret == HG_SUCCESS) *)

Definition hvac_comm_get_class (g : globals) : option nat := cur_class g.

Record open_sys : Type := OpenSys { fo_globals : globals; fo_opens : gmap nat open_pc }.

(** ** Steps *)

Section first_opens.
(** Mercury: whether HG_Create accepts an address of one class for a context of
    another, given the classes that know the RPC; whether HG_Addr_free accepts
    an address of another class; and whether HG_Progress and HG_Trigger on a
    context complete a request made on another. *)
Context (create_ok : nat → nat → gset nat → bool) (free_ok : nat → nat → bool).
Context (completes : nat → nat → bool).

(** An open's next access. *)
Definition open_next (g : globals) (pc : open_pc) : option (globals * open_pc) :=
  let '(Globals n k m c r i p) := g in
  match pc with
  | FoTest => Some (g, if i then FoLookup else FoInit)
  | FoInit => Some (Globals (S n) (Some n) m c r i p, FoContext)
  | FoContext => a ← k; Some (Globals n k (S m) (Some (m, a)) r i p, FoThread)
  | FoThread => Some (Globals n k m c r i (p ++ [None]), FoRegister)
  | FoRegister => a ← k; Some (Globals n k m c ({[ a ]} ∪ r) i p, FoSet)
  | FoSet => Some (Globals n k m c r true p, FoLookup)
  | FoLookup => a ← hvac_comm_get_class g; Some (g, FoCreate a)
  | FoCreate a =>
      '(x, b) ← c;
      Some (g, if create_ok a b r then FoFree a x else FoAborted)
  | FoFree a x => b ← k; Some (g, if free_ok b a then FoWait x else FoAborted)
  | FoWait _ | FoDone | FoAborted => None
  end.

Inductive open_label : Type :=
| FoStart (t : nat)                (* a thread calls open *)
| FoGo (t : nat)                   (* it takes its next access *)
| FoLoad (j : nat)                 (* a progress thread reads hg_context *)
| FoAnswer (j t : nat).            (* it runs the callback of an answered open *)

Definition opens_run (l : open_label) (s : open_sys) : option open_sys :=
  let g := fo_globals s in
  match l with
  | FoStart t =>
      match fo_opens s !! t with
      | None => Some (OpenSys g (<[t := FoTest]> (fo_opens s)))
      | Some _ => None
      end
  | FoGo t =>
      pc ← fo_opens s !! t;
      '(g', pc') ← open_next g pc;
      Some (OpenSys g' (<[t := pc']> (fo_opens s)))
  | FoLoad j =>
      _ ← progress g !! j;
      let '(Globals n k m c r i p) := g in
      Some (OpenSys (Globals n k m c r i (<[j := fst <$> c]> p)) (fo_opens s))
  | FoAnswer j t =>
      match progress g !! j, fo_opens s !! t with
      | Some (Some x), Some (FoWait y) =>
          if completes x y then Some (OpenSys g (<[t := FoDone]> (fo_opens s))) else None
      | _, _ => None
      end
  end.

Fixpoint opens_runs (ls : list open_label) (s : open_sys) : option open_sys :=
  match ls with
  | [] => Some s
  | l :: ls' => opens_run l s ≫= opens_runs ls'
  end.

Definition opens_start : open_sys := OpenSys (Globals 0 None 0 None ∅ false []) ∅.

(** Inside the initialisation. *)
Definition initialising (pc : open_pc) : bool :=
  match pc with FoInit | FoContext | FoThread | FoRegister | FoSet => true | _ => false end.

(** No open tests the flag while another one is inside the initialisation, as a
    lock around both would have it. *)
Definition one_at_a_time (l : open_label) (s : open_sys) : bool :=
  match l with
  | FoGo t =>
      match fo_opens s !! t with
      | Some FoTest => bool_decide (map_Forall (λ _ pc, initialising pc = false) (fo_opens s))
      | _ => true
      end
  | _ => true
  end.

Fixpoint serialised (ls : list open_label) (s : open_sys) : bool :=
  match ls with
  | [] => true
  | l :: ls' =>
      one_at_a_time l s &&
      match opens_run l s with Some s' => serialised ls' s' | None => true end
  end.

(** ** One initialisation *)

(** The globals where the open that initialises Mercury is at [pc]; [x] is
    what the progress thread has read. *)
Definition globals_at (pc : open_pc) (x : option nat) : option globals :=
  match pc with
  | FoInit => Some (Globals 0 None 0 None ∅ false [])
  | FoContext => Some (Globals 1 (Some 0%nat) 0 None ∅ false [])
  | FoThread => Some (Globals 1 (Some 0%nat) 1 (Some (0, 0)%nat) ∅ false [])
  | FoRegister => Some (Globals 1 (Some 0%nat) 1 (Some (0, 0)%nat) ∅ false [x])
  | FoSet => Some (Globals 1 (Some 0%nat) 1 (Some (0, 0)%nat) {[ 0%nat ]} false [x])
  | _ => None
  end.

Definition globals_ready (x : option nat) : globals :=
  Globals 1 (Some 0%nat) 1 (Some (0, 0)%nat) {[ 0%nat ]} true [x].

(** Past the initialisation, with the one class and the one context. *)
Definition settled (pc : open_pc) : bool :=
  match pc with
  | FoTest | FoLookup | FoCreate 0 | FoFree 0 0 | FoWait 0 | FoDone => true
  | _ => false
  end.

(** Before, inside and after the one initialisation. *)
Inductive started_once : open_sys → Prop :=
| so_before pcs :
    map_Forall (λ _ pc, pc = FoTest) pcs → started_once (OpenSys (fo_globals opens_start) pcs)
| so_inside pcs g t pc x :
    pcs !! t = Some pc → globals_at pc x = Some g → x = None ∨ x = Some 0%nat →
    map_Forall (λ u pc', u = t ∨ pc' = FoTest) pcs → started_once (OpenSys g pcs)
| so_after pcs x :
    x = None ∨ x = Some 0%nat → map_Forall (λ _ pc, settled pc = true) pcs →
    started_once (OpenSys (globals_ready x) pcs).


Lemma settled_not_initialising pc : settled pc = true → initialising pc = false.
Proof. by destruct pc as [| | | | | | |[]|[][]|[]| |]. Qed.

Lemma test_settled (pcs : gmap nat open_pc) :
  map_Forall (λ _ pc, pc = FoTest) pcs → map_Forall (λ (_ : nat) pc, settled pc = true) pcs.
Proof. intros Hp u pc Hu. by rewrite (Hp u pc Hu). Qed.

Lemma inside_insert (pcs : gmap nat open_pc) t pc :
  map_Forall (λ u pc, u = t ∨ pc = FoTest) pcs →
  map_Forall (λ u pc, u = t ∨ pc = FoTest) (<[t := pc]> pcs).
Proof. intros Hp. apply map_Forall_insert_2; [by left|done]. Qed.

Context (Hcreate : ∀ c r, c ∈ r → create_ok c c r = true) (Hfree : ∀ c, free_ok c c = true).

(** An open's own step. *)
Lemma once_go s s' t :
  started_once s → one_at_a_time (FoGo t) s = true → opens_run (FoGo t) s = Some s' →
  started_once s'.
Proof.
  intros Hs Hc Hr. unfold opens_run in Hr. apply bind_Some in Hr as (pc & Ht & Hr).
  apply bind_Some in Hr as ([g' pc'] & Hn & [= <-]).
  unfold one_at_a_time in Hc. rewrite Ht in Hc.
  destruct Hs as [pcs Hp|pcs g u pcu x Hu Hg Hx Hp|pcs x Hx Hp]; simpl in *.
  - rewrite (Hp _ _ Ht) in Hn. simpl in Hn. simplify_eq.
    eapply (so_inside _ _ t FoInit None); [apply lookup_insert_eq|done|by left|].
    apply inside_insert. intros v pcv Hv. right. by apply (Hp v).
  - destruct (Hp _ _ Ht) as [ -> | -> ].
    + simplify_eq. destruct pcu; simplify_eq/=; try done.
      1,2: by eapply (so_inside _ _ u _ x); [apply lookup_insert_eq|done|done|apply inside_insert].
      * by eapply (so_inside _ _ u FoRegister None);
          [apply lookup_insert_eq|done|by left|apply inside_insert].
      * eapply (so_inside _ _ u FoSet x); [apply lookup_insert_eq| |done|by apply inside_insert].
        reflexivity.
      * apply (so_after _ x); [done|].
        intros v pcv [[<- <-]|[Hne Hv]]%lookup_insert_Some; [done|].
        by destruct (Hp v pcv Hv) as [ -> | -> ].
    + exfalso. apply bool_decide_eq_true in Hc. specialize (Hc _ _ Hu). by destruct pcu.
  - pose proof (Hp _ _ Ht) as Hset.
    assert (g' = globals_ready x ∧ settled pc' = true) as [-> Hpc'].
    { destruct pc as [| | | | | | |[]|[][]|[]| |]; simplify_eq/=; try done;
        [by rewrite Hcreate by set_solver|by rewrite Hfree]. }
    apply (so_after _ x); [done|by apply map_Forall_insert_2].
Qed.

Lemma once_load s s' j : started_once s → opens_run (FoLoad j) s = Some s' → started_once s'.
Proof.
  intros Hs Hr. unfold opens_run in Hr. apply bind_Some in Hr as (y & Hj & Hr).
  destruct Hs as [pcs Hp|pcs g u pcu x Hu Hg Hx Hp|pcs x Hx Hp]; simpl in *; [done| |].
  - destruct pcu; simplify_eq/=; destruct j; simplify_eq/=.
    + eapply (so_inside _ _ u FoRegister (Some 0%nat)); [done|done|by right|done].
    + eapply (so_inside _ _ u FoSet (Some 0%nat)); [done|done|by right|done].
  - destruct j; simplify_eq/=. apply (so_after _ (Some 0%nat)); [by right|done].
Qed.

Lemma once_answer s s' j t :
  started_once s → opens_run (FoAnswer j t) s = Some s' → started_once s'.
Proof.
  intros Hs Hr. unfold opens_run in Hr.
  destruct (progress (fo_globals s) !! j) as [[y|]|]; try done.
  destruct (fo_opens s !! t) as [[]|] eqn:Ht; try done.
  destruct (completes _ _); [|done]. injection Hr as <-.
  destruct Hs as [pcs Hp|pcs g u pcu x Hu Hg Hx Hp|pcs x Hx Hp]; simpl in *.
  - by specialize (Hp _ _ Ht).
  - destruct (Hp _ _ Ht) as [ -> |?]; [|done]. rewrite Ht in Hu. by simplify_eq.
  - apply (so_after _ x); [done|by apply map_Forall_insert_2].
Qed.

Lemma once_start s s' t : started_once s → opens_run (FoStart t) s = Some s' → started_once s'.
Proof.
  intros Hs Hr. unfold opens_run in Hr. destruct (fo_opens s !! t) eqn:Ht; [done|].
  injection Hr as <-.
  destruct Hs as [pcs Hp|pcs g u pcu x Hu Hg Hx Hp|pcs x Hx Hp]; simpl in *.
  - apply so_before. by apply map_Forall_insert_2.
  - eapply (so_inside _ _ u pcu x); [|done|done|].
    + rewrite lookup_insert_ne; [done|congruence].
    + apply map_Forall_insert_2; [by right|done].
  - apply (so_after _ x); [done|by apply map_Forall_insert_2].
Qed.

Lemma once_runs ls s s' :
  started_once s → serialised ls s = true → opens_runs ls s = Some s' → started_once s'.
Proof.
  revert s. induction ls as [|l ls IH]; intros s Hs Hc Hr; [by simplify_eq/=|].
  cbn [opens_runs serialised] in *. apply bind_Some in Hr as (s1 & Hr1 & Hr).
  apply andb_true_iff in Hc as [Hc1 Hc]. rewrite Hr1 in Hc. apply (IH s1); [|done|done].
  destruct l; [by eapply once_start|by eapply once_go|by eapply once_load|by eapply once_answer].
Qed.

(** ** A context taken away *)

(** The requests of an open wait on a context that is no longer hg_context, and
    no progress thread has it in its hands. *)
Definition stranded (t x : nat) (s : open_sys) : Prop :=
  ∃ y b, fo_opens s !! t = Some (FoWait x) ∧ cur_context (fo_globals s) = Some (y, b) ∧
    (x < y)%nat ∧ (y < made_contexts (fo_globals s))%nat ∧
    Forall (λ z, z ≠ Some x) (progress (fo_globals s)).

Context (Hother : ∀ x y, x ≠ y → completes x y = false).

Lemma stranded_step t x s l s' : stranded t x s → opens_run l s = Some s' → stranded t x s'.
Proof.
  intros (y & b & Ht & Hy & Hxy & Hm & Hp) Hr.
  destruct s as [[n k m c r i p] pcs]. simpl in *. subst c.
  destruct l as [u|u|j|j u]; unfold opens_run in Hr; simpl in Hr.
  - destruct (pcs !! u) eqn:Hu; [done|]. injection Hr as <-. exists y, b. simpl.
    split_and!; try done. rewrite lookup_insert_ne; [done|congruence].
  - apply bind_Some in Hr as (pc & Hu & Hr). apply bind_Some in Hr as ([g' pc'] & Hn & [= <-]).
    assert (u ≠ t) as Hne by (intros ->; by simplify_eq/=).
    destruct pc; simplify_eq/=; try (apply bind_Some in Hn as (? & ? & ?)); simplify_eq/=;
      try (exists y, b; simpl; split_and!; try done; by rewrite lookup_insert_ne).
    + eexists m, _. split_and!; simpl; try done; try lia. by rewrite lookup_insert_ne.
    + exists y, b. simpl. split_and!; try done; [by rewrite lookup_insert_ne|].
      apply Forall_app. split; [done|]. by apply Forall_singleton.
  - apply bind_Some in Hr as (z & Hj & [= <-]). exists y, b. simpl. split_and!; try done.
    apply Forall_insert; [done|]. simpl. intros [= ->]. lia.
  - destruct (p !! j) as [[z|]|] eqn:Hj, (pcs !! u) as [[]|] eqn:Hu; try done.
    destruct (completes z context) eqn:Hc; [|done]. injection Hr as <-.
    assert (u ≠ t) as Hne.
    { intros ->. simplify_eq. rewrite Hother in Hc; [done|]. intros ->.
      by eapply (Forall_lookup_1 _ _ _ _ Hp). }
    exists y, b. simpl. split_and!; try done. by rewrite lookup_insert_ne.
Qed.

Lemma stranded_runs t x ls s s' : stranded t x s → opens_runs ls s = Some s' → stranded t x s'.
Proof.
  revert s. induction ls as [|l ls IH]; intros s Hs Hr; [by simplify_eq/=|].
  cbn [opens_runs] in Hr. apply bind_Some in Hr as (s1 & Hr1 & Hr).
  apply (IH s1); [by eapply stranded_step|done].
Qed.

End first_opens.

(** ** The claims *)

Section claims.
Context (create_ok : nat → nat → gset nat → bool) (free_ok : nat → nat → bool).
Context (completes : nat → nat → bool).
Context (Hcreate : ∀ c r, c ∈ r → create_ok c c r = true) (Hfree : ∀ c, free_ok c c = true).

#[local] Abbreviation opens_run := (opens_run create_ok free_ok completes).
#[local] Abbreviation opens_runs := (opens_runs create_ok free_ok completes).
#[local] Abbreviation serialised := (serialised create_ok free_ok completes).

(** C18. When no open tests g_mercury_init while another one is inside the
    initialisation, Mercury is started at most once, with one context and one
    progress thread, however many threads open at once; no open fails an
    assertion; every open that waits can be answered, and every other one that
    is not over can go on, or waits to test the flag until the one that is
    initialising, which can go on, has set it. *)
Theorem one_initialisation_serves_all_opens ls s :
  (∀ x, completes x x = true) →
  serialised ls opens_start = true → opens_runs ls opens_start = Some s →
  let g := fo_globals s in
  (made_classes g ≤ 1)%nat ∧ (made_contexts g ≤ 1)%nat ∧ (length (progress g) ≤ 1)%nat ∧
  ∀ t pc, fo_opens s !! t = Some pc →
    match pc with
    | FoDone => True
    | FoAborted => False
    | FoWait _ => ∃ s', opens_runs [FoLoad 0; FoAnswer 0 t] s = Some s' ∧
                        fo_opens s' !! t = Some FoDone
    | _ => ∃ u s', (u = t ∨ pc = FoTest ∧ initialising <$> fo_opens s !! u = Some true) ∧
                   one_at_a_time (FoGo u) s = true ∧ opens_run (FoGo u) s = Some s'
    end.
Proof.
  intros Hown Hc Hr g.
  assert (Hs : started_once s).
  { eapply once_runs; [exact Hcreate|exact Hfree| |exact Hc|exact Hr]. by apply so_before. }
  clear Hr Hc. destruct Hs as [pcs Hp|pcs g' u pcu x Hu Hg Hx Hp|pcs x Hx Hp]; subst g; simpl.
  - split_and!; try lia. intros t pc Ht. rewrite (Hp _ _ Ht).
    exists t. eexists. split_and!; [by left| |by rewrite Ht, (Hp _ _ Ht)].
    rewrite Ht, (Hp _ _ Ht). apply bool_decide_eq_true. intros v pcv Hv. by rewrite (Hp _ _ Hv).
  - assert (Hgo : ∃ s', opens_run (FoGo u) (OpenSys g' pcs) = Some s').
    { unfold FirstOpens.opens_run. simpl. rewrite Hu. simpl. destruct pcu; simplify_eq/=; by eexists. }
    assert (Hone : one_at_a_time (FoGo u) (OpenSys g' pcs) = true).
    { simpl. rewrite Hu. by destruct pcu. }
    assert (Hi : initialising pcu = true) by (by destruct pcu).
    split_and!; try (by destruct pcu; simplify_eq/=; lia).
    intros t pc Ht. destruct (Hp _ _ Ht) as [ -> | -> ].
    + rewrite Hu in Ht. simplify_eq. destruct Hgo as [s' Hs'].
      destruct pc; try done; exists u, s'; split_and!; (done || by left).
    + destruct Hgo as [s' Hs']. exists u, s'. split_and!; try done. right. by rewrite Hu, <-Hi.
  - split_and!; try lia. intros t pc Ht. pose proof (Hp _ _ Ht) as Hset.
    destruct pc as [| | | | | | |[]|[][]|[]| |]; try done.
    + exists t. eexists. split_and!; [by left| |by rewrite Ht].
      rewrite Ht. apply bool_decide_eq_true. intros v pcv Hv. by eapply settled_not_initialising, Hp.
    + exists t. eexists. split_and!; [by left|by rewrite Ht|by rewrite Ht].
    + exists t. eexists. split_and!; [by left|by rewrite Ht|]. rewrite Ht. simpl.
      rewrite Hcreate by set_solver. done.
    + exists t. eexists. split_and!; [by left|by rewrite Ht|]. rewrite Ht. simpl. by rewrite Hfree.
    + eexists. rewrite Ht, Hown. simpl. split; [done|]. apply lookup_insert_eq.
Qed.

(** C38. Otherwise a first open can hang: two threads find g_mercury_init
    unset; the first one initialises Mercury and sends its open; the second one
    replaces hg_class and hg_context, both progress threads turn to the new
    context, and from then on nothing any thread does, later opens included,
    ever answers the first open. *)
Theorem concurrent_first_opens_can_hang :
  (∀ x y, x ≠ y → completes x y = false) →
  ∃ ls s, opens_runs ls opens_start = Some s ∧ made_classes (fo_globals s) = 2%nat ∧
    fo_opens s !! 0%nat = Some (FoWait 0) ∧
    ∀ ls' s', opens_runs ls' s = Some s' → fo_opens s' !! 0%nat = Some (FoWait 0).
Proof.
  intros Hother.
  exists ([FoStart 0; FoStart 1; FoGo 0; FoGo 1] ++ replicate 8 (FoGo 0) ++
          replicate 3 (FoGo 1) ++ [FoLoad 0; FoLoad 1]).
  assert (Hc : create_ok 0 0 ({[ 0%nat ]} ∪ ∅) = true) by (apply Hcreate; set_solver).
  exists (OpenSys (Globals 2 (Some 1%nat) 2 (Some (1, 1)%nat) {[ 0%nat ]} true [Some 1%nat; Some 1%nat])
            {[ 0%nat := FoWait 0; 1%nat := FoRegister ]}).
  split; [vm_compute in Hc; vm_compute; by rewrite Hc, Hfree|]. split_and!; [done|done|].
  intros ls' s' Hr.
  assert (stranded 0 0 s') as (y & b & Hw & _); [|exact Hw].
  eapply stranded_runs; [exact Hother| |exact Hr]. exists 1%nat, 1%nat.
  split_and!; [done|done|simpl; lia|simpl; lia|]. by repeat constructor.
Qed.

End claims.

(** ** Witnesses *)

(** Mercury as it is taken to be: everything stays within one class and one
    context. *)
Definition ex_create_ok (addr_class context_class : nat) (reg : gset nat) : bool :=
  bool_decide (addr_class = context_class) && bool_decide (context_class ∈ reg).

Lemma ex_create_ok_law c r : c ∈ r → ex_create_ok c c r = true.
Proof. intros Hc. unfold ex_create_ok. by rewrite !bool_decide_true. Qed.

(** Two threads; the second one tests the flag after the first one's open has
    been sent, and both wait. *)
Definition ex_first_labels : list open_label :=
  [FoStart 0; FoStart 1] ++ replicate 9 (FoGo 0) ++ [FoLoad 0] ++ replicate 4 (FoGo 1).

Lemma ex_first_run : ∃ s, opens_runs ex_create_ok Nat.eqb Nat.eqb ex_first_labels opens_start = Some s ∧
  fo_opens s !! 1%nat = Some (FoWait 0).
Proof.
  exists (OpenSys (Globals 1 (Some 0%nat) 1 (Some (0, 0)%nat) {[ 0%nat ]} true [Some 0%nat])
            {[ 0%nat := FoWait 0; 1%nat := FoWait 0 ]}).
  split; vm_compute; reflexivity.
Qed.

Lemma one_initialisation_serves_all_opens_witness :
  ∃ s s', opens_runs ex_create_ok Nat.eqb Nat.eqb ex_first_labels opens_start = Some s ∧
    opens_runs ex_create_ok Nat.eqb Nat.eqb [FoLoad 0; FoAnswer 0 1] s = Some s' ∧
    fo_opens s' !! 1%nat = Some FoDone.
Proof.
  destruct ex_first_run as (s & Hr & Ht).
  destruct (one_initialisation_serves_all_opens ex_create_ok Nat.eqb Nat.eqb ex_create_ok_law Nat.eqb_refl
    ex_first_labels s Nat.eqb_refl ltac:(vm_compute; reflexivity) Hr) as (_ & _ & _ & Hall).
  destruct (Hall 1%nat _ Ht) as (s' & Hr' & Hd). exists s, s'. split_and!; assumption.
Defined.

Lemma concurrent_first_opens_can_hang_witness :
  ∃ ls s, opens_runs ex_create_ok Nat.eqb Nat.eqb ls opens_start = Some s ∧
    fo_opens s !! 0%nat = Some (FoWait 0).
Proof.
  destruct (concurrent_first_opens_can_hang ex_create_ok Nat.eqb Nat.eqb ex_create_ok_law Nat.eqb_refl)
    as (ls & s & Hr & _ & Hw & _); [|exists ls, s; split; assumption].
  intros x y Hne. by apply Nat.eqb_neq.
Defined.
