(* ===== verification/FdState.v ===== *)
(** * File-descriptor states of the client

    Lines 39-170 of [src/src/mthvac_comm_client.cpp]: the map from a local
    descriptor to a shared status object, the operations on it, and the wait
    of [hvac_wait_fd_ready], first as the function one thread runs, then as a
    transition system in which threads wait, are woken, time out and set
    states in any order; between the passing of a deadline and the moment the
    thread has the mutex again the state may change. *)

From S2P Require Import Prelude.

Local Open Scope Z_scope.

(** ** State *)

Inductive hvac_fd_state : Type :=
| HVAC_FD_OPENING | HVAC_FD_READY | HVAC_FD_ERROR.

Global Instance hvac_fd_state_eq_dec : EqDecision hvac_fd_state.
Proof. solve_decision. Defined.

(** The status objects live on a heap: the map holds shared pointers, and a
    waiter keeps its own reference, so replacing or erasing a map entry does
    not change the object a waiter holds. Objects are never reused. *)
Record fd_table : Type := FdTable {
  fd_heap : gmap positive hvac_fd_state;
  fd_state_map : gmap Z positive
}.

(** ** Operations *)

Definition hvac_get_fd_status (fd : Z) (t : fd_table) : option positive :=
  fd_state_map t !! fd.

Definition hvac_set_fd_opening (fd : Z) (t : fd_table) : fd_table :=
  let status := fresh (dom (fd_heap t)) in
  {| fd_heap := <[status := HVAC_FD_OPENING]> (fd_heap t);
     fd_state_map := <[fd := status]> (fd_state_map t) |}.

Definition hvac_set_fd_ready (fd : Z) (t : fd_table) : fd_table :=
  match hvac_get_fd_status fd t with
  | Some status => {| fd_heap := <[status := HVAC_FD_READY]> (fd_heap t);
                      fd_state_map := fd_state_map t |}
  | None => t
  end.

Definition hvac_set_fd_error (fd : Z) (t : fd_table) : fd_table :=
  match hvac_get_fd_status fd t with
  | Some status => {| fd_heap := <[status := HVAC_FD_ERROR]> (fd_heap t);
                      fd_state_map := fd_state_map t |}
  | None => t
  end.

Definition hvac_cleanup_fd_state (fd : Z) (t : fd_table) : fd_table :=
  {| fd_heap := fd_heap t; fd_state_map := delete fd (fd_state_map t) |}.

(** The state of the object the map holds for a descriptor. *)
Definition fd_state (fd : Z) (t : fd_table) : option hvac_fd_state :=
  hvac_get_fd_status fd t ≫= λ l, fd_heap t !! l.

(** ** The deadline of a wait *)

Record timespec : Type := { tv_sec : Z; tv_nsec : Z }.

Definition timespec_ns (t : timespec) : Z := tv_sec t * 1000000000 + tv_nsec t.

(** Lines 142-149; C's / and % truncate. *)
Definition wait_deadline (now : timespec) (timeout_ms : Z) : timespec :=
  let sec := tv_sec now + Z.quot timeout_ms 1000 in
  let nsec := tv_nsec now + Z.rem timeout_ms 1000 * 1000000 in
  if 1000000000 <=? nsec
  then {| tv_sec := sec + 1; tv_nsec := nsec - 1000000000 |}
  else {| tv_sec := sec; tv_nsec := nsec |}.

(** ** The wait, as one thread runs it *)

Definition ETIMEDOUT : Z := 110.

(** The loop of lines 151-162. Each pthread_cond_timedwait gives a return
    code and the state found once the mutex is held again; the absolute
    deadline bounds the number of returns before ETIMEDOUT, so the list of
    returns is finite and running out of it is the timeout. *)
Fixpoint wait_loop (state : hvac_fd_state) (returns : list (Z * hvac_fd_state)) : bool :=
  match state with
  | HVAC_FD_OPENING =>
      match returns with
      | [] => false
      | (ret, state') :: returns' =>
          if ret =? ETIMEDOUT then false else wait_loop state' returns'
      end
  | HVAC_FD_READY => true
  | HVAC_FD_ERROR => false
  end.

Definition hvac_wait_fd_ready (fd : Z) (returns : list (Z * hvac_fd_state))
    (t : fd_table) : bool :=
  match fd_state fd t with
  | None => false
  | Some HVAC_FD_READY => true
  | Some HVAC_FD_ERROR => false
  | Some HVAC_FD_OPENING => wait_loop HVAC_FD_OPENING returns
  end.

(** ** Threads

    A thread that waits on an object is asleep in pthread_cond_timedwait, or
    has been woken and must take the mutex again, or its deadline has passed
    while it slept: then pthread_cond_timedwait returns ETIMEDOUT, but only once
    it has the mutex, and the state may have changed by then. A thread that
    finished keeps the object and its answer. A setter works on any object it has obtained
    earlier: the map lookup and the locked update are separate steps, and the
    map may have changed in between. *)

Inductive waiter : Type :=
| WAsleep (l : positive)
| WWoken (l : positive)
| WExpired (l : positive)
| WDone (l : positive) (ready : bool).

Record fd_sys : Type := FdSys {
  tbl : fd_table;
  thr : gmap nat waiter
}.

(** pthread_cond_broadcast on the object's condition. *)
Definition broadcast (l : positive) (w : waiter) : waiter :=
  match w with
  | WAsleep l' => if bool_decide (l' = l) then WWoken l' else w
  | _ => w
  end.

(** What a thread holding the mutex does next. *)
Definition look (l : positive) (s : hvac_fd_state) : waiter :=
  match s with
  | HVAC_FD_OPENING => WAsleep l
  | HVAC_FD_READY => WDone l true
  | HVAC_FD_ERROR => WDone l false
  end.

Definition set_heap (h : gmap positive hvac_fd_state) (t : fd_table) : fd_table :=
  {| fd_heap := h; fd_state_map := fd_state_map t |}.

(** The thread is inside hvac_wait_fd_ready, on object [l]. *)
Definition waits_on (w : waiter) (l : positive) : Prop :=
  w = WAsleep l ∨ w = WWoken l ∨ w = WExpired l.

Inductive fd_label : Type :=
| LbOpening (fd : Z)
| LbCleanup (fd : Z)
| LbSet (l : positive) (s : hvac_fd_state)
| LbCall (t : nat)
| LbRun (t : nat)
| LbExpire (t : nat)                  (* the deadline passes *)
| LbTimeout (t : nat)                 (* ETIMEDOUT is returned, the mutex held *)
| LbSpurious (t : nat).

Inductive fd_step : fd_label → fd_sys → fd_sys → Prop :=
| st_opening fd s :
    fd_step (LbOpening fd) s (FdSys (hvac_set_fd_opening fd (tbl s)) (thr s))
| st_cleanup fd s :
    fd_step (LbCleanup fd) s (FdSys (hvac_cleanup_fd_state fd (tbl s)) (thr s))
| st_set l st s :
    is_Some (fd_heap (tbl s) !! l) → st ≠ HVAC_FD_OPENING →
    fd_step (LbSet l st) s
      (FdSys (set_heap (<[l := st]> (fd_heap (tbl s))) (tbl s)) (broadcast l <$> thr s))
| st_call t l st s :
    (∀ w l', thr s !! t = Some w → ¬ waits_on w l') → fd_heap (tbl s) !! l = Some st →
    fd_step (LbCall t) s (FdSys (tbl s) (<[t := look l st]> (thr s)))
| st_run t l st s :
    thr s !! t = Some (WWoken l) → fd_heap (tbl s) !! l = Some st →
    fd_step (LbRun t) s (FdSys (tbl s) (<[t := look l st]> (thr s)))
| st_expire t l s :
    thr s !! t = Some (WAsleep l) →
    fd_step (LbExpire t) s (FdSys (tbl s) (<[t := WExpired l]> (thr s)))
| st_timeout t l s :
    thr s !! t = Some (WExpired l) →
    fd_step (LbTimeout t) s (FdSys (tbl s) (<[t := WDone l false]> (thr s)))
| st_spurious t l s :
    thr s !! t = Some (WAsleep l) →
    fd_step (LbSpurious t) s (FdSys (tbl s) (<[t := WWoken l]> (thr s))).

Definition fd_init (s : fd_sys) : Prop :=
  fd_heap (tbl s) = ∅ ∧ fd_state_map (tbl s) = ∅ ∧ thr s = ∅.

Definition thread_of (lb : fd_label) : option nat :=
  match lb with
  | LbCall t | LbRun t | LbExpire t | LbTimeout t | LbSpurious t => Some t
  | _ => None
  end.

(** ** The invariant: an object some thread sleeps on is still opening, and
    one that answered [true] is past opening. *)
Record fd_inv (s : fd_sys) : Prop := {
  fi_map fd l : fd_state_map (tbl s) !! fd = Some l → is_Some (fd_heap (tbl s) !! l);
  fi_asleep t l : thr s !! t = Some (WAsleep l) → fd_heap (tbl s) !! l = Some HVAC_FD_OPENING;
  fi_woken t l : thr s !! t = Some (WWoken l) → is_Some (fd_heap (tbl s) !! l);
  fi_done t l b : thr s !! t = Some (WDone l b) →
    b = true → ∃ st, fd_heap (tbl s) !! l = Some st ∧ st ≠ HVAC_FD_OPENING
}.

Lemma fd_init_inv s : fd_init s → fd_inv s.
Proof.
  intros (Hh & Hm & Ht). split; rewrite ?Hh, ?Hm, ?Ht; intros *; by rewrite lookup_empty.
Qed.

(** Changing one thread's entry. *)
Lemma fd_inv_thread s t w :
  fd_inv s →
  (∀ l, w = WAsleep l → fd_heap (tbl s) !! l = Some HVAC_FD_OPENING) →
  (∀ l, w = WWoken l → is_Some (fd_heap (tbl s) !! l)) →
  (∀ l, w = WDone l true → ∃ st, fd_heap (tbl s) !! l = Some st ∧ st ≠ HVAC_FD_OPENING) →
  fd_inv (FdSys (tbl s) (<[t := w]> (thr s))).
Proof.
  intros [Hm Ha Hw Hd] H1 H2 H3. split; simpl; [done| | |].
  - intros t' l. rewrite lookup_insert_Some. intros [[_ ->]|[_ Ht]]; eauto.
  - intros t' l. rewrite lookup_insert_Some. intros [[_ ->]|[_ Ht]]; eauto.
  - intros t' l b. rewrite lookup_insert_Some. intros [[_ ->]|[_ Ht]] ->; eauto.
Qed.

Lemma fd_inv_look s t l st :
  fd_inv s → fd_heap (tbl s) !! l = Some st →
  fd_inv (FdSys (tbl s) (<[t := look l st]> (thr s))).
Proof.
  intros Hi Hl. apply fd_inv_thread; [done|..]; destruct st; simpl; intros ? [= <-]; eauto.
Qed.

Lemma broadcast_inv l w w' :
  broadcast l w = w' →
  match w' with
  | WAsleep l' => w = WAsleep l' ∧ l' ≠ l
  | WWoken l' => w = WWoken l' ∨ w = WAsleep l' ∧ l' = l
  | WExpired l' => w = WExpired l'
  | WDone l' b => w = WDone l' b
  end.
Proof. intros <-. destruct w; simpl; try case_bool_decide; naive_solver. Qed.

Lemma fd_step_inv lb s s' : fd_inv s → fd_step lb s s' → fd_inv s'.
Proof.
  intros Hi Hs. pose proof Hi as [Hm Ha Hw Hd].
  destruct Hs as [fd s|fd s|l st s Hl Hne|t l st s Ht Hl|t l st s Ht Hl|t l s Ht|t l s Ht|t l s Ht].
  - pose proof (is_fresh (dom (fd_heap (tbl s)))) as Hf%not_elem_of_dom.
    assert (Hk : ∀ l st, fd_heap (tbl s) !! l = Some st →
              fd_heap (hvac_set_fd_opening fd (tbl s)) !! l = Some st).
    { intros l st Hl. simpl. rewrite lookup_insert_ne; [done|congruence]. }
    split.
    + intros fd' l. simpl. rewrite lookup_insert_Some. intros [[_ <-]|[_ Hl]].
      * rewrite lookup_insert_eq. by eexists.
      * destruct (Hm _ _ Hl) as [st Hst]. exists st. by apply Hk.
    + intros t l Ht. apply Hk. by eapply Ha.
    + intros t l Ht. destruct (Hw _ _ Ht) as [st Hst]. exists st. by apply Hk.
    + intros t l b Ht Hb. destruct (Hd _ _ _ Ht Hb) as (st & Hst & ?). exists st.
      split; [by apply Hk|done].
  - split; simpl; [|done..]. intros fd' l [_ Hl]%lookup_delete_Some. eauto.
  - assert (Hk : ∀ l', is_Some (fd_heap (tbl s) !! l') → is_Some (<[l:=st]> (fd_heap (tbl s)) !! l')).
    { intros l' Hl'. destruct (decide (l' = l)) as [->|]; [rewrite lookup_insert_eq; by eexists|].
      by rewrite lookup_insert_ne. }
    split; simpl.
    + intros fd l' ?%Hm. by apply Hk.
    + intros t l'. rewrite lookup_fmap, fmap_Some. intros (w & Hw' & E).
      symmetry in E. apply broadcast_inv in E as [-> Hne']. rewrite lookup_insert_ne by done. eauto.
    + intros t l'. rewrite lookup_fmap, fmap_Some. intros (w & Hw' & E).
      symmetry in E. apply broadcast_inv in E as [->|[-> ->]]; [by apply Hk, (Hw t)|].
      by apply Hk.
    + intros t l' b. rewrite lookup_fmap, fmap_Some. intros (w & Hw' & E) ->.
      symmetry in E. apply broadcast_inv in E as ->.
      destruct (Hd _ _ _ Hw' eq_refl) as (st' & ? & ?).
      destruct (decide (l' = l)) as [->|]; [rewrite lookup_insert_eq; eauto|].
      rewrite lookup_insert_ne by done. eauto.
  - by apply fd_inv_look.
  - by apply fd_inv_look.
  - by apply fd_inv_thread.
  - by apply fd_inv_thread.
  - apply fd_inv_thread; [done|done| |done]. intros ? [= <-]. rewrite (Ha _ _ Ht). by eexists.
Qed.

Lemma fd_reachable_inv s : reachable fd_step fd_init s → fd_inv s.
Proof.
  apply (reachable_inv fd_step); [apply fd_init_inv|]. intros lb s1 s2 ? ?. by eapply fd_step_inv.
Qed.

(** ** Properties *)

(** What a thread does once it has the mutex again. *)
Lemma own_step s lb s' t w :
  fd_step lb s s' → thr s !! t = Some w → thread_of lb = Some t →
  match w with
  | WWoken l => ∃ st, fd_heap (tbl s) !! l = Some st ∧ thr s' !! t = Some (look l st)
  | WExpired l => thr s' !! t = Some (WDone l false)
  | _ => True
  end.
Proof.
  intros Hs Ht.
  destruct Hs as [fd s|fd s|l st s Hx Hy|u l st s Hc Hl|u l st s Hw Hl|u l s Hw|u l s Hw|u l s Hw];
    simpl; intros [= ->]; destruct w as [l'|l'|l'|l' b]; try done; simplify_eq.
  - destruct (Hc _ l' Ht). by right; left.
  - destruct (Hc _ l' Ht). by right; right.
  - exists st. by rewrite lookup_insert_eq.
  - apply lookup_insert_eq.
Qed.

(** C14. No wakeup is lost: in every reachable state no thread sleeps on an
    object that has become READY. One that still waits on it has been woken, and
    the next step it takes makes hvac_wait_fd_ready answer true; or its deadline
    had passed before the change, and the next step it takes makes it answer
    false, READY or not. *)
Theorem ready_reaches_every_waiter s t w l :
  reachable fd_step fd_init s → thr s !! t = Some w → waits_on w l →
  fd_heap (tbl s) !! l = Some HVAC_FD_READY →
  ∃ answer, (w = WWoken l ∧ answer = true ∨ w = WExpired l ∧ answer = false) ∧
  (∃ lb s', fd_step lb s s' ∧ thread_of lb = Some t) ∧
  ∀ lb s', fd_step lb s s' → thread_of lb = Some t → thr s' !! t = Some (WDone l answer).
Proof.
  intros Hr%fd_reachable_inv Ht Hw Hl. destruct Hr as [_ Ha _ _].
  assert (w ≠ WAsleep l) by (intros ->; pose proof (Ha _ _ Ht); congruence).
  destruct Hw as [->|[-> | ->]]; [done|exists true|exists false]; (split; [by auto|split]).
  - exists (LbRun t). eexists. split; [by eapply st_run|done].
  - intros lb s' Hs Hlb. destruct (own_step _ _ _ _ _ Hs Ht Hlb) as (st & Hst & ->). by simplify_eq.
  - exists (LbTimeout t). eexists. split; [by eapply st_timeout|done].
  - intros lb s' Hs Hlb. apply (own_step _ _ _ _ _ Hs Ht Hlb).
Qed.

(** C15. What a waiting thread comes to is justified at the moment it comes to
    it: hvac_wait_fd_ready answers true only on an object that is READY then;
    false only on an object in ERROR, or to a thread whose deadline had passed;
    and a thread falls asleep, or has its deadline pass, only while its object
    is OPENING, since no thread sleeps through a change of state. *)
Theorem wait_answers_are_justified s lb s' t w :
  reachable fd_step fd_init s → fd_step lb s s' →
  thr s' !! t = Some w → thr s !! t ≠ Some w →
  match w with
  | WDone l true => fd_heap (tbl s) !! l = Some HVAC_FD_READY
  | WDone l false => fd_heap (tbl s) !! l = Some HVAC_FD_ERROR ∨
                     lb = LbTimeout t ∧ thr s !! t = Some (WExpired l)
  | WExpired l => lb = LbExpire t ∧ fd_heap (tbl s) !! l = Some HVAC_FD_OPENING
  | WAsleep l => fd_heap (tbl s) !! l = Some HVAC_FD_OPENING
  | WWoken l => ∃ l', thr s !! t = Some (WAsleep l')
  end.
Proof.
  intros [_ Ha _ _]%fd_reachable_inv Hs Ht' Ht.
  destruct Hs as [fd s|fd s|l st s Hx Hy|u l st s Hc Hl|u l st s Hw Hl|u l s Hw|u l s Hw|u l s Hw];
    simpl in Ht'; try done.
  1: rewrite lookup_fmap, fmap_Some in Ht'; destruct Ht' as (w0 & Hw & E); symmetry in E;
     apply broadcast_inv in E; destruct w; naive_solver.
  all: apply lookup_insert_Some in Ht' as [[-> <-]|[_ ?]]; [|done].
  - by destruct st; simpl; auto.
  - by destruct st; simpl; auto.
  - eauto.
  - auto.
  - eauto.
Qed.

(** The deadline handed to pthread_cond_timedwait is the current time
    plus the timeout, with its nanoseconds in range. *)
Theorem wait_deadline_normalised now timeout_ms :
  0 ≤ tv_nsec now < 1000000000 → 0 ≤ timeout_ms →
  0 ≤ tv_nsec (wait_deadline now timeout_ms) < 1000000000 ∧
  timespec_ns (wait_deadline now timeout_ms) = timespec_ns now + timeout_ms * 1000000.
Proof.
  intros Hn Ht. unfold wait_deadline, timespec_ns.
  pose proof (Z.quot_rem' timeout_ms 1000). pose proof (Z.rem_bound_pos timeout_ms 1000).
  destruct (Z.leb_spec 1000000000 (tv_nsec now + Z.rem timeout_ms 1000 * 1000000)); simpl; lia.
Qed.

(** What the open protocol does to a descriptor's state: after
    hvac_set_fd_opening a wait blocks, after ready it answers true and after
    error false, whatever the condition variable returns, and neither changes
    another descriptor's answer. *)
Theorem fd_state_protocol fd returns t :
  (∀ fd' l, fd_state_map t !! fd' = Some l → is_Some (fd_heap t !! l)) →
  let opened := hvac_set_fd_opening fd t in
  hvac_wait_fd_ready fd returns opened = wait_loop HVAC_FD_OPENING returns ∧
  hvac_wait_fd_ready fd returns (hvac_set_fd_ready fd opened) = true ∧
  hvac_wait_fd_ready fd returns (hvac_set_fd_error fd opened) = false ∧
  hvac_wait_fd_ready fd returns (hvac_cleanup_fd_state fd opened) = false ∧
  ∀ fd', fd' ≠ fd →
    fd_state fd' (hvac_set_fd_ready fd opened) = fd_state fd' t ∧
    fd_state fd' (hvac_set_fd_error fd opened) = fd_state fd' t.
Proof.
  intros Hm opened. pose proof (is_fresh (dom (fd_heap t))) as Hf%not_elem_of_dom.
  unfold opened, hvac_wait_fd_ready, fd_state, hvac_set_fd_ready, hvac_set_fd_error,
    hvac_get_fd_status. simpl.
  repeat (rewrite lookup_insert_eq; simpl). rewrite lookup_delete_eq. simpl.
  split_and!; try done.
  intros fd' Hne. rewrite !lookup_insert_ne by done.
  destruct (fd_state_map t !! fd') as [l|] eqn:E; simpl; [|done].
  destruct (Hm _ _ E) as [st Hst].
  by rewrite !lookup_insert_ne by congruence.
Qed.

(** ** Witnesses *)

Definition ex_fd_init : fd_sys := FdSys (FdTable ∅ ∅) ∅.
Definition ex_fd_opening : fd_sys :=
  FdSys (hvac_set_fd_opening 5 (FdTable ∅ ∅)) ∅.
Definition ex_obj : positive := fresh (dom (∅ : gmap positive hvac_fd_state)).
Definition ex_fd_woken : fd_sys :=
  FdSys (set_heap {[ ex_obj := HVAC_FD_READY ]} (tbl ex_fd_opening))
        {[ 0%nat := WWoken ex_obj ]}.

(** Thread 1's deadline passes just before the descriptor becomes READY. *)
Definition ex_fd_late : fd_sys :=
  FdSys (tbl ex_fd_woken) {[ 0%nat := WWoken ex_obj; 1%nat := WExpired ex_obj ]}.

Lemma ex_fd_late_reachable : reachable fd_step fd_init ex_fd_late.
Proof.
  set (s1 := FdSys (tbl ex_fd_opening) {[ 0%nat := WAsleep ex_obj; 1%nat := WAsleep ex_obj ]}).
  set (s2 := FdSys (tbl ex_fd_opening) {[ 0%nat := WAsleep ex_obj; 1%nat := WExpired ex_obj ]}).
  exists ex_fd_init, [LbOpening 5; LbCall 1; LbCall 0; LbExpire 1; LbSet ex_obj HVAC_FD_READY].
  split; [done|].
  apply steps_cons with (s2 := ex_fd_opening); [apply st_opening|].
  apply steps_cons with (s2 := FdSys (tbl ex_fd_opening) {[ 1%nat := WAsleep ex_obj ]}).
  { apply (st_call 1 ex_obj HVAC_FD_OPENING); [intros w l E; discriminate E|reflexivity]. }
  apply steps_cons with (s2 := s1).
  { apply (st_call 0 ex_obj HVAC_FD_OPENING); [intros w l E; discriminate E|reflexivity]. }
  apply steps_cons with (s2 := s2); [by apply (st_expire 1 ex_obj s1)|].
  apply steps_one. apply (st_set ex_obj HVAC_FD_READY s2); [by eexists|done].
Qed.

Lemma ready_reaches_every_waiter_witness :
  (∃ lb s', fd_step lb ex_fd_late s' ∧ thread_of lb = Some 0%nat) ∧
  ∃ lb s', fd_step lb ex_fd_late s' ∧ thr s' !! 1%nat = Some (WDone ex_obj false).
Proof.
  split.
  - destruct (ready_reaches_every_waiter ex_fd_late 0 (WWoken ex_obj) ex_obj ex_fd_late_reachable
      eq_refl ltac:(right; left; reflexivity) eq_refl) as (_ & _ & Hs & _). exact Hs.
  - destruct (ready_reaches_every_waiter ex_fd_late 1 (WExpired ex_obj) ex_obj ex_fd_late_reachable
      eq_refl ltac:(right; right; reflexivity) eq_refl)
      as (a & [[E _]|[_ ->]] & (lb & s' & Hs & Hlb) & Hall); [discriminate E|].
    exists lb, s'. split; [exact Hs|by apply Hall with lb].
Defined.

Lemma wait_answers_are_justified_witness :
  fd_heap (tbl ex_fd_late) !! ex_obj = Some HVAC_FD_ERROR ∨
  LbTimeout 1 = LbTimeout 1 ∧ thr ex_fd_late !! 1%nat = Some (WExpired ex_obj).
Proof.
  apply (wait_answers_are_justified ex_fd_late (LbTimeout 1)
    (FdSys (tbl ex_fd_late) (<[1%nat := WDone ex_obj false]> (thr ex_fd_late))) 1
    (WDone ex_obj false) ex_fd_late_reachable).
  - apply (st_timeout 1 ex_obj ex_fd_late); reflexivity.
  - reflexivity.
  - discriminate.
Defined.

Lemma wait_deadline_normalised_witness :
  timespec_ns (wait_deadline {| tv_sec := 10; tv_nsec := 999999999 |} 5000) = 15999999999.
Proof.
  destruct (wait_deadline_normalised {| tv_sec := 10; tv_nsec := 999999999 |} 5000)
    as [_ E]; [simpl; lia|lia|]. rewrite E. reflexivity.
Defined.

Lemma fd_state_protocol_witness :
  hvac_wait_fd_ready 5 [] (hvac_set_fd_ready 5 (hvac_set_fd_opening 5 (FdTable ∅ ∅))) = true.
Proof.
  apply (fd_state_protocol 5 [] (FdTable ∅ ∅)). intros fd' l Hl.
  discriminate Hl.
Defined.
