(* ===== verification/FdLocks.v ===== *)
(** * Sharded locks over the descriptor-state map

    Lines 61-104 and 165-170 of [src/src/mthvac_comm_client.cpp]: one
    unordered_map guarded by 64 reader-writer locks, the lock chosen by the
    descriptor. The locks are initialised by the first access, which tests and
    sets a flag of its own without a lock. Threads go through the accesses to
    the map, the flag and the locks in any order the locks allow. *)

From S2P Require Import Prelude.

Local Open Scope Z_scope.

Definition FD_STATE_SHARDS : Z := 64.

(** [fd % FD_STATE_SHARDS], the index into fd_state_map_rwlocks. C's remainder
    has the sign of the dividend. *)
Definition get_fd_rwlock (fd : Z) : Z := Z.rem fd FD_STATE_SHARDS.

(** Does [i] name one of the array's elements? *)
Definition valid_lock (i : Z) : bool := (0 <=? i) && (i <? FD_STATE_SHARDS).

(** ** Threads and locks *)

(** How a thread accesses the map: a lookup (hvac_get_fd_status) under a read
    lock, an insertion or deletion (hvac_set_fd_opening,
    hvac_cleanup_fd_state) under a write lock. *)
Inductive access : Type := Lookup | Mutate.

Inductive rwlock : Type :=
| Free
| Readers (ts : gset nat)
| Writer (t : nat).

(** Where an access is. *)
Inductive lock_pc : Type :=
| LkInit (i : Z)        (* in the loop of init_fd_state_rwlocks *)
| LkAcquire             (* get_fd_rwlock has returned *)
| LkInside.             (* holding the lock, at the map *)

Record lock_sys : Type := LockSys {
  rwlocks : gmap Z rwlock;                    (* absent: not initialised *)
  initialized : bool;                         (* fd_state_rwlocks_initialized *)
  lock_pcs : gmap nat (lock_pc * access * Z)  (* the access, and its descriptor *)
}.

(** pthread_rwlock_rdlock / wrlock: [None] blocks. *)
Definition acquire (t : nat) (a : access) (l : rwlock) : option rwlock :=
  match a, l with
  | Lookup, Free => Some (Readers {[ t ]})
  | Lookup, Readers ts => Some (Readers ({[ t ]} ∪ ts))
  | Mutate, Free => Some (Writer t)
  | _, _ => None
  end.

Definition release (t : nat) (l : rwlock) : rwlock :=
  match l with
  | Readers ts => if decide (ts ∖ {[ t ]} = ∅) then Free else Readers (ts ∖ {[ t ]})
  | _ => Free
  end.

Inductive lock_label : Type :=
| LkCall (t : nat) (a : access) (fd : Z)
| LkStep (t : nat).

(** The next step of a thread. A call tests the flag; the loop initialises one
    lock at a time, and the flag is set after it. POSIX gives no meaning to
    initialising a lock that is held: such a step is not taken. *)
Definition lock_run (x : lock_label) (s : lock_sys) : option lock_sys :=
  match x with
  | LkCall t a fd =>
      match lock_pcs s !! t with
      | Some _ => None
      | None =>
          let pc := if initialized s then LkAcquire else LkInit 0 in
          Some (LockSys (rwlocks s) (initialized s) (<[t := (pc, a, fd)]> (lock_pcs s)))
      end
  | LkStep t =>
      '(pc, a, fd) ← lock_pcs s !! t;
      let i := get_fd_rwlock fd in
      match pc with
      | LkInit n =>
          if n <? FD_STATE_SHARDS then
            match rwlocks s !! n with
            | Some (Readers _) | Some (Writer _) => None
            | _ => Some (LockSys (<[n := Free]> (rwlocks s)) (initialized s)
                           (<[t := (LkInit (n + 1), a, fd)]> (lock_pcs s)))
            end
          else Some (LockSys (rwlocks s) true (<[t := (LkAcquire, a, fd)]> (lock_pcs s)))
      | LkAcquire =>
          l ← rwlocks s !! i;
          l' ← acquire t a l;
          Some (LockSys (<[i := l']> (rwlocks s)) (initialized s)
                  (<[t := (LkInside, a, fd)]> (lock_pcs s)))
      | LkInside =>
          l ← rwlocks s !! i;
          Some (LockSys (<[i := release t l]> (rwlocks s)) (initialized s) (delete t (lock_pcs s)))
      end
  end.

Definition lock_step (x : lock_label) (s s' : lock_sys) : Prop := lock_run x s = Some s'.

(** The process starts with nothing initialised. *)
Definition lock_init (s : lock_sys) : Prop :=
  rwlocks s = ∅ ∧ initialized s = false ∧ lock_pcs s = ∅.

Definition is_initialising (x : lock_pc * access * Z) : bool :=
  if fst (fst x) is LkInit _ then true else false.

(** Nobody calls while another thread initialises the locks. *)
Definition first_alone (x : lock_label) (s : lock_sys) : bool :=
  match x with
  | LkCall _ _ _ => bool_decide (map_Forall (λ _ c, is_initialising c = false) (lock_pcs s))
  | LkStep _ => true
  end.

Definition calm_step (x : lock_label) (s s' : lock_sys) : Prop :=
  lock_step x s s' ∧ first_alone x s = true.

(** Thread [t] is at the map, inside its access for [fd]. *)
Definition inside (s : lock_sys) (t : nat) (a : access) (fd : Z) : Prop :=
  lock_pcs s !! t = Some (LkInside, a, fd).

(** Thread [t] is about to initialise lock [i]. *)
Definition initialises (s : lock_sys) (t : nat) (i : Z) : Prop :=
  ∃ a fd, lock_pcs s !! t = Some (LkInit i, a, fd).

(** The lock of a shard records exactly the threads inside it. *)
Definition holds (l : rwlock) (t : nat) (a : access) : Prop :=
  match a with
  | Lookup => ∃ ts, l = Readers ts ∧ t ∈ ts
  | Mutate => l = Writer t
  end.

(** ** The invariant of runs whose first access is alone *)

Definition lock_inv (s : lock_sys) : Prop :=
  if initialized s
  then (∀ t c, lock_pcs s !! t = Some c → is_initialising c = false) ∧
       (∀ t a fd, inside s t a fd → ∃ l, rwlocks s !! get_fd_rwlock fd = Some l ∧ holds l t a)
  else (∀ t c, lock_pcs s !! t = Some c → is_initialising c = true) ∧
       (∀ t u c d, lock_pcs s !! t = Some c → lock_pcs s !! u = Some d → t = u).

(** ** Lemmas *)

Lemma acquire_holds t a l l' : acquire t a l = Some l' → holds l' t a.
Proof. destruct a, l; simpl; intros [= <-]; try done; eexists; split; try done; set_solver. Qed.

Lemma acquire_keeps t a l l' t' a' :
  acquire t a l = Some l' → holds l t' a' → holds l' t' a'.
Proof.
  destruct a, l, a'; simpl; intros [= <-]; try done; try (by intros (? & ? & _)).
  intros (ts' & [= ->] & ?). eexists. split; [done|]. set_solver.
Qed.

Lemma release_keeps t l a t' a' :
  t ≠ t' → holds l t a → holds l t' a' → holds (release t l) t' a'.
Proof.
  intros Hne. destruct l as [|ts|w], a, a'; simpl; try naive_solver.
  intros _ (ts' & [= <-] & Hin). case_decide as Hd; [set_solver|].
  eexists. split; [done|]. set_solver.
Qed.

(** One lock changes. *)
Lemma holds_insert (m : gmap Z rwlock) i l l' j t a :
  m !! i = Some l → (holds l t a → holds l' t a) →
  (∃ l0, m !! j = Some l0 ∧ holds l0 t a) → ∃ l0, <[i := l']> m !! j = Some l0 ∧ holds l0 t a.
Proof.
  intros Hi Hk (l0 & Hj & Hh). destruct (decide (i = j)) as [->|]; [|rewrite lookup_insert_ne by done; eauto].
  rewrite lookup_insert_eq. simplify_eq. eauto.
Qed.

Lemma calm_step_inv x s s' : lock_inv s → calm_step x s s' → lock_inv s'.
Proof.
  intros Hi [Hs Ha]. unfold lock_step in Hs. destruct x as [t a fd|t]; simpl in Hs.
  - destruct (lock_pcs s !! t) eqn:Ht; [done|]. injection Hs as <-.
    simpl in Ha. apply bool_decide_eq_true in Ha. unfold lock_inv in *. simpl in *.
    destruct (initialized s).
    + destruct Hi as [H1 H2]. split.
      * intros u c [[<- <-]|[_ Hu]]%lookup_insert_Some; [done|eauto].
      * intros u b g. unfold inside. simpl.
        intros [[_ [=]]|[_ Hu]]%lookup_insert_Some. by apply H2.
    + destruct Hi as [H1 H2].
      assert (Hno : lock_pcs s = ∅).
      { apply map_eq. intros u. rewrite lookup_empty. destruct (lock_pcs s !! u) as [c|] eqn:Hu; [|done].
        specialize (H1 _ _ Hu). specialize (Ha _ _ Hu). simpl in Ha. congruence. }
      rewrite Hno. split.
      * intros u c [[<- <-]|[_ Hu]]%lookup_insert_Some; [done|by rewrite lookup_empty in Hu].
      * intros u v c d [[<- _]|[_ Hu]]%lookup_insert_Some [[<- _]|[_ Hv]]%lookup_insert_Some;
          try done; by rewrite lookup_empty in *.
  - apply bind_Some in Hs as ([[pc a] fd] & Ht & Hs).
    unfold lock_inv in Hi. destruct pc as [n| |].
    + destruct (initialized s) eqn:Hin; [by destruct Hi as [H1 _]; specialize (H1 _ _ Ht)|].
      destruct Hi as [H1 H2]. destruct (n <? FD_STATE_SHARDS).
      * assert (s' = LockSys (<[n := Free]> (rwlocks s)) false
          (<[t := (LkInit (n + 1), a, fd)]> (lock_pcs s))) as -> by (by destruct (rwlocks s !! n) as [[]|]; simplify_eq).
        unfold lock_inv. simpl. split.
        -- intros u c [[<- <-]|[_ Hu]]%lookup_insert_Some; [done|eauto].
        -- intros u v c d [[<- _]|[_ Hu]]%lookup_insert_Some [[<- _]|[_ Hv]]%lookup_insert_Some; eauto.
      * injection Hs as <-. unfold lock_inv. simpl. split.
        -- intros u c [[<- <-]|[Hne Hu]]%lookup_insert_Some; [done|]. destruct Hne. by eapply H2.
        -- intros u b g. unfold inside. simpl.
           intros [[_ [=]]|[Hne Hu]]%lookup_insert_Some. destruct Hne. by eapply H2.
    + destruct (initialized s) eqn:Hin; [|by destruct Hi as [H1 _]; specialize (H1 _ _ Ht)].
      destruct Hi as [H1 H2]. apply bind_Some in Hs as (l & Hl & Hs). apply bind_Some in Hs as (l' & Hl' & [= <-]).
      unfold lock_inv. simpl. split.
      * intros u c [[<- <-]|[_ Hu]]%lookup_insert_Some; [done|eauto].
      * intros u b g. unfold inside. simpl. intros [[<- [= <- <-]]|[Hne Hu]]%lookup_insert_Some.
        -- rewrite lookup_insert_eq. eexists. split; [done|]. by eapply acquire_holds.
        -- eapply holds_insert; [exact Hl| |by apply H2]. by eapply acquire_keeps.
    + destruct (initialized s) eqn:Hin; [|by destruct Hi as [H1 _]; specialize (H1 _ _ Ht)].
      destruct Hi as [H1 H2]. apply bind_Some in Hs as (l & Hl & [= <-]).
      unfold lock_inv. simpl. split.
      * intros u c [_ Hu]%lookup_delete_Some. eauto.
      * intros u b g. unfold inside. simpl. intros [Hne Hu]%lookup_delete_Some.
        eapply holds_insert; [exact Hl| |by apply H2].
        destruct (H2 _ _ _ Ht) as (l0 & Hl0 & Hh). simplify_eq. by eapply release_keeps.
Qed.

Lemma calm_reachable_inv s : reachable calm_step lock_init s → lock_inv s.
Proof.
  apply (reachable_inv calm_step).
  - intros s0 (_ & Hi & Hp). unfold lock_inv. rewrite Hi, Hp. split; intros *; by rewrite lookup_empty.
  - intros x s1 s2 ? ?. by eapply calm_step_inv.
Qed.

(** Within a shard the locks do their job. *)
Lemma same_shard_mutual_exclusion s t1 t2 a fd1 fd2 :
  reachable calm_step lock_init s → t1 ≠ t2 →
  inside s t1 Mutate fd1 → inside s t2 a fd2 → get_fd_rwlock fd1 ≠ get_fd_rwlock fd2.
Proof.
  intros Hi%calm_reachable_inv Hne H1 H2 Heq. unfold lock_inv in Hi.
  destruct (initialized s); destruct Hi as [I1 I2].
  - destruct (I2 _ _ _ H1) as (l1 & E1 & Hh1), (I2 _ _ _ H2) as (l2 & E2 & Hh2).
    rewrite <-Heq in E2. simpl in Hh1. subst l1. simplify_eq. destruct a; simpl in Hh2; naive_solver.
  - by specialize (I1 _ _ H1).
Qed.

(** ** The initialisation as a whole *)

(** [k] locks from [n] on initialised. *)
Fixpoint free_range (k : nat) (n : Z) (m : gmap Z rwlock) : gmap Z rwlock :=
  match k with
  | O => m
  | S k' => <[n + Z.of_nat k' := Free]> (free_range k' n m)
  end.

Lemma free_range_lookup k n m i :
  free_range k n m !! i = if decide (n ≤ i < n + Z.of_nat k) then Some Free else m !! i.
Proof.
  induction k as [|k IH]; simpl; [by rewrite decide_False by lia|].
  destruct (decide (i = n + Z.of_nat k)) as [->|Hne].
  - rewrite lookup_insert_eq. by rewrite decide_True by lia.
  - rewrite lookup_insert_ne, IH by done. repeat case_decide; (done || lia).
Qed.

(** The loop of a thread, over locks nobody holds. *)
Lemma init_loop s t a fd n k :
  lock_pcs s !! t = Some (LkInit n, a, fd) → n + Z.of_nat k ≤ FD_STATE_SHARDS →
  (∀ i l, n ≤ i < n + Z.of_nat k → rwlocks s !! i = Some l → l = Free) →
  steps calm_step (replicate k (LkStep t)) s
    (LockSys (free_range k n (rwlocks s)) (initialized s)
       (<[t := (LkInit (n + Z.of_nat k), a, fd)]> (lock_pcs s))).
Proof.
  intros Ht Hk Hf. induction k as [|k IH].
  - rewrite Z.add_0_r, insert_id by done. destruct s. constructor.
  - rewrite replicate_S_end. eapply steps_snoc; [apply IH; [lia|]|].
    { intros i l Hi. apply Hf. lia. }
    split; [|done]. unfold lock_step. simpl. rewrite lookup_insert_eq. simpl.
    destruct (Z.ltb_spec (n + Z.of_nat k) FD_STATE_SHARDS); [|lia].
    rewrite free_range_lookup, decide_False by lia.
    assert (∀ l, rwlocks s !! (n + Z.of_nat k) = Some l → l = Free) as Hl by (intros l; apply Hf; lia).
    rewrite insert_insert_eq. replace (n + Z.of_nat k + 1) with (n + Z.of_nat (S k)) by lia.
    destruct (rwlocks s !! _) as [l|]; [by rewrite (Hl l eq_refl)|done].
Qed.

Definition no_locks : lock_sys := LockSys ∅ false ∅.
Definition all_free : gmap Z rwlock := free_range 64 0 ∅.

#[local] Opaque free_range.

Lemma all_free_lookup i : 0 ≤ i < FD_STATE_SHARDS → all_free !! i = Some Free.
Proof. intros Hi. unfold all_free. rewrite free_range_lookup. apply decide_True. exact Hi. Qed.

Lemma get_fd_rwlock_range fd : 0 ≤ fd → 0 ≤ get_fd_rwlock fd < FD_STATE_SHARDS.
Proof. intros. unfold get_fd_rwlock, FD_STATE_SHARDS. by apply Z.rem_bound_pos. Qed.

(** The steps after the loop. *)
Lemma step_set s t a fd :
  lock_pcs s !! t = Some (LkInit 64, a, fd) →
  lock_run (LkStep t) s
    = Some (LockSys (rwlocks s) true (<[t := (LkAcquire, a, fd)]> (lock_pcs s))).
Proof. intros Ht. simpl. by rewrite Ht. Qed.

Lemma step_acquire s t a fd l l' :
  lock_pcs s !! t = Some (LkAcquire, a, fd) → rwlocks s !! get_fd_rwlock fd = Some l →
  acquire t a l = Some l' →
  lock_run (LkStep t) s
    = Some (LockSys (<[get_fd_rwlock fd := l']> (rwlocks s)) (initialized s)
              (<[t := (LkInside, a, fd)]> (lock_pcs s))).
Proof. intros Ht Hl Ha. simpl. by rewrite Ht; simpl; rewrite Hl; simpl; rewrite Ha. Qed.

(** The first access, alone: it initialises the locks and takes its own. *)
Lemma first_access t fd :
  0 ≤ fd → ∃ ls, steps calm_step ls no_locks
    (LockSys (<[get_fd_rwlock fd := Writer t]> all_free) true {[ t := (LkInside, Mutate, fd) ]}).
Proof.
  intros Hfd. eexists. eapply steps_cons with (l := LkCall t Mutate fd).
  { split; [reflexivity|]. simpl. by apply bool_decide_eq_true. }
  eapply steps_app; [apply (init_loop _ t Mutate fd 0 64)|].
  { simpl. apply lookup_insert_eq. }
  { done. }
  { simpl. intros i l _. by rewrite lookup_empty. }
  cbn [initialized lock_pcs rwlocks no_locks]. fold all_free. rewrite insert_insert_eq.
  eapply steps_cons with (l := LkStep t).
  { split; [|done]. unfold lock_step. by rewrite (step_set _ t Mutate fd (lookup_insert_eq _ _ _)). }
  apply steps_one with (l := LkStep t). split; [|done]. unfold lock_step.
  cbn [rwlocks lock_pcs]. rewrite insert_insert_eq.
  rewrite (step_acquire _ t Mutate fd Free (Writer t)); cbn [rwlocks lock_pcs initialized].
  - by rewrite insert_insert_eq.
  - apply lookup_insert_eq.
  - by apply all_free_lookup, get_fd_rwlock_range.
  - done.
Qed.

(** Across shards the locks do not exclude anything. *)
Lemma different_locks_race a fd1 fd2 :
  0 ≤ fd1 → 0 ≤ fd2 → get_fd_rwlock fd1 ≠ get_fd_rwlock fd2 →
  ∃ s t1 t2, reachable calm_step lock_init s ∧ t1 ≠ t2 ∧ inside s t1 Mutate fd1 ∧ inside s t2 a fd2.
Proof.
  intros H1 H2 Hne. destruct (first_access 0 fd1 H1) as (ls & Hs).
  set (s1 := LockSys _ _ _) in Hs.
  set (l := if a is Lookup then Readers {[ 1%nat ]} else Writer 1%nat).
  set (s2 := LockSys (rwlocks s1) true (<[1%nat := (LkAcquire, a, fd2)]> (lock_pcs s1))).
  exists (LockSys (<[get_fd_rwlock fd2 := l]> (rwlocks s1)) true
    (<[1%nat := (LkInside, a, fd2)]> (lock_pcs s1))), 0%nat, 1%nat.
  split_and!; [|done|done|by unfold inside].
  exists no_locks, (ls ++ [LkCall 1 a fd2; LkStep 1]). split; [done|].
  eapply steps_app; [exact Hs|]. apply steps_cons with (s2 := s2).
  - split; [done|]. simpl. apply bool_decide_eq_true. by apply map_Forall_singleton.
  - apply steps_one with (l := LkStep 1). split; [|done]. unfold lock_step.
    rewrite (step_acquire s2 1 a fd2 Free l).
    + unfold s2. cbn [lock_pcs]. by rewrite insert_insert_eq.
    + apply lookup_insert_eq.
    + unfold s2, s1. cbn [rwlocks]. rewrite lookup_insert_ne by done.
      by apply all_free_lookup, get_fd_rwlock_range.
    + by destruct a.
Qed.

(** When two first accesses coincide, one comes to initialise the lock the
    other is holding. *)
Lemma calm_lock_steps ls s s' : steps calm_step ls s s' → steps lock_step ls s s'.
Proof. intros Hs. induction Hs as [|ls l s1 s2 s3 _ IH [Hl _]]; [constructor|by econstructor]. Qed.

Lemma first_accesses_collide fd1 (a : access) (fd2 : Z) :
  0 ≤ fd1 → ∃ s, reachable lock_step lock_init s ∧
    inside s 0 Mutate fd1 ∧ initialises s 1 (get_fd_rwlock fd1).
Proof.
  intros H1. set (x0 := (LkInit 0, Mutate, fd1)). set (x1 := (LkInit 0, a, fd2)).
  set (s0 := LockSys ∅ false (<[1%nat := x1]> {[ 0%nat := x0 ]})).
  set (s1 := LockSys all_free false
    (<[0%nat := (LkInit 64, Mutate, fd1)]> (<[1%nat := x1]> {[ 0%nat := x0 ]}))).
  set (m := <[get_fd_rwlock fd1 := Writer 0]> all_free).
  set (s3 := LockSys m true
    (<[0%nat := (LkInside, Mutate, fd1)]> (<[1%nat := x1]> {[ 0%nat := x0 ]}))).
  pose proof (get_fd_rwlock_range fd1 H1) as Hr.
  assert (Hs3 : steps lock_step (LkCall 0 Mutate fd1 :: LkCall 1 a fd2 ::
    replicate 64 (LkStep 0) ++ [LkStep 0; LkStep 0]) no_locks s3).
  { eapply steps_cons; [reflexivity|]. eapply steps_cons with (s2 := s0); [reflexivity|].
    eapply steps_app; [apply calm_lock_steps, (init_loop s0 0 Mutate fd1 0 64)|].
    - done.
    - done.
    - intros i l _. cbn [rwlocks s0]. by rewrite lookup_empty.
    - change (LockSys _ _ _) with s1. eapply steps_cons.
      { unfold lock_step. by rewrite (step_set s1 0 Mutate fd1). }
      apply steps_one. unfold lock_step. rewrite (step_acquire _ 0 Mutate fd1 Free (Writer 0)).
      + unfold s1, s3, m. cbn [rwlocks lock_pcs initialized]. by rewrite !insert_insert_eq.
      + apply lookup_insert_eq.
      + by apply all_free_lookup.
      + done. }
  exists (LockSys (free_range (Z.to_nat (get_fd_rwlock fd1)) 0 m) true
    (<[1%nat := (LkInit (0 + Z.of_nat (Z.to_nat (get_fd_rwlock fd1))), a, fd2)]> (lock_pcs s3))).
  split_and!.
  - exists no_locks. eexists. split; [done|]. eapply steps_app; [exact Hs3|].
    apply calm_lock_steps, (init_loop s3 1 a fd2 0).
    + done.
    + rewrite Z2Nat.id by lia. lia.
    + intros i l Hi. cbn [rwlocks s3]. unfold m. rewrite lookup_insert_ne by lia.
      rewrite all_free_lookup by lia. by intros [= <-].
  - done.
  - exists a, fd2. cbn [lock_pcs]. rewrite lookup_insert_eq, Z2Nat.id by lia. done.
Qed.

(** ** Properties *)

(** C20. While nobody calls during the first access, the locks exclude exactly
    the races within a shard: a thread can modify the map for a descriptor
    while another one accesses it for a second descriptor if and only if the two
    descriptors have different locks, though the map is one and the same. And
    when two first accesses coincide not even that: both find the flag of
    init_fd_state_rwlocks unset, and one comes to initialise the very lock the
    other is holding, for which POSIX gives no meaning. *)
Theorem races_are_across_shards a fd1 fd2 :
  0 ≤ fd1 → 0 ≤ fd2 →
  ((∃ s t1 t2, reachable calm_step lock_init s ∧ t1 ≠ t2 ∧
      inside s t1 Mutate fd1 ∧ inside s t2 a fd2) ↔
   get_fd_rwlock fd1 ≠ get_fd_rwlock fd2) ∧
  ∃ s t1 t2, reachable lock_step lock_init s ∧ t1 ≠ t2 ∧
    inside s t1 Mutate fd1 ∧ initialises s t2 (get_fd_rwlock fd1).
Proof.
  intros H1 H2. split; [split|].
  - intros (s & t1 & t2 & Hr & Hne & Hi1 & Hi2). by eapply same_shard_mutual_exclusion.
  - by apply different_locks_race.
  - destruct (first_accesses_collide fd1 a fd2 H1) as (s & Hr & Hi & Hj).
    by exists s, 0%nat, 1%nat.
Qed.

(** The lock index is inside the array exactly for non-negative
    descriptors and negative multiples of 64. *)
Theorem lock_index_in_range fd :
  valid_lock (get_fd_rwlock fd) = true ↔ 0 ≤ fd ∨ Z.rem fd 64 = 0.
Proof.
  unfold valid_lock, get_fd_rwlock, FD_STATE_SHARDS.
  rewrite andb_true_iff, Z.leb_le, Z.ltb_lt. split.
  - intros [? ?]. destruct (Z_lt_le_dec fd 0); [right|by left].
    Z.to_euclidean_division_equations. lia.
  - intros [?|E].
    + Z.to_euclidean_division_equations. lia.
    + rewrite E. lia.
Qed.

(** ** Witness: descriptors 3 and 67 share a lock *)

Lemma races_are_across_shards_witness :
  (¬ ∃ s t1 t2, reachable calm_step lock_init s ∧ t1 ≠ t2 ∧
     inside s t1 Mutate 3 ∧ inside s t2 Lookup 67) ∧
  ∃ s t1 t2, reachable lock_step lock_init s ∧ t1 ≠ t2 ∧
    inside s t1 Mutate 3 ∧ initialises s t2 3.
Proof.
  destruct (races_are_across_shards Lookup 3 67) as [Hiff Hc]; [lia|lia|].
  split; [|exact Hc]. intros Hr. by apply Hiff in Hr.
Defined.
