(* ===== verification/Sync.v ===== *)
(** * The per-operation synchronisation context

    [hvac_sync_context] and [hvac_wait_for_operation] of
    [src/src/mthvac_comm_client.cpp], and the block with which each RPC
    callback publishes its result. The context is on the stack of the waiting
    thread; the callback runs in Mercury's progress thread. Every access to
    the context is a step of its own. *)

From S2P Require Import Prelude.

Local Open Scope Z_scope.

(** ** State *)

Inductive who : Type := Waiter | Callback.

Global Instance who_eq_dec : EqDecision who.
Proof. solve_decision. Defined.

(** The waiting thread, hvac_wait_for_operation. *)
Inductive waiter_pc : Type :=
| W_Lock              (* pthread_mutex_lock *)
| W_Test              (* while (done != HG_TRUE) *)
| W_Sleep             (* inside pthread_cond_wait, mutex released *)
| W_Relock            (* woken, must take the mutex again *)
| W_Read              (* result = sync_ctx->result *)
| W_Unlock (r : Z)    (* pthread_mutex_unlock *)
| W_Ret (r : Z).      (* returned: the context goes out of scope *)

(** The callback's block. *)
Inductive callback_pc : Type :=
| C_Lock | C_SetDone | C_SetResult | C_Broadcast | C_Unlock | C_End.

Record sync_sys : Type := SyncSys {
  done_flag : bool;
  sync_result : Z;
  done_mutex : option who;
  wpc : waiter_pc;
  cpc : callback_pc
}.

(** The constructor hvac_sync_context(): done(HG_FALSE), result(-1). *)
Definition hvac_sync_context : sync_sys := SyncSys false (-1) None W_Lock C_Lock.

(** ** The two threads *)

Definition hvac_wait_for_operation (s : sync_sys) : option sync_sys :=
  let '(SyncSys d r m w c) := s in
  match w, m with
  | W_Lock, None => Some (SyncSys d r (Some Waiter) W_Test c)
  | W_Test, _ => if d then Some (SyncSys d r m W_Read c)
                 else Some (SyncSys d r None W_Sleep c)
  | W_Relock, None => Some (SyncSys d r (Some Waiter) W_Test c)
  | W_Read, _ => Some (SyncSys d r m (W_Unlock r) c)
  | W_Unlock x, _ => Some (SyncSys d r None (W_Ret x) c)
  | _, _ => None
  end.

(** The callback publishing [v]. *)
Definition publish (v : Z) (s : sync_sys) : option sync_sys :=
  let '(SyncSys d r m w c) := s in
  match c, m with
  | C_Lock, None => Some (SyncSys d r (Some Callback) w C_SetDone)
  | C_SetDone, _ => Some (SyncSys true r m w C_SetResult)
  | C_SetResult, _ => Some (SyncSys d v m w C_Broadcast)
  | C_Broadcast, _ =>
      Some (SyncSys d r m (match w with W_Sleep => W_Relock | _ => w end) C_Unlock)
  | C_Unlock, _ => Some (SyncSys d r None w C_End)
  | _, _ => None
  end.

(** pthread_cond_wait may return without a broadcast. *)
Definition spurious (s : sync_sys) : option sync_sys :=
  let '(SyncSys d r m w c) := s in
  match w with W_Sleep => Some (SyncSys d r m W_Relock c) | _ => None end.

Inductive sync_label : Type := ByWaiter | ByCallback | BySpurious.

Definition sync_run (v : Z) (l : sync_label) (s : sync_sys) : option sync_sys :=
  match l with
  | ByWaiter => hvac_wait_for_operation s
  | ByCallback => publish v s
  | BySpurious => spurious s
  end.

Definition sync_step (v : Z) (l : sync_label) (s s' : sync_sys) : Prop :=
  sync_run v l s = Some s'.

(** ** The invariant *)

Definition waiter_holds (w : waiter_pc) : bool :=
  match w with W_Test | W_Read | W_Unlock _ => true | _ => false end.
Definition callback_holds (c : callback_pc) : bool :=
  match c with C_SetDone | C_SetResult | C_Broadcast | C_Unlock => true | _ => false end.

(** What the waiter may have seen. *)
Definition waiter_saw (v : Z) (s : sync_sys) : Prop :=
  match wpc s with
  | W_Read => cpc s = C_End
  | W_Unlock x | W_Ret x => cpc s = C_End ∧ x = v
  | W_Sleep => cpc s ≠ C_Unlock ∧ cpc s ≠ C_End
  | _ => True
  end.

Definition callback_did (v : Z) (s : sync_sys) : Prop :=
  match cpc s with
  | C_Lock | C_SetDone => done_flag s = false
  | C_SetResult => done_flag s = true
  | _ => done_flag s = true ∧ sync_result s = v
  end.

Record sync_inv (v : Z) (s : sync_sys) : Prop := {
  sy_w : waiter_holds (wpc s) = bool_decide (done_mutex s = Some Waiter);
  sy_c : callback_holds (cpc s) = bool_decide (done_mutex s = Some Callback);
  sy_saw : waiter_saw v s;
  sy_did : callback_did v s
}.

Definition sync_measure (s : sync_sys) : nat :=
  10 * match cpc s with C_Lock => 5 | C_SetDone => 4 | C_SetResult => 3
                      | C_Broadcast => 2 | C_Unlock => 1 | C_End => 0 end +
  match wpc s with W_Lock | W_Relock => 6 | W_Test => 5 | W_Sleep => 4 | W_Read => 3
                 | W_Unlock _ => 2 | W_Ret _ => 0 end.

Lemma sync_init_inv v : sync_inv v hvac_sync_context.
Proof. by split. Qed.

Lemma sync_step_inv v l s s' : sync_inv v s → sync_step v l s s' → sync_inv v s'.
Proof.
  unfold sync_step. intros [Hw Hc Hs Hd] E.
  unfold waiter_saw, callback_did in *.
  destruct s as [d r m w c], l, w, c; destruct m as [[]|]; simpl in *; simplify_eq;
    try (destruct d; simplify_eq); simpl in *;
    try (split; simpl; try done; unfold waiter_saw, callback_did; simpl; naive_solver).
Qed.

Lemma sync_reachable_inv v s :
  reachable (sync_step v) (λ s0, s0 = hvac_sync_context) s → sync_inv v s.
Proof.
  apply (reachable_inv (sync_step v)).
  - intros s0 ->. apply sync_init_inv.
  - intros l s1 s2 ? ?. by eapply sync_step_inv.
Qed.

(** ** Properties *)

(** C16. hvac_wait_for_operation returns exactly the value its callback
    published, never the initial -1 of a context whose flag is already set,
    and when it returns the callback has made its last access to the context:
    the stack object is not used after its scope ends. *)
Theorem wait_returns_published_result v s r :
  reachable (sync_step v) (λ s0, s0 = hvac_sync_context) s →
  wpc s = W_Ret r → r = v ∧ publish v s = None.
Proof.
  intros [_ _ Hs _]%sync_reachable_inv Hw. unfold waiter_saw in Hs. rewrite Hw in Hs.
  destruct Hs as [Hc ->]. split; [done|]. destruct s as [d x m w c]. simpl in *. by subst.
Qed.

(** C17. The wait cannot get stuck: in every reachable state one of the two
    threads can take a step without any spurious wakeup, unless the waiter has
    returned the callback's value and the callback has finished; and each such
    step decreases a measure, so at most 56 of them separate the call from its
    return. *)
Theorem wait_for_operation_terminates v s :
  reachable (sync_step v) (λ s0, s0 = hvac_sync_context) s →
  (wpc s = W_Ret v ∧ cpc s = C_End ∨
   ∃ l s', l ≠ BySpurious ∧ sync_step v l s s') ∧
  (∀ l s', l ≠ BySpurious → sync_step v l s s' → (sync_measure s' < sync_measure s)%nat) ∧
  (sync_measure hvac_sync_context = 56)%nat.
Proof.
  intros [Hw Hc Hs Hd]%sync_reachable_inv. split_and!; [..|done].
  - unfold waiter_saw in Hs. destruct s as [d r m w c]; simpl in *.
    destruct w, c; simpl in *; try naive_solver; right;
      destruct m as [[]|]; try (by cbv in Hw); try (by cbv in Hc);
      first [ eexists ByCallback, _; split; [discriminate|reflexivity]
            | eexists ByWaiter, _; split; [discriminate|reflexivity]
            | destruct d; (eexists ByWaiter, _; split; [discriminate|reflexivity]) ].
  - unfold sync_step. intros l s' Hl E. destruct s as [d r m w c].
    destruct l; [| |done]; destruct w, c; destruct m as [[]|]; simpl in *; simplify_eq;
      try (destruct d; simplify_eq); unfold sync_measure; simpl; lia.
Qed.

(** ** Witnesses *)

Lemma wait_returns_published_result_witness : 7 = 7 ∧
  publish 7 (SyncSys true 7 None (W_Ret 7) C_End) = None.
Proof.
  apply (wait_returns_published_result 7 (SyncSys true 7 None (W_Ret 7) C_End) 7); [|reflexivity].
  exists hvac_sync_context,
    [ByCallback; ByCallback; ByCallback; ByCallback; ByCallback; ByWaiter; ByWaiter; ByWaiter; ByWaiter].
  split; [reflexivity|].
  repeat (eapply steps_cons; [reflexivity|]). constructor.
Defined.

Lemma wait_for_operation_terminates_witness :
  ∃ l s', l ≠ BySpurious ∧ sync_step 7 l hvac_sync_context s'.
Proof.
  destruct (wait_for_operation_terminates 7 hvac_sync_context) as ([[E _]|Hs] & _).
  - exists hvac_sync_context, []. split; [reflexivity|constructor].
  - discriminate.
  - exact Hs.
Defined.
