(* ===== verification/Comm.v ===== *)
(** * The communication layer: initialisation, progress thread, shutdown

    [hvac_init_comm], [hvac_progress_fn] and [hvac_shutdown_comm] of
    [src/src/mthvac_comm.cpp]. Client and server both run them. *)

From S2P Require Import Prelude CText Wire.

Local Open Scope Z_scope.

(** ** State *)

Record comm : Type := Comm {
  hg_class : bool;              (* hg_class != NULL *)
  hg_context : bool;            (* hg_context != NULL *)
  hvac_progress_thread_shutdown_flags : bool;
  hvac_server_rank : Z;
  server_rank : Z;
  progress_threads : nat
}.

(** The initial values of the file's statics. *)
Definition comm_initial : comm := Comm false false false (-1) (-1) 0.

(** What the calls into Mercury and pthread gave. *)
Record init_results : Type := InitResults {
  hg_init_ok : bool;
  hg_context_ok : bool;
  progress_created : bool
}.

(** ** Initialisation and shutdown *)

(** [rank_str] is getenv("SLURM_PROCID"): it goes to atoi before the test for
    NULL. L4C_FATAL only logs. *)
Definition hvac_init_comm (listen : bool) (rank_str : option text) (r : init_results) :
    St comm unit :=
  match rank_str with
  | None => fail NullDeref
  | Some s =>
      modify (λ c, {|
        hg_class := hg_init_ok r;
        hg_context := hg_context_ok r;
        hvac_progress_thread_shutdown_flags := hvac_progress_thread_shutdown_flags c;
        hvac_server_rank := if listen then atoi s else hvac_server_rank c;
        server_rank := atoi s;
        progress_threads := (if progress_created r then 1 else 0) + progress_threads c |})
  end.

Definition hvac_shutdown_comm (c : comm) : comm :=
  {| hg_class := hg_class c; hg_context := hg_context c;
     hvac_progress_thread_shutdown_flags := true;
     hvac_server_rank := hvac_server_rank c; server_rank := server_rank c;
     progress_threads := progress_threads c |}.

(** ** The progress thread *)

Inductive progress_pc : Type :=
| PTop                                (* while (!flag) *)
| PTrigger                            (* ret = HG_Trigger(...) *)
| PTest (ret actual_count : Z)        (* while (ret == HG_SUCCESS && ...) *)
| PIf                                 (* if (!flag) *)
| PProgress                           (* HG_Progress(hg_context, 100) *)
| PExit.

(** What happens in a step: a call into Mercury, or only a test. *)
Inductive progress_event : Type :=
| PvTest | PvTrigger (ret actual_count : Z) | PvProgress.

(** One step of hvac_progress_fn, reading the shutdown flag [flag]. *)
Definition progress_run (flag : bool) (e : progress_event) (pc : progress_pc) :
    option progress_pc :=
  match pc, e with
  | PTop, PvTest => Some (if flag then PExit else PTrigger)
  | PTrigger, PvTrigger ret n => Some (PTest ret n)
  | PTest ret n, PvTest =>
      Some (if (ret =? HG_SUCCESS) && negb (n =? 0) && negb flag then PTrigger else PIf)
  | PIf, PvTest => Some (if flag then PTop else PProgress)
  | PProgress, PvProgress => Some PTop
  | _, _ => None
  end.

Fixpoint progress_runs (flag : bool) (es : list progress_event) (pc : progress_pc) :
    option progress_pc :=
  match es with
  | [] => Some pc
  | e :: es' => progress_run flag e pc ≫= progress_runs flag es'
  end.

(** Steps left until the thread exits once the flag is set. *)
Definition progress_left (pc : progress_pc) : nat :=
  match pc with
  | PTop => 1 | PTrigger => 4 | PTest _ _ => 3 | PIf => 2 | PProgress => 2 | PExit => 0
  end.

Definition is_trigger (e : progress_event) : bool :=
  match e with PvTrigger _ _ => true | _ => false end.

(** How the last events of a run with a clear flag explain where it is. *)
Definition explains (es : list progress_event) (pc : progress_pc) : Prop :=
  match pc with
  | PTop | PTrigger => True
  | PTest ret n => ∃ es', es = es' ++ [PvTrigger ret n]
  | PIf => ∃ es' ret n, es = es' ++ [PvTrigger ret n; PvTest] ∧ (ret ≠ HG_SUCCESS ∨ n = 0)
  | PProgress => ∃ es' ret n,
      es = es' ++ [PvTrigger ret n; PvTest; PvTest] ∧ (ret ≠ HG_SUCCESS ∨ n = 0)
  | PExit => False
  end.

(** ** Lemmas *)

Lemma progress_runs_snoc flag es e pc :
  progress_runs flag (es ++ [e]) pc = progress_runs flag es pc ≫= progress_run flag e.
Proof.
  revert pc. induction es as [|e' es IH]; intros pc; simpl.
  - by destruct (progress_run flag e pc).
  - destruct (progress_run flag e' pc); simpl; [apply IH|done].
Qed.

Lemma progress_history es pc : progress_runs false es PTop = Some pc → explains es pc.
Proof.
  revert pc. induction es as [|e es IH] using rev_ind; intros pc; [by intros [= <-]|].
  rewrite progress_runs_snoc. destruct (progress_runs false es PTop) as [q|]; simpl; [|done].
  specialize (IH q eq_refl). intros E. destruct q as [| |ret n| | |], e; simplify_eq/=; eauto.
  - destruct IH as [es' ->]. rewrite andb_true_r.
    destruct (Z.eqb_spec ret HG_SUCCESS), (Z.eqb_spec n 0); simpl; try done;
      exists es', ret, n; rewrite <-(assoc_L (++)); split; auto.
  - destruct IH as (es' & ret & n & -> & ?). exists es', ret, n.
    by rewrite <-(assoc_L (++)).
Qed.

(** ** Properties *)

(** C28. After hvac_shutdown_comm the progress thread stops: from wherever it
    is it makes exactly [progress_left] more steps and exits, calling
    HG_Trigger at most once more, whatever the calls return; and it can always
    take its next step. *)
Theorem progress_thread_stops pc es pc' :
  progress_runs true es pc = Some pc' →
  (length es + progress_left pc' = progress_left pc)%nat ∧
  (length (filter is_trigger es) ≤ 1)%nat ∧
  (pc' ≠ PExit → ∃ e pc'', progress_run true e pc' = Some pc'').
Proof.
  intros Hr. split_and!.
  - revert pc Hr. induction es as [|e es IH]; intros pc; simpl; [by intros [= ->]|].
    destruct (progress_run true e pc) as [q|] eqn:E; simpl; [|done]. intros Hr%IH.
    assert (progress_left pc = S (progress_left q)); [|lia].
    destruct pc, e; simplify_eq/=; rewrite ?andb_false_r in *; simplify_eq/=; done.
  - assert (Hno : ∀ es pc, match pc with PTrigger => False | _ => True end →
              progress_runs true es pc = Some pc' → filter is_trigger es = []).
    { clear. induction es as [|e es IH]; intros pc Hpc; simpl; [done|].
      destruct (progress_run true e pc) as [q|] eqn:E; simpl; [|done]. intros Hr.
      destruct pc, e; simplify_eq/=; rewrite ?andb_false_r in Hr; by eapply IH in Hr. }
    destruct es as [|e es]; [simpl; lia|]. simpl in Hr.
    destruct (progress_run true e pc) as [q|] eqn:E; [|done]. simpl in Hr.
    assert (filter is_trigger es = []) as Hes.
    { eapply Hno in Hr; [done|]. destruct pc, e; simplify_eq/=; by rewrite ?andb_false_r. }
    rewrite filter_cons, Hes. case_decide; simpl; lia.
  - intros Hne. destruct pc' as [| |ret n| | |]; [..|done].
    + by eexists PvTest, _.
    + by eexists (PvTrigger 0 0), _.
    + by eexists PvTest, _.
    + by eexists PvTest, _.
    + by eexists PvProgress, _.
Qed.

(** While the flag is clear the thread never exits, and it only enters
    HG_Progress after a HG_Trigger that failed or had nothing to trigger. *)
Theorem progress_thread_serves es pc :
  progress_runs false es PTop = Some pc →
  pc ≠ PExit ∧
  (pc = PProgress → ∃ es' ret n,
     es = es' ++ [PvTrigger ret n; PvTest; PvTest] ∧ (ret ≠ HG_SUCCESS ∨ n = 0)).
Proof.
  intros Hr. apply progress_history in Hr. destruct pc; done.
Qed.

(** ** Witnesses *)

Lemma progress_thread_stops_witness :
  (length [PvTest; PvTest; PvTest] + progress_left PExit = progress_left (PTest 0 3))%nat.
Proof. apply (progress_thread_stops (PTest 0 3) [PvTest; PvTest; PvTest] PExit). reflexivity. Defined.

Lemma progress_thread_serves_witness :
  ∃ es' ret n, [PvTest; PvTrigger 0 0; PvTest; PvTest] =
    es' ++ [PvTrigger ret n; PvTest; PvTest] ∧ (ret ≠ HG_SUCCESS ∨ n = 0).
Proof.
  apply (progress_thread_serves [PvTest; PvTrigger 0 0; PvTest; PvTest] PProgress); reflexivity.
Defined.
