(* ===== verification/Stats.v ===== *)
(** * Call statistics and C doubles

    The [struct Stats] counters of [src/src/wrappers.c], the elapsed time the
    wrappers add to them, and [export_stats_to_file]. A double is an IEEE
    binary64 of the Standard Library's [SpecFloat]; conversions and the
    operations round to nearest even. *)

From S2P Require Import Prelude CText FdState.
From Stdlib Require Import SpecFloat.

Local Open Scope Z_scope.

(** ** Doubles *)

Abbreviation double := spec_float.

Definition dprec : Z := 53.
Definition demax : Z := 1024.

Definition dbl_of_Z (z : Z) : double := binary_normalize dprec demax z 0 false.
Definition dadd : double → double → double := SFadd dprec demax.
Definition ddiv : double → double → double := SFdiv dprec demax.
Definition dzero : double := S754_zero false.

(** Nearest integer to n / d, ties to even. *)
Definition div_round_even (n d : Z) : Z :=
  let q := n / d in
  match 2 * (n mod d) ?= d with
  | Lt => q
  | Gt => q + 1
  | Eq => if Z.even q then q else q + 1
  end.

(** The magnitude m * 2^e in units of 10^-k. *)
Definition scaled (k : Z) (m : positive) (e : Z) : Z :=
  if 0 <=? e then Z.pos m * 10 ^ k * 2 ^ e
  else div_round_even (Z.pos m * 10 ^ k) (2 ^ (- e)).

Definition pad_left (w : nat) (c : Ascii.ascii) (s : text) : text :=
  replicate (w - length s) c ++ s.
Definition pad_right (w : nat) (c : Ascii.ascii) (s : text) : text :=
  s ++ replicate (w - length s) c.

(** k digits after the point of a non-negative number of 10^-k units. *)
Definition print_fixed (k : nat) (u : Z) : text :=
  print_u (u / 10 ^ Z.of_nat k) ++ s2t "." ++
  pad_left k (chr 48) (print_u (u mod 10 ^ Z.of_nat k)).

(** printf's %.kf, and operator<< under std::fixed and setprecision(k), k > 0. *)
Definition print_double (k : nat) (x : double) : text :=
  match x with
  | S754_zero s => (if s then [minus] else []) ++ print_fixed k 0
  | S754_infinity s => (if s then [minus] else []) ++ s2t "inf"
  | S754_nan => s2t "nan"
  | S754_finite s m e => (if s then [minus] else []) ++ print_fixed k (scaled (Z.of_nat k) m e)
  end.

(** ** struct Stats *)

Record Stats : Type := MkStats {
  count : Z;             (* size_t *)
  total_time : double
}.

Definition zero_stats : Stats := MkStats 0 dzero.

(** stats.count++; stats.total_time += delta *)
Definition stats_add (delta : double) (s : Stats) : Stats :=
  MkStats (to_uint64 (count s + 1)) (dadd (total_time s) delta).

(** The elapsed time every wrapper computes from two clock readings. *)
Definition elapsed (start finish : timespec) : double :=
  let e9 := dbl_of_Z 1000000000 in
  if tv_nsec start <? tv_nsec finish
  then dadd (dbl_of_Z (tv_sec finish - tv_sec start))
            (ddiv (dbl_of_Z (tv_nsec finish - tv_nsec start)) e9)
  else dadd (dbl_of_Z (tv_sec finish - tv_sec start - 1))
            (ddiv (dbl_of_Z (tv_nsec finish - tv_nsec start + 1000000000)) e9).

(** The seven counters of wrappers.c. *)
Record wrap_stats : Type := WrapStats {
  open_stats : Stats;
  open_data_stats : Stats;
  open_system_stats : Stats;
  fopen_stats : Stats;
  close_stats : Stats;
  read_stats : Stats;
  pread_stats : Stats
}.

Definition stats_initial : wrap_stats :=
  WrapStats zero_stats zero_stats zero_stats zero_stats zero_stats zero_stats zero_stats.

Inductive stat_kind : Type := SOpen | SOpenData | SOpenSystem | SClose | SRead | SPread.

Definition bump (k : stat_kind) (delta : double) (w : wrap_stats) : wrap_stats :=
  let '(WrapStats o od os fo c r p) := w in
  match k with
  | SOpen => WrapStats (stats_add delta o) od os fo c r p
  | SOpenData => WrapStats o (stats_add delta od) os fo c r p
  | SOpenSystem => WrapStats o od (stats_add delta os) fo c r p
  | SClose => WrapStats o od os fo (stats_add delta c) r p
  | SRead => WrapStats o od os fo c (stats_add delta r) p
  | SPread => WrapStats o od os fo c r (stats_add delta p)
  end.

(** ** export_stats_to_file: the text it writes *)

Definition stats_line (label : string) (s : Stats) : text :=
  s2t label ++ s2t ": count=" ++ print_u (count s) ++ s2t ", total_time=" ++
  print_double 6 (total_time s) ++ [nl].

Definition export_stats_text (w : wrap_stats) : text :=
  stats_line "Open Stats" (open_stats w) ++
  stats_line "Open Data Stats" (open_data_stats w) ++
  stats_line "Open System Stats" (open_system_stats w) ++
  s2t "Open total_time=" ++
    print_double 6 (dadd (total_time (open_data_stats w)) (total_time (open_system_stats w))) ++
    [nl] ++
  stats_line "Close Stats" (close_stats w) ++
  stats_line "Read Stats" (read_stats w) ++
  stats_line "Pread Stats" (pread_stats w).

(** [None]: the file cannot be opened and nothing is written. *)
Definition export_stats_to_file (opened : bool) (w : wrap_stats) : option text :=
  if opened then Some (export_stats_text w) else None.

Example elapsed_carry :
  print_double 8 (elapsed {| tv_sec := 1; tv_nsec := 900000000 |}
                          {| tv_sec := 3; tv_nsec := 150000000 |}) = s2t "1.25000000".
Proof. vm_compute. reflexivity. Qed.

Example elapsed_same_nsec :
  elapsed {| tv_sec := 1; tv_nsec := 5 |} {| tv_sec := 3; tv_nsec := 5 |} = dbl_of_Z 2.
Proof. vm_compute. reflexivity. Qed.
