(* ===== verification/StatsThreads.v ===== *)
(** * The call statistics under threads

    The wrappers add to a [struct Stats] without a lock: [count++] loads and
    stores, [total_time += delta] loads and stores, and another thread's
    accesses come anywhere between. Here an addition is cut at these four. *)

From S2P Require Import Prelude CText FdState Stats.

Local Open Scope Z_scope.

(** ** State and steps *)

(** What a thread in an addition of [delta] does next. *)
Inductive add_pc : Type :=
| AddLoad (delta : double)                     (* load count *)
| AddStore (delta : double) (n : Z)            (* store n + 1 *)
| TotalLoad (delta : double)                   (* load total_time *)
| TotalStore (delta : double) (x : double).    (* store x + delta *)

(** One counter, and the threads that are adding to it. *)
Record shared_stats : Type := SharedStats {
  shared : Stats;
  adding : gmap nat add_pc
}.

Inductive stats_label : Type :=
| SAdd (t : nat) (delta : double)    (* a wrapper comes to count++ *)
| SNext (t : nat).                   (* the thread's next access *)

Definition add_next (pc : add_pc) (s : Stats) : Stats * option add_pc :=
  match pc with
  | AddLoad delta => (s, Some (AddStore delta (count s)))
  | AddStore delta n => (MkStats (to_uint64 (n + 1)) (total_time s), Some (TotalLoad delta))
  | TotalLoad delta => (s, Some (TotalStore delta (total_time s)))
  | TotalStore delta x => (MkStats (count s) (dadd x delta), None)
  end.

Definition stats_run (l : stats_label) (s : shared_stats) : option shared_stats :=
  match l with
  | SAdd t delta =>
      match adding s !! t with
      | None => Some (SharedStats (shared s) (<[t := AddLoad delta]> (adding s)))
      | Some _ => None
      end
  | SNext t =>
      pc ← adding s !! t;
      let '(st, pc') := add_next pc (shared s) in
      Some (SharedStats st match pc' with
                           | Some pc' => <[t := pc']> (adding s)
                           | None => delete t (adding s)
                           end)
  end.

Fixpoint stats_runs (ls : list stats_label) (s : shared_stats) : option shared_stats :=
  match ls with
  | [] => Some s
  | l :: ls' => s' ← stats_run l s; stats_runs ls' s'
  end.

(** The additions of a run. *)
Definition asked (l : stats_label) : list double :=
  match l with SAdd _ delta => [delta] | SNext _ => [] end.

Definition additions (ls : list stats_label) : list double := ls ≫= asked.

(** ** Lemmas: a register without a lock *)

Section register.
Context {A D : Type} (f : A → D → A).

(** The value comes from some of the updates stored so far. *)
Definition from_some (v0 v : A) (stored : list D) : Prop :=
  ∃ us, us ⊆+ stored ∧ v = foldl f v0 us.

(** And, once there are any, from at least one. *)
Definition holds_some (v0 v : A) (stored : list D) : Prop :=
  ∃ us, us ⊆+ stored ∧ v = foldl f v0 us ∧ (stored ≠ [] → us ≠ []).

Lemma holds_from v0 v stored : holds_some v0 v stored → from_some v0 v stored.
Proof. intros (us & ? & ? & _). by exists us. Qed.

Lemma from_more v0 v stored d : from_some v0 v stored → from_some v0 v (d :: stored).
Proof. intros (us & Hus & ->). exists us. split; [by apply submseteq_cons|done]. Qed.

(** A store of what was loaded earlier and updated. *)
Lemma store_holds v0 x stored d : from_some v0 x stored → holds_some v0 (f x d) (d :: stored).
Proof.
  intros (us & Hus & ->). exists (us ++ [d]). split_and!.
  - rewrite (Permutation_app_comm us). by apply submseteq_skip.
  - by rewrite foldl_app.
  - by destruct us.
Qed.

End register.

(** ** Lemmas: who is where *)

Definition pc_delta (pc : add_pc) : double :=
  match pc with AddLoad d | AddStore d _ | TotalLoad d | TotalStore d _ => d end.

(** The updates of the two registers that are still to be stored. *)
Definition count_due (pc : add_pc) : list double :=
  match pc with AddLoad d | AddStore d _ => [d] | _ => [] end.

Definition total_due (pc : add_pc) : list double := [pc_delta pc].

Definition due (f : add_pc → list double) (cs : gmap nat add_pc) : list double :=
  map_to_list cs ≫= λ x, f (snd x).

Lemma due_delete f cs t pc : cs !! t = Some pc → due f cs ≡ₚ f pc ++ due f (delete t cs).
Proof. intros Ht. unfold due. by rewrite <-(map_to_list_delete _ _ _ Ht). Qed.

Lemma due_insert f cs t pc : due f (<[t := pc]> cs) ≡ₚ f pc ++ due f (delete t cs).
Proof.
  rewrite (due_delete f _ t pc) by apply lookup_insert_eq. by rewrite delete_insert_eq.
Qed.

(** ** The invariant *)

(** Of the additions [ds], those in [cd] are counted and those in [td] are
    summed. *)
Record stats_inv (s0 : Stats) (ds : list double) (s : shared_stats) (cd td : list double) : Prop := {
  sv_counted : ds ≡ₚ cd ++ due count_due (adding s);
  sv_summed : ds ≡ₚ td ++ due total_due (adding s);
  sv_count : holds_some (λ n _, to_uint64 (n + 1)) (count s0) (count (shared s)) cd;
  sv_total : holds_some dadd (total_time s0) (total_time (shared s)) td;
  sv_threads t pc : adding s !! t = Some pc →
    match pc with
    | AddStore _ n => from_some (λ n _, to_uint64 (n + 1)) (count s0) n cd
    | TotalStore _ x => from_some dadd (total_time s0) x td
    | _ => True
    end
}.

Lemma holds_start {A D} (f : A → D → A) v : holds_some f v v [].
Proof. by exists []. Qed.

Lemma stats_inv_start s0 : stats_inv s0 [] (SharedStats s0 ∅) [] [].
Proof. split; try done; apply holds_start. Qed.

Lemma stats_inv_step s0 ds s s' cd td l :
  stats_inv s0 ds s cd td → stats_run l s = Some s' →
  ∃ cd' td', stats_inv s0 (ds ++ asked l) s' cd' td'.
Proof.
  intros [Hc Hs Hcnt Htot Hth] Hr. unfold stats_run in Hr. destruct l as [t d|t].
  - destruct (adding s !! t) eqn:Ht; [done|]. injection Hr as <-. exists cd, td. split; simpl.
    + rewrite due_insert, delete_id by done. rewrite Hc. simpl. solve_Permutation.
    + rewrite due_insert, delete_id by done. rewrite Hs. simpl. solve_Permutation.
    + done.
    + done.
    + intros u pc [[<- <-]|[_ Hu]]%lookup_insert_Some; [done|by apply (Hth u)].
  - apply bind_Some in Hr as (pc & Ht & Hr). simpl. rewrite app_nil_r.
    rewrite (due_delete _ _ _ _ Ht) in Hc. rewrite (due_delete _ _ _ _ Ht) in Hs. pose proof (Hth t pc Ht) as Hpc.
    destruct pc as [d|d n|d|d x]; simpl in Hr; injection Hr as <-.
    + exists cd, td. split; simpl; rewrite ?due_insert; try done.
      intros u pc [[<- <-]|[_ Hu]]%lookup_insert_Some; [by apply holds_from|by apply (Hth u)].
    + exists (d :: cd), td. split; simpl; rewrite ?due_insert; try done.
      * rewrite Hc. simpl. solve_Permutation.
      * by apply (store_holds (λ n _, to_uint64 (n + 1))).
      * intros u pc [[<- <-]|[_ Hu]]%lookup_insert_Some; [done|]. specialize (Hth u pc Hu).
        destruct pc; try done. by apply from_more.
    + exists cd, td. split; simpl; rewrite ?due_insert; try done.
      intros u pc [[<- <-]|[_ Hu]]%lookup_insert_Some; [by apply holds_from|by apply (Hth u)].
    + exists cd, (d :: td). split; simpl; try done.
      * rewrite Hs. simpl. solve_Permutation.
      * by apply store_holds.
      * intros u pc [_ Hu]%lookup_delete_Some. specialize (Hth u pc Hu).
        destruct pc; try done. by apply from_more.
Qed.

Lemma stats_inv_runs ls s0 ds s s' cd td :
  stats_inv s0 ds s cd td → stats_runs ls s = Some s' →
  ∃ cd' td', stats_inv s0 (ds ++ additions ls) s' cd' td'.
Proof.
  revert ds s cd td. induction ls as [|l ls IH]; intros ds s cd td Hi Hr.
  - injection Hr as <-. exists cd, td. unfold additions. simpl. by rewrite app_nil_r.
  - cbn [stats_runs] in Hr. apply bind_Some in Hr as (s1 & Hl & Hr).
    destruct (stats_inv_step _ _ _ _ _ _ _ Hi Hl) as (cd1 & td1 & Hi1).
    destruct (IH _ _ _ _ Hi1 Hr) as (cd2 & td2 & Hi2). exists cd2, td2.
    by rewrite <-app_assoc in Hi2.
Qed.

(** Additions counted without an overflow. *)
Lemma count_fold (us : list double) n :
  0 ≤ n < 2 ^ 64 → n + Z.of_nat (length us) < 2 ^ 64 →
  foldl (λ n _, to_uint64 (n + 1)) n us = n + Z.of_nat (length us).
Proof.
  revert n. induction us as [|u us IH]; intros n Hn Hlt; simpl in *; [lia|].
  rewrite to_uint64_id by lia. rewrite IH; lia.
Qed.

(** ** Lemmas: schedules *)

(** An addition that nothing interrupts. *)
Definition alone (t : nat) (delta : double) : list stats_label :=
  [SAdd t delta; SNext t; SNext t; SNext t; SNext t].

Lemma stats_runs_app ls ls' s s1 :
  stats_runs ls s = Some s1 → stats_runs (ls ++ ls') s = stats_runs ls' s1.
Proof.
  revert s. induction ls as [|l ls IH]; intros s; [by intros [= ->]|]. simpl.
  intros (s2 & Hl & Hr)%bind_Some. rewrite Hl. by apply IH.
Qed.

Lemma alone_run t delta st cs :
  cs !! t = None →
  stats_runs (alone t delta) (SharedStats st cs) = Some (SharedStats (stats_add delta st) cs).
Proof.
  intros Ht. unfold alone. cbn [stats_runs stats_run adding shared]. rewrite Ht. simpl.
  rewrite !lookup_insert_eq. simpl. rewrite !lookup_insert_eq. simpl.
  rewrite !lookup_insert_eq. simpl. rewrite !lookup_insert_eq. simpl.
  by rewrite !insert_insert_eq, delete_insert_id.
Qed.

Lemma alone_runs t ds st cs :
  cs !! t = None →
  stats_runs (ds ≫= alone t) (SharedStats st cs) =
    Some (SharedStats (foldl (λ s d, stats_add d s) st ds) cs) ∧
  additions (ds ≫= alone t) = ds.
Proof.
  intros Ht. revert st. induction ds as [|d ds IH]; intros st; [done|].
  destruct (IH (stats_add d st)) as [Hr Ha]. split.
  - change ((d :: ds) ≫= alone t) with (alone t d ++ (ds ≫= alone t)).
    by rewrite (stats_runs_app _ _ _ _ (alone_run t d st cs Ht)).
  - change ((d :: ds) ≫= alone t) with (alone t d ++ (ds ≫= alone t)).
    unfold additions in *. rewrite bind_app, Ha. done.
Qed.

Lemma total_fold ds st : total_time (foldl (λ s d, stats_add d s) st ds) = foldl dadd (total_time st) ds.
Proof. revert st. induction ds as [|d ds IH]; intros st; [done|]. simpl. by rewrite IH. Qed.

(** ** Property *)

(** C39. The statistics are added to without a lock, and updates are lost: when
    all additions of a run are over, at least one and at most all of them are
    counted, and the total is the sum of some of the measured times, at
    least one; additions that do not overlap are all in; but one that
    is interrupted after its first load erases the counts of any number of
    others, while the total keeps their times. *)
Theorem counters_lose_updates (s0 : Stats) :
  (∀ ls s, stats_runs ls (SharedStats s0 ∅) = Some s → adding s = ∅ → additions ls ≠ [] →
     (0 ≤ count s0 → count s0 + Z.of_nat (length (additions ls)) < 2 ^ 64 →
      count s0 + 1 ≤ count (shared s) ≤ count s0 + Z.of_nat (length (additions ls))) ∧
     ∃ us, us ≠ [] ∧ us ⊆+ additions ls ∧ total_time (shared s) = foldl dadd (total_time s0) us) ∧
  (∀ ds, ∃ ls, additions ls = ds ∧
     stats_runs ls (SharedStats s0 ∅) =
       Some (SharedStats (foldl (λ s d, stats_add d s) s0 ds) ∅)) ∧
  (∀ d ds, ∃ ls, additions ls = d :: ds ∧
     stats_runs ls (SharedStats s0 ∅) =
       Some (SharedStats (MkStats (to_uint64 (count s0 + 1))
                            (foldl dadd (total_time s0) (ds ++ [d]))) ∅)).
Proof.
  split_and!.
  - intros ls s Hr Hend Hne.
    destruct (stats_inv_runs ls s0 [] _ s [] [] (stats_inv_start s0) Hr) as (cd & td & [Hc Hs Hcnt Htot _]).
    rewrite Hend in Hc, Hs. unfold due in Hc, Hs. rewrite map_to_list_empty in Hc, Hs.
    simpl in Hc, Hs. rewrite app_nil_r in Hc, Hs.
    assert (Hnil : ∀ us : list double, additions ls ≡ₚ us → us ≠ []).
    { intros us Hp ->. by apply Permutation_nil_r in Hp. }
    destruct Hcnt as (uc & Huc & Hcv & Hucn), Htot as (ut & Hut & Htv & Hutn). split.
    + intros H0 Hlt. pose proof (submseteq_length _ _ Huc) as Hlen. rewrite <-Hc in Hlen.
      rewrite count_fold in Hcv by lia. destruct uc; [by destruct (Hucn (Hnil _ Hc))|].
      simpl in *. lia.
    + exists ut. split; [by apply Hutn, Hnil|]. split; [by rewrite Hs|done].
  - intros ds. exists (ds ≫= alone 0). destruct (alone_runs 0 ds s0 ∅) as [Hr Ha]; [done|]. by split.
  - intros d ds. exists ([SAdd 0 d; SNext 0] ++ (ds ≫= alone 1) ++ [SNext 0; SNext 0; SNext 0]).
    set (cs := <[0%nat := AddStore d (count s0)]> ∅ : gmap nat add_pc).
    destruct (alone_runs 1 ds s0 cs) as [Hr Ha]; [done|]. split.
    + unfold additions in *. rewrite !bind_app, Ha. simpl. by rewrite app_nil_r.
    + rewrite (stats_runs_app _ _ _ (SharedStats s0 cs)) by done.
      rewrite (stats_runs_app _ _ _ _ Hr). cbn [stats_runs stats_run adding shared].
      unfold cs. rewrite lookup_insert_eq. simpl. rewrite lookup_insert_eq. simpl.
      rewrite lookup_insert_eq. simpl. rewrite total_fold, foldl_app. simpl.
      by rewrite !insert_insert_eq, delete_insert_id.
Qed.

(** Two threads count one call. *)
Lemma counters_lose_updates_witness :
  ∃ ls s, stats_runs ls (SharedStats zero_stats ∅) = Some s ∧
    additions ls = [dbl_of_Z 2; dbl_of_Z 3] ∧ count (shared s) = 1 ∧ 
    ∃ us, us ≠ [] ∧ us ⊆+ additions ls ∧ total_time (shared s) = foldl dadd dzero us.
Proof.
  destruct (counters_lose_updates zero_stats) as (Hb & _ & Hl).
  destruct (Hl (dbl_of_Z 2) [dbl_of_Z 3]) as (ls & Ha & Hr).
  exists ls. eexists. split; [exact Hr|]. split; [exact Ha|]. split; [reflexivity|].
  destruct (Hb ls _ Hr eq_refl) as [_ Hus]; [rewrite Ha; discriminate|exact Hus].
Defined.
