(* ===== verification/ClientComm.v ===== *)
(** * The client's RPC stubs

    [src/src/mthvac_comm_client.cpp] from line 172 on: the callbacks, the
    four RPC operations, the address lookup, and the print-stats request. The
    calls into Mercury go through the interface [Transport]; a call that is
    forwarded and answered runs its callback before the waiting thread goes on
    ([Sync.v] is about that wait). *)

From S2P Require Import Prelude CText Posix Wire AddrFile FdState Comm Stats.

Local Open Scope Z_scope.

(** ** Client state: the globals of mthvac_client.cpp, mthvac_comm_client.cpp
    and wrappers.c, over the process's operating-system state *)

(** What the constructor and the logger set. *)
Record config : Type := Config {
  g_hvac_server_count : Z;             (* uint32_t *)
  hvac_data_dir : option string;
  g_hvac_initialized : bool;
  g_disable_redirect : bool;
  tl_disable_redirect : bool
}.

Record client : Type := Client {
  cl_os : posix;
  fd_map : gmap Z string;
  fd_redir_map : gmap Z Z;
  fd_states : fd_table;
  address_cache : gmap Z text;
  cl_comm : comm;
  g_mercury_init : bool;
  cl_conf : config;
  cl_stats : wrap_stats;
  real_mapped : gset string            (* the __real_ pointers that are set *)
}.

Definition set_cl_os (x : posix) '(Client _ m r f a c g k s d : client) : client :=
  Client x m r f a c g k s d.
Definition set_fd_map (x : gmap Z string) '(Client o _ r f a c g k s d : client) : client :=
  Client o x r f a c g k s d.
Definition set_redir (x : gmap Z Z) '(Client o m _ f a c g k s d : client) : client :=
  Client o m x f a c g k s d.
Definition set_fd_states (x : fd_table) '(Client o m r _ a c g k s d : client) : client :=
  Client o m r x a c g k s d.
Definition set_address_cache (x : gmap Z text) '(Client o m r f _ c g k s d : client) : client :=
  Client o m r f x c g k s d.
Definition set_comm (x : comm) (b : bool) '(Client o m r f a _ _ k s d : client) : client :=
  Client o m r f a x b k s d.
Definition set_conf (x : config) '(Client o m r f a c g _ s d : client) : client :=
  Client o m r f a c g x s d.
Definition set_stats (x : wrap_stats) '(Client o m r f a c g k _ d : client) : client :=
  Client o m r f a c g k x d.
Definition set_real_mapped (x : gset string) '(Client o m r f a c g k s _ : client) : client :=
  Client o m r f a c g k s x.

(** ** The interface to Mercury and the servers behind it *)

(** What becomes of a forwarded request: HG_Forward fails; it is answered; its
    callback runs with an error; or nothing ever comes back. *)
Inductive reply (O : Type) : Type :=
| NotSent
| Reply (o : O)
| CallbackError
| NeverAnswered.
Arguments NotSent {O}.
Arguments Reply {O} _.
Arguments CallbackError {O}.
Arguments NeverAnswered {O}.

(** What becomes of a request to a server that is gone is up to Mercury: its
    documentation has HG_Forward return an error code, the callback's info carry
    one, or, as no operation has a timeout, nothing. A server that ends while it
    serves a request leaves only the last two. *)
Inductive loss : Type := Refused | Reported | Silent.

Record losses (A : Type) : Type := Losses {
  when_down : A → loss;        (* a request to an address whose server is gone *)
  when_ended : A → bool        (* the callback hears of a server that ends *)
}.
Arguments Losses {A} _ _.
Arguments when_down {A} _ _.
Arguments when_ended {A} _ _.

Definition lost_reply {O} (l : loss) : reply O :=
  match l with Refused => NotSent | Reported => CallbackError | Silent => NeverAnswered end.

Definition broken_reply {O} (told : bool) : reply O :=
  if told then CallbackError else NeverAnswered.

Class Transport (H : Mercury) (W : Type) : Type := {
  hg_addr : Type;
  (* HG_Addr_lookup2: None leaves the target unset *)
  hg_addr_lookup2 : W → text → option hg_addr;
  (* an uninitialised hg_addr_t *)
  hg_addr_garbage : option hg_addr;
  (* the uninitialised output of a seek whose HG_Get_output failed *)
  hg_output_garbage : hvac_seek_out_t;
  (* return codes of HG_Create, HG_Addr_free, and of the releases
     HG_Bulk_free, HG_Free_output, HG_Destroy *)
  hg_create_ret : W → option hg_addr → Z;
  hg_addr_free_ret : W → option hg_addr → Z;
  hg_release_ret : W → Z;
  (* HG_Forward of each RPC *)
  forward_open : option hg_addr → hvac_open_in_t → W → W * reply hvac_open_out_t;
  forward_read : option hg_addr → hvac_rpc_in_t H → W → W * reply (hvac_rpc_out_t * bytes);
  forward_seek : option hg_addr → hvac_seek_in_t → W → W * reply hvac_seek_out_t;
  forward_close : option hg_addr → hvac_close_in_t → W → W * Z;
  forward_stats : option hg_addr → hvac_rpc_trigger_srv_print_stats_in_t → W → W * Z
}.
Arguments hg_addr {H W _}.

(** The process and the network it talks to. *)
Record world (W : Type) : Type := World { cl : client; net : W }.
Arguments World {W} _ _.
Arguments cl {W} _.
Arguments net {W} _.

Section stubs.
Context {H : Mercury} {W : Type} {T : Transport H W}.
Context (getenv : string → option text).
(** How many bytes of the address file the stream has read by the time the
    scan for a rank stops: it reads ahead by whole buffers, of a size the C
    library chooses. *)
Context (read_ahead : Z → text → Z).

Definition set_cl (c : client) (w : world W) : world W := World c (net w).
Definition set_net (n : W) (w : world W) : world W := World (cl w) n.

Definition upd (f : client → client) : St (world W) unit :=
  modify (λ w, set_cl (f (cl w)) w).
Definition client_gets {A} (f : client → A) : St (world W) A := gets (λ w, f (cl w)).
Definition remote {A} (f : W → W * A) : St (world W) A := zoom net set_net (run f).
Definition client_sys {A} (f : posix → posix * A) : St (world W) A :=
  zoom (λ w, cl_os (cl w)) (λ p w, set_cl (set_cl_os p (cl w)) w) (run f).

(** ** Handles and addresses *)

Definition hvac_comm_create_handle (addr : option hg_addr) : St (world W) unit :=
  n ← gets net; assert_true (hg_create_ret n addr =? HG_SUCCESS).

Definition hvac_comm_free_addr (addr : option hg_addr) : St (world W) unit :=
  n ← gets net; assert_true (hg_addr_free_ret n addr =? HG_SUCCESS).

(** A release whose return code the callback asserts. *)
Definition release_asserted : St (world W) unit :=
  n ← gets net; assert_true (hg_release_ret n =? HG_SUCCESS).

(** The rank's address: from the cache, or from the address file, which is
    opened and never closed: its descriptor stays, at the offset the stream's
    reads have brought it to. A file that does not exist leaves a NULL stream
    for fscanf. *)
Definition hvac_client_comm_lookup_addr (rank : Z) : St (world W) (option hg_addr) :=
  cache ← client_gets address_cache;
  match cache !! rank with
  | Some a =>
      n ← gets net;
      mret (match hg_addr_lookup2 n a with
            | Some target_server => Some target_server
            | None => hg_addr_garbage
            end)
  | None =>
      let filename := ports_file (getenv "SLURM_JOBID") in
      na_config ← client_sys (os_open filename O_RDWR);
      if na_config =? -1 then fail NullDeref
      else
        os ← client_gets cl_os;
        let file := default [] (content os filename) in
        client_sys (os_read na_config (read_ahead rank file)) ;;
        match lookup_in_file rank file with
        | Some svr_str =>
            upd (λ c, set_address_cache (<[rank := svr_str]> (address_cache c)) c) ;;
            n ← gets net; mret (hg_addr_lookup2 n svr_str)
        | None => mret None
        end
  end.

(** ** Callbacks *)

Definition hvac_open_cb (local_fd : Z) (out : hvac_open_out_t) : St (world W) unit :=
  if 0 <? ret_status out
  then upd (λ c, set_redir (<[local_fd := ret_status out]> (fd_redir_map c)) c) ;;
       upd (λ c, set_fd_states (hvac_set_fd_ready local_fd (fd_states c)) c)
  else upd (λ c, set_fd_states (hvac_set_fd_error local_fd (fd_states c)) c).

(** The result the read callback publishes. *)
Definition hvac_read_cb (out : hvac_rpc_out_t) : St (world W) Z :=
  release_asserted ;; release_asserted ;; release_asserted ;; mret (rpc_ret out).

Definition hvac_seek_cb (out : hvac_seek_out_t) : St (world W) Z := mret (seek_ret out).

(** ** The four operations *)

Definition hvac_client_comm_gen_close_rpc (svr_hash fd : Z) : St (world W) unit :=
  svr_addr ← hvac_client_comm_lookup_addr (to_int32 svr_hash);
  hvac_comm_create_handle svr_addr ;;
  redir ← client_gets fd_redir_map;
  match redir !! fd with
  | Some remote_fd =>
      if remote_fd =? 0 then mret tt
      else
        remote (forward_close svr_addr (mk_close_in remote_fd)) ;;
        upd (λ c, set_redir (delete fd (fd_redir_map c)) c)
  | None => mret tt
  end ;;
  upd (λ c, set_fd_states (hvac_cleanup_fd_state fd (fd_states c)) c) ;;
  hvac_comm_free_addr svr_addr.

Definition hvac_client_comm_gen_open_rpc (svr_hash : Z) (path : string) (fd : Z) :
    St (world W) Z :=
  upd (λ c, set_fd_states (hvac_set_fd_opening fd (fd_states c)) c) ;;
  svr_addr ← hvac_client_comm_lookup_addr (to_int32 svr_hash);
  hvac_comm_create_handle svr_addr ;;
  r ← remote (forward_open svr_addr {| open_path := path |});
  match r with
  | NotSent =>
      upd (λ c, set_fd_states (hvac_set_fd_error fd (fd_states c)) c) ;;
      hvac_comm_free_addr svr_addr ;; mret (-1)
  | Reply out =>
      hvac_comm_free_addr svr_addr ;;
      (* local_fd is a uint32_t, the map's key an int *)
      hvac_open_cb (to_int32 (to_uint32 fd)) out ;;
      mret (ret_status out)
  | CallbackError => fail AssertFailed
  | NeverAnswered => hvac_comm_free_addr svr_addr ;; fail Blocked
  end.

(** [buffer] says the caller's buffer is not NULL; [returns] is what the wait
    for the descriptor goes through if it is still opening. The answer is the
    result and the bytes placed in the buffer. *)
Definition hvac_client_comm_gen_read_rpc (returns : list (Z * hvac_fd_state))
    (svr_hash localfd : Z) (buffer : bool) (count offset : Z) : St (world W) (Z * bytes) :=
  st ← client_gets fd_states;
  if negb (hvac_wait_fd_ready localfd returns st) then mret (-1, [])
  else
  redir ← client_gets fd_redir_map;
  match redir !! localfd with
  | None => mret (-1, [])
  | Some remote_fd =>
      if remote_fd =? 0 then mret (-1, [])
      else
      svr_addr ← hvac_client_comm_lookup_addr (to_int32 svr_hash);
      assert_true buffer ;;
      hvac_comm_create_handle svr_addr ;;
      let '(ret, bulk) := hg_bulk_create (to_uint64 count) in
      assert_true (ret =? HG_SUCCESS) ;;
      r ← remote (forward_read svr_addr (mk_rpc_in count bulk remote_fd offset));
      match r with
      | NotSent => hvac_comm_free_addr svr_addr ;; mret (-1, [])
      | Reply (out, pushed) =>
          hvac_comm_free_addr svr_addr ;;
          bytes_read ← hvac_read_cb out; mret (bytes_read, pushed)
      | CallbackError => fail AssertFailed
      | NeverAnswered => hvac_comm_free_addr svr_addr ;; fail Blocked
      end
  end.

(** [fd_redir_map\[fd\]] as a value inserts 0 for an unknown descriptor. *)
Definition index_redir (fd : Z) : St (world W) Z :=
  redir ← client_gets fd_redir_map;
  match redir !! fd with
  | Some r => mret r
  | None => upd (λ c, set_redir (<[fd := 0]> (fd_redir_map c)) c) ;; mret 0
  end.

Definition hvac_client_comm_gen_seek_rpc (svr_hash fd offset whence : Z) : St (world W) Z :=
  svr_addr ← hvac_client_comm_lookup_addr (to_int32 svr_hash);
  hvac_comm_create_handle svr_addr ;;
  remote_fd ← index_redir fd;
  r ← remote (forward_seek svr_addr (mk_seek_in remote_fd offset whence));
  match r with
  | NotSent => fail AssertFailed
  | Reply out => hvac_comm_free_addr svr_addr ;; hvac_seek_cb out
  | CallbackError => hvac_comm_free_addr svr_addr ;; hvac_seek_cb hg_output_garbage
  | NeverAnswered => hvac_comm_free_addr svr_addr ;; fail Blocked
  end.

(** The three waits of the earlier interface: they only assert. *)
Definition hvac_client_block : St (world W) unit := fail AssertFailed.
Definition hvac_read_block : St (world W) Z := fail AssertFailed.
Definition hvac_seek_block : St (world W) Z := fail AssertFailed.

(** ** The print-stats request *)

Definition hvac_client_request_server_to_print_stats (server_rank_identifier : option text) :
    St (world W) Z :=
  match server_rank_identifier with
  | None => mret (-3)
  | Some s =>
      server_address ← hvac_client_comm_lookup_addr (atoi s);
      match server_address with
      | None => mret (-4)
      | Some _ =>
          hvac_comm_create_handle server_address ;;
          hg_status ← remote (forward_stats server_address {| dummy_arg := 0 |});
          if negb (hg_status =? HG_SUCCESS)
          then hvac_comm_free_addr server_address ;; mret (-5)
          else hvac_comm_free_addr server_address ;; mret 0
      end
  end.

End stubs.

(** The callback the source defines for print-stats replies (never passed to
    HG_Forward): what it stores in the caller's flag. *)
Definition hvac_client_srv_print_stats_cb (info_ret : Z)
    (out_struct : hvac_rpc_trigger_srv_print_stats_out_t) : Z :=
  if negb (info_ret =? HG_SUCCESS) then -2
  else if status out_struct =? 0 then 0 else -1.
