(* ===== verification/ClientCommProps.v ===== *)
(** * What the client's RPC stubs do to the client

    Properties of the operations of [ClientComm.v] whatever the servers and
    the network answer: which tables an operation changes, on every branch. *)

From S2P Require Import Prelude CText Posix Wire AddrFile FdState Comm Stats ClientComm.

Local Open Scope Z_scope.

(** ** Frames *)

(** Everything but the open files, the address cache and the network. *)
Definition same_tables (c c' : client) : Prop :=
  fd_map c' = fd_map c ∧ fd_redir_map c' = fd_redir_map c ∧ fd_states c' = fd_states c ∧
  cl_comm c' = cl_comm c ∧ g_mercury_init c' = g_mercury_init c ∧ cl_conf c' = cl_conf c ∧
  cl_stats c' = cl_stats c ∧ real_mapped c' = real_mapped c.

Global Instance same_tables_preorder : PreOrder same_tables.
Proof. split; [by intros c|intros c1 c2 c3; unfold same_tables; intuition congruence]. Qed.

(** Each status object the map names exists. *)
Definition states_closed (t : fd_table) : Prop :=
  ∀ fd l, fd_state_map t !! fd = Some l → is_Some (fd_heap t !! l).

(** The state a descriptor has after each operation on the table. *)
Lemma fd_state_opening fd fd' t :
  states_closed t →
  fd_state fd' (hvac_set_fd_opening fd t) =
    (if bool_decide (fd' = fd) then Some HVAC_FD_OPENING else fd_state fd' t) ∧
  states_closed (hvac_set_fd_opening fd t).
Proof.
  intros Hc. pose proof (is_fresh (dom (fd_heap t))) as Hf%not_elem_of_dom. split.
  - unfold fd_state, hvac_get_fd_status. simpl. case_bool_decide as Hd.
    + subst. rewrite lookup_insert_eq. simpl. by rewrite lookup_insert_eq.
    + rewrite lookup_insert_ne by done. destruct (fd_state_map t !! fd') as [l|] eqn:E; [|done].
      simpl. destruct (Hc _ _ E) as [st Hst]. by rewrite lookup_insert_ne by congruence.
  - intros f l. simpl. rewrite lookup_insert_Some. intros [[_ <-]|[_ Hl]].
    + by rewrite lookup_insert_eq.
    + destruct (Hc _ _ Hl) as [st Hst]. rewrite lookup_insert_ne by congruence. by eexists.
Qed.

(** The object of [fd] is not shared with another descriptor. *)
Definition states_unshared (t : fd_table) : Prop :=
  ∀ fd fd' l, fd_state_map t !! fd = Some l → fd_state_map t !! fd' = Some l → fd = fd'.

Lemma states_opening_unshared fd t :
  states_closed t → states_unshared t → states_unshared (hvac_set_fd_opening fd t).
Proof.
  intros Hc Hu f f' l. pose proof (is_fresh (dom (fd_heap t))) as Hf%not_elem_of_dom.
  simpl. rewrite !lookup_insert_Some. intros [[<- <-]|[? E1]] [[<- E]|[? E2]]; try done.
  - destruct (Hc _ _ E2) as [st ?]. congruence.
  - subst. destruct (Hc _ _ E1) as [st ?]. congruence.
  - by eapply Hu.
Qed.

(** Setting the state of a descriptor the map knows, as ready and error do. *)
Lemma fd_state_set st fd fd' l t :
  states_unshared t → fd_state_map t !! fd = Some l →
  let t' := FdTable (<[l := st]> (fd_heap t)) (fd_state_map t) in
  fd_state fd' t' = if bool_decide (fd' = fd) then Some st else fd_state fd' t.
Proof.
  intros Hu Hl. unfold fd_state, hvac_get_fd_status. simpl. case_bool_decide as Hd.
  - subst. rewrite Hl. simpl. by rewrite lookup_insert_eq.
  - destruct (fd_state_map t !! fd') as [l'|] eqn:E; [|done]. simpl.
    rewrite lookup_insert_ne; [done|]. intros <-. by apply Hd, (Hu _ _ l).
Qed.

Lemma states_set_closed st l t :
  states_closed t → states_closed (FdTable (<[l := st]> (fd_heap t)) (fd_state_map t)).
Proof.
  intros Hc f l' Hl. simpl. destruct (decide (l = l')) as [->|].
  - by rewrite lookup_insert_eq.
  - rewrite lookup_insert_ne by done. by eapply Hc.
Qed.

Record states_ok (t : fd_table) : Prop := {
  so_closed : states_closed t;
  so_unshared : states_unshared t
}.

(** Settling a descriptor the map knows. *)
Lemma fd_state_settle (ok : bool) fd t :
  states_ok t → is_Some (fd_state fd t) →
  let t' := (if ok then hvac_set_fd_ready fd else hvac_set_fd_error fd) t in
  states_ok t' ∧
  fd_state fd t' = Some (if ok then HVAC_FD_READY else HVAC_FD_ERROR) ∧
  (∀ fd', fd' ≠ fd → fd_state fd' t' = fd_state fd' t) ∧
  fd_state_map t' = fd_state_map t.
Proof.
  intros [Hc Hu] [st0 Hs]. apply bind_Some in Hs as (l & Hl & _).
  set (st := if ok then HVAC_FD_READY else HVAC_FD_ERROR).
  assert ((if ok then hvac_set_fd_ready fd else hvac_set_fd_error fd) t
    = FdTable (<[l := st]> (fd_heap t)) (fd_state_map t)) as ->.
  { unfold st. destruct ok; unfold hvac_set_fd_ready, hvac_set_fd_error; by rewrite Hl. }
  split_and!.
  - split; [by apply states_set_closed|exact Hu].
  - rewrite (fd_state_set st fd fd _ _ Hu Hl). by rewrite bool_decide_true.
  - intros fd' Hne. rewrite (fd_state_set st fd fd' _ _ Hu Hl). by rewrite bool_decide_false.
  - done.
Qed.

(** The ways an open leaves the table. *)
Lemma states_opening_ok fd t : states_ok t → states_ok (hvac_set_fd_opening fd t).
Proof. intros [Hc Hu]. split; [by apply (fd_state_opening fd fd)|by apply states_opening_unshared]. Qed.

Lemma fd_state_after_open (ok : bool) fd t :
  states_ok t →
  let t' := (if ok then hvac_set_fd_ready fd else hvac_set_fd_error fd)
              (hvac_set_fd_opening fd t) in
  states_ok t' ∧
  fd_state fd t' = Some (if ok then HVAC_FD_READY else HVAC_FD_ERROR) ∧
  ∀ fd', fd' ≠ fd → fd_state fd' t' = fd_state fd' t.
Proof.
  intros Hok. pose proof (λ g, proj1 (fd_state_opening fd g t (so_closed _ Hok))) as Ho.
  destruct (fd_state_settle ok fd _ (states_opening_ok fd t Hok)) as (A1 & A2 & A3 & _).
  { rewrite Ho, bool_decide_true; by eexists. }
  split_and!; [done|done|]. intros g Hg. by rewrite A3, Ho, bool_decide_false.
Qed.

Lemma fd_state_cleanup fd fd' t :
  fd_state fd' (hvac_cleanup_fd_state fd t) =
    if bool_decide (fd' = fd) then None else fd_state fd' t.
Proof.
  unfold fd_state, hvac_get_fd_status. simpl. case_bool_decide.
  - subst. by rewrite lookup_delete_eq.
  - by rewrite lookup_delete_ne.
Qed.

Lemma states_cleanup_ok fd t : states_ok t → states_ok (hvac_cleanup_fd_state fd t).
Proof.
  intros [Hc Hu]. split.
  - intros f l. simpl. rewrite lookup_delete_Some. intros [_ ?]. by eapply Hc.
  - intros f f' l. simpl. rewrite !lookup_delete_Some. intros [_ ?] [_ ?]. by eapply Hu.
Qed.

Section props.
Context {H : Mercury} {W : Type} {T : Transport H W}.
Context (getenv : string → option text).
Context (ahead : Z → text → Z).

Lemma free_addr_Ret a (w w' : world W) u :
  hvac_comm_free_addr a w = Ret (w', u) → w' = w.
Proof. unfold hvac_comm_free_addr. intros E. bind_in E s1 n E1. apply assert_Ret in E as [_ ->].
  by unfold_st_in E1; simplify_eq. Qed.

Lemma create_handle_Ret a (w w' : world W) u :
  hvac_comm_create_handle a w = Ret (w', u) → w' = w.
Proof. unfold hvac_comm_create_handle. intros E. bind_in E s1 n E1. apply assert_Ret in E as [_ ->].
  by unfold_st_in E1; simplify_eq. Qed.

Lemma release_Ret (w w' : world W) u : release_asserted w = Ret (w', u) → w' = w.
Proof. unfold release_asserted. intros E. bind_in E s1 n E1. apply assert_Ret in E as [_ ->].
  by unfold_st_in E1; simplify_eq. Qed.

Lemma read_cb_Ret out (w w' : world W) n :
  hvac_read_cb out w = Ret (w', n) → w' = w ∧ n = rpc_ret out.
Proof.
  unfold hvac_read_cb. intros E. bind_in E s1 u1 E1. apply release_Ret in E1 as ->.
  bind_in E s2 u2 E2. apply release_Ret in E2 as ->.
  bind_in E s3 u3 E3. apply release_Ret in E3 as ->. by apply mret_Ret in E.
Qed.

Lemma remote_Ret {A} (f : W → W * A) (w w' : world W) r :
  remote f w = Ret (w', r) → w' = World (cl w) (net w') ∧ f (net w) = (net w', r).
Proof.
  unfold remote, zoom, run. destruct (f (net w)) as [n x] eqn:E. by intros [= <- <-].
Qed.

(** An address lookup changes only the open files and the address cache. *)
Lemma lookup_addr_frame rank (w w' : world W) a :
  hvac_client_comm_lookup_addr getenv ahead rank w = Ret (w', a) →
  net w' = net w ∧ same_tables (cl w) (cl w').
Proof.
  unfold hvac_client_comm_lookup_addr, client_gets, client_sys, upd. intros E.
  unfold_st_in E. destruct (address_cache (cl w) !! rank).
  { by simplify_eq. }
  destruct (os_open _ _ _) as [p fd]. simpl in E.
  destruct w as [[? ? ? ? ? ? ? ? ? ?] n]. simpl in *.
  case_in E. unfold_st_in E. destruct (os_read _ _ _) as [p' x]. simpl in E.
  destruct (lookup_in_file _ _); unfold_st_in E; by simplify_eq.
Qed.

(** ** Opening *)

Lemma open_cb_Ret fd out (w w' : world W) u :
  hvac_open_cb fd out w = Ret (w', u) →
  net w' = net w ∧ fd_map (cl w') = fd_map (cl w) ∧
  fd_redir_map (cl w') = (if 0 <? ret_status out
    then <[fd := ret_status out]> (fd_redir_map (cl w)) else fd_redir_map (cl w)) ∧
  fd_states (cl w') = (if 0 <? ret_status out then hvac_set_fd_ready fd
    else hvac_set_fd_error fd) (fd_states (cl w)).
Proof.
  destruct w as [[] n]. unfold hvac_open_cb, upd. destruct (0 <? ret_status out);
    unfold_st; intros E; by simplify_eq.
Qed.

Lemma upd_Ret f (w w' : world W) u :
  upd f w = Ret (w', u) ↔ w' = World (f (cl w)) (net w).
Proof. destruct u. unfold upd, set_cl. unfold_st. naive_solver. Qed.

(** What no open RPC touches. *)
Lemma open_rpc_frame svr_hash path fd (w w' : world W) v :
  hvac_client_comm_gen_open_rpc getenv ahead svr_hash path fd w = Ret (w', v) →
  fd_map (cl w') = fd_map (cl w) ∧ g_mercury_init (cl w') = g_mercury_init (cl w).
Proof.
  intros E. unfold hvac_client_comm_gen_open_rpc in E.
  bind_in E s1 u1 E1. apply upd_Ret in E1 as ->.
  bind_in E s2 a E2. apply lookup_addr_frame in E2 as [_ (Hm & _ & _ & _ & Hg & _)].
  bind_in E s3 u3 E3. apply create_handle_Ret in E3 as ->.
  bind_in E s4 r E4. apply remote_Ret in E4 as [Hs4 _].
  assert (fd_map (cl s4) = fd_map (cl w) ∧ g_mercury_init (cl s4) = g_mercury_init (cl w))
    as [Hm4 Hg4] by (rewrite Hs4; destruct w as [[] ?]; done).
  destruct r as [|out| |]; [| |done|].
  - bind_in E s5 u5 E5. apply upd_Ret in E5 as ->.
    bind_in E s6 u6 E6. apply free_addr_Ret in E6 as ->. apply mret_Ret in E as [-> ->].
    by destruct s4 as [[] ?].
  - bind_in E s5 u5 E5. apply free_addr_Ret in E5 as ->.
    bind_in E s6 u6 E6. apply mret_Ret in E as [-> ->]. rewrite <-Hm4, <-Hg4.
    unfold hvac_open_cb, upd in E6. destruct s4 as [[] ?].
    destruct (0 <? ret_status out); unfold_st_in E6; by simplify_eq.
  - bind_in E s5 u5 E5. done.
Qed.

(** Whatever the lookup, Mercury and the server do, an open RPC that
    returns leaves its descriptor READY and redirected to the positive
    descriptor it answers, or in ERROR with the redirection table untouched
    and a result that is not positive; it never leaves it OPENING, and no
    other descriptor's redirection or state changes. *)
Lemma open_rpc_outcome svr_hash path fd (w w' : world W) v :
  - 2 ^ 31 ≤ fd < 2 ^ 31 → states_ok (fd_states (cl w)) →
  hvac_client_comm_gen_open_rpc getenv ahead svr_hash path fd w = Ret (w', v) →
  states_ok (fd_states (cl w')) ∧ fd_map (cl w') = fd_map (cl w) ∧
  (0 < v ∧ fd_redir_map (cl w') = <[fd := v]> (fd_redir_map (cl w)) ∧
     fd_state fd (fd_states (cl w')) = Some HVAC_FD_READY
   ∨ v ≤ 0 ∧ fd_redir_map (cl w') = fd_redir_map (cl w) ∧
     fd_state fd (fd_states (cl w')) = Some HVAC_FD_ERROR) ∧
  ∀ fd', fd' ≠ fd → fd_state fd' (fd_states (cl w')) = fd_state fd' (fd_states (cl w)).
Proof.
  intros Hfd Hok E. unfold hvac_client_comm_gen_open_rpc in E.
  bind_in E s1 u1 E1. apply upd_Ret in E1 as ->.
  bind_in E s2 a E2. apply lookup_addr_frame in E2 as [_ (Hm & Hr & Hs & _)].
  bind_in E s3 u3 E3. apply create_handle_Ret in E3 as ->.
  bind_in E s4 r E4. apply remote_Ret in E4 as [Hs4 _].
  assert (fd_states (cl s4) = hvac_set_fd_opening fd (fd_states (cl w)) ∧
    fd_redir_map (cl s4) = fd_redir_map (cl w) ∧ fd_map (cl s4) = fd_map (cl w))
    as (Hs4s & Hs4r & Hs4m).
  { rewrite Hs4. simpl. destruct w as [[] ?]. by rewrite Hs, Hr, Hm. }
  pose proof (λ b, fd_state_after_open b fd _ Hok) as Ha. rewrite to_int32_uint32 in E.
  rewrite to_int32_id in E by lia.
  destruct r as [|out| |]; [| |done|].
  - bind_in E s5 u5 E5. apply upd_Ret in E5 as ->.
    bind_in E s6 u6 E6. apply free_addr_Ret in E6 as ->. apply mret_Ret in E as [-> ->].
    destruct (Ha false) as (? & ? & ?). simpl in *. destruct s4 as [[] ?]. simpl in *. subst.
    split_and!; auto. right. split_and!; auto. lia.
  - bind_in E s5 u5 E5. apply free_addr_Ret in E5 as ->.
    bind_in E s6 u6 E6. apply open_cb_Ret in E6 as (_ & Hm6 & Hr6 & Hs6).
    apply mret_Ret in E as [-> ->]. rewrite Hs4s in Hs6. rewrite Hm6, Hr6, Hs6.
    destruct (Ha (0 <? ret_status out)) as (Hx & Hy & Hz).
    destruct (Z.ltb_spec 0 (ret_status out)); simpl in *; split_and!; try done; try congruence.
    + left. split_and!; [done|congruence|done].
    + right. split_and!; [done|congruence|done].
  - bind_in E s5 u5 E5. done.
Qed.

(** ** Closing *)

(** A close RPC that returns has forgotten the descriptor's state, and
    its redirection whether or not the request could be sent; the server is
    sent a close exactly when a redirection existed, for that descriptor. *)
Lemma close_rpc_forgets svr_hash fd (w w' : world W) u :
  hvac_client_comm_gen_close_rpc getenv ahead svr_hash fd w = Ret (w', u) →
  fd_state fd (fd_states (cl w')) = None ∧
  fd_states (cl w') = hvac_cleanup_fd_state fd (fd_states (cl w)) ∧
  fd_map (cl w') = fd_map (cl w) ∧
  match fd_redir_map (cl w) !! fd with
  | Some r => if r =? 0
              then net w' = net w ∧ fd_redir_map (cl w') = fd_redir_map (cl w)
              else fd_redir_map (cl w') = delete fd (fd_redir_map (cl w)) ∧
                   ∃ a, net w' = fst (forward_close a (mk_close_in r) (net w))
  | None => net w' = net w ∧ fd_redir_map (cl w') = fd_redir_map (cl w)
  end.
Proof.
  intros E. unfold hvac_client_comm_gen_close_rpc in E.
  bind_in E s1 a E1. apply lookup_addr_frame in E1 as [Hn (Hm & Hr & Hs & _)].
  bind_in E s2 u2 E2. apply create_handle_Ret in E2 as ->.
  bind_in E s3 redir E3. unfold client_gets in E3. unfold_st_in E3. simplify_eq.
  bind_in E s4 u4 E4. bind_in E s5 u5 E5. apply upd_Ret in E5 as ->.
  apply free_addr_Ret in E as ->.
  assert (fd_states (cl s4) = fd_states (cl s3) ∧ fd_map (cl s4) = fd_map (cl s3) ∧
    match fd_redir_map (cl w) !! fd with
    | Some r => if r =? 0
                then net s4 = net w ∧ fd_redir_map (cl s4) = fd_redir_map (cl w)
                else fd_redir_map (cl s4) = delete fd (fd_redir_map (cl w)) ∧
                     ∃ a, net s4 = fst (forward_close a (mk_close_in r) (net w))
    | None => net s4 = net w ∧ fd_redir_map (cl s4) = fd_redir_map (cl w)
    end) as (Hs4 & Hm4 & Hcase).
  { rewrite Hr in E4. destruct (fd_redir_map (cl w) !! fd) as [r|].
    - destruct (r =? 0).
      + apply mret_Ret in E4 as [-> _]. split_and!; congruence.
      + bind_in E4 s5 u6 E5. apply remote_Ret in E5 as [Hs5 Hf]. apply upd_Ret in E4 as ->.
        destruct s3 as [[] ?]. rewrite Hs5. simpl in *. subst. split_and!; try done.
        exists a. by rewrite Hf.
    - apply mret_Ret in E4 as [-> _]. split_and!; congruence. }
  simpl. destruct s4 as [[] ?]. simpl in *. subst. rewrite Hs. split_and!; try done.
  rewrite fd_state_cleanup. by rewrite bool_decide_true.
Qed.

(** ** Seeking *)

(** A seek on a descriptor that has no redirection still goes out, for
    the server's descriptor 0, and records a redirection to 0. *)
Theorem seek_rpc_unmapped_hits_fd_zero svr_hash fd offset whence (w w' : world W) v :
  fd_redir_map (cl w) !! fd = None →
  hvac_client_comm_gen_seek_rpc getenv ahead svr_hash fd offset whence w = Ret (w', v) →
  fd_redir_map (cl w') !! fd = Some 0 ∧
  ∃ a r, forward_seek a (mk_seek_in 0 offset whence) (net w) = (net w', r).
Proof.
  intros Hu E. unfold hvac_client_comm_gen_seek_rpc in E.
  bind_in E s1 a E1. apply lookup_addr_frame in E1 as [Hn (Hm & Hr & Hs & _)].
  bind_in E s2 u2 E2. apply create_handle_Ret in E2 as ->.
  bind_in E s3 rfd E3. unfold index_redir, client_gets in E3. unfold_st_in E3.
  rewrite Hr, Hu in E3. unfold_st_in E3. simplify_eq.
  bind_in E s4 r E4. apply remote_Ret in E4 as [Hs4 Hf].
  assert (w' = s4) as ->.
  { destruct r; [done| | |];
      (bind_in E s5 u5 E5; apply free_addr_Ret in E5 as ->; try done; by apply mret_Ret in E as [-> _]). }
  rewrite <-Hn. split; [|by exists a, r].
  rewrite Hs4. destruct s1 as [[] ?]. simpl. apply lookup_insert_eq.
Qed.

(** ** Looking a rank up *)

Definition ports_content (c : client) : option bytes :=
  content (cl_os c) (ports_file (getenv "SLURM_JOBID")).

(** Looking up a rank whose address is not cached, in an address file of
    posts, gives the target of the first address posted for the rank, caches
    it, and leaves the file open: the process has one more descriptor after
    the call. A second lookup gives the same target and opens nothing. *)
Theorem lookup_caches_and_leaks rank es a t (w : world W) :
  posix_ok (cl_os (cl w)) →
  first_free (px_fds (cl_os (cl w))) < px_nofile (cl_os (cl w)) →
  address_cache (cl w) !! rank = None →
  ports_content (cl w) = Some (posts_text es) → Forall good_post es →
  first_post rank es = Some a → hg_addr_lookup2 (net w) a = Some t →
  ∃ w', hvac_client_comm_lookup_addr getenv ahead rank w = Ret (w', Some t) ∧
    address_cache (cl w') = <[rank := a]> (address_cache (cl w)) ∧
    size (px_fds (cl_os (cl w'))) = S (size (px_fds (cl_os (cl w)))) ∧
    hvac_client_comm_lookup_addr getenv ahead rank w' = Ret (w', Some t).
Proof.
  intros Hok Hfree Hc Hp Hes Ha Ht. unfold hvac_client_comm_lookup_addr at 1.
  unfold client_gets, client_sys, upd. unfold_st. rewrite Hc.
  destruct (os_open (ports_file (getenv "SLURM_JOBID")) O_RDWR (cl_os (cl w))) as [p fd] eqn:Eo.
  pose proof Eo as Eo'. rewrite os_open_plain in Eo by done. cbv zeta in Eo.
  pose proof Hp as Hp'. unfold ports_content, content in Hp'.
  destruct (Z.leb_spec (px_nofile (cl_os (cl w))) (first_free (px_fds (cl_os (cl w))))); [lia|].
  destruct (px_paths (cl_os (cl w)) !! _) as [i|]; [|done].
  simpl in Hp'. simplify_eq. pose proof (first_free_nonneg (px_fds (cl_os (cl w)))).
  pose proof (first_free_fresh (px_fds (cl_os (cl w)))) as Hfresh.
  destruct (Z.eqb_spec (first_free (px_fds (cl_os (cl w)))) (-1)); [lia|].
  destruct w as [[os m rd f ac co g k st d] nw]. simpl in *.
  unfold ports_content in Hp. rewrite content_set_fds. simpl in Hp. rewrite Hp. simpl.
  destruct (os_read _ _ _) as [p2 x] eqn:Er. destruct (os_read_fds _ _ _ _ _ Er) as [_ Hdom]. simpl.
  unfold lookup_in_file. rewrite find_rank_posts by (done || lia). rewrite Ha. simpl.
  rewrite Ht. eexists. split; [done|]. simpl. split_and!; [done| |].
  - rewrite <-size_dom, Hdom, size_dom. simpl. by apply map_size_insert_None.
  - unfold hvac_client_comm_lookup_addr, client_gets. unfold_st.
    rewrite lookup_insert_eq. simpl. by rewrite Ht.
Qed.

(** ** Asking a server to print its statistics *)

Definition stats_target (w w1 : world W) (s : text) (a : option hg_addr) : Prop :=
  hvac_client_comm_lookup_addr getenv ahead (atoi s) w = Ret (w1, a).

(** What hvac_client_request_server_to_print_stats answers: -3 for a NULL
    rank, -4 when the rank has no address, -5 when the request could not be
    sent, and 0 as soon as it could, before and whatever the server answers;
    the rank's descriptors and redirections are never touched. *)
Theorem print_stats_request_codes rank (w w' : world W) code :
  hvac_client_request_server_to_print_stats getenv ahead rank w = Ret (w', code) →
  same_tables (cl w) (cl w') ∧
  match rank with
  | None => code = -3 ∧ w' = w
  | Some s => ∃ w1 a, stats_target w w1 s a ∧
      match a with
      | None => code = -4 ∧ w' = w1
      | Some _ => ∃ st, forward_stats a {| dummy_arg := 0 |} (net w1) = (net w', st) ∧
          code = (if st =? HG_SUCCESS then 0 else -5)
      end
  end.
Proof.
  unfold hvac_client_request_server_to_print_stats, stats_target. intros E.
  destruct rank as [s|]; [|apply mret_Ret in E as [-> ->]; by split].
  bind_in E w1 a E1. pose proof E1 as E1'. apply lookup_addr_frame in E1 as [_ Hsame].
  destruct a as [a|]; [|apply mret_Ret in E as [-> ->]; split; [done|by exists w1, None]].
  bind_in E s2 u2 E2. apply create_handle_Ret in E2 as ->.
  bind_in E s3 st E3. apply remote_Ret in E3 as [Hs3 Hf].
  assert (Hc : w' = s3 ∧ code = if st =? HG_SUCCESS then 0 else -5).
  { destruct (st =? HG_SUCCESS); simpl in E; bind_in E s4 u4 E4;
      apply free_addr_Ret in E4 as ->; by apply mret_Ret in E. }
  destruct Hc as [-> ->]. rewrite Hs3. split; [done|]. exists w1, (Some a). split; [done|].
  exists st. by rewrite Hf.
Qed.

End props.

(** ** Witnesses: one rank, a network that answers *)

Definition ex_transport : Transport sized_mercury unit := {|
  hg_addr := text;
  hg_addr_lookup2 _ a := Some a;
  hg_addr_garbage := None;
  hg_output_garbage := {| seek_ret := 0 |};
  hg_create_ret _ _ := HG_SUCCESS;
  hg_addr_free_ret _ _ := HG_SUCCESS;
  hg_release_ret _ := HG_SUCCESS;
  forward_open _ _ w := (w, Reply {| ret_status := 9 |});
  forward_read _ _ w := (w, Reply ({| rpc_ret := 2 |}, s2t "ab"));
  forward_seek _ _ w := (w, Reply {| seek_ret := 0 |});
  forward_close _ _ w := (w, HG_SUCCESS);
  forward_stats _ _ w := (w, 1)
|}.

Definition ex_getenv (name : string) : option text :=
  if String.eqb name "SLURM_JOBID" then Some (s2t "77") else None.

(** The whole of a short file fits the stream's buffer. *)
Definition ex_ahead (rank : Z) (file : text) : Z := 4096.

Definition ex_config : config := Config 1 (Some "/data") true false false.

Definition ex_client : client :=
  Client ex_ports_os ∅ ∅ (FdTable ∅ ∅) ∅ comm_initial true ex_config stats_initial ∅.

Definition ex_world : world unit := World ex_client tt.

Lemma ex_states_ok : states_ok (fd_states (cl ex_world)).
Proof. split; [by intros fd l|by intros fd fd' l]. Qed.

Definition ex_world_open : world unit :=
  World (Client ex_ports_os {[ 5 := "/data/f" ]} {[ 5 := 9 ]}
    (hvac_set_fd_ready 5 (hvac_set_fd_opening 5 (FdTable ∅ ∅))) {[ 0 := s2t "a" ]}
    comm_initial true ex_config stats_initial ∅) tt.

Lemma seek_rpc_unmapped_hits_fd_zero_witness :
  ∃ w', hvac_client_comm_gen_seek_rpc (T:=ex_transport) ex_getenv ex_ahead 0 5 10 0 ex_world = Ret (w', 0) ∧
    fd_redir_map (cl w') !! 5 = Some 0.
Proof.
  eexists. destruct (seek_rpc_unmapped_hits_fd_zero (T:=ex_transport) ex_getenv ex_ahead 0 5 10 0
    ex_world _ 0 eq_refl ltac:(vm_compute; reflexivity)) as [Hc _].
  split; [vm_compute; reflexivity|exact Hc].
Defined.

Lemma ex_ports_os_ok : posix_ok ex_ports_os.
Proof.
  split.
  - intros path i. simpl. rewrite lookup_singleton_Some. intros [_ <-]. by eexists.
  - intros fd o. simpl. by rewrite lookup_empty.
Qed.

Lemma lookup_caches_and_leaks_witness :
  ∃ w', hvac_client_comm_lookup_addr (T:=ex_transport) ex_getenv ex_ahead 1 ex_world
          = Ret (w', Some (s2t "ofi+tcp://10.0.0.2:5000")) ∧
    size (px_fds (cl_os (cl w'))) = 1%nat.
Proof.
  destruct (lookup_caches_and_leaks (T:=ex_transport) ex_getenv ex_ahead 1 ex_posts
    (s2t "ofi+tcp://10.0.0.2:5000") (s2t "ofi+tcp://10.0.0.2:5000") ex_world
    ex_ports_os_ok ltac:(vm_compute; reflexivity) eq_refl ltac:(vm_compute; reflexivity)
    ltac:(repeat constructor; simpl; try lia; done) eq_refl eq_refl)
    as (w' & E & _ & Hs & _).
  exists w'. split; [exact E|exact Hs].
Defined.

Lemma print_stats_request_codes_witness :
  ∃ w', hvac_client_request_server_to_print_stats (T:=ex_transport) ex_getenv ex_ahead (Some (s2t "1"))
          ex_world = Ret (w', -5) ∧ same_tables (cl ex_world) (cl w').
Proof.
  eexists. destruct (print_stats_request_codes (T:=ex_transport) ex_getenv ex_ahead (Some (s2t "1"))
    ex_world _ (-5) ltac:(vm_compute; reflexivity)) as [Hs _].
  split; [vm_compute; reflexivity|exact Hs].
Defined.
