(* ===== verification/Client.v ===== *)
(** * The client library: tracking files and reaching their servers

    [src/src/mthvac_client.cpp]: the constructor and destructor, the decision
    which opened files are served remotely, and the remote operations on them.
    A file's server is the hash of its canonical path modulo the server
    count. *)

From S2P Require Import Prelude CText Posix Wire AddrFile FdState Comm Stats ClientComm.

Local Open Scope Z_scope.

(** What the process finds around it: the environment variables, how far a
    stream reads ahead of the scan for a rank in the address file, the file
    system's answers to [std::filesystem::canonical] ([None]: it throws) and
    [current_path], [std::hash<std::string>], the dynamic linker, and how
    Mercury's initialisation goes. *)
Record environment : Type := Environment {
  getenv : string → option text;
  read_ahead : Z → text → Z;
  canonical : string → option string;
  current_path : option string;
  hash : string → Z;
  dlsym : string → bool;
  init_res : init_results
}.

(** std::hash gives a size_t. *)
Definition hash_ok (E : environment) : Prop := ∀ p, 0 ≤ hash E p < 2 ^ 64.

Definition parent_dir (p : string) : string := t2s (parent_path (s2t p)).

(** strstr(path, needle) != NULL, and std::string::find != npos. *)
Definition has_substring (needle path : string) : bool := strstr path needle.

Section client.
Context {H : Mercury} {W : Type} {T : Transport H W}.
Context (E : environment).

(** ** Start and end *)

(** hvac_client_init, after the logger's start. *)
Definition hvac_client_init : St (world W) unit :=
  c ← client_gets cl_conf;
  if g_hvac_initialized c then mret tt
  else
    match getenv E "HVAC_SERVER_COUNT" with
    | None => fail (Exited (-1))
    | Some n =>
        upd (set_conf (Config (to_uint32 (atoi n))
                              (match getenv E "HVAC_DATA_DIR" with
                               | Some d => Some (t2s d)
                               | None => hvac_data_dir c
                               end)
                              true (g_disable_redirect c) (tl_disable_redirect c))) ;;
        c' ← client_gets cl_conf;
        upd (set_conf (Config (g_hvac_server_count c') (hvac_data_dir c')
                              (g_hvac_initialized c') false (tl_disable_redirect c')))
    end.

Definition hvac_client_shutdown : St (world W) unit :=
  upd (λ c, set_comm (hvac_shutdown_comm (cl_comm c)) (g_mercury_init c) c).

(** ** Which server *)

(** int host = std::hash<std::string>{}(path) % g_hvac_server_count *)
Definition host_of_path (path : string) : St (world W) Z :=
  c ← client_gets cl_conf;
  if g_hvac_server_count c =? 0 then fail DivByZero
  else mret (to_int32 (hash E path mod g_hvac_server_count c)).

(** ** Tracking *)

(** The test inside the try block: the path to track a file under, if any.
    [None] also stands for an exception, which is swallowed. *)
Definition tracked_path (data_dir : option string) (path : string) : option string :=
  full ← canonical E path;
  let ppath := parent_dir full in
  match data_dir with
  | Some dir =>
      test ← canonical E dir;
      if has_substring test ppath then Some full else None
  | None =>
      cwd ← current_path E;
      if String.eqb ppath cwd then Some full else None
  end.

(** The path hvac_track_file records for an open, if it records one. *)
Definition eligible (c : config) (path : string) (flags : Z) : option string :=
  if has_substring ".ports.cfg." path || (Z.land flags O_ACCMODE =? O_WRONLY) ||
     has_flag flags O_APPEND
  then None else tracked_path (hvac_data_dir c) path.

Definition hvac_track_file (path : string) (flags fd : Z) : St (world W) bool :=
  if has_substring ".ports.cfg." path then mret false
  else if Z.land flags O_ACCMODE =? O_WRONLY then mret false
  else if has_flag flags O_APPEND then mret false
  else
    c ← client_gets cl_conf;
    match tracked_path (hvac_data_dir c) path with
    | None => mret false
    | Some full =>
        upd (λ c, set_fd_map (<[fd := full]> (fd_map c)) c) ;;
        g ← client_gets g_mercury_init;
        (if g : bool then mret tt
         else zoom (λ w, cl_comm (cl w)) (λ k w, set_cl (set_comm k true (cl w)) w)
                   (hvac_init_comm false (getenv E "SLURM_PROCID") (init_res E))) ;;
        host ← host_of_path full;
        open_result ← hvac_client_comm_gen_open_rpc (getenv E) (read_ahead E) (to_uint32 host) full fd;
        mret (negb (open_result <? 0))
    end.

Definition hvac_file_tracked (fd : Z) : St (world W) bool :=
  m ← client_gets fd_map; mret (bool_decide (is_Some (m !! fd))).

Definition hvac_get_path (fd : Z) : St (world W) (option string) :=
  m ← client_gets fd_map; mret (m !! fd).

(** ** Remote operations *)

(** The host of a tracked descriptor. *)
Definition host_of_fd (fd : Z) : St (world W) Z :=
  m ← client_gets fd_map; host_of_path (default "" (m !! fd)).

Definition hvac_remote_read (returns : list (Z * hvac_fd_state)) (fd : Z) (buf : bool)
    (count : Z) : St (world W) (Z * bytes) :=
  tracked ← hvac_file_tracked fd;
  if tracked : bool then
    host ← host_of_fd fd;
    hvac_client_comm_gen_read_rpc (getenv E) (read_ahead E) returns (to_uint32 host) fd buf (to_int64 count) (-1)
  else mret (-1, []).

Definition hvac_remote_pread (returns : list (Z * hvac_fd_state)) (fd : Z) (buf : bool)
    (count offset : Z) : St (world W) (Z * bytes) :=
  tracked ← hvac_file_tracked fd;
  if negb tracked then mret (-1, [])
  else
    redir ← index_redir fd;
    if redir =? 0 then mret (-1, [])
    else
      host ← host_of_fd fd;
      hvac_client_comm_gen_read_rpc (getenv E) (read_ahead E) returns (to_uint32 host) fd buf
        (to_int64 count) offset.

Definition hvac_remote_lseek (fd offset whence : Z) : St (world W) Z :=
  tracked ← hvac_file_tracked fd;
  if tracked : bool then
    host ← host_of_fd fd;
    hvac_client_comm_gen_seek_rpc (getenv E) (read_ahead E) (to_uint32 host) fd offset whence
  else mret (-1).

Definition hvac_remote_close (fd : Z) : St (world W) unit :=
  tracked ← hvac_file_tracked fd;
  if tracked : bool then
    host ← host_of_fd fd;
    hvac_client_comm_gen_close_rpc (getenv E) (read_ahead E) (to_uint32 host) fd
  else mret tt.

(** The answer is what std::unordered_map::erase counts. *)
Definition hvac_remove_fd (fd : Z) : St (world W) bool :=
  hvac_remote_close fd ;;
  tracked ← hvac_file_tracked fd;
  upd (λ c, set_fd_map (delete fd (fd_map c)) c) ;;
  mret tracked.

(** ** Lemmas *)

Lemma tracked_path_canonical dir path full :
  tracked_path dir path = Some full → canonical E path = Some full.
Proof.
  unfold tracked_path. destruct (canonical E path) as [q|]; [|done]. simpl. intros Hf.
  destruct dir as [d|].
  - destruct (canonical E d); [|done]. simpl in Hf. by destruct (has_substring _ _).
  - destruct (current_path E); [|done]. simpl in Hf. by destruct (String.eqb _ _).
Qed.

End client.
