(* ===== verification/Wrappers.v ===== *)
(** * The intercepted calls

    [src/src/wrappers.c]: the [open], [close], [read] and [pread] that the
    preloaded library puts in front of the C library's. Buffers are valid
    pointers; [start] and [finish] are the two clock readings a wrapper
    takes. *)

From S2P Require Import Prelude CText Posix Wire AddrFile FdState Comm Stats ClientComm Client.

Local Open Scope Z_scope.

(** What a buffer holds after a second write at its start. *)
Definition overlay (b old : bytes) : bytes := b ++ drop (length b) old.

Section wrappers.
Context {H : Mercury} {W : Type} {T : Transport H W}.
Context (E : environment).

(** MAP_OR_FAIL(func) *)
Definition MAP_OR_FAIL (func : string) : St (world W) unit :=
  m ← client_gets real_mapped;
  if bool_decide (func ∈ m) then mret tt
  else if dlsym E func then upd (λ c, set_real_mapped ({[func]} ∪ real_mapped c) c)
  else fail (Exited 1).

(** g_disable_redirect || tl_disable_redirect *)
Definition redirect_disabled : St (world W) bool :=
  c ← client_gets cl_conf; mret (g_disable_redirect c || tl_disable_redirect c).

Definition count_call (k : stat_kind) (start finish : timespec) : St (world W) unit :=
  upd (λ c, set_stats (bump k (elapsed start finish) (cl_stats c)) c).

Definition data_prefix : string := "/lustre/orion/gen008/proj-shared/ghu4/data/cosmoUniverse".

Definition wrap_open (pathname : string) (flags : Z) (start finish : timespec) : St (world W) Z :=
  MAP_OR_FAIL "open" ;;
  off ← redirect_disabled;
  if off : bool then client_sys (os_open pathname flags)
  else
    ret ← client_sys (os_open pathname flags);
    if ret =? -1 then mret ret
    else
      tracked ← hvac_track_file E pathname flags ret;
      count_call (if tracked : bool then SOpen
                  else if has_substring data_prefix pathname then SOpenData else SOpenSystem)
        start finish ;;
      mret ret.

Definition wrap_close (fd : Z) (start finish : timespec) : St (world W) Z :=
  MAP_OR_FAIL "close" ;;
  off ← redirect_disabled;
  if off : bool then client_sys (os_close fd)
  else
    path ← hvac_get_path fd;
    (if path : option string is Some _ then hvac_remove_fd E fd ;; mret tt else mret tt) ;;
    ret ← client_sys (os_close fd);
    if negb (ret =? 0) then mret ret
    else count_call SClose start finish ;; mret ret.

(** [ret] is an int; the ssize_t results are narrowed into it. *)
Definition wrap_read (returns : list (Z * hvac_fd_state)) (fd count : Z)
    (start finish : timespec) : St (world W) (Z * bytes) :=
  MAP_OR_FAIL "read" ;;
  r ← hvac_remote_read E returns fd true count;
  res ← (if to_int32 (fst r) =? -1
         then l ← client_sys (os_read fd count);
              mret (to_int32 (fst l), overlay (snd l) (snd r))
         else mret (to_int32 (fst r), snd r));
  count_call SRead start finish ;;
  mret res.

Definition wrap_pread (returns : list (Z * hvac_fd_state)) (fd count offset : Z)
    (start finish : timespec) : St (world W) (Z * bytes) :=
  MAP_OR_FAIL "pread" ;;
  path ← hvac_get_path fd;
  match path : option string with
  | Some _ =>
      r ← hvac_remote_pread E returns fd true count offset;
      res ← (if fst r =? -1
             then l ← client_sys (λ p, (p, os_pread fd count offset p));
                  mret (fst l, overlay (snd l) (snd r))
             else mret r);
      count_call SPread start finish ;;
      mret res
  | None => client_sys (λ p, (p, os_pread fd count offset p))
  end.

End wrappers.
