(* ===== verification/ClientProps.v ===== *)
(** * What the client library decides

    The start of the library, which files it tracks, what it leaves of a
    tracked descriptor, and the calls it hands through. *)

From S2P Require Import Prelude CText Posix Wire AddrFile FdState Comm Stats.
From S2P Require Import ClientComm ClientCommProps Client Wrappers.

Local Open Scope Z_scope.

(** All that starting to track a file leaves as it was. *)
Definition same_but_tracking (c c' : client) : Prop :=
  cl_os c' = cl_os c ∧ fd_redir_map c' = fd_redir_map c ∧ fd_states c' = fd_states c ∧
  address_cache c' = address_cache c ∧ cl_conf c' = cl_conf c.

Section props.
Context {H : Mercury} {W : Type} {T : Transport H W}.
Context (E : environment).

(** ** Start *)

(** The constructor reads the server count and the data directory once:
    without HVAC_SERVER_COUNT it ends the process with exit(-1) instead of
    taking a default; with it, the count is atoi's, as an unsigned number,
    redirection is on, and a second call changes nothing. *)
Theorem client_init_once (w : world W) n :
  g_hvac_initialized (cl_conf (cl w)) = false →
  (getenv E "HVAC_SERVER_COUNT" = None → hvac_client_init E w = Fault (Exited (-1))) ∧
  (getenv E "HVAC_SERVER_COUNT" = Some n → ∃ w',
     hvac_client_init E w = Ret (w', tt) ∧
     g_hvac_server_count (cl_conf (cl w')) = to_uint32 (atoi n) ∧
     hvac_data_dir (cl_conf (cl w')) =
       match getenv E "HVAC_DATA_DIR" with
       | Some d => Some (t2s d)
       | None => hvac_data_dir (cl_conf (cl w))
       end ∧
     g_disable_redirect (cl_conf (cl w')) = false ∧
     hvac_client_init E w' = Ret (w', tt)).
Proof.
  intros Hi. unfold hvac_client_init, client_gets. split.
  - intros Hn. erewrite bind_run by done. by rewrite Hi, Hn.
  - intros Hn. erewrite bind_run by done. rewrite Hi, Hn.
    destruct w as [[] nw]. simpl in *. eexists. split; [by unfold_st|]. simpl.
    split_and!; try done.
Qed.

(** ** Choosing a server *)

Lemma host_of_path_run (w : world W) path :
  hash_ok E → 0 < g_hvac_server_count (cl_conf (cl w)) ≤ 2 ^ 31 →
  ∃ h, host_of_path E path w = Ret (w, h) ∧ 0 ≤ h < g_hvac_server_count (cl_conf (cl w)).
Proof.
  intros Hh Hc. unfold host_of_path, client_gets. unfold_st.
  destruct (Z.eqb_spec (g_hvac_server_count (cl_conf (cl w))) 0); [lia|].
  pose proof (Z.mod_pos_bound (hash E path) (g_hvac_server_count (cl_conf (cl w)))).
  eexists. split; [done|]. rewrite to_int32_id; lia.
Qed.

(** ** Tracking *)

(** A file is left alone, or recorded and then opened by its server. *)
Lemma track_file_cut (w w' : world W) path flags fd b :
  hvac_track_file E path flags fd w = Ret (w', b) →
  match eligible E (cl_conf (cl w)) path flags with
  | None => b = false ∧ w' = w
  | Some full => ∃ w4 h v, same_but_tracking (cl w) (cl w4) ∧
      fd_map (cl w4) = <[fd := full]> (fd_map (cl w)) ∧ g_mercury_init (cl w4) = true ∧
      hvac_client_comm_gen_open_rpc (getenv E) (read_ahead E) h full fd w4 = Ret (w', v) ∧
      b = negb (v <? 0)
  end.
Proof.
  unfold hvac_track_file, eligible. intros Hr.
  destruct (has_substring _ path); [by apply mret_Ret in Hr as [-> ->]|].
  destruct (Z.land flags O_ACCMODE =? O_WRONLY); [by apply mret_Ret in Hr as [-> ->]|].
  destruct (has_flag flags O_APPEND); [by apply mret_Ret in Hr as [-> ->]|]. simpl.
  bind_in Hr w1 c E1. unfold client_gets in E1. unfold_st_in E1. simplify_eq.
  destruct (tracked_path E _ path) as [full|] eqn:Hf; [|by apply mret_Ret in Hr as [-> ->]].
  bind_in Hr w2 u2 E2. apply upd_Ret in E2 as ->.
  bind_in Hr w3 g E3. unfold client_gets in E3. unfold_st_in E3. simplify_eq.
  bind_in Hr w4 u4 E4.
  assert (same_but_tracking (cl w1) (cl w4) ∧
    fd_map (cl w4) = <[fd := full]> (fd_map (cl w1)) ∧ g_mercury_init (cl w4) = true)
    as (Hs4 & Hm4 & Hg4).
  { destruct (g_mercury_init _) eqn:Hg.
    - apply mret_Ret in E4 as [-> _]. by destruct w1 as [[] ?].
    - unfold zoom in E4. destruct (hvac_init_comm _ _ _ _) as [[k []]|]; simplify_eq.
      by destruct w1 as [[] ?]. }
  bind_in Hr w5 h E5.
  assert (w5 = w4) as ->.
  { unfold host_of_path, client_gets in E5. unfold_st_in E5. by destruct (_ =? 0); simplify_eq. }
  bind_in Hr w6 v E6. apply mret_Ret in Hr as [-> ->]. by exists w4, (to_uint32 h), v.
Qed.

(** What hvac_track_file does with a descriptor: a file that is not
    eligible (an address file, write-only, append, outside the data
    directory) leaves everything as it was and is answered false; an eligible
    one is recorded under its canonical path, and stays recorded whether or
    not the server could open it: the answer only tells whether the remote
    result was negative. *)
Theorem track_file_records (w w' : world W) path flags fd b :
  hvac_track_file E path flags fd w = Ret (w', b) →
  match eligible E (cl_conf (cl w)) path flags with
  | None => b = false ∧ w' = w
  | Some full => canonical E path = Some full ∧
      fd_map (cl w') = <[fd := full]> (fd_map (cl w)) ∧ g_mercury_init (cl w') = true
  end.
Proof.
  intros Hr. apply track_file_cut in Hr. destruct (eligible E _ path flags) as [full|] eqn:He; [|done].
  destruct Hr as (w4 & h & v & Hc & Hm & Hg & Hr & _).
  split; [|by apply open_rpc_frame in Hr as [-> ->]]. unfold eligible in He.
  destruct (_ || _); [done|]. by eapply tracked_path_canonical.
Qed.

(** With HVAC_DATA_DIR set, every file in or below that directory is
    eligible for tracking. (The test is a substring search, so that files of
    other directories can be eligible as well.) *)
Theorem files_below_data_dir_tracked dir d path sub name :
  canonical E dir = Some d → d ≠ "" → slash ∉ s2t name →
  canonical E path = Some (t2s ((s2t d ++ sub) ++ slash :: s2t name)) →
  tracked_path E (Some dir) path = Some (t2s ((s2t d ++ sub) ++ slash :: s2t name)).
Proof.
  intros Hd Hne Hn Hp. unfold tracked_path. rewrite Hp. simpl. rewrite Hd. simpl.
  assert (has_substring d (parent_dir (t2s ((s2t d ++ sub) ++ slash :: s2t name))) = true) as ->;
    [|done].
  unfold has_substring. apply strstr_spec. exists [], sub. unfold parent_dir.
  rewrite !s2t_t2s. rewrite parent_path_app; [done| |done].
  destruct d; [done|]. simpl. done.
Qed.

(** ** Calls that stay local *)

(** On a descriptor the library does not track, read and pread are the
    operating system's, on any count and offset the result of which fits the
    wrapper's int; nothing is sent; read counts the call, pread does not. *)
Theorem untracked_reads_pass_through (w : world W) returns fd count off s f :
  fd_map (cl w) !! fd = None → "read" ∈ real_mapped (cl w) → "pread" ∈ real_mapped (cl w) →
  let '(os', (n, b)) := os_read fd count (cl_os (cl w)) in
  (- 2 ^ 31 ≤ n < 2 ^ 31) →
  wrap_read E returns fd count s f w =
    Ret (World (set_stats (bump SRead (elapsed s f) (cl_stats (cl w)))
                 (set_cl_os os' (cl w))) (net w), (n, b)) ∧
  wrap_pread E returns fd count off s f w = Ret (w, os_pread fd count off (cl_os (cl w))).
Proof.
  intros Hm Hr Hp. destruct (os_read fd count (cl_os (cl w))) as [os' [n b]] eqn:Ho. intros Hn.
  split.
  - unfold wrap_read, MAP_OR_FAIL, client_gets. erewrite bind_run.
    2: { erewrite bind_run by done. by rewrite bool_decide_true. }
    unfold hvac_remote_read. erewrite bind_run.
    2: { unfold hvac_file_tracked, client_gets. unfold_st. by rewrite Hm. }
    change (to_int32 (fst (-1, ([] : bytes))) =? -1) with true. cbv iota.
    erewrite bind_run.
    2: { erewrite bind_run; [done|]. unfold client_sys, zoom, run. rewrite Ho. done. }
    simpl. rewrite to_int32_id by done. unfold overlay. rewrite drop_nil, app_nil_r.
    erewrite bind_run by done. by destruct w as [[] ?].
  - unfold wrap_pread, MAP_OR_FAIL, client_gets. erewrite bind_run.
    2: { erewrite bind_run by done. by rewrite bool_decide_true. }
    unfold hvac_get_path, client_gets. erewrite bind_run.
    2: { unfold_st. by rewrite Hm. }
    unfold client_sys, zoom, run. destruct (os_pread _ _ _ _). by destruct w as [[] ?].
Qed.

End props.

(** The substring search takes files of other directories: /scratch/data/x is
    eligible when HVAC_DATA_DIR is /data. *)
Lemma substring_test_tracks_outsiders :
  ∃ E, tracked_path E (Some "/data") "/scratch/data/x" = Some "/scratch/data/x".
Proof.
  exists (Environment (λ _, None) (λ _ _, 4096) Some None (λ _, 0) (λ _, true) (InitResults true true true)).
  vm_compute. reflexivity.
Qed.

(** ** Witnesses *)

Definition ex_client_env : environment := {|
  getenv name := if String.eqb name "HVAC_SERVER_COUNT" then Some (s2t "4")
                 else if String.eqb name "HVAC_DATA_DIR" then Some (s2t "/data")
                 else if String.eqb name "SLURM_PROCID" then Some (s2t "0")
                 else if String.eqb name "SLURM_JOBID" then Some (s2t "77") else None;
  read_ahead _ _ := 4096;
  canonical p := Some p;
  current_path := None;
  hash _ := 12345;
  dlsym _ := true;
  init_res := InitResults true true true
|}.

Definition ex_world_new : world unit :=
  World (set_conf (Config 0 None false true false) ex_client) tt.

Lemma client_init_once_witness :
  ∃ w', hvac_client_init ex_client_env ex_world_new = Ret (w', tt) ∧
    g_hvac_server_count (cl_conf (cl w')) = 4.
Proof.
  destruct (client_init_once ex_client_env ex_world_new (s2t "4") eq_refl) as [_ Hi].
  destruct (Hi eq_refl) as (w' & Hr & Hc & _).
  exists w'. split; [exact Hr|]. rewrite Hc. vm_compute. reflexivity.
Defined.

(** The server answers every open with descriptor -1: the file is recorded
    all the same. *)
Definition ex_transport_fail : Transport sized_mercury unit := {|
  hg_addr := text;
  hg_addr_lookup2 _ a := Some a;
  hg_addr_garbage := None;
  hg_output_garbage := {| seek_ret := 0 |};
  hg_create_ret _ _ := HG_SUCCESS;
  hg_addr_free_ret _ _ := HG_SUCCESS;
  hg_release_ret _ := HG_SUCCESS;
  forward_open _ _ w := (w, Reply {| ret_status := -1 |});
  forward_read _ _ w := (w, NotSent);
  forward_seek _ _ w := (w, NotSent);
  forward_close _ _ w := (w, HG_SUCCESS);
  forward_stats _ _ w := (w, HG_SUCCESS)
|}.

Lemma track_file_records_witness :
  ∃ w', hvac_track_file (T:=ex_transport_fail) ex_client_env "/data/f" O_RDWR 5 ex_world
          = Ret (w', false) ∧ fd_map (cl w') = {[ 5 := "/data/f" ]}.
Proof.
  eexists. destruct (track_file_records (T:=ex_transport_fail) ex_client_env ex_world _
    "/data/f" O_RDWR 5 false ltac:(vm_compute; reflexivity)) as (_ & Hm & _).
  split; [vm_compute; reflexivity|exact Hm].
Defined.

Lemma files_below_data_dir_tracked_witness :
  tracked_path ex_client_env (Some "/data") "/data/train/x" = Some "/data/train/x".
Proof.
  apply (files_below_data_dir_tracked ex_client_env "/data" "/data" "/data/train/x"
    (s2t "/train") "x").
  - reflexivity.
  - discriminate.
  - vm_compute. intros Hin. apply list_elem_of_singleton in Hin. discriminate Hin.
  - vm_compute. reflexivity.
Defined.

Definition ex_world_mapped : world unit :=
  World (set_real_mapped {[ "read"; "pread" ]} ex_client) tt.

Lemma untracked_reads_pass_through_witness :
  wrap_pread (T:=ex_transport) ex_client_env [] 5 10 0 {| tv_sec := 0; tv_nsec := 0 |}
    {| tv_sec := 0; tv_nsec := 0 |} ex_world_mapped = Ret (ex_world_mapped, (-1, [])).
Proof.
  exact (proj2 (untracked_reads_pass_through (T:=ex_transport) ex_client_env ex_world_mapped [] 5 10 0
    {| tv_sec := 0; tv_nsec := 0 |} {| tv_sec := 0; tv_nsec := 0 |}
    eq_refl ltac:(set_solver) ltac:(set_solver) ltac:(lia))).
Defined.
