(* ===== verification/Service.v ===== *)
(** * What the file servers promise to a client

    The interface between the client library and the servers behind the
    transport: an open descriptor at a server is a file's bytes and an
    offset; opening, reading and closing act on it the way POSIX files do;
    whatever the servers do in between (moving data) changes no descriptor. A
    server may be down, or go down while nobody has a descriptor of it, if opens
    are refused then.
    [Transparency.v] proves the client against this interface and [System.v]
    discharges it for the server of [Server.v] and [Mover.v]. *)

From S2P Require Import Prelude CText Posix Wire FdState Comm Stats ClientComm.

Local Open Scope Z_scope.

Class FileService {H : Mercury} {W : Type} (T : Transport H W) : Type := {
  (* the servers are in good order *)
  fs_ok : W → Prop;
  (* requests for the address are served, or refused, *)
  fs_known : W → hg_addr → Prop;
  (* and there is a server behind it *)
  fs_live : W → hg_addr → Prop;
  (* the bytes and the offset behind an open descriptor of a server *)
  fs_view : W → hg_addr → Z → option (bytes * Z);
  (* the file a server finds under a path *)
  fs_file : W → hg_addr → string → option bytes;
  (* what the servers do without being asked *)
  fs_event : Type;
  fs_background : fs_event → W → W
}.

(** Addresses stay, no server comes back, and those that live keep their
    files. *)
Record extends `{S : FileService} (w w' : W) : Prop := {
  ex_ok : fs_ok w';
  ex_known a : fs_known w a → fs_known w' a;
  ex_live a : fs_live w' a → fs_live w a;
  ex_lookup t : hg_addr_lookup2 w' t = hg_addr_lookup2 w t;
  ex_file a p d : fs_live w' a → fs_file w a p = Some d → fs_file w' a p = Some d
}.

(** The other descriptors of all servers are as they were. *)
Definition others_same `{S : FileService} (w w' : W) (a : hg_addr) (fd : Z) : Prop :=
  ∀ b f, (b, f) ≠ (a, fd) → fs_view w' b f = fs_view w b f.

(** What the client makes of the fate of an open request. *)
Definition open_ret (r : reply hvac_open_out_t) : Z :=
  match r with Reply out => ret_status out | _ => -1 end.

(** A request that was refused, or answered. *)
Definition settles {O} (r : reply O) : Prop := r = NotSent ∨ ∃ out, r = Reply out.

Class FileServiceOk `(S : FileService) : Prop := {
  svc_create w a : fs_ok w → fs_known w a → hg_create_ret w (Some a) = HG_SUCCESS;
  svc_free w a : fs_ok w → fs_known w a → hg_addr_free_ret w (Some a) = HG_SUCCESS;
  svc_release w : fs_ok w → hg_release_ret w = HG_SUCCESS;
  svc_open w a path d : fs_ok w → fs_known w a → (fs_live w a → fs_file w a path = Some d) →
    ∃ w' r, forward_open (Some a) {| open_path := path |} w = (w', r) ∧ settles r ∧
      extends w w' ∧
      (open_ret r = -1 ∧ (∀ b f, fs_view w' b f = fs_view w b f) ∨
       0 ≤ open_ret r < 2 ^ 31 ∧ fs_view w a (open_ret r) = None ∧
       fs_view w' a (open_ret r) = Some (d, 0) ∧
       others_same w w' a (open_ret r));
  svc_read w a fd d o count off : fs_ok w → fs_known w a → fs_view w a fd = Some (d, o) →
    0 ≤ fd < 2 ^ 31 → 0 ≤ count < 2 ^ 31 → -1 ≤ off < 2 ^ 63 →
    let at_ := if off =? -1 then o else off in
    let n := n_read d at_ count in
    ∃ w' out, forward_read (Some a)
        (mk_rpc_in count (snd (hg_bulk_create (to_uint64 count))) fd off) w
        = (w', Reply (out, slice d at_ n)) ∧
      rpc_ret out = n ∧ extends w w' ∧
      fs_view w' a fd = Some (d, if off =? -1 then o + n else o) ∧
      others_same w w' a fd;
  svc_close w a fd d o : fs_ok w → fs_known w a → fs_view w a fd = Some (d, o) →
    0 ≤ fd < 2 ^ 31 →
    ∃ w' r, forward_close (Some a) (mk_close_in fd) w = (w', r) ∧
      extends w w' ∧ fs_view w' a fd = None ∧ others_same w w' a fd;
  svc_background w e : fs_ok w →
    extends w (fs_background e w) ∧
    ∀ b f, fs_view (fs_background e w) b f = fs_view w b f
}.
