(* ===== verification/Sim.v ===== *)
(** * A process with the library and one without

    The reference: the application's calls made directly to [Posix.v], and the
    same calls with the address file opened at the first use of a server
    ([cold_run]). The relation [sim] between the two processes, what keeps it,
    and what the stubs do in related states. Stated against the interface of
    [Service.v]. *)

From S2P Require Import Prelude CText Posix Wire AddrFile FdState Comm Stats.
From S2P Require Import ClientComm ClientCommProps Client Wrappers Service.

Local Open Scope Z_scope.

(** ** The application's calls *)

Inductive file_op : Type :=
| OpOpen (path : string) (flags : Z)
| OpRead (fd count : Z)
| OpPread (fd count offset : Z)
| OpClose (fd : Z).

Global Instance file_op_eq_dec : EqDecision file_op.
Proof. solve_decision. Defined.

(** Each call made directly: the result, and the bytes stored in the
    caller's buffer. *)
Definition plain_op (op : file_op) (p : posix) : posix * (Z * bytes) :=
  match op with
  | OpOpen path flags => let '(p', fd) := os_open path flags p in (p', (fd, []))
  | OpRead fd count => os_read fd count p
  | OpPread fd count offset => (p, os_pread fd count offset p)
  | OpClose fd => let '(p', r) := os_close fd p in (p', (r, []))
  end.

(** What the theorem asks of a call: an open that does not change the file,
    counts that fit an int, offsets that are not negative. *)
Definition allowed (op : file_op) : bool :=
  match op with
  | OpOpen _ flags => plain_flags flags
  | OpRead _ count => (0 <=? count) && (count <? 2 ^ 31)
  | OpPread _ count offset =>
      (0 <=? count) && (count <? 2 ^ 31) && (0 <=? offset) && (offset <? 2 ^ 63)
  | OpClose _ => true
  end.

(** Clock readings and the condition variable's answers, for one call. *)
Record timing : Type := Timing {
  t_start : timespec;
  t_finish : timespec;
  t_returns : list (Z * hvac_fd_state)
}.

Section sim.
Context {H : Mercury} {HOk : MercuryOk H} {W : Type} {T : Transport H W}.
Context {S : FileService T} {SOk : FileServiceOk S}.
Context {E : environment}.

(** The same call through the wrappers. *)
Definition hvac_op (op : file_op) (t : timing) : St (world W) (Z * bytes) :=
  match op with
  | OpOpen path flags =>
      fd ← wrap_open E path flags (t_start t) (t_finish t); mret (fd, [])
  | OpRead fd count => wrap_read E (t_returns t) fd count (t_start t) (t_finish t)
  | OpPread fd count offset =>
      wrap_pread E (t_returns t) fd count offset (t_start t) (t_finish t)
  | OpClose fd => r ← wrap_close E fd (t_start t) (t_finish t); mret (r, [])
  end.

(** ** The relation between a process with the library and one without *)

(** The job's address file. *)
Definition address_file : string := ports_file (getenv E "SLURM_JOBID").

(** The rank that holds a path. *)
Definition rank_of (k : config) (path : string) : Z := hash E path mod g_hvac_server_count k.

(** The address of a rank: the cached one, or the one a scan of the address
    file finds. *)
Definition addr_of (c : client) (rank : Z) : option text :=
  match address_cache c !! rank with
  | Some a => Some a
  | None => content (cl_os c) address_file ≫= lookup_in_file rank
  end.

(** The server that holds a path. *)
Definition server_of (w : world W) (path : string) : option hg_addr :=
  addr_of (cl w) (rank_of (cl_conf (cl w)) path) ≫= hg_addr_lookup2 (net w).

(** A descriptor served by a server, under the server's descriptor [r]. *)
Definition is_remote (w : world W) (fd : Z) (t : hg_addr) (r : Z) : Prop :=
  ∃ path, fd_map (cl w) !! fd = Some path ∧ default 0 (fd_redir_map (cl w) !! fd) = r ∧
    0 < r < 2 ^ 31 ∧ fd_state fd (fd_states (cl w)) = Some HVAC_FD_READY ∧
    server_of w path = Some t.

(** A descriptor served by the local file: never tracked, or tracked with a
    remote open that failed or is not answered yet. *)
Definition is_local (w : world W) (fd : Z) : Prop := default 0 (fd_redir_map (cl w) !! fd) = 0.

(** Every server can be reached, through the cache or the address file. *)
Record addressed (w : world W) : Prop := Addressed {
  ad_count : 0 < g_hvac_server_count (cl_conf (cl w)) < 2 ^ 31;
  ad_found rank : 0 ≤ rank < g_hvac_server_count (cl_conf (cl w)) →
    ∃ a t, addr_of (cl w) rank = Some a ∧ hg_addr_lookup2 (net w) a = Some t ∧
           fs_known (net w) t
}.

(** All addresses are in the cache. *)
Definition warm (c : client) : Prop :=
  ∀ rank, 0 ≤ rank < g_hvac_server_count (cl_conf c) → is_Some (address_cache c !! rank).

Definition fd_rel (w : world W) (p : posix) (fd : Z) : Prop :=
  match px_fds (cl_os (cl w)) !! fd, px_fds p !! fd with
  | None, None => fd_map (cl w) !! fd = None ∧ default 0 (fd_redir_map (cl w) !! fd) = 0
  | Some o, Some o' =>
      o = o' ∧ is_local w fd ∨
      ofd_ino o = ofd_ino o' ∧ ofd_mode o = ofd_mode o' ∧ readable o' = true ∧
      ∃ t r d, is_remote w fd t r ∧ px_data p !! ofd_ino o' = Some d ∧
        fs_view (net w) t r = Some (d, ofd_off o')
  | _, _ => False
  end.

Record sim (w : world W) (p : posix) : Prop := Sim {
  sim_os : posix_ok (cl_os (cl w));
  sim_plain : posix_ok p;
  sim_files : px_paths (cl_os (cl w)) = px_paths p ∧ px_data (cl_os (cl w)) = px_data p ∧
              px_dirs (cl_os (cl w)) = px_dirs p ∧ px_nofile (cl_os (cl w)) = px_nofile p;
  sim_nofile : px_nofile p ≤ 2 ^ 31;
  sim_states : states_ok (fd_states (cl w));
  sim_net : fs_ok (net w);
  (* the servers see the files the client sees *)
  sim_shared path full d a : canonical E path = Some full → content p path = Some d →
    fs_live (net w) a → fs_file (net w) a full = Some d;
  (* every server's address is cached or posted, and cached once it was used *)
  sim_addressed : addressed w;
  sim_known fd path : fd_map (cl w) !! fd = Some path →
    is_Some (address_cache (cl w) !! rank_of (cl_conf (cl w)) path);
  sim_on : g_disable_redirect (cl_conf (cl w)) = false ∧
           tl_disable_redirect (cl_conf (cl w)) = false;
  sim_fds fd : fd_rel w p fd;
  sim_inj fd fd' t r : is_remote w fd t r → is_remote w fd' t r → fd = fd'
}.

(** What the environment has to offer. *)
Record env_ok : Prop := {
  env_hash : hash_ok E;
  env_dlsym f : f ∈ ["open"; "close"; "read"; "pread"] → dlsym E f = true;
  env_procid : is_Some (getenv E "SLURM_PROCID")
}.

(** ** Sequences of calls and server activity *)

Inductive event : Type :=
| App (op : file_op) (t : timing)
| Background (e : fs_event).

Fixpoint hvac_run (es : list event) : St (world W) (list (Z * bytes)) :=
  match es with
  | [] => mret []
  | App op t :: es' =>
      a ← hvac_op op t; rest ← hvac_run es'; mret (a :: rest)
  | Background e :: es' =>
      modify (λ w, World (cl w) (fs_background e (net w))) ;; hvac_run es'
  end.

Fixpoint plain_run (es : list event) (p : posix) : list (Z * bytes) :=
  match es with
  | [] => []
  | App op _ :: es' => let '(p', a) := plain_op op p in a :: plain_run es' p'
  | Background _ :: es' => plain_run es' p
  end.

Fixpoint all_allowed (es : list event) : bool :=
  match es with
  | [] => true
  | App op _ :: es' => allowed op && all_allowed es'
  | Background _ :: es' => all_allowed es'
  end.

(** The first use of a rank's address opens the address file, reads it as far
    as the stream's buffers go and leaves it open. The reference for a process whose cache knows some ranks: the same
    calls, with that descriptor taken at the same moment and left at the same
    offset. [None]: there was no
    descriptor left for it, which ends the library's process. *)
Definition scan_posts (rank : Z) (p : posix) : posix * Z :=
  let '(p', fd) := os_open address_file O_RDWR p in
  if fd =? -1 then (p', -1)
  else (fst (os_read fd (read_ahead E rank (default [] (content p' address_file))) p'), fd).

Definition cold_lookup (rank : Z) (s : gset Z * posix) : option (gset Z * posix) :=
  let '(known, p) := s in
  if bool_decide (rank ∈ known) then Some (known, p)
  else
    let '(p', fd) := scan_posts rank p in
    if fd =? -1 then None else Some ({[rank]} ∪ known, p').

#[local] Arguments cold_lookup : simpl never.

Definition cold_op (k : config) (op : file_op) (s : gset Z * posix) :
    option (gset Z * posix * (Z * bytes)) :=
  let '(known, p) := s in
  let '(p', a) := plain_op op p in
  match op with
  | OpOpen path flags =>
      if fst a =? -1 then Some (known, p', a)
      else
        match eligible E k path flags with
        | Some full => s' ← cold_lookup (rank_of k full) (known, p'); Some (s', a)
        | None => Some (known, p', a)
        end
  | _ => Some (known, p', a)
  end.

Fixpoint cold_run (k : config) (es : list event) (s : gset Z * posix) :
    option (list (Z * bytes)) :=
  match es with
  | [] => Some []
  | App op _ :: es' =>
      '(s', a) ← cold_op k op s; rest ← cold_run k es' s'; Some (a :: rest)
  | Background _ :: es' => cold_run k es' s
  end.

(** ** Running the stubs *)

(** A path's server, when every server can be reached. *)
Lemma path_server (w : world W) path :
  hash_ok E → addressed w →
  ∃ h t, host_of_path E path w = Ret (w, h) ∧
    to_int32 (to_uint32 h) = rank_of (cl_conf (cl w)) path ∧
    server_of w path = Some t ∧ fs_known (net w) t.
Proof.
  intros Hh [Hc Hw]. pose proof (Hh path) as Hp.
  assert (Hr : 0 ≤ rank_of (cl_conf (cl w)) path < g_hvac_server_count (cl_conf (cl w)))
    by (apply Z.mod_pos_bound; lia).
  destruct (Hw _ Hr) as (a & t & Ha & Ht & Hl).
  eexists _, t. split_and!.
  - unfold host_of_path, client_gets. unfold_st.
    by destruct (Z.eqb_spec (g_hvac_server_count (cl_conf (cl w))) 0); [lia|].
  - rewrite to_int32_uint32. unfold rank_of in *. by rewrite !to_int32_id by (rewrite ?to_int32_id; lia).
  - unfold server_of. by rewrite Ha.
  - done.
Qed.

Lemma scan_posts_keeps rank p p' fd :
  scan_posts rank p = (p', fd) →
  px_paths p' = px_paths p ∧ px_data p' = px_data p ∧ px_nofile p' = px_nofile p ∧
  (∀ g o, px_fds p !! g = Some o → px_fds p' !! g = Some o) ∧
  (fd = -1 ∨ ∃ o, px_fds p !! fd = None ∧ dom (px_fds p') = dom (<[fd := o]> (px_fds p))).
Proof.
  unfold scan_posts. destruct (os_open address_file O_RDWR p) as [p1 fd1] eqn:Ho.
  destruct (os_open_keeps _ _ _ _ _ (eq_refl : plain_flags O_RDWR = true) Ho) as (O1 & O2 & O3).
  destruct (os_open_fds _ _ _ _ _ Ho) as [O4 O5].
  destruct (Z.eqb_spec fd1 (-1)) as [->|Hne]; intros [= <- <-]; [by split_and!; auto|].
  destruct O5 as [[? _]|(_ & Hn & o & O5)]; [done|].
  set (c := read_ahead E rank _). destruct (os_read_keeps fd1 c p1) as (R1 & R2 & R3).
  destruct (os_read fd1 c p1) as [p2 a] eqn:Hr. destruct (os_read_fds _ _ _ _ _ Hr) as [R4 R5].
  simpl in *. split_and!; [congruence|congruence|congruence| |].
  - intros g x Hg. rewrite R3; [by apply O3|congruence].
  - right. exists o. by rewrite R5, O5.
Qed.

(** What a lookup reads and writes: the address cache and the descriptors. *)
Definition after_lookup (ac : gmap Z text) (os : posix) (c : client) : client :=
  set_address_cache ac (set_cl_os os c).

Definition lookup_runs (w : world W) (rank : Z) (ac : gmap Z text) (os : posix) (t : hg_addr) : Prop :=
  ∀ c, cl_os c = cl_os (cl w) → address_cache c = address_cache (cl w) →
    hvac_client_comm_lookup_addr (getenv E) (read_ahead E) rank (World c (net w))
    = Ret (World (after_lookup ac os c) (net w), Some t).

Lemma lookup_cached (w : world W) rank t :
  addr_of (cl w) rank ≫= hg_addr_lookup2 (net w) = Some t →
  is_Some (address_cache (cl w) !! rank) →
  lookup_runs w rank (address_cache (cl w)) (cl_os (cl w)) t.
Proof.
  intros Ht [a Ha] c Eo Ea. unfold addr_of in Ht. rewrite Ha in Ht. simpl in Ht.
  unfold hvac_client_comm_lookup_addr, client_gets. unfold_st. rewrite Ea, Ha. simpl. rewrite Ht.
  unfold after_lookup. destruct c. simpl in *. by subst.
Qed.

Lemma lookup_cold (w : world W) rank a t os' fd :
  addr_of (cl w) rank = Some a → hg_addr_lookup2 (net w) a = Some t →
  address_cache (cl w) !! rank = None →
  scan_posts rank (cl_os (cl w)) = (os', fd) → fd ≠ -1 →
  lookup_runs w rank (<[rank := a]> (address_cache (cl w))) os' t.
Proof.
  intros Ha Ht Hn Hsc Hfd c Eo Ea. unfold addr_of in Ha. rewrite Hn in Ha.
  apply bind_Some in Ha as (file & Hf & Hl). unfold scan_posts in Hsc.
  destruct (os_open address_file O_RDWR (cl_os (cl w))) as [os1 fd1] eqn:Ho.
  destruct (Z.eqb_spec fd1 (-1)) as [|Hfd1]; simplify_eq.
  destruct (os_open_keeps _ _ _ _ _ (eq_refl : plain_flags O_RDWR = true) Ho) as (O1 & O2 & _).
  assert (Hc : content os1 address_file = content (cl_os (cl w)) address_file)
    by (unfold content; by rewrite O1, O2).
  unfold hvac_client_comm_lookup_addr, client_gets. erewrite bind_run by done. cbn [cl]. rewrite Ea, Hn.
  erewrite bind_run; [|unfold client_sys, zoom, run; simpl; rewrite Eo;
    unfold address_file in Ho; rewrite Ho; done].
  rewrite (proj2 (Z.eqb_neq fd (-1)) Hfd). erewrite bind_run by done.
  unfold set_cl. simpl. replace (cl_os (set_cl_os os1 c)) with os1 by (by destruct c).
  unfold address_file in Hc, Hf |- *. rewrite Hc, Hf. simpl. rewrite ?Hl.
  destruct (os_read fd (read_ahead E rank file) os1) as [os2 x] eqn:Hr.
  erewrite bind_run; [|unfold client_sys, zoom, run; simpl;
    replace (cl_os (set_cl_os os1 c)) with os1 by (by destruct c); rewrite Hr; done].
 unfold_st. simpl. rewrite Ht. unfold after_lookup.
  destruct c. simpl in *. by subst.
Qed.

(** Without a free descriptor the address file cannot be opened. *)
Lemma lookup_no_descriptor (w : world W) rank os' :
  address_cache (cl w) !! rank = None →
  scan_posts rank (cl_os (cl w)) = (os', -1) →
  ∀ c, cl_os c = cl_os (cl w) → address_cache c = address_cache (cl w) →
    hvac_client_comm_lookup_addr (getenv E) (read_ahead E) rank (World c (net w)) = Fault NullDeref.
Proof.
  intros Hn Hsc c Eo Ea. unfold scan_posts in Hsc.
  destruct (os_open address_file O_RDWR (cl_os (cl w))) as [os1 fd1] eqn:Ho.
  assert (fd1 = -1) as -> by (destruct (Z.eqb_spec fd1 (-1)); by simplify_eq).
  unfold hvac_client_comm_lookup_addr, client_gets. erewrite bind_run by done. cbn [cl]. rewrite Ea, Hn.
  by erewrite bind_run; [|unfold client_sys, zoom, run; simpl; rewrite Eo;
    unfold address_file in Ho; rewrite Ho; done].
Qed.

Lemma create_handle_run w t :
  fs_ok (net w) → fs_known (net w) t → hvac_comm_create_handle (Some t) w = Ret (w, tt).
Proof.
  intros Ho Hl. unfold hvac_comm_create_handle, assert_true. unfold_st.
  by rewrite (svc_create _ _ Ho Hl).
Qed.

Lemma free_addr_run w t :
  fs_ok (net w) → fs_known (net w) t → hvac_comm_free_addr (Some t) w = Ret (w, tt).
Proof.
  intros Ho Hl. unfold hvac_comm_free_addr, assert_true. unfold_st.
  by rewrite (svc_free _ _ Ho Hl).
Qed.

Lemma read_cb_run out w :
  fs_ok (net w) → hvac_read_cb out w = Ret (w, rpc_ret out).
Proof.
  intros Ho. assert (Hr : release_asserted w = Ret (w, tt)).
  { unfold release_asserted, assert_true. unfold_st. by rewrite (svc_release _ Ho). }
  unfold hvac_read_cb. by rewrite !(bind_run _ _ _ _ _ Hr).
Qed.

(** The read RPC, on a descriptor a server serves. *)
Lemma read_rpc_run w returns fd h t r d o count off :
  fs_ok (net w) → fs_known (net w) t → fs_view (net w) t r = Some (d, o) →
  fd_redir_map (cl w) !! fd = Some r → 0 < r < 2 ^ 31 →
  fd_state fd (fd_states (cl w)) = Some HVAC_FD_READY →
  hvac_client_comm_lookup_addr (getenv E) (read_ahead E) (to_int32 (to_uint32 h)) w = Ret (w, Some t) →
  0 ≤ count < 2 ^ 31 → -1 ≤ off < 2 ^ 63 →
  let at_ := if off =? -1 then o else off in
  let n := n_read d at_ count in
  ∃ n', hvac_client_comm_gen_read_rpc (getenv E) (read_ahead E) returns (to_uint32 h) fd true count off w
          = Ret (World (cl w) n', (n, slice d at_ n)) ∧
    extends (net w) n' ∧
    fs_view n' t r = Some (d, if off =? -1 then o + n else o) ∧
    others_same (net w) n' t r.
Proof.
  intros Ho Hl Hv Hr Hr0 Hst Hlk Hc Hoff at_ n.
  destruct (svc_read _ _ _ _ _ count off Ho Hl Hv ltac:(lia) Hc Hoff)
    as (n' & out & Hf & Hn & Hex & Hv' & Hos).
  exists n'. split_and!; [|done|done|done].
  unfold hvac_client_comm_gen_read_rpc.
  erewrite bind_run by done.
  assert (hvac_wait_fd_ready fd returns (fd_states (cl w)) = true) as ->.
  { unfold hvac_wait_fd_ready. by rewrite Hst. }
  simpl. erewrite bind_run by done. rewrite Hr. destruct (Z.eqb_spec r 0); [lia|].
  erewrite bind_run by exact Hlk. erewrite bind_run by done.
  erewrite bind_run by (by apply create_handle_run).
  pose proof (bulk_create_ok (to_uint64 count)) as Hb.
  destruct (hg_bulk_create (to_uint64 count)) as [rc bulk]. simpl in Hb, Hf. subst rc.
  erewrite bind_run by done.
  erewrite bind_run; [|unfold remote, zoom, run; rewrite Hf; done]. cbv iota.
  erewrite bind_run; [|apply free_addr_run; simpl; [by eapply ex_ok|by eapply (ex_known _ _ Hex)]].
  erewrite bind_run; [|apply read_cb_run; by eapply ex_ok].
  unfold set_net. unfold_st. by rewrite Hn.
Qed.

(** The close RPC: a served descriptor is closed at its server, any other
    only forgotten. *)
Lemma close_rpc_run_remote w fd h t r d o :
  fs_ok (net w) → fs_known (net w) t → fs_view (net w) t r = Some (d, o) →
  fd_redir_map (cl w) !! fd = Some r → 0 < r < 2 ^ 31 →
  hvac_client_comm_lookup_addr (getenv E) (read_ahead E) (to_int32 (to_uint32 h)) w = Ret (w, Some t) →
  ∃ n', hvac_client_comm_gen_close_rpc (getenv E) (read_ahead E) (to_uint32 h) fd w =
      Ret (World (set_fd_states (hvac_cleanup_fd_state fd (fd_states (cl w)))
                 (set_redir (delete fd (fd_redir_map (cl w))) (cl w))) n', tt) ∧
    extends (net w) n' ∧ fs_view n' t r = None ∧ others_same (net w) n' t r.
Proof.
  intros Ho Hl Hv Hr Hr0 Hlk.
  destruct (svc_close _ _ _ _ _ Ho Hl Hv ltac:(lia)) as (n' & rc & Hf & Hex & Hv' & Hos).
  exists n'. split_and!; [|done|done|done].
  unfold hvac_client_comm_gen_close_rpc.
  erewrite bind_run by exact Hlk.
  erewrite bind_run by (by apply create_handle_run).
  erewrite bind_run by done. rewrite Hr. destruct (Z.eqb_spec r 0); [lia|].
  erewrite bind_run; [|erewrite bind_run; [done|unfold remote, zoom, run; rewrite Hf; done]].
  destruct w as [[] nw]. unfold set_net, set_cl. simpl.
  erewrite bind_run by done.
  by apply (free_addr_run (World _ n')); [by eapply ex_ok|by eapply (ex_known _ _ Hex)].
Qed.

Lemma close_rpc_run_local w fd h t :
  fs_ok (net w) → fs_known (net w) t → default 0 (fd_redir_map (cl w) !! fd) = 0 →
  hvac_client_comm_lookup_addr (getenv E) (read_ahead E) (to_int32 (to_uint32 h)) w = Ret (w, Some t) →
  hvac_client_comm_gen_close_rpc (getenv E) (read_ahead E) (to_uint32 h) fd w =
    Ret (World (set_fd_states (hvac_cleanup_fd_state fd (fd_states (cl w))) (cl w)) (net w), tt).
Proof.
  intros Ho Hl Hr Hlk. unfold hvac_client_comm_gen_close_rpc.
  erewrite bind_run by exact Hlk.
  erewrite bind_run by (by apply create_handle_run).
  erewrite bind_run by done.
  erewrite bind_run; [|by destruct (fd_redir_map (cl w) !! fd) as [r|]; simpl in Hr; subst].
  destruct w as [[] nw]. unfold set_cl. simpl. erewrite bind_run by done.
  by apply (free_addr_run (World _ nw)).
Qed.

(** ** Keeping the relation *)

(** What the relation sees of a descriptor in the library's tables. *)
Record same_at (w w' : world W) (fd : Z) : Prop := SameAt {
  sa_map : fd_map (cl w') !! fd = fd_map (cl w) !! fd;
  sa_redir : default 0 (fd_redir_map (cl w') !! fd) = default 0 (fd_redir_map (cl w) !! fd);
  sa_state : fd_state fd (fd_states (cl w')) = fd_state fd (fd_states (cl w));
}.

Lemma extends_refl (n : W) : fs_ok n → extends n n.
Proof. by split. Qed.

Lemma extends_trans (n n' n'' : W) : extends n n' → extends n' n'' → extends n n''.
Proof.
  intros [A1 A2 A3 A4 A5] [B1 B2 B3 B4 B5]. split; [done|by auto|by auto| |by auto].
  intros t. by rewrite B4, A4.
Qed.

(** What it sees of the library's settings. *)
Record same_conf (w w' : world W) : Prop := SameConf {
  sc_cache : address_cache (cl w) ⊆ address_cache (cl w');
  sc_addr rank : addr_of (cl w') rank = addr_of (cl w) rank;
  sc_conf : cl_conf (cl w') = cl_conf (cl w);
  sc_net : extends (net w) (net w')
}.

Lemma same_conf_intro (w w' : world W) :
  px_paths (cl_os (cl w')) = px_paths (cl_os (cl w)) →
  px_data (cl_os (cl w')) = px_data (cl_os (cl w)) →
  address_cache (cl w') = address_cache (cl w) → cl_conf (cl w') = cl_conf (cl w) →
  extends (net w) (net w') → same_conf w w'.
Proof.
  intros E1 E2 E3 E4 Hn. split; [by rewrite E3| |done|done].
  intros rank. unfold addr_of, content. by rewrite E1, E2, E3.
Qed.

Lemma server_of_same w w' path : same_conf w w' → server_of w' path = server_of w path.
Proof.
  intros [_ Ha Hk Hn]. unfold server_of. rewrite Ha, Hk.
  destruct (addr_of (cl w) _); [|done]. simpl. by apply ex_lookup.
Qed.

Lemma is_remote_same w w' fd t r :
  same_conf w w' → same_at w w' fd → is_remote w' fd t r ↔ is_remote w fd t r.
Proof.
  intros Hc [Hm Hr Hs]. unfold is_remote. setoid_rewrite (server_of_same _ _ _ Hc).
  by rewrite Hm, Hr, Hs.
Qed.

Lemma is_local_same w w' fd : same_at w w' fd → is_local w fd → is_local w' fd.
Proof. intros [_ Hr _]. unfold is_local. by rewrite Hr. Qed.

Lemma fd_rel_same w w' p p' fd :
  same_conf w w' → same_at w w' fd →
  px_fds (cl_os (cl w')) !! fd = px_fds (cl_os (cl w)) !! fd →
  px_fds p' !! fd = px_fds p !! fd → px_data p' = px_data p →
  (∀ t r x, is_remote w fd t r → fs_view (net w) t r = Some x → fs_view (net w') t r = Some x) →
  fd_rel w p fd → fd_rel w' p' fd.
Proof.
  intros Hc Ha Ho Hp Hd Hv. unfold fd_rel. rewrite Ho, Hp, Hd.
  destruct (px_fds (cl_os (cl w)) !! fd), (px_fds p !! fd); try done.
  - intros [[-> Hl]|(Hi & Hm & Hr & t & r & d & Hrem & Hdat & Hvw)].
    + left. split; [done|by eapply is_local_same].
    + right. split_and!; auto. exists t, r, d. split_and!; auto.
      by rewrite (is_remote_same _ _ _ _ _ Hc Ha).
  - destruct Ha as [-> -> _]. done.
Qed.

Lemma is_remote_fun w fd t r t' r' : is_remote w fd t r → is_remote w fd t' r' → t = t' ∧ r = r'.
Proof. intros (p & ? & ? & _ & _ & ?) (p' & ? & ? & _ & _ & ?). simplify_eq. done. Qed.

Lemma remote_not_local w fd t r : is_remote w fd t r → is_local w fd → False.
Proof. unfold is_local. intros (p & ? & ? & ? & ?) ?. lia. Qed.

Lemma is_remote_view w p fd t r :
  fd_rel w p fd → is_remote w fd t r →
  ∃ o o' d, px_fds (cl_os (cl w)) !! fd = Some o ∧ px_fds p !! fd = Some o' ∧
    ofd_ino o = ofd_ino o' ∧ ofd_mode o = ofd_mode o' ∧ readable o' = true ∧
    px_data p !! ofd_ino o' = Some d ∧ fs_view (net w) t r = Some (d, ofd_off o').
Proof.
  unfold fd_rel. intros Hrel Hrem.
  destruct (px_fds (cl_os (cl w)) !! fd) as [o|], (px_fds p !! fd) as [o'|]; try done.
  - destruct Hrel as [[-> Hl]|(Hi & Hm & Hr & t' & r' & d & Hrem' & Hd & Hv)].
    + exfalso. by eapply remote_not_local.
    + destruct (is_remote_fun _ _ _ _ _ _ Hrem Hrem') as [<- <-]. exists o, o', d. eauto 10.
  - destruct Hrel as [Hn _], Hrem as (path & Hp & _). congruence.
Qed.

(** Changing what the relation does not look at. *)
Lemma sim_agree w w' p :
  cl_os (cl w') = cl_os (cl w) → fd_map (cl w') = fd_map (cl w) →
  fd_redir_map (cl w') = fd_redir_map (cl w) → fd_states (cl w') = fd_states (cl w) →
  address_cache (cl w') = address_cache (cl w) → cl_conf (cl w') = cl_conf (cl w) →
  net w' = net w → sim w p → sim w' p.
Proof.
  destruct w as [[] ?], w' as [[] ?]. simpl. intros -> -> -> -> -> -> -> [? ? ? ? ? ? ? [? ?] ? ? ? ?].
  split; first [done|by split].
Qed.

(** The server of a tracked descriptor, whose address is cached. *)
Lemma tracked_server (w : world W) p fd path :
  hash_ok E → sim w p → fd_map (cl w) !! fd = Some path →
  ∃ h t, host_of_path E path w = Ret (w, h) ∧
    hvac_client_comm_lookup_addr (getenv E) (read_ahead E) (to_int32 (to_uint32 h)) w = Ret (w, Some t) ∧
    server_of w path = Some t ∧ fs_known (net w) t.
Proof.
  intros Hh Hs Hp.
  destruct (path_server w path Hh (sim_addressed _ _ Hs)) as (h & t & Hrun & Hr & Hsrv & Hl).
  exists h, t. split_and!; try done. rewrite Hr. destruct w as [c n].
  etrans; [exact (lookup_cached _ _ _ Hsrv (sim_known _ _ Hs _ _ Hp) c eq_refl eq_refl)|].
  unfold after_lookup. by destruct c.
Qed.

Lemma sim_dom w p : sim w p → dom (px_fds (cl_os (cl w))) = dom (px_fds p).
Proof.
  intros Hs. apply set_eq. intros fd. rewrite !elem_of_dom.
  pose proof (sim_fds _ _ Hs fd) as Hf. unfold fd_rel in Hf.
  destruct (_ !! fd), (px_fds p !! fd); try done; split; by intros [? ?] || eauto.
Qed.

Lemma is_remote_known (w : world W) p fd t r : sim w p → is_remote w fd t r → fs_known (net w) t.
Proof.
  intros Hs (path & Hp & _ & _ & _ & Hsrv).
  destruct (sim_addressed _ _ Hs) as [Hc Hf].
  destruct (Hf (rank_of (cl_conf (cl w)) path)) as (a & t' & Ha & Ht & Hl);
    [apply Z.mod_pos_bound; lia|].
  unfold server_of in Hsrv. rewrite Ha in Hsrv. simpl in Hsrv. by simplify_eq.
Qed.

(** With every address known the reference is the plain process. *)
Lemma cold_op_warm k op known p :
  0 < g_hvac_server_count k →
  (∀ rank, 0 ≤ rank < g_hvac_server_count k → rank ∈ known) →
  cold_op k op (known, p) = Some (known, fst (plain_op op p), snd (plain_op op p)).
Proof.
  intros Hc Hk. unfold cold_op. destruct (plain_op op p) as [p' a]. destruct op; try done.
  destruct (fst a =? -1); [done|]. destruct (eligible E k path flags) as [full|]; [|done].
  unfold cold_lookup. rewrite bool_decide_true; [done|]. apply Hk, Z.mod_pos_bound, Hc.
Qed.

(** The settings part of the relation after a step that only extends the
    servers. *)
Lemma sim_steps w w' p p' :
  sim w p → same_conf w w' →
  posix_ok (cl_os (cl w')) → posix_ok p' →
  px_paths (cl_os (cl w')) = px_paths (cl_os (cl w)) → px_data (cl_os (cl w')) = px_data (cl_os (cl w)) →
  px_dirs (cl_os (cl w')) = px_dirs (cl_os (cl w)) → px_nofile (cl_os (cl w')) = px_nofile (cl_os (cl w)) →
  px_paths p' = px_paths p → px_data p' = px_data p → px_dirs p' = px_dirs p →
  px_nofile p' = px_nofile p → states_ok (fd_states (cl w')) →
  (∀ path full d a, canonical E path = Some full → content p path = Some d →
     fs_live (net w') a → fs_file (net w') a full = Some d) →
  (∀ fd path, fd_map (cl w') !! fd = Some path → fd_map (cl w) !! fd = Some path ∨
     is_Some (address_cache (cl w') !! rank_of (cl_conf (cl w)) path)) →
  (∀ fd, fd_rel w' p' fd) →
  (∀ fd fd' t r, is_remote w' fd t r → is_remote w' fd' t r → fd = fd') →
  sim w' p'.
Proof.
  intros Hs [Hc Ha Hk Hn] Hok Hok' E1 E2 E3 E4 F1 F2 F3 F4 Hst Hsh Hkn Hf Hi.
  destruct Hs as [_ _ (G1 & G2 & G3 & G4) Hnf _ Hnet _ [Hcnt Hw] Hkn' Hon _ _].
  split; auto.
  - split_and!; congruence.
  - by rewrite F4.
  - by eapply ex_ok.
  - intros path full d a Hca Hco. apply Hsh with path; [done|].
    revert Hco. unfold content. by rewrite F1, F2.
  - split; rewrite Hk; [done|]. intros rank Hr.
    destruct (Hw _ Hr) as (a & t & ? & ? & ?). exists a, t. rewrite Ha.
    split_and!; [done| |]; [by rewrite (ex_lookup _ _ Hn)|by eapply ex_known].
  - rewrite Hk. intros fd path [Hp|Hp]%Hkn; [|done].
    destruct (Hkn' _ _ Hp) as [a Hx]. exists a. by eapply lookup_weaken.
  - by rewrite Hk.
Qed.

(** The parts of a wrapper that touch nothing the relation sees. *)
Lemma map_or_fail_run f (w : world W) :
  env_ok → f ∈ ["open"; "close"; "read"; "pread"] →
  ∃ mp, MAP_OR_FAIL E f w = Ret (set_cl (set_real_mapped mp (cl w)) w, tt).
Proof.
  intros He Hf. unfold MAP_OR_FAIL, client_gets. erewrite bind_run by done.
  case_bool_decide.
  - exists (real_mapped (cl w)). by destruct w as [[] ?].
  - rewrite (env_dlsym He f Hf). by eexists.
Qed.

Lemma redirect_on (w : world W) p : sim w p → redirect_disabled w = Ret (w, false).
Proof.
  intros Hs. destruct (sim_on _ _ Hs) as [H1 H2].
  unfold redirect_disabled, client_gets. unfold_st. by rewrite H1, H2.
Qed.

Lemma sim_mapped mp (w : world W) p : sim w p → sim (set_cl (set_real_mapped mp (cl w)) w) p.
Proof. apply sim_agree; destruct w as [[] ?]; done. Qed.

Lemma count_run k s f (w : world W) :
  count_call k s f w = Ret (set_cl (set_stats (bump k (elapsed s f) (cl_stats (cl w))) (cl w)) w, tt).
Proof. done. Qed.

Lemma sim_counted k d (w : world W) p :
  sim w p → sim (set_cl (set_stats (bump k d (cl_stats (cl w))) (cl w)) w) p.
Proof. apply sim_agree; destruct w as [[] ?]; done. Qed.

Lemma same_conf_refl w : fs_ok (net w) → same_conf w w.
Proof. intros. by apply same_conf_intro; [..|split]. Qed.

Lemma same_conf_trans w w' w'' : same_conf w w' → same_conf w' w'' → same_conf w w''.
Proof.
  intros [A1 A2 A3 A4] [B1 B2 B3 B4].
  split; [by etrans| |congruence|by eapply extends_trans]. intros rank. by rewrite B2.
Qed.

(** ** What a call leaves alone *)

(** The calls that are no opens leave the known ranks and the settings. *)
Definition kept (w w' : world W) : Prop :=
  address_cache (cl w') = address_cache (cl w) ∧ cl_conf (cl w') = cl_conf (cl w).

Lemma kept_trans (w w' w'' : world W) : kept w w' → kept w' w'' → kept w w''.
Proof. intros [? ?] [? ?]. split; congruence. Qed.

Lemma kept_mapped mp (w : world W) : kept w (set_cl (set_real_mapped mp (cl w)) w).
Proof. by destruct w as [[] ?]. Qed.

(** Nobody uses a server's descriptor. *)
Definition unowned (w : world W) (t : hg_addr) (r : Z) : Prop := ∀ g, ¬ is_remote w g t r.

(** The tables' entries for a descriptor, the status object included. *)
Record entry_same (w w' : world W) (g : Z) : Prop := {
  es_at : same_at w w' g;
  es_status : fd_state_map (fd_states (cl w')) !! g = fd_state_map (fd_states (cl w)) !! g
}.

(** What a step about the descriptors [X] leaves alone: the entries of all
    others, and the servers' descriptors nobody uses. It makes nothing a served
    descriptor but, under a server's descriptor [N] gives, one of [X]. *)
Record frame (X : Z → Prop) (N : hg_addr → Z → Prop) (w w' : world W) : Prop := Frame {
  fr_conf : same_conf w w';
  fr_entry g : ¬ X g → entry_same w w' g;
  fr_remote g t r : is_remote w' g t r → is_remote w g t r ∨ N t r;
  fr_views t r x : unowned w t r → ¬ N t r → fs_view (net w) t r = Some x →
    fs_view (net w') t r = Some x
}.

Lemma frame_unowned X N w w' t r : frame X N w w' → ¬ N t r → unowned w t r → unowned w' t r.
Proof. intros Hf Hn Hu g [Hg|]%(fr_remote _ _ _ _ Hf); [by eapply Hu|done]. Qed.

Lemma frame_trans X N w w' w'' : frame X N w w' → frame X N w' w'' → frame X N w w''.
Proof.
  intros F1 F2. split.
  - eapply same_conf_trans; [apply F1|apply F2].
  - intros g Hg. destruct (fr_entry _ _ _ _ F1 g Hg) as [[A1 A2 A3] A4].
    destruct (fr_entry _ _ _ _ F2 g Hg) as [[B1 B2 B3] B4]. split; [split|]; congruence.
  - intros g t r [Hg|]%(fr_remote _ _ _ _ F2); [|by right]. by apply (fr_remote _ _ _ _ F1) in Hg.
  - intros t r x Hu Hn Hx. apply (fr_views _ _ _ _ F2), (fr_views _ _ _ _ F1); try done.
    by eapply frame_unowned.
Qed.

Lemma frame_weaken (X Y : Z → Prop) N w w' : (∀ g, X g → Y g) → frame X N w w' → frame Y N w w'.
Proof. intros Hxy [A1 A2 A3 A4]. split; auto. Qed.

(** A step that leaves all the tables alone; entries of 0 in the redirection
    table mean nothing. *)
Abbreviation quiet := (frame (λ _, False) (λ _ _, False)).

Lemma quiet_intro (w w' : world W) :
  px_paths (cl_os (cl w')) = px_paths (cl_os (cl w)) →
  px_data (cl_os (cl w')) = px_data (cl_os (cl w)) →
  kept w w' → fd_map (cl w') = fd_map (cl w) → fd_states (cl w') = fd_states (cl w) →
  (∀ g, default 0 (fd_redir_map (cl w') !! g) = default 0 (fd_redir_map (cl w) !! g)) →
  extends (net w) (net w') →
  (∀ t r x, unowned w t r → fs_view (net w) t r = Some x → fs_view (net w') t r = Some x) →
  quiet w w'.
Proof.
  intros E1 E2 [E3 E4] E5 E6 E7 Hn Hv.
  assert (Hc : same_conf w w') by (by apply same_conf_intro).
  assert (Ha : ∀ g, same_at w w' g) by (intros g; split; [by rewrite E5|done|by rewrite E6]).
  split; [done| | |auto].
  - intros g _. split; [done|by rewrite E6].
  - intros g t r. rewrite (is_remote_same _ _ _ _ _ Hc (Ha g)). by left.
Qed.

(** A call that only reads. *)
Definition still (w w' : world W) : Prop := kept w w' ∧ quiet w w'.

Lemma still_trans w w' w'' : still w w' → still w' w'' → still w w''.
Proof. intros [A1 A2] [B1 B2]. split; [by eapply kept_trans|by eapply frame_trans]. Qed.

Lemma still_intro (w w' : world W) :
  px_paths (cl_os (cl w')) = px_paths (cl_os (cl w)) →
  px_data (cl_os (cl w')) = px_data (cl_os (cl w)) →
  kept w w' → fd_map (cl w') = fd_map (cl w) → fd_states (cl w') = fd_states (cl w) →
  (∀ g, default 0 (fd_redir_map (cl w') !! g) = default 0 (fd_redir_map (cl w) !! g)) →
  extends (net w) (net w') →
  (∀ t r x, unowned w t r → fs_view (net w) t r = Some x → fs_view (net w') t r = Some x) →
  still w w'.
Proof. intros. split; [done|by apply quiet_intro]. Qed.

(** A step of the client alone. *)
Lemma still_client (w w' : world W) :
  fs_ok (net w) →
  px_paths (cl_os (cl w')) = px_paths (cl_os (cl w)) →
  px_data (cl_os (cl w')) = px_data (cl_os (cl w)) →
  kept w w' → fd_map (cl w') = fd_map (cl w) → fd_states (cl w') = fd_states (cl w) →
  (∀ g, default 0 (fd_redir_map (cl w') !! g) = default 0 (fd_redir_map (cl w) !! g)) →
  net w' = net w → still w w'.
Proof.
  intros Ho E1 E2 Hk E5 E6 E7 En. apply still_intro; try done; rewrite En; [|done].
  by apply extends_refl.
Qed.

Lemma still_refl (w : world W) : fs_ok (net w) → still w w.
Proof. intros. by apply still_client. Qed.

Lemma still_mapped mp (w : world W) :
  fs_ok (net w) → still w (set_cl (set_real_mapped mp (cl w)) w).
Proof. intros Ho. apply still_client; try (by destruct w as [[] ?]). Qed.

(** A served read. *)
Lemma still_served (w : world W) p n' fd t r :
  sim w p → is_remote w fd t r → extends (net w) n' → others_same (net w) n' t r →
  still w (World (cl w) n').
Proof.
  intros Hs Hrem Hex Hos. apply still_intro; try done.
  intros t' r' x Hu Hx. simpl. rewrite Hos; [done|]. intros [= -> ->]. by apply (Hu fd).
Qed.

(** A step of the client that changes its entry for one descriptor. *)
Lemma sim_entry (w w' : world W) p fd :
  sim w p → net w' = net w → cl_os (cl w') = cl_os (cl w) → kept w w' →
  states_ok (fd_states (cl w')) → (∀ g, g ≠ fd → same_at w w' g) →
  (∀ path, fd_map (cl w') !! fd = Some path →
     is_Some (address_cache (cl w) !! rank_of (cl_conf (cl w)) path)) →
  fd_rel w' p fd →
  (∀ g t r, g ≠ fd → is_remote w' fd t r → ¬ is_remote w g t r) →
  sim w' p.
Proof.
  intros Hs En Eo [Ea Ek] Hst Ha Hkn Hfd Hinj.
  assert (Hc : same_conf w w').
  { apply same_conf_intro; rewrite ?Eo, ?En; try done. apply extends_refl, (sim_net _ _ Hs). }
  eapply (sim_steps w w' p p); try done; rewrite ?Eo; try done.
  - apply (sim_os _ _ Hs).
  - apply (sim_plain _ _ Hs).
  - rewrite En. apply (sim_shared _ _ Hs).
  - rewrite Ea. intros g q Hq. destruct (decide (g = fd)) as [->|Hg]; [right; by apply Hkn|].
    left. by rewrite <-(sa_map _ _ _ (Ha _ Hg)).
  - intros g. destruct (decide (g = fd)) as [->|Hg]; [done|].
    eapply (fd_rel_same w w' p p), (sim_fds _ _ Hs); rewrite ?Eo, ?En; auto.
  - intros g g' t r Hg Hg'.
    destruct (decide (g = fd)) as [->|Hne], (decide (g' = fd)) as [->|Hne'].
    + done.
    + rewrite (is_remote_same _ _ _ _ _ Hc (Ha _ Hne')) in Hg'. by exfalso; eapply (Hinj g').
    + rewrite (is_remote_same _ _ _ _ _ Hc (Ha _ Hne)) in Hg. by exfalso; eapply (Hinj g).
    + rewrite (is_remote_same _ _ _ _ _ Hc (Ha _ Hne)) in Hg.
      rewrite (is_remote_same _ _ _ _ _ Hc (Ha _ Hne')) in Hg'. by eapply (sim_inj _ _ Hs).
Qed.

(** A step of the servers that leaves every descriptor in use as it is. *)
Lemma sim_served (w : world W) p n' :
  sim w p → extends (net w) n' →
  (∀ g t r x, is_remote w g t r → fs_view (net w) t r = Some x → fs_view n' t r = Some x) →
  sim (World (cl w) n') p.
Proof.
  intros Hs Hex Hv. assert (Hc : same_conf w (World (cl w) n')) by (by split).
  assert (Ha : ∀ g, same_at w (World (cl w) n') g) by (intros g; by split).
  eapply (sim_steps w _ p p); try done.
  - apply (sim_os _ _ Hs).
  - apply (sim_plain _ _ Hs).
  - apply (sim_states _ _ Hs).
  - intros q full d a Hq Hd Hl. apply (ex_file _ _ Hex), (sim_shared _ _ Hs) with q; try done.
    by apply (ex_live _ _ Hex).
  - intros g q Hq. by left.
  - intros g. eapply (fd_rel_same w _ p p), (sim_fds _ _ Hs); try done. by apply Hv.
  - intros g g' t r. rewrite !(is_remote_same _ _ _ _ _ Hc (Ha _)). apply (sim_inj _ _ Hs).
Qed.

(** The two processes read a descriptor the library leaves local alike. *)
Lemma sim_local_fd (w : world W) p fd :
  sim w p → is_local w fd →
  px_fds (cl_os (cl w)) !! fd = px_fds p !! fd ∧ px_data (cl_os (cl w)) = px_data p.
Proof.
  intros Hs Hl. split; [|apply (sim_files _ _ Hs)].
  pose proof (sim_fds _ _ Hs fd) as Hr. unfold fd_rel in Hr.
  destruct (px_fds (cl_os (cl w)) !! fd), (px_fds p !! fd); try done.
  destruct Hr as [[-> _]|(_ & _ & _ & t & r & d & Hrem & _)]; [done|].
  exfalso. by eapply remote_not_local.
Qed.

(** Reading a local descriptor does the same to both processes. *)
Lemma sim_local_read (w : world W) p fd count p' a :
  sim w p → is_local w fd → os_read fd count p = (p', a) →
  ∃ os', os_read fd count (cl_os (cl w)) = (os', a) ∧
    sim (set_cl (set_cl_os os' (cl w)) w) p'.
Proof.
  intros Hs Hl Hp. destruct (sim_local_fd _ _ _ Hs Hl) as [Hfd Hdat].
  pose proof (sim_os _ _ Hs) as Hok. pose proof (sim_plain _ _ Hs) as Hokp.
  destruct (os_read fd count (cl_os (cl w))) as [os' a'] eqn:Ho. exists os'.
  destruct a as [n b], a' as [n' b'].
  destruct (os_read_spec _ _ _ _ _ _ Hok Ho) as (_ & A3 & A4 & A1 & A2 & Hok1 & _).
  destruct (os_read_spec _ _ _ _ _ _ Hokp Hp) as (_ & B3 & B4 & B1 & B2 & Hok2 & _).
  assert ((n', b') = (n, b) ∧ ∃ x, px_fds os' = (if x is Some o then <[fd := o]> (px_fds (cl_os (cl w)))
        else px_fds (cl_os (cl w))) ∧
      px_fds p' = (if x is Some o then <[fd := o]> (px_fds p) else px_fds p) ∧
      (is_Some x → is_Some (px_fds p !! fd))) as (-> & x & X1 & X2 & X3).
  { revert Ho Hp. unfold os_read, os_pread. rewrite Hfd, Hdat.
    destruct (px_fds p !! fd) as [o|] eqn:Eo;
      [|intros [= <- <- <-] [= <- <- <-]; split; [done|by exists None]].
    destruct (if px_data p !! ofd_ino o is Some d then _ else _) as [m c].
    destruct (m =? -1); intros [= <- <- <-] [= <- <- <-].
    - split; [done|by exists None].
    - split; [done|]. by eexists (Some _). }
  split; [done|].
  assert (Hc : same_conf w (set_cl (set_cl_os os' (cl w)) w)).
  { apply same_conf_intro; [by destruct w as [[] ?]..|]. split; auto. apply (sim_net _ _ Hs). }
  assert (Ha : ∀ g, same_at w (set_cl (set_cl_os os' (cl w)) w) g).
  { intros g. split; by destruct w as [[] ?]. }
  eapply (sim_steps w); try done; try (destruct w as [[] ?]; done).
  - pose proof (sim_states _ _ Hs). by destruct w as [[] ?].
  - intros q full d a. apply (sim_shared _ _ Hs).
  - intros g q Hq. left. by destruct w as [[] ?].
  - intros g. destruct (decide (g = fd)) as [->|Hg].
    + pose proof (sim_fds _ _ Hs fd) as Hr. pose proof (is_local_same _ _ _ (Ha fd) Hl) as Hl'.
      destruct x as [o|].
      * unfold fd_rel. rewrite X2.
        replace (px_fds (cl_os (cl (set_cl (set_cl_os os' (cl w)) w)))) with (px_fds os')
          by (by destruct w as [[] ?]). rewrite X1, !lookup_insert_eq. by left.
      * eapply (fd_rel_same w _ p p'); try done; [by destruct w as [[] ?]; simpl in *; rewrite X1|
          by rewrite X2].
    + eapply (fd_rel_same w _ p p'); try done;
        [destruct w as [[] ?]; simpl in *; rewrite X1|rewrite X2|apply (sim_fds _ _ Hs)];
        by destruct x; rewrite ?lookup_insert_ne.
  - intros g g' t r. rewrite !(is_remote_same _ _ _ _ _ Hc (Ha _)). apply (sim_inj _ _ Hs).
Qed.

(** Every descriptor is local or remote. *)
Lemma sim_local_or_remote (w : world W) p fd :
  sim w p → is_local w fd ∨ ∃ t r, is_remote w fd t r.
Proof.
  intros Hs. pose proof (sim_fds _ _ Hs fd) as Hr. unfold fd_rel in Hr.
  destruct (px_fds (cl_os (cl w)) !! fd), (px_fds p !! fd); try done.
  - destruct Hr as [[_ Hl]|(_ & _ & _ & t & r & d & Hrem & _)]; eauto.
  - left. by destruct Hr.
Qed.

End sim.

#[global] Arguments hvac_op {H W T} E op t.
#[global] Arguments address_file : clear implicits.
#[global] Arguments rank_of : clear implicits.
#[global] Arguments addr_of : clear implicits.
#[global] Arguments server_of {H W T} E w path.
#[global] Arguments is_remote {H W T} E w fd t r.
#[global] Arguments addressed {H W T S} E w.
#[global] Arguments fd_rel {H W T S} E w p fd.
#[global] Arguments sim {H W T S} E w p.
#[global] Arguments env_ok : clear implicits.
#[global] Arguments hvac_run {H W T S} E es.
#[global] Arguments scan_posts : clear implicits.
#[global] Arguments cold_lookup : clear implicits.
#[global] Arguments cold_lookup : simpl never.
#[global] Arguments cold_op : clear implicits.
#[global] Arguments cold_run {H W T S} E k es s.
#[global] Arguments lookup_runs {H W T} E w rank ac os t.
#[global] Arguments same_conf {H W T S} E w w'.
#[global] Arguments kept {W} w w'.
#[global] Arguments unowned {H W T} E w t r.
#[global] Arguments still {H W T S} E w w'.
#[global] Arguments frame {H W T S} E X N w w'.
#[global] Abbreviation quiet E := (frame E (λ _, False) (λ _ _, False)).
