(* ===== verification/ClientInv.v ===== *)
(** * The invariant of the client's tables

    Which entries [fd_map], [fd_redir_map] and the states of the descriptors
    can hold between two intercepted calls, whatever files the application
    opens, whatever the network and the servers answer: the calls of
    [Wrappers.v] keep [tables_ok]. *)

From S2P Require Import Prelude CText Posix Wire AddrFile FdState Comm Stats.
From S2P Require Import ClientComm ClientCommProps Client Wrappers ClientProps Service Sim.

Local Open Scope Z_scope.

(** What a program reading [ret_status] as an int32_t relies on. *)
Class TypedReplies {H : Mercury} {W : Type} (T : Transport H W) : Prop :=
  open_reply_typed : ∀ a inp (n n' : W) out,
    forward_open a inp n = (n', Reply out) → - 2 ^ 31 ≤ ret_status out < 2 ^ 31.

(** ** The invariant *)

(** A descriptor's row through the three tables: unknown; or opened remotely,
    with a positive int as the server's descriptor; or refused by its server.
    A 0 in [fd_redir_map] is what operator[] leaves. *)
Definition row_ok (path : option string) (redir : option Z) (st : option hvac_fd_state) : Prop :=
  let none := redir = None ∨ redir = Some 0 in
  match path with
  | None => st = None ∧ none
  | Some _ => st = Some HVAC_FD_READY ∧ (∃ r, redir = Some r ∧ 0 < r < 2 ^ 31) ∨
              st = Some HVAC_FD_ERROR ∧ none
  end.

Record tables_ok (c : client) : Prop := {
  to_states : states_ok (fd_states c);
  to_rows fd : row_ok (fd_map c !! fd) (fd_redir_map c !! fd) (fd_state fd (fd_states c));
  to_open fd : is_Some (fd_map c !! fd) → is_Some (px_fds (cl_os c) !! fd);
  to_fds fd : is_Some (px_fds (cl_os c) !! fd) → 0 ≤ fd < 2 ^ 31;
  to_nofile : px_nofile (cl_os c) ≤ 2 ^ 31;
  to_ranks rank : is_Some (address_cache c !! rank) → - 2 ^ 31 ≤ rank < 2 ^ 31;
  to_off : g_disable_redirect (cl_conf c) || tl_disable_redirect (cl_conf c) = true →
           fd_map c = ∅
}.

(** ** Computations that keep a relation *)

Section keeps.
Context {W : Type} (R : client → client → Prop) `{!PreOrder R}.

Definition keeps {A} (m : St (world W) A) : Prop :=
  ∀ w w' a, m w = Ret (w', a) → R (cl w) (cl w').

Lemma keeps_bind {A B} (m : St (world W) A) (f : A → St (world W) B) :
  keeps m → (∀ a, keeps (f a)) → keeps (m ≫= f).
Proof.
  intros Hm Hf w w' b Hr. bind_in Hr w1 a E. etrans; [by eapply Hm|by eapply Hf].
Qed.

Lemma keeps_mret {A} (a : A) : keeps (mret a).
Proof. intros w w' b Hr. by apply mret_Ret in Hr as [-> _]. Qed.

Lemma keeps_fail {A} f : keeps (A:=A) (fail f).
Proof. by intros w w' a Hr. Qed.

Lemma keeps_assert b : keeps (assert_true b).
Proof. intros w w' a Hr. by apply assert_Ret in Hr as [_ ->]. Qed.

Lemma keeps_gets {A} (f : world W → A) : keeps (gets f).
Proof. intros w w' a Hr. by unfold gets in Hr; simplify_eq. Qed.

Lemma keeps_upd f : (∀ c, R c (f c)) → keeps (upd f).
Proof. intros Hf w w' u Hr. apply upd_Ret in Hr as ->. apply Hf. Qed.

Lemma keeps_remote {A} (f : W → W * A) : keeps (remote f).
Proof. intros w w' a Hr. apply remote_Ret in Hr as [-> _]. done. Qed.

Lemma keeps_sys {A} (f : posix → posix * A) :
  (∀ c p a, f (cl_os c) = (p, a) → R c (set_cl_os p c)) → keeps (client_sys f).
Proof.
  intros Hf w w' a. unfold client_sys, zoom, run. destruct (f _) as [p x] eqn:E.
  intros [= <- <-]. by eapply Hf.
Qed.

End keeps.

(** ** What calls on one descriptor leave of the others' rows *)

(** The descriptors, limits, settings and ranks. *)
Record grows (c c' : client) : Prop := {
  gr_fds fd : is_Some (px_fds (cl_os c) !! fd) → is_Some (px_fds (cl_os c') !! fd);
  gr_range : px_nofile (cl_os c) ≤ 2 ^ 31 →
    (∀ fd, is_Some (px_fds (cl_os c) !! fd) → 0 ≤ fd < 2 ^ 31) →
    ∀ fd, is_Some (px_fds (cl_os c') !! fd) → 0 ≤ fd < 2 ^ 31;
  gr_conf : px_nofile (cl_os c') = px_nofile (cl_os c) ∧ cl_conf c' = cl_conf c;
  gr_ranks : (∀ rank, is_Some (address_cache c !! rank) → - 2 ^ 31 ≤ rank < 2 ^ 31) →
    ∀ rank, is_Some (address_cache c' !! rank) → - 2 ^ 31 ≤ rank < 2 ^ 31
}.

Global Instance grows_preorder : PreOrder grows.
Proof.
  split; [by intros c; split|]. intros c1 c2 c3 [H1 H2 [H3 H3'] H4] [H5 H6 [H7 H7'] H8].
  split; try (split; congruence); auto. intros Hn Hf. apply H6; [congruence|auto].
Qed.

(** Nothing of the tables, except a 0 where there was nothing. *)
Record calm (c c' : client) : Prop := {
  cm_grows : grows c c';
  cm_map : fd_map c' = fd_map c;
  cm_states : fd_states c' = fd_states c;
  cm_redir fd : fd_redir_map c' !! fd = fd_redir_map c !! fd ∨
                fd_redir_map c !! fd = None ∧ fd_redir_map c' !! fd = Some 0
}.

Global Instance calm_preorder : PreOrder calm.
Proof.
  split; [intros c; split; auto; done|].
  intros c1 c2 c3 [H1 H2 H3 H4] [H5 H6 H7 H8]. split; [by etrans|congruence..|].
  intros fd. destruct (H4 fd) as [E|[? E]], (H8 fd) as [E'|[? E']]; rewrite ?E', ?E; auto;
    try (right; split; congruence).
Qed.

Lemma calm_tables c c' : calm c c' → tables_ok c → tables_ok c'.
Proof.
  intros [[Hf Hrg [Hn Hco] Hrk] Hm Hs Hr] [Ts Tr To Tf Tn Tk Toff]. split.
  - by rewrite Hs.
  - intros fd. specialize (Tr fd). rewrite Hm, Hs. unfold row_ok in *.
    destruct (Hr fd) as [->|[E ->]]; [done|]. rewrite E in Tr.
    destruct (fd_map c !! fd); [|naive_solver].
    destruct Tr as [[_ (r & ? & _)]|[? _]]; [done|auto].
  - rewrite Hm. eauto.
  - by apply Hrg.
  - by rewrite Hn.
  - by apply Hrk.
  - by rewrite Hco, Hm.
Qed.

(** ** The primitives *)

Lemma grows_fds p c :
  px_nofile p = px_nofile (cl_os c) → dom (px_fds p) = dom (px_fds (cl_os c)) →
  grows c (set_cl_os p c).
Proof.
  intros Hn Hd. assert (∀ fd, is_Some (px_fds p !! fd) ↔ is_Some (px_fds (cl_os c) !! fd)) as Hiff.
  { intros fd. by rewrite <-!elem_of_dom, Hd. }
  destruct c as [os m r f a k g s t u]. simpl in *. split; simpl; try done.
  - intros fd ?. by apply Hiff.
  - intros _ Hr fd ?. by apply Hr, Hiff.
Qed.

Lemma grows_open path flags p fd c :
  os_open path flags (cl_os c) = (p, fd) → grows c (set_cl_os p c).
Proof.
  intros E. destruct (os_open_fds _ _ _ _ _ E) as [Hn [[_ Hf]|(Hfd & Hfree & o & Hf)]].
  - apply grows_fds; [done|]. by rewrite Hf.
  - destruct c as [os m r f a k g s t u]. simpl in *. split; simpl; rewrite ?Hf; try done.
    + intros fd' Hs. rewrite lookup_insert. by case_decide.
    + intros Hnf Hr fd'. rewrite lookup_insert_is_Some. intros [<-|[_ ?]]; [lia|by apply Hr].
Qed.

Lemma calm_os p c : grows c (set_cl_os p c) → calm c (set_cl_os p c).
Proof. intros Hg. split; [done|..]; destruct c; simpl; auto. Qed.

Lemma read_calm_os fd count c p x : os_read fd count (cl_os c) = (p, x) → calm c (set_cl_os p c).
Proof. intros Ho. apply calm_os. destruct (os_read_fds _ _ _ _ _ Ho). by apply grows_fds. Qed.

Lemma calm_other c c' :
  cl_os c' = cl_os c → fd_map c' = fd_map c → fd_redir_map c' = fd_redir_map c →
  fd_states c' = fd_states c → address_cache c' = address_cache c → cl_conf c' = cl_conf c →
  calm c c'.
Proof.
  intros H1 H2 H3 H4 H5 H6. split; try done; [|rewrite H3; auto].
  split; rewrite ?H1, ?H5, ?H6; done.
Qed.

Lemma grows_other c c' :
  cl_os c' = cl_os c → address_cache c' = address_cache c → cl_conf c' = cl_conf c → grows c c'.
Proof. intros H1 H2 H3. split; rewrite ?H1, ?H2, ?H3; done. Qed.

Lemma calm_cache rank a c :
  - 2 ^ 31 ≤ rank < 2 ^ 31 → calm c (set_address_cache (<[rank := a]> (address_cache c)) c).
Proof.
  intros Hr. destruct c as [os m r f ac k g s t u]. split; try done; simpl; [|auto].
  split; try done. simpl. intros Hrk rank'. rewrite lookup_insert_is_Some.
  intros [<-|[_ ?]]; [done|by apply Hrk].
Qed.

Section calls.
Context {H : Mercury} {W : Type} {T : Transport H W} {HT : TypedReplies T}.
Context (E : environment).

Ltac destruct_client := match goal with c : client |- _ => by destruct c end.

(** [keeps calm], by the structure of the program. *)
Ltac calm_tac :=
  repeat first
    [ match goal with Hk : _ |- keeps _ _ => simple apply Hk end
    | lazymatch goal with
      | |- keeps _ (_ ≫= _) => apply keeps_bind; [typeclasses eauto| |intros ?]
      | |- keeps _ (mret _) => apply keeps_mret; typeclasses eauto
      | |- keeps _ (fail _) => apply keeps_fail
      | |- keeps _ (assert_true _) => apply keeps_assert; typeclasses eauto
      | |- keeps _ (gets _) => apply keeps_gets; typeclasses eauto
      | |- keeps _ (client_gets _) => apply keeps_gets; typeclasses eauto
      | |- keeps _ (remote _) => apply keeps_remote; typeclasses eauto
      | |- keeps _ (match ?x with _ => _ end) => destruct x
      | |- keeps calm (upd _) =>
          apply keeps_upd; intros ?; first [by apply calm_cache | by apply calm_other; destruct_client]
      | |- keeps grows (upd _) => apply keeps_upd; intros ?; by apply grows_other; destruct_client
      end ].

Lemma lookup_calm rank :
  - 2 ^ 31 ≤ rank < 2 ^ 31 → keeps (W:=W) calm (hvac_client_comm_lookup_addr (getenv E) (read_ahead E) rank).
Proof.
  intros Hr. unfold hvac_client_comm_lookup_addr. calm_tac.
  - apply keeps_sys. intros c p fd Ho. by eapply calm_os, grows_open.
  - apply keeps_sys, read_calm_os.
Qed.

Lemma create_calm a : keeps (W:=W) calm (hvac_comm_create_handle a).
Proof. unfold hvac_comm_create_handle. calm_tac. Qed.

Lemma free_calm a : keeps (W:=W) calm (hvac_comm_free_addr a).
Proof. unfold hvac_comm_free_addr. calm_tac. Qed.

Lemma read_rpc_calm returns svr_hash fd buf count off :
  keeps (W:=W) calm (hvac_client_comm_gen_read_rpc (getenv E) (read_ahead E) returns svr_hash fd buf count off).
Proof.
  pose proof (lookup_calm _ (to_int32_range svr_hash)).
  pose proof create_calm. pose proof free_calm.
  unfold hvac_client_comm_gen_read_rpc, hvac_read_cb, release_asserted. calm_tac; auto.
Qed.

Lemma host_calm fd : keeps (W:=W) calm (host_of_fd E fd).
Proof. unfold host_of_fd, host_of_path. calm_tac. Qed.

Lemma index_redir_calm fd : keeps (W:=W) calm (index_redir fd).
Proof.
  intros w w' a. unfold index_redir, client_gets. unfold_st.
  destruct (fd_redir_map (cl w) !! fd) eqn:Er; intros [= <- <-]; [done|].
  destruct w as [[os m r f ac k g s t u] n]. simpl in *. split; simpl; try done.
  intros fd'. destruct (decide (fd = fd')) as [->|].
  - right. by rewrite lookup_insert_eq.
  - left. by rewrite lookup_insert_ne.
Qed.

Lemma map_calm func : keeps (W:=W) calm (MAP_OR_FAIL E func).
Proof.
  unfold MAP_OR_FAIL. calm_tac.
Qed.

Lemma count_calm k s f : keeps (W:=W) calm (count_call k s f).
Proof. unfold count_call. calm_tac. Qed.

Lemma op_read_calm fd count tm : keeps (W:=W) calm (hvac_op E (OpRead fd count) tm).
Proof.
  pose proof map_calm. pose proof count_calm. pose proof host_calm. pose proof read_rpc_calm.
  cbn [hvac_op]. unfold wrap_read, hvac_remote_read, hvac_file_tracked. calm_tac; auto.
  apply keeps_sys, read_calm_os.
Qed.

Lemma op_pread_calm fd count off tm : keeps (W:=W) calm (hvac_op E (OpPread fd count off) tm).
Proof.
  pose proof map_calm. pose proof count_calm. pose proof host_calm. pose proof read_rpc_calm.
  pose proof index_redir_calm. cbn [hvac_op].
  unfold wrap_pread, hvac_remote_pread, hvac_file_tracked, hvac_get_path. calm_tac; auto;
    apply keeps_sys; intros c p x [= <- <-]; apply calm_os, grows_fds; done.
Qed.

(** ** Opening *)

Lemma open_rpc_grows svr_hash path fd :
  keeps (W:=W) grows (hvac_client_comm_gen_open_rpc (getenv E) (read_ahead E) svr_hash path fd).
Proof.
  assert (Hcalm : ∀ A (m : St (world W) A), keeps calm m → keeps grows m).
  { intros A m Hm w w' a Hr. by apply cm_grows, (Hm w w' a). }
  pose proof (Hcalm _ _ (lookup_calm _ (to_int32_range svr_hash))).
  pose proof (λ a, Hcalm _ _ (create_calm a)). pose proof (λ a, Hcalm _ _ (free_calm a)).
  clear Hcalm. unfold hvac_client_comm_gen_open_rpc, hvac_open_cb.
  calm_tac.
Qed.

Lemma open_rpc_typed svr_hash path fd (w w' : world W) v :
  hvac_client_comm_gen_open_rpc (getenv E) (read_ahead E) svr_hash path fd w = Ret (w', v) → v < 2 ^ 31.
Proof.
  intros Er. unfold hvac_client_comm_gen_open_rpc in Er.
  bind_in Er s1 u1 E1. bind_in Er s2 a E2. bind_in Er s3 u3 E3.
  bind_in Er s4 r E4. apply remote_Ret in E4 as [_ Hf].
  destruct r as [|out| |]; [| |done|].
  - bind_in Er s5 u5 E5. bind_in Er s6 u6 E6. apply mret_Ret in Er as [_ ->]. lia.
  - bind_in Er s5 u5 E5. bind_in Er s6 u6 E6. apply mret_Ret in Er as [_ ->].
    apply open_reply_typed in Hf. lia.
  - by bind_in Er s5 u5 E5.
Qed.

Lemma tables_opened c c' fd full v :
  tables_ok c → fd_map c !! fd = None → is_Some (px_fds (cl_os c) !! fd) →
  g_disable_redirect (cl_conf c) || tl_disable_redirect (cl_conf c) = false → grows c c' →
  fd_map c' = <[fd := full]> (fd_map c) → states_ok (fd_states c') →
  (0 < v < 2 ^ 31 ∧ fd_redir_map c' = <[fd := v]> (fd_redir_map c) ∧
     fd_state fd (fd_states c') = Some HVAC_FD_READY ∨
   fd_redir_map c' = fd_redir_map c ∧ fd_state fd (fd_states c') = Some HVAC_FD_ERROR) →
  (∀ fd', fd' ≠ fd → fd_state fd' (fd_states c') = fd_state fd' (fd_states c)) →
  tables_ok c'.
Proof.
  intros [Ts Tr To Tf Tn Tk Toff] Hnew Hopen Hon [Hf Hrg [Hn Hco] Hrk] Hm Hs Hcase Hother.
  split; try done.
  - intros fd'. destruct (decide (fd' = fd)) as [->|Hne].
    + rewrite Hm, lookup_insert_eq. specialize (Tr fd). rewrite Hnew in Tr. simpl in *.
      destruct Hcase as [(? & -> & ?)|(-> & ?)].
      * left. split; [done|]. exists v. by rewrite lookup_insert_eq.
      * right. by destruct Tr.
    + rewrite Hm, lookup_insert_ne, Hother by done.
      assert (fd_redir_map c' !! fd' = fd_redir_map c !! fd') as ->; [|apply Tr].
      destruct Hcase as [(_ & -> & _)|(-> & _)]; [by rewrite lookup_insert_ne|done].
  - intros fd'. rewrite Hm, lookup_insert_is_Some. intros [<-|[_ ?]]; auto.
  - by apply Hrg.
  - by rewrite Hn.
  - by apply Hrk.
  - rewrite Hco, Hon. done.
Qed.

Lemma track_file_tables path flags fd (w w' : world W) b :
  hvac_track_file E path flags fd w = Ret (w', b) → tables_ok (cl w) →
  fd_map (cl w) !! fd = None → is_Some (px_fds (cl_os (cl w)) !! fd) →
  g_disable_redirect (cl_conf (cl w)) || tl_disable_redirect (cl_conf (cl w)) = false →
  tables_ok (cl w').
Proof.
  intros Hr Hok Hnew Hopen Hon. apply track_file_cut in Hr.
  destruct (eligible E _ path flags) as [full|]; [|by destruct Hr as [_ ->]].
  destruct Hr as (w4 & h & v & (Ho4 & Hr4 & Hs4 & Ha4 & Hc4) & Hm4 & _ & E6 & _).
  pose proof (open_rpc_typed _ _ _ _ _ _ E6) as Hv.
  pose proof (open_rpc_grows _ _ _ _ _ _ E6) as Hg.
  destruct (open_rpc_outcome (getenv E) (read_ahead E) h full fd w4 w' v
    ltac:(pose proof (to_fds _ Hok fd Hopen); lia) ltac:(rewrite Hs4; apply (to_states _ Hok)) E6)
    as (Hok6 & Hm6 & Hcase & Hother).
  rewrite Hm4 in Hm6. rewrite Hr4 in Hcase. rewrite Hs4 in Hother.
  apply (tables_opened (cl w) (cl w') fd full v); try done.
  - etrans; [|exact Hg]. by apply grows_other.
  - destruct Hcase as [(? & ? & ?)|(? & ? & ?)]; [left|right]; split_and!; try done; lia.
Qed.

Lemma op_open_tables path flags tm (w w' : world W) a :
  hvac_op E (OpOpen path flags) tm w = Ret (w', a) → tables_ok (cl w) → tables_ok (cl w').
Proof.
  cbn [hvac_op]. intros Hr Hok. bind_in Hr w0 fd Hw. apply mret_Ret in Hr as [-> _].
  unfold wrap_open in Hw. bind_in Hw w1 u1 E1. apply map_calm in E1.
  apply (calm_tables _ _ E1) in Hok. clear E1.
  bind_in Hw w2 off E2. unfold redirect_disabled, client_gets in E2. unfold_st_in E2. simplify_eq.
  assert (Hsys : ∀ (w3 : world W) ret, client_sys (os_open path flags) w2 = Ret (w3, ret) →
    tables_ok (cl w3) ∧ cl_conf (cl w3) = cl_conf (cl w2) ∧
    (ret = -1 ∨ is_Some (px_fds (cl_os (cl w3)) !! ret) ∧ fd_map (cl w3) !! ret = None)).
  { intros w3 ret Es. unfold client_sys, zoom, run in Es.
    destruct (os_open path flags _) as [p r] eqn:Ho. simplify_eq.
    pose proof (calm_os _ _ (grows_open _ _ _ _ _ Ho)) as Hcm. simpl.
    split_and!; [by eapply calm_tables|apply (cm_grows _ _ Hcm)|].
    destruct (os_open_fds _ _ _ _ _ Ho) as [_ [[? _]|(_ & Hfree & o & Hf)]]; [by left|right].
    destruct w2 as [[os ? ? ? ? ? ? ? ? ?] ?]. simpl in *. rewrite Hf, lookup_insert_eq.
    split; [by eexists|]. apply eq_None_not_Some. intros Hs.
    apply (to_open _ Hok) in Hs. simpl in Hs. rewrite Hfree in Hs. by apply is_Some_None in Hs. }
  destruct (g_disable_redirect _ || tl_disable_redirect _) eqn:Hoff; [by apply Hsys in Hw as [? _]|].
  bind_in Hw w3 ret E3. apply Hsys in E3 as (Hok3 & Hc3 & Hcase). clear Hsys.
  destruct (Z.eqb_spec ret (-1)) as [->|Hne]; [by apply mret_Ret in Hw as [-> _]|].
  destruct Hcase as [?|[Hs Hnew]]; [done|].
  bind_in Hw w4 b E4. eapply track_file_tables in E4; [|try done..]; [|by rewrite Hc3].
  bind_in Hw w5 u5 E5. apply mret_Ret in Hw as [-> _]. apply count_calm in E5.
  by eapply calm_tables.
Qed.

(** ** Closing *)

Lemma tables_closed c p fd :
  tables_ok c → fd_map c !! fd = None → px_nofile p = px_nofile (cl_os c) →
  px_fds p = delete fd (px_fds (cl_os c)) → tables_ok (set_cl_os p c).
Proof.
  intros [Ts Tr To Tf Tn Tk Toff] Hnone Hn Hf. destruct c as [os m r f ac k g s t u]. simpl in *.
  split; simpl; try done; [|intros fd'; rewrite Hf, lookup_delete_is_Some; intros [_ ?]; auto|by rewrite Hn].
  intros fd' Hs. rewrite Hf, lookup_delete_is_Some. split; [|by apply To].
  intros Heq. rewrite <-Heq, Hnone in Hs. by apply is_Some_None in Hs.
Qed.

Lemma close_rpc_grows svr_hash fd :
  keeps (W:=W) grows (hvac_client_comm_gen_close_rpc (getenv E) (read_ahead E) svr_hash fd).
Proof.
  assert (Hcalm : ∀ A (m : St (world W) A), keeps calm m → keeps grows m).
  { intros A m Hm w w' a Hr. by apply cm_grows, (Hm w w' a). }
  pose proof (Hcalm _ _ (lookup_calm _ (to_int32_range svr_hash))).
  pose proof (λ a, Hcalm _ _ (create_calm a)). pose proof (λ a, Hcalm _ _ (free_calm a)).
  clear Hcalm. unfold hvac_client_comm_gen_close_rpc. calm_tac.
Qed.

Lemma tables_removed c c' fd :
  tables_ok c → grows c c' → fd_map c' = delete fd (fd_map c) →
  fd_states c' = hvac_cleanup_fd_state fd (fd_states c) →
  fd_redir_map c' = (if bool_decide (fd_redir_map c !! fd = None ∨ fd_redir_map c !! fd = Some 0)
                     then fd_redir_map c else delete fd (fd_redir_map c)) →
  tables_ok c'.
Proof.
  intros [Ts Tr To Tf Tn Tk Toff] [Hf Hrg [Hn Hco] Hrk] Hm Hs Hr. split.
  - rewrite Hs. by apply states_cleanup_ok.
  - intros fd'. rewrite Hm, Hs, fd_state_cleanup. destruct (decide (fd' = fd)) as [->|Hd].
    + rewrite lookup_delete_eq, bool_decide_true by done. split; [done|]. rewrite Hr.
      case_bool_decide as Hz; [by destruct Hz; auto|]. left. by rewrite lookup_delete_eq.
    + rewrite lookup_delete_ne, bool_decide_false by done.
      assert (fd_redir_map c' !! fd' = fd_redir_map c !! fd') as ->; [|apply Tr].
      rewrite Hr. case_bool_decide; [done|]. by rewrite lookup_delete_ne.
  - intros fd'. rewrite Hm, lookup_delete_is_Some. intros [_ ?]. auto.
  - by apply Hrg.
  - by rewrite Hn.
  - by apply Hrk.
  - rewrite Hco, Hm. intros Ho. by rewrite (Toff Ho), delete_empty.
Qed.

Lemma remove_fd_tables fd (w w' : world W) b :
  hvac_remove_fd E fd w = Ret (w', b) → tables_ok (cl w) → is_Some (fd_map (cl w) !! fd) →
  tables_ok (cl w') ∧ fd_map (cl w') !! fd = None.
Proof.
  unfold hvac_remove_fd, hvac_remote_close. intros Hr Hok Hs.
  bind_in Hr w1 u1 E1. bind_in E1 w2 tr E2.
  unfold hvac_file_tracked, client_gets in E2. unfold_st_in E2. simplify_eq.
  rewrite bool_decide_true in E1 by done.
  bind_in E1 w3 h E3. apply host_calm in E3. apply (calm_tables _ _ E3) in Hok.
  rewrite <-(cm_map _ _ E3) in Hs. clear E3.
  pose proof (close_rpc_grows _ _ _ _ _ E1) as Hg.
  destruct (close_rpc_forgets _ _ _ _ _ _ _ E1) as (_ & Hst & Hm & Hrd). clear E1.
  bind_in Hr w4 tr E4. unfold hvac_file_tracked, client_gets in E4. unfold_st_in E4. simplify_eq.
  bind_in Hr w5 u5 E5. apply upd_Ret in E5 as ->. apply mret_Ret in Hr as [-> _].
  destruct w4 as [[os m r f ac k g s t u] n]. simpl in *. subst m.
  split; [|by rewrite lookup_delete_eq].
  apply (tables_removed (cl w3) _ fd); try done; [by destruct Hg|].
  simpl. destruct (fd_redir_map (cl w3) !! fd) as [x|] eqn:Ex.
  - destruct (Z.eqb_spec x 0) as [->|Hx].
    + rewrite bool_decide_true by auto. by destruct Hrd.
    + rewrite bool_decide_false by naive_solver. by destruct Hrd.
  - rewrite bool_decide_true by auto. by destruct Hrd.
Qed.

Lemma sys_close_tables fd (w w' : world W) r :
  client_sys (os_close fd) w = Ret (w', r) → tables_ok (cl w) → fd_map (cl w) !! fd = None →
  tables_ok (cl w').
Proof.
  unfold client_sys, zoom, run. intros Hr Hok Hn. destruct (os_close fd _) as [p x] eqn:Hc.
  simplify_eq. destruct (os_close_fds _ _ _ _ Hc). by apply (tables_closed _ _ fd).
Qed.

Lemma op_close_tables fd tm (w w' : world W) a :
  hvac_op E (OpClose fd) tm w = Ret (w', a) → tables_ok (cl w) → tables_ok (cl w').
Proof.
  cbn [hvac_op]. intros Hr Hok. bind_in Hr w0 x Hw. apply mret_Ret in Hr as [-> _].
  unfold wrap_close in Hw. bind_in Hw w1 u1 E1. apply map_calm in E1.
  apply (calm_tables _ _ E1) in Hok. clear E1.
  bind_in Hw w2 off E2. unfold redirect_disabled, client_gets in E2. unfold_st_in E2. simplify_eq.
  destruct (g_disable_redirect _ || tl_disable_redirect _) eqn:Hoff.
  { eapply sys_close_tables; [done..|]. by rewrite (to_off _ Hok Hoff). }
  bind_in Hw w3 path E3. unfold hvac_get_path, client_gets in E3. unfold_st_in E3. simplify_eq.
  bind_in Hw w4 u4 E4.
  assert (tables_ok (cl w4) ∧ fd_map (cl w4) !! fd = None) as [Hok4 Hn4].
  { destruct (fd_map (cl w3) !! fd) eqn:Em.
    - bind_in E4 w5 b5 E5. apply mret_Ret in E4 as [-> _].
      eapply remove_fd_tables; [done..|]. by eexists.
    - by apply mret_Ret in E4 as [-> _]. }
  bind_in Hw w5 ret E5. apply (sys_close_tables _ _ _ _ E5) in Hok4; [|done].
  destruct (negb (ret =? 0)); [by apply mret_Ret in Hw as [-> _]|].
  bind_in Hw w6 u6 E6. apply mret_Ret in Hw as [-> _]. apply count_calm in E6.
  by eapply calm_tables.
Qed.

(** ** All calls *)

Lemma op_tables op tm (w w' : world W) a :
  hvac_op E op tm w = Ret (w', a) → tables_ok (cl w) → tables_ok (cl w').
Proof.
  destruct op.
  - apply op_open_tables.
  - intros Hr. by apply calm_tables, (op_read_calm _ _ _ _ _ _ Hr).
  - intros Hr. by apply calm_tables, (op_pread_calm _ _ _ _ _ _ _ Hr).
  - apply op_close_tables.
Qed.

Lemma init_tables (w w' : world W) u :
  hvac_client_init E w = Ret (w', u) → tables_ok (cl w) → tables_ok (cl w').
Proof.
  unfold hvac_client_init. intros Hr Hok.
  bind_in Hr w1 c E1. unfold client_gets in E1. unfold_st_in E1. simplify_eq.
  destruct (g_hvac_initialized _); [by apply mret_Ret in Hr as [-> _]|].
  destruct (getenv E "HVAC_SERVER_COUNT"); [|done].
  bind_in Hr w2 u2 E2. apply upd_Ret in E2 as ->.
  bind_in Hr w3 c3 E3. unfold client_gets in E3. unfold_st_in E3. simplify_eq.
  apply upd_Ret in Hr as ->. destruct Hok as [Ts Tr To Tf Tn Tk Toff].
  destruct w1 as [[os m r f ac k g [] t0 u0] n]. simpl in *. split; simpl; try done.
  intros ->. apply Toff. by rewrite orb_true_r.
Qed.

(** What happens to a process: its constructor runs, the application makes an
    intercepted call that returns, or the network changes in any way. *)
Inductive client_label : Type :=
| CInit
| CCall (op : file_op) (tm : timing) (a : Z * bytes)
| CNetwork.

Inductive client_step : client_label → world W → world W → Prop :=
| client_inits w w' u : hvac_client_init E w = Ret (w', u) → client_step CInit w w'
| client_calls op tm a w w' : hvac_op E op tm w = Ret (w', a) → client_step (CCall op tm a) w w'
| network_changes w n : client_step CNetwork w (World (cl w) n).

(** A process that has made no call: it may have files open already. *)
Record just_started (w : world W) : Prop := {
  js_tables : fd_map (cl w) = ∅ ∧ fd_redir_map (cl w) = ∅ ∧ fd_states (cl w) = FdTable ∅ ∅ ∧
              address_cache (cl w) = ∅;
  js_nofile : px_nofile (cl_os (cl w)) ≤ 2 ^ 31;
  js_fds fd : is_Some (px_fds (cl_os (cl w)) !! fd) → 0 ≤ fd < 2 ^ 31
}.

Lemma just_started_tables w : just_started w → tables_ok (cl w).
Proof.
  intros [(Hm & Hr & Hs & Ha) Hn Hf]. split; rewrite ?Hm, ?Hr, ?Hs, ?Ha; try done.
  - intros f. simpl. rewrite !lookup_empty. split; [done|by left].
  - intros f. rewrite lookup_empty. by intros ?%is_Some_None.
  - intros f. rewrite lookup_empty. by intros ?%is_Some_None.
Qed.

(** C8. The client's tables are well typed and agree in every state between
    two intercepted calls, whatever the application opens, reads and closes
    and whatever the network and the servers answer: a tracked descriptor is
    an open one; it is READY with a positive 32-bit server descriptor, or in
    ERROR without one, and never left OPENING; an untracked one has no state
    and no server descriptor; descriptors are non-negative ints, cached ranks
    ints. *)
Theorem client_tables_well_typed (w : world W) :
  reachable client_step just_started w → tables_ok (cl w).
Proof.
  apply (reachable_inv client_step just_started (λ w, tables_ok (cl w))); [apply just_started_tables|].
  intros l w1 w2 Hok Hs. destruct Hs as [w1 w2 u Hr|op tm a w1 w2 Hr|w1 n]; [| |done].
  - by eapply init_tables.
  - by eapply op_tables.
Qed.

End calls.

(** ** Witness: a client opens, reads and closes a file of its data directory *)

#[local] Instance ex_transport_typed : TypedReplies ex_transport.
Proof. intros a inp n n' out [= _ <-]. simpl. lia. Qed.

Definition ex_time : timing := Timing (Build_timespec 0 0) (Build_timespec 0 0) [].

(** The client of [ex_world], whose directory holds a file. *)
Definition ex_data_world : world unit :=
  World (set_cl_os (add_file "/data/f" 2 (s2t "hello") ex_ports_os) ex_client) tt.

Definition ex_open_world : world unit :=
  match hvac_op (T:=ex_transport) ex_client_env (OpOpen "/data/f" O_RDONLY) ex_time ex_data_world with
  | Ret (w, _) => w
  | Fault _ => ex_data_world
  end.

Lemma client_tables_well_typed_witness :
  fd_redir_map (cl ex_open_world) !! 0 = Some 9 ∧ tables_ok (cl ex_open_world).
Proof.
  split; [vm_compute; reflexivity|].
  apply (client_tables_well_typed (T:=ex_transport) ex_client_env).
  exists ex_data_world, [CCall (OpOpen "/data/f" O_RDONLY) ex_time (0, [])]. split.
  - split; [done|vm_compute; congruence|].
    intros fd Hs. apply is_Some_None in Hs. destruct Hs.
  - apply steps_one, client_calls. vm_compute. reflexivity.
Defined.
