(* ===== verification/ClientTables.v ===== *)
(** * The client's tables under threads

    fd_map, fd_redir_map and address_cache are unordered_maps without a lock.
    Here every intercepted call is the sequence of its accesses to them, as
    [src/src/mthvac_client.cpp] and [src/src/mthvac_comm_client.cpp] make them
    one by one; threads of the application and the progress thread, which runs
    the callbacks, take their accesses in any order. Two threads race when
    their next accesses touch the same memory and one of them writes it. *)

From S2P Require Import Prelude CText.

Local Open Scope Z_scope.

(** ** Tables and accesses *)

Inductive table : Type := FdMap | FdRedirMap | AddressCache.

Definition value (m : table) : Set :=
  match m with FdMap => string | FdRedirMap => Z | AddressCache => text end.

Record tables : Type := Tables {
  t_fd_map : gmap Z string;
  t_fd_redir_map : gmap Z Z;
  t_address_cache : gmap Z text
}.

Definition table_of (m : table) (s : tables) : gmap Z (value m) :=
  match m return gmap Z (value m) with
  | FdMap => t_fd_map s
  | FdRedirMap => t_fd_redir_map s
  | AddressCache => t_address_cache s
  end.

Definition set_table (m : table) : gmap Z (value m) → tables → tables :=
  match m return gmap Z (value m) → tables → tables with
  | FdMap => λ x s, Tables x (t_fd_redir_map s) (t_address_cache s)
  | FdRedirMap => λ x s, Tables (t_fd_map s) x (t_address_cache s)
  | AddressCache => λ x s, Tables (t_fd_map s) (t_fd_redir_map s) x
  end.

(** What operator\[\] constructs for an absent key. *)
Definition default_value (m : table) : value m :=
  match m return value m with FdMap => ""%string | FdRedirMap => 0 | AddressCache => [] end.

Inductive map_access : Set → Type :=
| Find (m : table) (key : Z) : map_access bool                     (* m.find(key) != m.end() *)
| Index (m : table) (key : Z) : map_access (value m)               (* m\[key\], read *)
| Assign (m : table) (key : Z) (v : value m) : map_access unit     (* m\[key\] = v *)
| Erase (m : table) (key : Z) : map_access unit.                   (* m.erase(key) *)

Definition run_access {A} (a : map_access A) (s : tables) : tables * A :=
  match a in map_access A return tables * A with
  | Find m key => (s, bool_decide (is_Some (table_of m s !! key)))
  | Index m key =>
      match table_of m s !! key with
      | Some v => (s, v)
      | None => (set_table m (<[key := default_value m]> (table_of m s)) s, default_value m)
      end
  | Assign m key v => (set_table m (<[key := v]> (table_of m s)) s, tt)
  | Erase m key => (set_table m (delete key (table_of m s)) s, tt)
  end.

(** What an access does to memory: it reads, it writes the value of a key the
    table has, or it changes the table's structure. This is libstdc++'s
    unordered_map, where operator\[\] with a key that is present changes nothing;
    the C++ standard promises that find and at only read, and leaves
    operator\[\] of an unordered_map out of that promise. *)
Inductive touch : Type := Reads | WritesValue | Restructures.

Definition footprint {A} (a : map_access A) (s : tables) : table * Z * touch :=
  match a with
  | Find m key => (m, key, Reads)
  | Index m key => (m, key, if table_of m s !! key is Some _ then Reads else Restructures)
  | Assign m key _ => (m, key, if table_of m s !! key is Some _ then WritesValue else Restructures)
  | Erase m key => (m, key, if table_of m s !! key is Some _ then Restructures else Reads)
  end.

(** ** The calls *)

(** A function's accesses, with what it waits for in between. *)
Inductive prog : Type :=
| Stop
| Do {A : Set} (a : map_access A) (k : A → prog)
| ScanFile (k : option text → prog)      (* the address file's post for the rank, if any *)
| WaitReady (k : bool → prog)            (* hvac_wait_fd_ready *)
| Forward (cb k : prog)   (* HG_Forward with a callback; sent or not, wait, go on *)
| Send (k : prog)         (* HG_Forward without a callback *)
| Output (k : Z → prog).                 (* HG_Get_output of a callback *)

Section calls.
Context (hash : string → Z) (server_count : Z).

(** [std::hash<std::string>{}(path) % g_hvac_server_count] *)
Definition host (path : string) : Z := to_int32 (hash path mod server_count).

Definition lookup_addr_accesses (rank : Z) (k : prog) : prog :=
  Do (Find AddressCache rank) (λ found,
    if found then Do (Index AddressCache rank) (λ _, k)
    else ScanFile (λ post,
      match post with
      | Some svr_str => Do (Assign AddressCache rank svr_str) (λ _, k)
      | None => k
      end)).

Definition open_cb_accesses (local_fd : Z) : prog :=
  Output (λ ret_status,
    if 0 <? ret_status then Do (Assign FdRedirMap local_fd ret_status) (λ _, Stop) else Stop).

Definition read_cb_accesses : prog := Output (λ _, Stop).

Definition open_rpc_accesses (rank fd : Z) : prog :=
  (* local_fd is a uint32_t, the map's key an int *)
  lookup_addr_accesses rank (Forward (open_cb_accesses (to_int32 (to_uint32 fd))) Stop).

Definition read_rpc_accesses (rank localfd : Z) : prog :=
  WaitReady (λ ready,
    if ready then
      Do (Find FdRedirMap localfd) (λ found,
        if found then
          Do (Index FdRedirMap localfd) (λ remote_fd,
            if remote_fd =? 0 then Stop
            else lookup_addr_accesses rank
                   (Do (Index FdRedirMap localfd) (λ _, Forward read_cb_accesses Stop)))
        else Stop)
    else Stop).

Definition close_rpc_accesses (rank fd : Z) (k : prog) : prog :=
  lookup_addr_accesses rank
    (Do (Find FdRedirMap fd) (λ found,
      if found then
        Do (Index FdRedirMap fd) (λ remote_fd,
          if remote_fd =? 0 then k
          else Do (Index FdRedirMap fd) (λ _,
            Send (Do (Erase FdRedirMap fd) (λ _, k))))
      else k)).

Definition get_path_accesses (fd : Z) (k : bool → prog) : prog :=
  Do (Find FdMap fd) (λ found,
    if found then Do (Index FdMap fd) (λ _, k true) else k false).

(** From the assignment to fd_map on; the tests before it touch no table. *)
Definition track_file_accesses (full : string) (fd : Z) : prog :=
  Do (Assign FdMap fd full) (λ _,
    Do (Index FdMap fd) (λ path,
      Do (Index FdMap fd) (λ _,
        open_rpc_accesses (to_int32 (to_uint32 (host path))) fd))).

Definition remote_read_accesses (fd : Z) : prog :=
  Do (Find FdMap fd) (λ tracked,
    if tracked then
      Do (Index FdMap fd) (λ path,
        read_rpc_accesses (to_int32 (to_uint32 (host path))) fd)
    else Stop).

Definition remote_pread_accesses (fd : Z) : prog :=
  Do (Find FdMap fd) (λ tracked,
    if tracked then
      Do (Index FdRedirMap fd) (λ remote_fd,
        if remote_fd =? 0 then Stop
        else Do (Index FdMap fd) (λ path,
          read_rpc_accesses (to_int32 (to_uint32 (host path))) fd))
    else Stop).

Definition remote_close_accesses (fd : Z) (k : prog) : prog :=
  Do (Find FdMap fd) (λ tracked,
    if tracked then
      Do (Index FdMap fd) (λ path,
        close_rpc_accesses (to_int32 (to_uint32 (host path))) fd k)
    else k).

Definition remove_fd_accesses (fd : Z) : prog :=
  remote_close_accesses fd (Do (Erase FdMap fd) (λ _, Stop)).

(** The intercepted calls: an open that tracks its file, and the others. *)
Inductive table_call : Type :=
| COpen (full : string) (fd : Z)
| CRead (fd : Z)
| CPread (fd : Z)
| CClose (fd : Z).

Definition call_prog (c : table_call) : prog :=
  match c with
  | COpen full fd => track_file_accesses full fd
  | CRead fd => get_path_accesses fd (λ _, remote_read_accesses fd)
  | CPread fd => get_path_accesses fd (λ tracked, if tracked then remote_pread_accesses fd else Stop)
  | CClose fd => get_path_accesses fd (λ tracked, if tracked then remove_fd_accesses fd else Stop)
  end.

End calls.

(** ** Threads *)

(** Where a thread of the application is in its call: about to go on, or
    waiting for a callback that has not begun, or has. *)
Inductive caller : Type :=
| Running (p : prog)
| Waiting (cb k : prog)
| CalledBack (k : prog).

Record table_threads : Type := TableThreads {
  tt_tables : tables;
  tt_callers : gmap nat caller;
  tt_progress : option (nat * prog)      (* the callback the progress thread is in *)
}.

Inductive table_label : Type :=
| TlCall (t : nat) (c : table_call)
| TlAccess (t : nat)
| TlScanned (t : nat) (post : option text)
| TlReady (t : nat) (ready : bool)
| TlForward (t : nat) (sent : bool)
| TlTrigger (t : nat)                    (* HG_Trigger starts the callback of t's request *)
| TlOutput (ret : Z)
| TlCallback                             (* the callback's next access *)
| TlSignal                               (* it ends and wakes its caller *)
| TlReturn (t : nat).

Section machine.
Context (hash : string → Z) (server_count : Z).

Definition set_caller (t : nat) (p : prog) (s : tables) (x : table_threads) : table_threads :=
  TableThreads s (<[t := Running p]> (tt_callers x)) (tt_progress x).

Definition table_run (l : table_label) (x : table_threads) : option table_threads :=
  let s := tt_tables x in
  match l with
  | TlCall t c =>
      match tt_callers x !! t with
      | None => Some (set_caller t (call_prog hash server_count c) s x)
      | Some _ => None
      end
  | TlAccess t =>
      match tt_callers x !! t with
      | Some (Running (Do a k)) =>
          let '(s', v) := run_access a s in Some (set_caller t (k v) s' x)
      | _ => None
      end
  | TlScanned t post =>
      match tt_callers x !! t with
      | Some (Running (ScanFile k)) => Some (set_caller t (k post) s x)
      | _ => None
      end
  | TlReady t ready =>
      match tt_callers x !! t with
      | Some (Running (WaitReady k)) => Some (set_caller t (k ready) s x)
      | _ => None
      end
  | TlForward t sent =>
      match tt_callers x !! t with
      | Some (Running (Forward cb k)) =>
          Some (if sent then TableThreads s (<[t := Waiting cb k]> (tt_callers x)) (tt_progress x)
                else set_caller t k s x)
      | Some (Running (Send k)) => Some (set_caller t k s x)
      | _ => None
      end
  | TlTrigger t =>
      match tt_callers x !! t, tt_progress x with
      | Some (Waiting cb k), None =>
          Some (TableThreads s (<[t := CalledBack k]> (tt_callers x)) (Some (t, cb)))
      | _, _ => None
      end
  | TlOutput ret =>
      match tt_progress x with
      | Some (t, Output k) => Some (TableThreads s (tt_callers x) (Some (t, k ret)))
      | _ => None
      end
  | TlCallback =>
      match tt_progress x with
      | Some (t, Do a k) =>
          let '(s', v) := run_access a s in Some (TableThreads s' (tt_callers x) (Some (t, k v)))
      | _ => None
      end
  | TlSignal =>
      match tt_progress x with
      | Some (t, Stop) =>
          match tt_callers x !! t with
          | Some (CalledBack k) => Some (TableThreads s (<[t := Running k]> (tt_callers x)) None)
          | _ => None
          end
      | _ => None
      end
  | TlReturn t =>
      match tt_callers x !! t with
      | Some (Running Stop) => Some (TableThreads s (delete t (tt_callers x)) (tt_progress x))
      | _ => None
      end
  end.

Definition table_step (l : table_label) (x x' : table_threads) : Prop := table_run l x = Some x'.

Fixpoint table_runs (ls : list table_label) (x : table_threads) : option table_threads :=
  match ls with
  | [] => Some x
  | l :: ls' => x' ← table_run l x; table_runs ls' x'
  end.

(** ** Races *)

(** The application's threads, and the progress thread. *)
Inductive agent : Type := Caller (t : nat) | Progress.

Definition prog_of (g : agent) (x : table_threads) : option prog :=
  match g with
  | Caller t => match tt_callers x !! t with Some (Running p) => Some p | _ => None end
  | Progress => snd <$> tt_progress x
  end.

Definition next_access (g : agent) (x : table_threads) : option (table * Z * touch) :=
  match prog_of g x with Some (Do a _) => Some (footprint a (tt_tables x)) | _ => None end.

(** One of two accesses to a table changes its structure, or they are to one
    key and one of them writes. *)
Definition conflict (a b : table * Z * touch) : Prop :=
  let '(m, key, u) := a in
  let '(m', key', u') := b in
  m = m' ∧ (u = Restructures ∨ u' = Restructures ∨
            key = key' ∧ (u = WritesValue ∨ u' = WritesValue)).

Definition table_race_on (m : table) (x : table_threads) : Prop :=
  ∃ g g' key key' u u', g ≠ g' ∧ next_access g x = Some (m, key, u) ∧
    next_access g' x = Some (m, key', u') ∧ conflict (m, key, u) (m, key', u').

Definition table_race (x : table_threads) : Prop := ∃ m, table_race_on m x.

Definition quiet (x : table_threads) : Prop := tt_callers x = ∅ ∧ tt_progress x = None.

(** ** One caller at a time *)

(** A call begins when no other is in progress. *)
Definition one_by_one (l : table_label) (x x' : table_threads) : Prop :=
  table_step l x x' ∧ match l with TlCall _ _ => tt_callers x = ∅ | _ => True end.

(** Then the progress thread is in a callback only while its caller waits. *)
Record alone_inv (x : table_threads) : Prop := {
  al_one t t' : is_Some (tt_callers x !! t) → is_Some (tt_callers x !! t') → t = t';
  al_progress t p : tt_progress x = Some (t, p) → ∃ k, tt_callers x !! t = Some (CalledBack k)
}.

Lemma alone_update x s t c :
  alone_inv x → is_Some (tt_callers x !! t) → tt_progress x = None →
  alone_inv (TableThreads s (<[t := c]> (tt_callers x)) None).
Proof.
  intros [H1 H2] Ht Hp. split; simpl; [|done]. intros u u'.
  rewrite !lookup_insert_is_Some'. intros [<-|Hu] [<-|Hu']; auto.
Qed.

Lemma alone_running x t p : alone_inv x → tt_callers x !! t = Some (Running p) → tt_progress x = None.
Proof.
  intros [H1 H2] Ht. destruct (tt_progress x) as [[u q]|] eqn:Hp; [|done].
  destruct (H2 u q eq_refl) as [k Hk]. assert (u = t) as -> by (apply H1; eauto). congruence.
Qed.

Lemma alone_step l x x' : alone_inv x → one_by_one l x x' → alone_inv x'.
Proof.
  intros Hi [Hs Hl]. pose proof Hi as [H1 H2]. unfold table_step, table_run, set_caller in Hs.
  destruct l as [t c|t|t post|t b|t b|t|ret| | |t].
  2-5: destruct (tt_callers x !! t) as [[[|A a k|k|k|cb k|k|k]|cb k|k]|] eqn:Ht; try done;
    try destruct (run_access a (tt_tables x)) as [s' v]; try destruct b; injection Hs as <-;
    rewrite (alone_running x t _ Hi Ht); (apply alone_update; [done|by eexists|by eapply alone_running]).
  - destruct (tt_callers x !! t); [done|]. injection Hs as <-. rewrite Hl. split; simpl.
    + intros u u'. rewrite !lookup_insert_is_Some', !lookup_empty.
      intros [<-|[? ?]] [<-|[? ?]]; done.
    + intros u p Hp. destruct (H2 u p Hp) as [k Hk]. by rewrite Hl, lookup_empty in Hk.
  - destruct (tt_callers x !! t) as [[p|cb k|k]|] eqn:Ht; try done.
    destruct (tt_progress x) eqn:Hp; [done|]. injection Hs as <-. split; simpl.
    + intros u u'. rewrite !lookup_insert_is_Some'. intros [<-|Hu] [<-|Hu']; eauto.
    + intros u p [= <- <-]. exists k. apply lookup_insert_eq.
  - destruct (tt_progress x) as [[t []]|] eqn:Hp; try done. injection Hs as <-.
    split; simpl; [done|]. intros u p [= <- _]. by eapply H2.
  - destruct (tt_progress x) as [[t [|A a k| | | | |]]|] eqn:Hp; try done.
    destruct (run_access a (tt_tables x)) as [s' v]. injection Hs as <-.
    split; simpl; [done|]. intros u p [= <- _]. by eapply H2.
  - destruct (tt_progress x) as [[t []]|] eqn:Hp; try done.
    destruct (tt_callers x !! t) as [[p|cb k|k]|] eqn:Ht; try done. injection Hs as <-. split; simpl; [|done].
    intros u u'. rewrite !lookup_insert_is_Some'. intros [<-|Hu] [<-|Hu']; eauto.
  - destruct (tt_callers x !! t) as [[[]| |]|] eqn:Ht; try done. injection Hs as <-.
    pose proof (alone_running x t _ Hi Ht) as Hp. split; simpl.
    + intros u u' [? [_ Hu]%lookup_delete_Some] [? [_ Hu']%lookup_delete_Some]. eauto.
    + by rewrite Hp.
Qed.

Lemma alone_no_race x : alone_inv x → ¬ table_race x.
Proof.
  intros Hi (m & g & g' & key & key' & u & u' & Hne & Hg & Hg' & _).
  assert (Hrun : ∀ t v, next_access (Caller t) x = Some v → ∃ p, tt_callers x !! t = Some (Running p)).
  { intros t v Hv. unfold next_access in Hv. simpl in Hv.
    destruct (tt_callers x !! t) as [[p| |]|]; try done. by exists p. }
  assert (Hboth : ∀ t v v', next_access (Caller t) x = Some v → next_access Progress x = Some v' → False).
  { intros t v v' [p Hp]%Hrun Hv. pose proof (alone_running x t p Hi Hp) as Hpr.
    unfold next_access in Hv. simpl in Hv. by rewrite Hpr in Hv. }
  destruct g as [t|], g' as [t'|]; [|by eapply Hboth..|done].
  destruct (Hrun _ _ Hg) as [p Hp], (Hrun _ _ Hg') as [p' Hp'].
  apply Hne. f_equal. apply (al_one x Hi); eauto.
Qed.

(** ** Reads only *)

(** A program that only reads the tables, as they are. *)
Fixpoint readonly (s : tables) (p : prog) : Prop :=
  match p with
  | Stop => True
  | Do a k => snd (footprint a s) = Reads ∧ readonly s (k (snd (run_access a s)))
  | ScanFile k => ∀ post, readonly s (k post)
  | WaitReady k => ∀ b, readonly s (k b)
  | Forward cb k => readonly s cb ∧ readonly s k
  | Send k => readonly s k
  | Output k => ∀ ret, readonly s (k ret)
  end.

Lemma reads_keep {A} (a : map_access A) s : snd (footprint a s) = Reads → fst (run_access a s) = s.
Proof.
  destruct a as [m key|m key|m key v|m key]; simpl; [done|..].
  - by destruct (table_of m s !! key).
  - by destruct (table_of m s !! key).
  - destruct (table_of m s !! key) eqn:Hk; [done|]. intros _.
    destruct s, m; simpl in *; by rewrite delete_id.
Qed.

(** Tables in which every tracked descriptor is mapped and every server's
    address is known. *)
Definition all_known (s : tables) : Prop :=
  (∀ fd, is_Some (t_fd_map s !! fd) → is_Some (t_fd_redir_map s !! fd)) ∧
  (∀ path, is_Some (t_address_cache s !! to_int32 (to_uint32 (host hash server_count path)))).

Definition is_read_call (c : table_call) : Prop :=
  match c with CRead _ | CPread _ => True | _ => False end.

Lemma readonly_find s m key (k : bool → prog) :
  readonly s (k (bool_decide (is_Some (table_of m s !! key)))) → readonly s (Do (Find m key) k).
Proof. done. Qed.

Lemma readonly_index s m key (k : value m → prog) v :
  table_of m s !! key = Some v → readonly s (k v) → readonly s (Do (Index m key) k).
Proof. intros Hv Hk. simpl. by rewrite Hv. Qed.

Lemma readonly_read_rpc s path fd :
  all_known s → readonly s (read_rpc_accesses (to_int32 (to_uint32 (host hash server_count path))) fd).
Proof.
  intros [_ Ha]. destruct (Ha path) as [a Hr]. set (rank := to_int32 _) in *. intros [|]; [|done].
  apply readonly_find. simpl. case_bool_decide as Hf; [|done]. destruct Hf as [r Hf].
  eapply (readonly_index _ FdRedirMap); [exact Hf|]. destruct (r =? 0); [done|].
  apply readonly_find. simpl. rewrite bool_decide_true by (by eexists).
  eapply (readonly_index _ AddressCache); [exact Hr|].
  eapply (readonly_index _ FdRedirMap); [exact Hf|]. by split; [intros ?|].
Qed.

Lemma readonly_reads s c : all_known s → is_read_call c → readonly s (call_prog hash server_count c).
Proof.
  intros Hs. pose proof (readonly_read_rpc s) as Hrpc.
  destruct c as [|fd|fd|]; try done; intros _; cbn [call_prog]; unfold get_path_accesses;
    apply readonly_find; simpl; case_bool_decide as Ht; try done.
  - destruct Ht as [path Hp]. eapply (readonly_index _ FdMap); [exact Hp|].
    apply readonly_find. simpl. rewrite bool_decide_true by (by eexists).
    eapply (readonly_index _ FdMap); [exact Hp|]. by apply Hrpc.
  - apply readonly_find. simpl. by rewrite bool_decide_false.
  - destruct Ht as [path Hp]. eapply (readonly_index _ FdMap); [exact Hp|].
    apply readonly_find. simpl. rewrite bool_decide_true by (by eexists).
    destruct (proj1 Hs fd) as [r Hr]; [by eexists|].
    eapply (readonly_index _ FdRedirMap); [exact Hr|]. destruct (r =? 0); [done|].
    eapply (readonly_index _ FdMap); [exact Hp|]. by apply Hrpc.
Qed.

(** Only reads and preads are called. *)
Definition reads_step (l : table_label) (x x' : table_threads) : Prop :=
  table_step l x x' ∧ match l with TlCall _ c => is_read_call c | _ => True end.

Definition readonly_caller (s : tables) (c : caller) : Prop :=
  match c with
  | Running p => readonly s p
  | Waiting cb k => readonly s cb ∧ readonly s k
  | CalledBack k => readonly s k
  end.

Definition reads_inv (s : tables) (x : table_threads) : Prop :=
  tt_tables x = s ∧ map_Forall (λ _, readonly_caller s) (tt_callers x) ∧
  ∀ t p, tt_progress x = Some (t, p) → readonly s p.

Lemma reads_inv_step s l x x' : all_known s → reads_inv s x → reads_step l x x' → reads_inv s x'.
Proof.
  intros Hk (<- & Hc & Hp) [Hs Hl]. unfold table_step, table_run, set_caller in Hs.
  assert (Hset : ∀ t c, readonly_caller (tt_tables x) c →
    map_Forall (λ _, readonly_caller (tt_tables x)) (<[t := c]> (tt_callers x))).
  { intros t c ?. by apply map_Forall_insert_2. }
  destruct l as [t c|t|t post|t b|t b|t|ret| | |t].
  1: { destruct (tt_callers x !! t); [done|]. injection Hs as <-. split; [done|].
       split; [|exact Hp]. by apply Hset, readonly_reads. }
  1-4: destruct (tt_callers x !! t) as [[[|A a k|k|k|cb k|k|k]|cb k|k]|] eqn:Ht; try done;
    pose proof (Hc t _ Ht) as Hcur; simpl in Hcur.
  - destruct Hcur as [Hread Hrest]. pose proof (reads_keep _ _ Hread) as Hsame.
    destruct (run_access a (tt_tables x)) as [s' v]. simpl in *. subst s'. injection Hs as <-.
    split; [done|]. split; [by apply Hset|exact Hp].
  - injection Hs as <-. split; [done|]. split; [apply Hset, Hcur|exact Hp].
  - injection Hs as <-. split; [done|]. split; [apply Hset, Hcur|exact Hp].
  - destruct b; injection Hs as <-; (split; [done|]; split; [|exact Hp]); apply Hset; [done|apply Hcur].
  - injection Hs as <-. split; [done|]. split; [by apply Hset|exact Hp].
  - destruct (tt_callers x !! t) as [[p|cb k|k]|] eqn:Ht; try done.
    destruct (tt_progress x) eqn:Hpr; [done|]. injection Hs as <-. destruct (Hc t _ Ht) as [H1 H2].
    split; [done|]. split; [by apply Hset|]. by intros u p [= _ <-].
  - destruct (tt_progress x) as [[t []]|] eqn:Hpr; try done. injection Hs as <-.
    split; [done|]. split; [done|]. intros u p [= _ <-]. apply (Hp t _ eq_refl).
  - destruct (tt_progress x) as [[t [|A a k| | | | |]]|] eqn:Hpr; try done.
    destruct (Hp t _ eq_refl) as [Hread Hrest]. pose proof (reads_keep _ _ Hread) as Hsame.
    destruct (run_access a (tt_tables x)) as [s' v]. simpl in *. subst s'. injection Hs as <-.
    split; [done|]. split; [done|]. by intros u p [= _ <-].
  - destruct (tt_progress x) as [[t []]|] eqn:Hpr; try done.
    destruct (tt_callers x !! t) as [[p|cb k|k]|] eqn:Ht; try done. injection Hs as <-.
    split; [done|]. split; [|done]. apply Hset, (Hc t _ Ht).
  - destruct (tt_callers x !! t) as [[[]| |]|] eqn:Ht; try done. injection Hs as <-.
    split; [done|]. split; [|exact Hp]. by apply map_Forall_delete.
Qed.

Lemma reads_no_race s x : reads_inv s x → ¬ table_race x.
Proof.
  intros (Hs & Hc & Hp) (m & g & g' & key & key' & u & u' & _ & Hg & Hg' & _ & Hconf).
  assert (Hr : ∀ g m key u, next_access g x = Some (m, key, u) → u = Reads).
  { clear -Hs Hc Hp. intros g m key u. unfold next_access. rewrite Hs.
    destruct (prog_of g x) as [[|A a k| | | | |]|] eqn:Hg; try done. intros [= E].
    assert (readonly s (Do a k)) as [Hr _].
    { destruct g as [t|]; simpl in Hg.
      - destruct (tt_callers x !! t) as [[p| |]|] eqn:Ht; try done. injection Hg as ->.
        apply (Hc t _ Ht).
      - destruct (tt_progress x) as [[t p]|]; [|done]. injection Hg as ->. by eapply Hp. }
    by rewrite E in Hr. }
  apply Hr in Hg, Hg'. subst. by destruct Hconf as [?|[?|[_ [?|?]]]].
Qed.

(** ** Lemmas: schedules *)

Definition started (s : tables) : table_threads := TableThreads s ∅ None.


Lemma access_run {A : Set} t (a : map_access A) k s cs pr s' v :
  cs !! t = Some (Running (Do a k)) → run_access a s = (s', v) →
  table_run (TlAccess t) (TableThreads s cs pr) = Some (TableThreads s' (<[t := Running (k v)]> cs) pr).
Proof. intros Ht Ha. cbn [table_run tt_callers tt_tables]. rewrite Ht, Ha. done. Qed.








(** ** Properties *)

(** C19. What may run at the same time: while the application makes one call at
    a time no two threads ever race on the client's tables, although the
    progress thread writes them too, since its callbacks run while their
    caller waits; and calls that only read race neither, however many there
    are at once, once every server's address is known and every tracked
    descriptor is mapped: then they leave the tables as they are. The second
    half is about libstdc++'s operator\[\], which reads when its key is present. *)
Theorem safe_client_calls (s : tables) :
  (∀ x, reachable one_by_one (λ x, x = started s) x → ¬ table_race x) ∧
  (all_known s → ∀ x, reachable reads_step (λ x, x = started s) x →
     tt_tables x = s ∧ ¬ table_race x).
Proof.
  split.
  - intros x Hx. apply alone_no_race. revert Hx. apply (reachable_inv one_by_one).
    + intros x0 ->. split; simpl; [|done]. intros t t' [? Ht]. by rewrite lookup_empty in Ht.
    + intros l x1 x2 ? ?. by eapply alone_step.
  - intros Hk x Hx. assert (reads_inv s x) as Hi.
    { revert Hx. apply (reachable_inv reads_step).
      + intros x0 ->. split; [done|]. split; [apply map_Forall_empty|done].
      + intros l x1 x2 ? ?. by eapply reads_inv_step. }
    split; [apply Hi|by eapply reads_no_race].
Qed.


End machine.

(** ** Witnesses *)

(** One file open and mapped, one server, whose address is known. *)
Definition ex_tables : tables :=
  Tables {[ 4 := "/pfs/train/b.dat"%string ]} {[ 4 := 9 ]} {[ 0 := s2t "ofi+tcp://n0" ]}.

Lemma ex_tables_known : all_known (λ _, 12345) 1 ex_tables.
Proof.
  split.
  - intros fd [p Hp]. simpl in Hp. apply lookup_singleton_Some in Hp as [<- _]. by eexists.
  - intros path. by eexists.
Qed.

(** A read and a pread of it at the same time. *)
Definition ex_reading : option table_threads :=
  table_runs (λ _, 12345) 1 [TlCall 0 (CRead 4); TlCall 1 (CPread 4); TlAccess 0] (started ex_tables).

Lemma safe_client_calls_witness : ∃ x, ex_reading = Some x ∧ ¬ table_race x.
Proof.
  destruct ex_reading as [x|] eqn:Hx; [|vm_compute in Hx; discriminate].
  exists x. split; [reflexivity|].
  refine (proj2 (proj2 (safe_client_calls (λ _, 12345) 1 ex_tables) ex_tables_known x _)).
  exists (started ex_tables), [TlCall 0 (CRead 4); TlCall 1 (CPread 4); TlAccess 0].
  split; [reflexivity|]. unfold ex_reading in Hx. cbn [table_runs] in Hx.
  apply bind_Some in Hx as (x1 & H1 & Hx). apply bind_Some in Hx as (x2 & H2 & Hx).
  apply bind_Some in Hx as (x3 & H3 & [= <-]).
  apply (steps_cons _ _ _ _ x1); [by split|]. apply (steps_cons _ _ _ _ x2); [by split|].
  apply steps_one. by split.
Defined.

