(* ===== verification/TableCalls.v ===== *)
(** * The accesses of [ClientTables.v] are the calls'

    [ClientTables.v] writes the intercepted calls as sequences of accesses to
    the client's three tables, [Client.v] and [Wrappers.v] as whole calls. Here:
    what a whole call does to the tables is what its accesses do, one after
    the other with nothing between, for the answers the call got. *)

From S2P Require Import Prelude CText Posix Wire AddrFile FdState Comm Stats.
From S2P Require Import ClientComm ClientCommProps Client Wrappers Service Sim ClientInv ClientTables.

Local Open Scope Z_scope.

(** ** Accesses that nothing interrupts *)

Definition tables_of (c : client) : tables := Tables (fd_map c) (fd_redir_map c) (address_cache c).

(** With some answer wherever the program waits for one. *)
Inductive alone : prog → tables → tables → Prop :=
| al_stop s : alone Stop s s
| al_do {A : Set} (a : map_access A) k s s' :
    alone (k (snd (run_access a s))) (fst (run_access a s)) s' → alone (Do a k) s s'
| al_scan k post s s' : alone (k post) s s' → alone (ScanFile k) s s'
| al_ready k b s s' : alone (k b) s s' → alone (WaitReady k) s s'
| al_unsent cb k s s' : alone k s s' → alone (Forward cb k) s s'
| al_sent cb k s s1 s' : alone cb s s1 → alone k s1 s' → alone (Forward cb k) s s'
| al_send k s s' : alone k s s' → alone (Send k) s s'
| al_output k ret s s' : alone (k ret) s s' → alone (Output k) s s'.

Lemma alone_found m key k s s' v :
  table_of m s !! key = Some v → alone (k true) s s' → alone (Do (Find m key) k) s s'.
Proof. intros Hv Hk. apply al_do. simpl. rewrite Hv. by rewrite bool_decide_true. Qed.

Lemma alone_absent m key k s s' :
  table_of m s !! key = None → alone (k false) s s' → alone (Do (Find m key) k) s s'.
Proof. intros Hv Hk. apply al_do. simpl. rewrite Hv. by rewrite bool_decide_false by (by intros []). Qed.

Lemma alone_index m key k s s' v :
  table_of m s !! key = Some v → alone (k v) s s' → alone (Do (Index m key) k) s s'.
Proof. intros Hv Hk. apply al_do. simpl. by rewrite Hv. Qed.

Section calls.
Context {H : Mercury} {W : Type} {T : Transport H W}.
Context (E : environment).

(** Everything but the tables and the settings may change. *)
Definition hushed (c c' : client) : Prop := tables_of c' = tables_of c ∧ cl_conf c' = cl_conf c.

#[local] Instance hushed_preorder : PreOrder hushed.
Proof. split; [done|]. intros c1 c2 c3 [? ?] [? ?]. split; congruence. Qed.

Ltac hushed_tac :=
  repeat lazymatch goal with
  | |- keeps _ (_ ≫= _) => apply keeps_bind; [typeclasses eauto| |intros ?]
  | |- keeps _ (mret _) => apply keeps_mret; typeclasses eauto
  | |- keeps _ (fail _) => apply keeps_fail
  | |- keeps _ (assert_true _) => apply keeps_assert; typeclasses eauto
  | |- keeps _ (gets _) => apply keeps_gets; typeclasses eauto
  | |- keeps _ (client_gets _) => apply keeps_gets; typeclasses eauto
  | |- keeps _ (remote _) => apply keeps_remote; typeclasses eauto
  | |- keeps _ (client_sys _) => apply keeps_sys; intros [] ? ? _; by split
  | |- keeps _ (upd _) => apply keeps_upd; intros []; by split
  | |- keeps _ (match ?x with _ => _ end) => destruct x
  end.

Lemma create_hushed a : keeps (W:=W) hushed (hvac_comm_create_handle a).
Proof. unfold hvac_comm_create_handle. hushed_tac. Qed.

Lemma free_hushed a : keeps (W:=W) hushed (hvac_comm_free_addr a).
Proof. unfold hvac_comm_free_addr. hushed_tac. Qed.

Lemma map_hushed func : keeps (W:=W) hushed (MAP_OR_FAIL E func).
Proof. unfold MAP_OR_FAIL. hushed_tac. Qed.

Lemma count_hushed k s f : keeps (W:=W) hushed (count_call k s f).
Proof. unfold count_call. hushed_tac. Qed.

(** An address lookup changes only its table. *)
Lemma lookup_alone rank (w w' : world W) a :
  hvac_client_comm_lookup_addr (getenv E) (read_ahead E) rank w = Ret (w', a) →
  fd_map (cl w') = fd_map (cl w) ∧ fd_redir_map (cl w') = fd_redir_map (cl w) ∧
  cl_conf (cl w') = cl_conf (cl w) ∧
  ∀ k s', alone k (tables_of (cl w')) s' → alone (lookup_addr_accesses rank k) (tables_of (cl w)) s'.
Proof.
  intros Hr. unfold hvac_client_comm_lookup_addr in Hr. bind_in Hr w1 cache E1.
  unfold client_gets, gets in E1. injection E1 as <- <-.
  destruct (address_cache (cl w) !! rank) as [t|] eqn:Hc.
  - bind_in Hr w2 n E2. unfold gets in E2. injection E2 as <- _. apply mret_Ret in Hr as [-> _].
    split_and!; try done. intros k s' Hk. by eapply (alone_found AddressCache), (alone_index AddressCache).
  - bind_in Hr w2 fd E2.
    assert (Hh : hushed (cl w) (cl w2)).
    { eapply (keeps_sys hushed); [|exact E2]. intros [] ? ? _. by split. }
    destruct (fd =? -1); [done|]. bind_in Hr w3 os E3. unfold client_gets, gets in E3.
    injection E3 as <- <-. bind_in Hr w3 x E4.
    assert (Hh3 : hushed (cl w2) (cl w3)).
    { eapply (keeps_sys hushed); [|exact E4]. intros [] ? ? _. by split. }
    clear E4. assert (Hh' : hushed (cl w) (cl w3)) by (by etrans).
    clear Hh Hh3. rename Hh' into Hh. destruct Hh as [Ht Hco]. injection Ht as H1 H2 H3.
    destruct (lookup_in_file _ _) as [svr|] eqn:Hl.
    + bind_in Hr w4 u E4. apply upd_Ret in E4 as ->. bind_in Hr w5 n E5. unfold gets in E5.
      injection E5 as <- _. apply mret_Ret in Hr as [-> _].
      destruct w as [c n0], w3 as [[] ?]. simpl in *. subst. split_and!; try done.
      intros k s' Hk. apply (alone_absent AddressCache); [done|]. apply (al_scan _ (Some svr)).
      apply al_do. exact Hk.
    + apply mret_Ret in Hr as [-> _]. split_and!; try done.
      intros k s' Hk. apply (alone_absent AddressCache); [done|]. apply (al_scan _ None).
      unfold tables_of in *. by rewrite H1, H2, H3 in Hk.
Qed.

(** What a hushed computation leaves. *)
Lemma hushed_tables {A} (m : St (world W) A) w w' a :
  keeps hushed m → m w = Ret (w', a) →
  tables_of (cl w') = tables_of (cl w) ∧ cl_conf (cl w') = cl_conf (cl w).
Proof. intros Hm Hr. by eapply Hm. Qed.

Ltac hush Hr lem :=
  let Ht := fresh "Ht" in let Hc := fresh "Hc" in
  destruct (hushed_tables _ _ _ _ lem Hr) as [Ht Hc].

Lemma open_cb_alone fd out (w w' : world W) u :
  hvac_open_cb fd out w = Ret (w', u) →
  cl_conf (cl w') = cl_conf (cl w) ∧ alone (open_cb_accesses fd) (tables_of (cl w)) (tables_of (cl w')).
Proof.
  intros Hr. unfold hvac_open_cb in Hr. unfold open_cb_accesses.
  destruct (0 <? ret_status out) eqn:Hlt.
  - bind_in Hr w1 u1 E1. apply upd_Ret in E1 as ->. apply upd_Ret in Hr as ->.
    destruct w as [[] ?]. split; [done|]. apply (al_output _ (ret_status out)). rewrite Hlt.
    apply al_do. apply al_stop.
  - apply upd_Ret in Hr as ->. destruct w as [[] ?]. split; [done|].
    apply (al_output _ (ret_status out)). rewrite Hlt. apply al_stop.
Qed.

Lemma open_rpc_alone svr_hash path fd (w w' : world W) r :
  hvac_client_comm_gen_open_rpc (getenv E) (read_ahead E) svr_hash path fd w = Ret (w', r) →
  cl_conf (cl w') = cl_conf (cl w) ∧
  alone (open_rpc_accesses (to_int32 svr_hash) fd) (tables_of (cl w)) (tables_of (cl w')).
Proof.
  intros Hr. unfold hvac_client_comm_gen_open_rpc in Hr.
  bind_in Hr w1 u1 E1. apply upd_Ret in E1 as ->.
  bind_in Hr w2 a E2. apply lookup_alone in E2 as (_ & _ & Hc2 & Hk).
  bind_in Hr w3 u3 E3. hush E3 (create_hushed a).
  bind_in Hr w4 rep E4. apply remote_Ret in E4 as [Hcl%(f_equal cl) _]. simpl in Hcl.
  assert (Hw : ∀ t, alone (Forward (open_cb_accesses (to_int32 (to_uint32 fd))) Stop) (tables_of (cl w4)) t →
    alone (open_rpc_accesses (to_int32 svr_hash) fd) (tables_of (cl w)) t).
  { intros t Ha. rewrite Hcl, Ht in Ha. apply Hk in Ha. destruct w as [[] ?]. exact Ha. }
  assert (Hco : cl_conf (cl w4) = cl_conf (cl w)).
  { rewrite Hcl, Hc, Hc2. by destruct w as [[] ?]. }
  destruct rep as [|out| |]; [| |done|].
  - bind_in Hr w5 u5 E5. apply upd_Ret in E5 as ->. bind_in Hr w6 u6 E6. hush E6 (free_hushed a).
    apply mret_Ret in Hr as [-> _]. split; [rewrite Hc0; by destruct w4 as [[] ?]|].
    apply Hw, al_unsent. rewrite Ht0. destruct w4 as [[] ?]. apply al_stop.
  - bind_in Hr w5 u5 E5. hush E5 (free_hushed a). bind_in Hr w6 u6 E6. apply open_cb_alone in E6 as [Hc6 Ha].
    apply mret_Ret in Hr as [-> _]. split; [congruence|].
    apply Hw. eapply al_sent; [rewrite <-Ht0; exact Ha|apply al_stop].
  - by bind_in Hr w5 u5 E5.
Qed.

Lemma read_rpc_alone returns svr_hash fd buf count off (w w' : world W) r :
  hvac_client_comm_gen_read_rpc (getenv E) (read_ahead E) returns svr_hash fd buf count off w = Ret (w', r) →
  cl_conf (cl w') = cl_conf (cl w) ∧
  alone (read_rpc_accesses (to_int32 svr_hash) fd) (tables_of (cl w)) (tables_of (cl w')).
Proof.
  intros Hr. unfold hvac_client_comm_gen_read_rpc in Hr.
  bind_in Hr w1 st E1. unfold client_gets, gets in E1. injection E1 as <- <-.
  destruct (hvac_wait_fd_ready _ _ _) eqn:Hready; simpl in Hr.
  2:{ apply mret_Ret in Hr as [-> _]. split; [done|]. apply (al_ready _ false), al_stop. }
  bind_in Hr w2 redir E2. unfold client_gets, gets in E2. injection E2 as <- <-.
  destruct (fd_redir_map (cl w) !! fd) as [rfd|] eqn:Hrd.
  2:{ apply mret_Ret in Hr as [-> _]. split; [done|].
      apply (al_ready _ true). by apply (alone_absent FdRedirMap); [|apply al_stop]. }
  destruct (rfd =? 0) eqn:Hz.
  { apply mret_Ret in Hr as [-> _]. split; [done|]. apply (al_ready _ true).
    eapply (alone_found FdRedirMap), (alone_index FdRedirMap); [exact Hrd..|].
    rewrite Hz. apply al_stop. }
  bind_in Hr w3 a E3. apply lookup_alone in E3 as (_ & Hr3 & Hc3 & Hk).
  assert (Hw : ∀ t, alone (Forward read_cb_accesses Stop) (tables_of (cl w3)) t →
    alone (read_rpc_accesses (to_int32 svr_hash) fd) (tables_of (cl w)) t).
  { intros t Ha. apply (al_ready _ true).
    eapply (alone_found FdRedirMap), (alone_index FdRedirMap); [exact Hrd..|]. rewrite Hz.
    apply Hk. eapply (alone_index FdRedirMap); [|exact Ha]. simpl. by rewrite Hr3. }
  assert_in Hr. bind_in Hr w4 u4 E4. hush E4 (create_hushed a).
  destruct (hg_bulk_create _) as [ret bulk]. assert_in Hr.
  bind_in Hr w5 rep E5. apply remote_Ret in E5 as [Hcl%(f_equal cl) _]. simpl in Hcl.
  destruct rep as [|[out pushed]| |]; [| |done|].
  - bind_in Hr w6 u6 E6. hush E6 (free_hushed a). apply mret_Ret in Hr as [-> _].
    split; [congruence|]. apply Hw, al_unsent. rewrite Ht0, Hcl, Ht. apply al_stop.
  - bind_in Hr w6 u6 E6. hush E6 (free_hushed a). bind_in Hr w7 n E7. apply mret_Ret in Hr as [-> _].
    assert (Hcb : keeps (W:=W) hushed (hvac_read_cb out)).
    { unfold hvac_read_cb, release_asserted. hushed_tac. }
    hush E7 Hcb. split; [congruence|]. apply Hw.
    eapply al_sent; [apply (al_output _ 0), al_stop|].
    rewrite Ht1, Ht0, Hcl, Ht. apply al_stop.
  - by bind_in Hr w6 u6 E6.
Qed.

Lemma close_rpc_alone svr_hash fd (w w' : world W) u :
  hvac_client_comm_gen_close_rpc (getenv E) (read_ahead E) svr_hash fd w = Ret (w', u) →
  cl_conf (cl w') = cl_conf (cl w) ∧
  ∀ k s', alone k (tables_of (cl w')) s' →
    alone (close_rpc_accesses (to_int32 svr_hash) fd k) (tables_of (cl w)) s'.
Proof.
  intros Hr. unfold hvac_client_comm_gen_close_rpc in Hr.
  bind_in Hr w1 a E1. apply lookup_alone in E1 as (_ & _ & Hc1 & Hlookup).
  bind_in Hr w2 u2 E2. hush E2 (create_hushed a).
  bind_in Hr w3 redir E3. unfold client_gets, gets in E3. injection E3 as <- <-.
  bind_in Hr w4 u4 E4. bind_in Hr w5 u5 E5. apply upd_Ret in E5 as ->. hush Hr (free_hushed a).
  assert (Hend : tables_of (cl w') = tables_of (cl w4) ∧ cl_conf (cl w') = cl_conf (cl w4)).
  { rewrite Ht0, Hc0. by destruct w4 as [[] ?]. }
  destruct Hend as [Ht' Hc']. clear Ht0 Hc0.
  destruct (fd_redir_map (cl w2) !! fd) as [rfd|] eqn:Hrd.
  - destruct (rfd =? 0) eqn:Hz.
    + apply mret_Ret in E4 as [-> _]. split; [congruence|]. intros k s' Hk. apply Hlookup. rewrite <-Ht.
      eapply (alone_found FdRedirMap), (alone_index FdRedirMap); [exact Hrd..|]. by rewrite Hz, <-Ht'.
    + bind_in E4 w6 r6 E6. apply remote_Ret in E6 as [Hcl%(f_equal cl) _]. simpl in Hcl.
      apply upd_Ret in E4 as ->. split.
      { rewrite Hc'. trans (cl_conf (cl w6)); [by destruct w6 as [[] ?]|congruence]. }
      intros k s' Hk. apply Hlookup. rewrite <-Ht.
      eapply (alone_found FdRedirMap), (alone_index FdRedirMap); [exact Hrd..|]. rewrite Hz.
      eapply (alone_index FdRedirMap); [exact Hrd|]. apply al_send, al_do. simpl.
      rewrite Ht' in Hk. destruct w6 as [[] ?]. simpl in Hcl. by rewrite <-Hcl.
  - apply mret_Ret in E4 as [-> _]. split; [congruence|]. intros k s' Hk. apply Hlookup. rewrite <-Ht.
    by apply (alone_absent FdRedirMap); [|rewrite <-Ht'].
Qed.

(** ** Whole calls *)

Abbreviation accesses_of w c := (call_prog (hash E) (g_hvac_server_count (cl_conf (cl w))) c).

Lemma host_run path (w w' : world W) h :
  host_of_path E path w = Ret (w', h) →
  w' = w ∧ h = host (hash E) (g_hvac_server_count (cl_conf (cl w))) path.
Proof.
  intros Hr. unfold host_of_path in Hr. bind_in Hr w1 c E1. unfold client_gets, gets in E1.
  injection E1 as <- <-. destruct (_ =? 0); [done|]. by apply mret_Ret in Hr as [-> ->].
Qed.

Lemma host_fd_run fd (w w' : world W) path h :
  fd_map (cl w) !! fd = Some path → host_of_fd E fd w = Ret (w', h) →
  w' = w ∧ h = host (hash E) (g_hvac_server_count (cl_conf (cl w))) path.
Proof.
  intros Hp Hr. unfold host_of_fd in Hr. bind_in Hr w1 m E1. unfold client_gets, gets in E1.
  injection E1 as <- <-. rewrite Hp in Hr. by apply host_run in Hr.
Qed.

Lemma tracked_reads fd (w w' : world W) b :
  hvac_file_tracked fd w = Ret (w', b) → w' = w ∧ b = bool_decide (is_Some (fd_map (cl w) !! fd)).
Proof.
  intros Hr. unfold hvac_file_tracked in Hr. bind_in Hr w1 m E1. unfold client_gets, gets in E1.
  injection E1 as <- <-. by apply mret_Ret in Hr as [-> ->].
Qed.

Lemma remote_read_alone returns fd buf count (w w' : world W) r :
  hvac_remote_read E returns fd buf count w = Ret (w', r) →
  alone (remote_read_accesses (hash E) (g_hvac_server_count (cl_conf (cl w))) fd)
    (tables_of (cl w)) (tables_of (cl w')).
Proof.
  intros Hr. unfold hvac_remote_read in Hr. bind_in Hr w1 b E1. apply tracked_reads in E1 as [-> ->].
  case_bool_decide as Ht.
  - destruct Ht as [path Hp]. bind_in Hr w2 h E2. apply (host_fd_run _ _ _ path) in E2 as [-> ->]; [|done].
    eapply (alone_found FdMap), (alone_index FdMap); [exact Hp..|]. apply read_rpc_alone in Hr as [_ Hr]. exact Hr.
  - apply mret_Ret in Hr as [-> _]. apply (alone_absent FdMap); [|apply al_stop].
    by apply eq_None_not_Some.
Qed.

Lemma remote_pread_alone returns fd buf count off path (w w' : world W) r :
  fd_map (cl w) !! fd = Some path → hvac_remote_pread E returns fd buf count off w = Ret (w', r) →
  alone (remote_pread_accesses (hash E) (g_hvac_server_count (cl_conf (cl w))) fd)
    (tables_of (cl w)) (tables_of (cl w')).
Proof.
  intros Hp Hr. unfold hvac_remote_pread in Hr. bind_in Hr w1 b E1. apply tracked_reads in E1 as [-> ->].
  rewrite bool_decide_true in Hr by (by eexists). simpl in Hr.
  eapply (alone_found FdMap); [exact Hp|]. bind_in Hr w2 rfd E2.
  assert (Hidx : fd_map (cl w2) !! fd = Some path ∧ cl_conf (cl w2) = cl_conf (cl w) ∧
    run_access (Index FdRedirMap fd) (tables_of (cl w)) = (tables_of (cl w2), rfd)).
  { unfold index_redir, client_gets in E2. unfold_st_in E2. cbn [run_access table_of tables_of t_fd_redir_map value].
    destruct (fd_redir_map (cl w) !! fd); injection E2 as <- <-; [done|]. destruct w as [[] ?]. done. }
  destruct Hidx as (Hp2 & Hc2 & Hidx). apply al_do. rewrite Hidx. cbn [fst snd].
  destruct (rfd =? 0).
  - apply mret_Ret in Hr as [-> _]. apply al_stop.
  - bind_in Hr w3 h E3. apply (host_fd_run _ _ _ path) in E3 as [-> ->]; [|done].
    rewrite Hc2 in Hr. eapply (alone_index FdMap); [exact Hp2|]. apply read_rpc_alone in Hr as [_ Hr]. exact Hr.
Qed.

Lemma remove_fd_alone fd path (w w' : world W) b :
  fd_map (cl w) !! fd = Some path → hvac_remove_fd E fd w = Ret (w', b) →
  alone (remove_fd_accesses (hash E) (g_hvac_server_count (cl_conf (cl w))) fd)
    (tables_of (cl w)) (tables_of (cl w')).
Proof.
  intros Hp Hr. unfold hvac_remove_fd in Hr. bind_in Hr w1 u1 E1.
  bind_in Hr w2 b2 E2. apply tracked_reads in E2 as [-> _]. bind_in Hr w3 u3 E3. apply upd_Ret in E3 as ->.
  apply mret_Ret in Hr as [-> _]. unfold hvac_remote_close in E1. bind_in E1 w4 b4 E4.
  apply tracked_reads in E4 as [-> ->]. rewrite bool_decide_true in E1 by (by eexists).
  bind_in E1 w5 h E5. apply (host_fd_run _ _ _ path) in E5 as [-> ->]; [|done].
  apply close_rpc_alone in E1 as [_ Hk].
  eapply (alone_found FdMap), (alone_index FdMap); [exact Hp..|]. apply Hk, al_do.
  destruct w1 as [[] ?]. apply al_stop.
Qed.

Lemma track_file_alone path flags fd (w w' : world W) b :
  hvac_track_file E path flags fd w = Ret (w', b) →
  match eligible E (cl_conf (cl w)) path flags with
  | Some full => alone (accesses_of w (COpen full fd)) (tables_of (cl w)) (tables_of (cl w'))
  | None => tables_of (cl w') = tables_of (cl w)
  end.
Proof.
  intros Hr. unfold hvac_track_file in Hr. unfold eligible.
  destruct (has_substring _ path); [by apply mret_Ret in Hr as [-> _]|].
  destruct (Z.land flags O_ACCMODE =? O_WRONLY); [by apply mret_Ret in Hr as [-> _]|].
  destruct (has_flag flags O_APPEND); [by apply mret_Ret in Hr as [-> _]|]. cbn [orb].
  bind_in Hr w1 c E1. unfold client_gets, gets in E1. injection E1 as <- <-.
  destruct (tracked_path E _ path) as [full|]; [|by apply mret_Ret in Hr as [-> _]].
  bind_in Hr w2 u2 E2. apply upd_Ret in E2 as ->.
  bind_in Hr w3 g E3. unfold client_gets, gets in E3. injection E3 as <- <-.
  bind_in Hr w4 u4 E4.
  assert (Hh : tables_of (cl w4) = set_table FdMap (<[fd := full]> (fd_map (cl w))) (tables_of (cl w)) ∧
    cl_conf (cl w4) = cl_conf (cl w)).
  { destruct (g_mercury_init _).
    - apply mret_Ret in E4 as [-> _]. by destruct w as [[] ?].
    - unfold zoom in E4. destruct (hvac_init_comm _ _ _ _) as [[k u]|]; [|done].
      injection E4 as <-. by destruct w as [[] ?]. }
  destruct Hh as [Ht Hc]. bind_in Hr w5 h E5. apply host_run in E5 as [-> ->]. rewrite Hc in Hr.
  bind_in Hr w6 r E6. apply open_rpc_alone in E6 as [_ Ha]. apply mret_Ret in Hr as [-> _].
  apply al_do.
  replace (fst (run_access (Assign FdMap fd full) (tables_of (cl w)))) with (tables_of (cl w4)) by done.
  assert (Hl : table_of FdMap (tables_of (cl w4)) !! fd = Some full).
  { rewrite Ht. apply lookup_insert_eq. }
  eapply (alone_index FdMap); [exact Hl|]. eapply (alone_index FdMap); [exact Hl|]. exact Ha.
Qed.

(** The sequence of accesses an intercepted call makes, if it comes to the
    tables at all: from its settings and, for an open, its result. *)
Definition table_call_of (c : config) (op : file_op) (a : Z * bytes) : option table_call :=
  let off := g_disable_redirect c || tl_disable_redirect c in
  match op with
  | OpOpen path flags =>
      if off || (fst a =? -1) then None else (λ full, COpen full (fst a)) <$> eligible E c path flags
  | OpRead fd _ => Some (CRead fd)
  | OpPread fd _ _ => Some (CPread fd)
  | OpClose fd => if off then None else Some (CClose fd)
  end.

Lemma redirect_run (w w' : world W) b :
  redirect_disabled w = Ret (w', b) →
  w' = w ∧ b = g_disable_redirect (cl_conf (cl w)) || tl_disable_redirect (cl_conf (cl w)).
Proof.
  intros Hr. unfold redirect_disabled in Hr. bind_in Hr w1 c E1. unfold client_gets, gets in E1.
  injection E1 as <- <-. by apply mret_Ret in Hr as [-> ->].
Qed.

Lemma get_path_run fd (w w' : world W) p :
  Client.hvac_get_path fd w = Ret (w', p) → w' = w ∧ p = fd_map (cl w) !! fd.
Proof.
  intros Hr. unfold Client.hvac_get_path in Hr. bind_in Hr w1 c E1. unfold client_gets, gets in E1.
  injection E1 as <- <-. by apply mret_Ret in Hr as [-> ->].
Qed.

Lemma sys_hushed {A} (f : posix → posix * A) : keeps (W:=W) hushed (client_sys f).
Proof. hushed_tac. Qed.

Lemma wrap_open_alone path flags st fi (w w' : world W) fd :
  wrap_open E path flags st fi w = Ret (w', fd) →
  match table_call_of (cl_conf (cl w)) (OpOpen path flags) (fd, []) with
  | Some c => alone (accesses_of w c) (tables_of (cl w)) (tables_of (cl w'))
  | None => tables_of (cl w') = tables_of (cl w)
  end.
Proof.
  intros Hr. unfold wrap_open in Hr. bind_in Hr w1 u1 E1. hush E1 (map_hushed "open").
  bind_in Hr w2 off E2. apply redirect_run in E2 as [-> ->]. rewrite Hc in Hr.
  rewrite <-Hc in Hr |- *. cbn [table_call_of fst]. rewrite <-Ht.
  destruct (g_disable_redirect _ || _); [hush Hr (sys_hushed (os_open path flags)); by rewrite Ht0|].
  bind_in Hr w3 ret E3. hush E3 (sys_hushed (os_open path flags)).
  destruct (ret =? -1) eqn:Hret; [apply mret_Ret in Hr as [-> ->]; by rewrite Hret|].
  bind_in Hr w4 tracked E4. apply track_file_alone in E4. bind_in Hr w5 u5 E5. hush E5 (count_hushed
    (if tracked : bool then SOpen else if has_substring data_prefix path then SOpenData else SOpenSystem) st fi).
  apply mret_Ret in Hr as [-> ->]. rewrite Hret, Ht1. rewrite Hc0, Ht0 in E4.
  destruct (eligible E (cl_conf (cl w1)) path flags); exact E4.
Qed.

Lemma wrap_close_alone fd st fi (w w' : world W) r :
  wrap_close E fd st fi w = Ret (w', r) →
  match table_call_of (cl_conf (cl w)) (OpClose fd) (r, []) with
  | Some c => alone (accesses_of w c) (tables_of (cl w)) (tables_of (cl w'))
  | None => tables_of (cl w') = tables_of (cl w)
  end.
Proof.
  intros Hr. unfold wrap_close in Hr. bind_in Hr w1 u1 E1. hush E1 (map_hushed "close").
  bind_in Hr w2 off E2. apply redirect_run in E2 as [-> ->].
  rewrite <-Hc. cbn [table_call_of fst]. rewrite <-Ht.
  destruct (g_disable_redirect _ || _); [hush Hr (sys_hushed (os_close fd)); by rewrite Ht0|].
  bind_in Hr w3 p E3. apply get_path_run in E3 as [-> ->]. bind_in Hr w4 u4 E4.
  bind_in Hr w5 ret E5. hush E5 (sys_hushed (os_close fd)).
  assert (Hend : tables_of (cl w') = tables_of (cl w4)).
  { destruct (ret =? 0); simpl in Hr; [|by apply mret_Ret in Hr as [-> _]].
    bind_in Hr w6 u6 E6. hush E6 (count_hushed SClose st fi). apply mret_Ret in Hr as [-> _]. congruence. }
  rewrite Hend. cbn [call_prog]. destruct (fd_map (cl w1) !! fd) as [path|] eqn:Hp.
  - bind_in E4 w6 b6 E6. apply mret_Ret in E4 as [-> _]. apply (remove_fd_alone fd path) in E6; [|done].
    eapply (alone_found FdMap), (alone_index FdMap); [exact Hp..|exact E6].
  - apply mret_Ret in E4 as [-> _]. by apply (alone_absent FdMap); [|apply al_stop].
Qed.

Lemma wrap_read_alone returns fd count st fi (w w' : world W) r :
  wrap_read E returns fd count st fi w = Ret (w', r) →
  alone (accesses_of w (CRead fd)) (tables_of (cl w)) (tables_of (cl w')).
Proof.
  intros Hr. unfold wrap_read in Hr. bind_in Hr w1 u1 E1. hush E1 (map_hushed "read").
  bind_in Hr w2 a E2. apply remote_read_alone in E2. bind_in Hr w3 rs E3. bind_in Hr w4 u4 E4.
  hush E4 (count_hushed SRead st fi). apply mret_Ret in Hr as [-> _].
  assert (Hend : tables_of (cl w3) = tables_of (cl w2)).
  { destruct (to_int32 (fst a) =? -1); [|by apply mret_Ret in E3 as [-> _]].
    bind_in E3 w5 l E5. hush E5 (sys_hushed (os_read fd count)). by apply mret_Ret in E3 as [-> _]. }
  rewrite Ht0, Hend. rewrite Ht, Hc in E2. cbn [call_prog].
  destruct (fd_map (cl w) !! fd) as [path|] eqn:Hp.
  - eapply (alone_found FdMap), (alone_index FdMap); [exact Hp..|exact E2].
  - by apply (alone_absent FdMap).
Qed.

Lemma wrap_pread_alone returns fd count off st fi (w w' : world W) r :
  wrap_pread E returns fd count off st fi w = Ret (w', r) →
  alone (accesses_of w (CPread fd)) (tables_of (cl w)) (tables_of (cl w')).
Proof.
  intros Hr. unfold wrap_pread in Hr. bind_in Hr w1 u1 E1. hush E1 (map_hushed "pread").
  bind_in Hr w2 p E2. apply get_path_run in E2 as [-> ->].
  rewrite <-Ht, <-Hc. cbn [call_prog]. destruct (fd_map (cl w1) !! fd) as [path|] eqn:Hp.
  - bind_in Hr w2 a E2. apply (remote_pread_alone _ _ _ _ _ path) in E2; [|done].
    bind_in Hr w3 rs E3. bind_in Hr w4 u4 E4.
    hush E4 (count_hushed SPread st fi). apply mret_Ret in Hr as [-> _].
    assert (Hend : tables_of (cl w3) = tables_of (cl w2)).
    { destruct (fst a =? -1); [|by apply mret_Ret in E3 as [-> _]].
      bind_in E3 w5 l E5. hush E5 (sys_hushed (λ p, (p, os_pread fd count off p))).
      by apply mret_Ret in E3 as [-> _]. }
    rewrite Ht0, Hend. eapply (alone_found FdMap), (alone_index FdMap); [exact Hp..|exact E2].
  - hush Hr (sys_hushed (λ p, (p, os_pread fd count off p))). rewrite Ht0.
    by apply (alone_absent FdMap); [|apply al_stop].
Qed.

(** ** Property *)

(** C27. The sequences of accesses are the code's: whatever an intercepted call
    answers, what it has done to fd_map, fd_redir_map and address_cache is
    what its sequence does, one access after the other, for some answers of
    the servers and of the address file; a call outside the library's
    business does nothing to them. *)
Theorem accesses_are_the_calls op tm (w w' : world W) a :
  hvac_op E op tm w = Ret (w', a) →
  match table_call_of (cl_conf (cl w)) op a with
  | Some c => alone (accesses_of w c) (tables_of (cl w)) (tables_of (cl w'))
  | None => tables_of (cl w') = tables_of (cl w)
  end.
Proof.
  intros Hr. destruct op as [path flags|fd count|fd count off|fd]; cbn [hvac_op] in Hr.
  - bind_in Hr w1 fd E1. apply wrap_open_alone in E1. by apply mret_Ret in Hr as [-> ->].
  - by eapply wrap_read_alone.
  - by eapply wrap_pread_alone.
  - bind_in Hr w1 r E1. apply wrap_close_alone in E1. by apply mret_Ret in Hr as [-> ->].
Qed.

End calls.
