(* ===== verification/Cut.v ===== *)
(** * Calls cut at their waits

    An intercepted call lets other threads run where it waits: in
    hvac_wait_fd_ready while another thread's open of the descriptor is not
    answered, and in hvac_wait_for_operation after HG_Forward. This file cuts
    the wrappers of [src/src/wrappers.c] and the stubs of
    [src/src/mthvac_comm_client.cpp] there, and proves that the pieces, one
    after the other, are the calls of [Wrappers.v]. A close has no wait: its
    request has no callback. The part of an open before its wait contains the
    start of Mercury, if the process has not started it; [Boot.v] cuts the open
    there too. *)

From S2P Require Import Prelude CText Posix Wire AddrFile FdState Comm Stats.
From S2P Require Import ClientComm ClientCommProps Client Wrappers Service Sim.

Local Open Scope Z_scope.

Section cut.
Context {H : Mercury} {W : Type} {T : Transport H W}.
Context (E : environment).

(** ** The pieces *)

Inductive message : Type :=
| ReadRequest (inp : hvac_rpc_in_t H)
| OpenRequest (inp : hvac_open_in_t).

(** Where a call stands when it first lets others run: it is over; its
    wrapper goes on with the result of the remote part; it sleeps on the
    descriptor's status object; its request is on its way. *)
Inductive begun : Type :=
| Over (a : Z * bytes)
| GoOn (fd : Z) (r : Z * bytes)
| Waits (fd : Z) (status : positive) (svr_hash count offset : Z)
| Forwarded (fd : Z) (svr_addr : option hg_addr) (m : message).

(** hvac_client_comm_gen_read_rpc between its two waits: [None] is the answer
    -1 without a request. *)
Definition read_rpc_rest (svr_hash localfd : Z) (buffer : bool) (count offset : Z) :
    St (world W) (option (option hg_addr * hvac_rpc_in_t H)) :=
  redir ← client_gets fd_redir_map;
  match redir !! localfd with
  | None => mret None
  | Some remote_fd =>
      if remote_fd =? 0 then mret None
      else
      svr_addr ← hvac_client_comm_lookup_addr (getenv E) (read_ahead E) (to_int32 svr_hash);
      assert_true buffer ;;
      hvac_comm_create_handle svr_addr ;;
      let '(ret, bulk) := hg_bulk_create (to_uint64 count) in
      assert_true (ret =? HG_SUCCESS) ;;
      mret (Some (svr_addr, mk_rpc_in count bulk remote_fd offset))
  end.

Definition read_begun (fd : Z) (x : option (option hg_addr * hvac_rpc_in_t H)) : begun :=
  match x with
  | Some (a, inp) => Forwarded fd a (ReadRequest inp)
  | None => GoOn fd (-1, [])
  end.

(** Its first part: the test of the descriptor's state. *)
Definition read_rpc_begin (svr_hash localfd : Z) (buffer : bool) (count offset : Z) :
    St (world W) begun :=
  st ← client_gets fd_states;
  match hvac_get_fd_status localfd st with
  | None => mret (GoOn localfd (-1, []))
  | Some status =>
      match fd_heap st !! status with
      | Some HVAC_FD_READY =>
          x ← read_rpc_rest svr_hash localfd buffer count offset; mret (read_begun localfd x)
      | Some HVAC_FD_OPENING => mret (Waits localfd status svr_hash count offset)
      | _ => mret (GoOn localfd (-1, []))
      end
  end.

(** hvac_client_comm_gen_open_rpc up to its HG_Forward. *)
Definition open_rpc_begin (svr_hash : Z) (path : string) (fd : Z) :
    St (world W) (option hg_addr * hvac_open_in_t) :=
  upd (λ c, set_fd_states (hvac_set_fd_opening fd (fd_states c)) c) ;;
  svr_addr ← hvac_client_comm_lookup_addr (getenv E) (read_ahead E) (to_int32 svr_hash);
  hvac_comm_create_handle svr_addr ;;
  mret (svr_addr, {| open_path := path |}).

(** hvac_track_file up to there; an untracked file has the result -1. *)
Definition track_begin (path : string) (flags fd : Z) : St (world W) begun :=
  if has_substring ".ports.cfg." path then mret (GoOn fd (-1, []))
  else if Z.land flags O_ACCMODE =? O_WRONLY then mret (GoOn fd (-1, []))
  else if has_flag flags O_APPEND then mret (GoOn fd (-1, []))
  else
    c ← client_gets cl_conf;
    match tracked_path E (hvac_data_dir c) path with
    | None => mret (GoOn fd (-1, []))
    | Some full =>
        upd (λ c, set_fd_map (<[fd := full]> (fd_map c)) c) ;;
        g ← client_gets g_mercury_init;
        (if g : bool then mret tt
         else zoom (λ w, cl_comm (cl w)) (λ k w, set_cl (set_comm k true (cl w)) w)
                   (hvac_init_comm false (getenv E "SLURM_PROCID") (init_res E))) ;;
        host ← host_of_path E full;
        '(a, inp) ← open_rpc_begin (to_uint32 host) full fd;
        mret (Forwarded fd a (OpenRequest inp))
    end.

(** The wrappers up to their first wait. *)
Definition op_begin (op : file_op) (tm : timing) : St (world W) begun :=
  match op with
  | OpOpen path flags =>
      MAP_OR_FAIL E "open" ;;
      off ← redirect_disabled;
      if off : bool then fd ← client_sys (os_open path flags); mret (Over (fd, []))
      else
        fd ← client_sys (os_open path flags);
        if fd =? -1 then mret (Over (fd, []))
        else track_begin path flags fd
  | OpRead fd count =>
      MAP_OR_FAIL E "read" ;;
      tracked ← hvac_file_tracked fd;
      if tracked : bool then
        host ← host_of_fd E fd;
        read_rpc_begin (to_uint32 host) fd true (to_int64 count) (-1)
      else mret (GoOn fd (-1, []))
  | OpPread fd count offset =>
      MAP_OR_FAIL E "pread" ;;
      path ← hvac_get_path fd;
      match path : option string with
      | Some _ =>
          tracked ← hvac_file_tracked fd;
          if negb tracked then mret (GoOn fd (-1, []))
          else
            redir ← index_redir fd;
            if redir =? 0 then mret (GoOn fd (-1, []))
            else
              host ← host_of_fd E fd;
              read_rpc_begin (to_uint32 host) fd true (to_int64 count) offset
      | None =>
          a ← client_sys (λ p, (p, os_pread fd count offset p)); mret (Over a)
      end
  | OpClose fd => a ← hvac_op E op tm; mret (Over a)
  end.

(** The wrappers from the result [r] of the remote part on; an open answers
    the local descriptor whatever its server said. *)
Definition op_end (op : file_op) (tm : timing) (fd : Z) (r : Z * bytes) :
    St (world W) (Z * bytes) :=
  match op with
  | OpOpen path flags =>
      count_call (if negb (fst r <? 0) then SOpen
                  else if has_substring data_prefix path then SOpenData else SOpenSystem)
        (t_start tm) (t_finish tm) ;;
      mret (fd, [])
  | OpRead _ count =>
      res ← (if to_int32 (fst r) =? -1
             then l ← client_sys (os_read fd count);
                  mret (to_int32 (fst l), overlay (snd l) (snd r))
             else mret (to_int32 (fst r), snd r));
      count_call SRead (t_start tm) (t_finish tm) ;;
      mret res
  | OpPread _ count offset =>
      res ← (if fst r =? -1
             then l ← client_sys (λ p, (p, os_pread fd count offset p));
                  mret (fst l, overlay (snd l) (snd r))
             else mret r);
      count_call SPread (t_start tm) (t_finish tm) ;;
      mret res
  | OpClose _ => mret r
  end.

(** hvac_read_cb and hvac_open_cb on a reply, and what the waiting thread gets
    for one. A request that HG_Forward refused has no callback. *)
Definition read_callback (r : reply (hvac_rpc_out_t * bytes)) : St (world W) (Z * bytes) :=
  match r with
  | NotSent => mret (-1, [])
  | Reply (out, pushed) => bytes_read ← hvac_read_cb out; mret (bytes_read, pushed)
  | CallbackError => fail AssertFailed
  | NeverAnswered => fail Blocked
  end.

Definition open_callback (fd : Z) (r : reply hvac_open_out_t) : St (world W) (Z * bytes) :=
  match r with
  | NotSent =>
      upd (λ c, set_fd_states (hvac_set_fd_error fd (fd_states c)) c) ;; mret (-1, [])
  | Reply out => hvac_open_cb (to_int32 (to_uint32 fd)) out ;; mret (ret_status out, [])
  | CallbackError => fail AssertFailed
  | NeverAnswered => fail Blocked
  end.

(** ** The pieces make the call *)

(** What follows a request that was forwarded. *)
Definition rest_of_call (fd : Z) (svr_addr : option hg_addr) (m : message) :
    St (world W) (Z * bytes) :=
  match m with
  | ReadRequest inp =>
      r ← remote (forward_read svr_addr inp); hvac_comm_free_addr svr_addr ;; read_callback r
  | OpenRequest inp =>
      r ← remote (forward_open svr_addr inp); hvac_comm_free_addr svr_addr ;; open_callback fd r
  end.

Definition read_rest (fd : Z) (x : option (option hg_addr * hvac_rpc_in_t H)) :
    St (world W) (Z * bytes) :=
  match x with
  | Some (a, inp) => rest_of_call fd a (ReadRequest inp)
  | None => mret (-1, [])
  end.

Definition finish (op : file_op) (tm : timing) (x : begun) : St (world W) (Z * bytes) :=
  match x with
  | Over a => mret a
  | GoOn fd r => op_end op tm fd r
  | Waits fd _ svr_hash count offset =>
      if wait_loop HVAC_FD_OPENING (t_returns tm)
      then x ← read_rpc_rest svr_hash fd true count offset;
           r ← read_rest fd x; op_end op tm fd r
      else op_end op tm fd (-1, [])
  | Forwarded fd a m => r ← rest_of_call fd a m; op_end op tm fd r
  end.

Lemma free_addr_fails (a : option hg_addr) (w : world W) {A} (m : St (world W) A) :
  hvac_comm_free_addr a w = Ret (w, tt) ∧ (hvac_comm_free_addr a ;; m) w = m w ∨
  (hvac_comm_free_addr a ;; m) w = Fault AssertFailed.
Proof.
  unfold hvac_comm_free_addr, assert_true. unfold_st.
  destruct (hg_addr_free_ret _ _ =? _); auto.
Qed.

(** The read stub is its parts. *)
Definition read_rpc_from (returns : list (Z * hvac_fd_state)) (x : begun) :
    St (world W) (Z * bytes) :=
  match x with
  | Over a | GoOn _ a => mret a
  | Waits fd _ svr_hash count offset =>
      if wait_loop HVAC_FD_OPENING returns
      then x ← read_rpc_rest svr_hash fd true count offset; read_rest fd x
      else mret (-1, [])
  | Forwarded fd a m => rest_of_call fd a m
  end.

Lemma read_rpc_cut returns h fd count off (w : world W) :
  hvac_client_comm_gen_read_rpc (getenv E) (read_ahead E) returns h fd true count off w =
  (x ← read_rpc_begin h fd true count off; read_rpc_from returns x) w.
Proof.
  unfold hvac_client_comm_gen_read_rpc, read_rpc_begin.
  rewrite bind_bind. apply bind_ext. intros w1 st _.
  assert (Hrest : ∀ w, (redir ← client_gets fd_redir_map;
    match redir !! fd with
    | None => mret (-1, [])
    | Some remote_fd =>
        if remote_fd =? 0 then mret (-1, [])
        else
        svr_addr ← hvac_client_comm_lookup_addr (getenv E) (read_ahead E) (to_int32 h);
        assert_true true ;;
        hvac_comm_create_handle svr_addr ;;
        let '(ret, bulk) := hg_bulk_create (to_uint64 count) in
        assert_true (ret =? HG_SUCCESS) ;;
        r ← remote (forward_read svr_addr (mk_rpc_in count bulk remote_fd off));
        match r with
        | NotSent => hvac_comm_free_addr svr_addr ;; mret (-1, [])
        | Reply (out, pushed) =>
            hvac_comm_free_addr svr_addr ;;
            bytes_read ← hvac_read_cb out; mret (bytes_read, pushed)
        | CallbackError => fail AssertFailed
        | NeverAnswered => hvac_comm_free_addr svr_addr ;; fail Blocked
        end
    end) w = (x ← read_rpc_rest h fd true count off; read_rest fd x) w).
  { clear w1. intros w1. unfold read_rpc_rest.
    rewrite bind_bind. apply bind_ext. intros w2 redir _. destruct (redir !! fd) as [r|]; [|done].
    destruct (r =? 0); [done|].
    rewrite bind_bind. apply bind_ext. intros w3 a _.
    rewrite bind_bind. apply bind_ext. intros w4 u _.
    rewrite bind_bind. apply bind_ext. intros w5 u' _.
    destruct (hg_bulk_create _) as [rc bulk].
    rewrite bind_bind. apply bind_ext. intros w6 u'' _.
    symmetry. erewrite bind_run by done. symmetry. apply bind_ext.
    intros w7 [|[out d]| |] _; try done.
    unfold read_callback.
    by destruct (free_addr_fails a w7 (fail (A:=Z * bytes) AssertFailed)) as [[_ ->]| ->]. }
  unfold hvac_wait_fd_ready, fd_state. destruct (hvac_get_fd_status fd st) as [l|]; [|done].
  change (Some l ≫= λ l0, fd_heap st !! l0) with (fd_heap st !! l).
  destruct (fd_heap st !! l) as [[]|]; try done; cbn [negb].
  - symmetry. erewrite bind_run by done. symmetry. unfold read_rpc_from.
    destruct (wait_loop HVAC_FD_OPENING returns); cbn [negb]; [apply Hrest|done].
  - rewrite Hrest, bind_bind. apply bind_ext. by intros w2 [[]|] _.
Qed.

(** An open is its parts. *)
Lemma track_cut path flags fd (k : bool → St (world W) (Z * bytes)) (w : world W) :
  (tracked ← hvac_track_file E path flags fd; k tracked) w =
  (x ← track_begin path flags fd;
   match x with
   | Forwarded fd a m => r ← rest_of_call fd a m; k (negb (fst r <? 0))
   | _ => k false
   end) w.
Proof.
  unfold hvac_track_file, track_begin.
  destruct (has_substring _ path); [done|]. destruct (_ =? O_WRONLY); [done|].
  destruct (has_flag _ _); [done|].
  rewrite !bind_bind. apply bind_ext. intros w1 c _. destruct (tracked_path _ _ _) as [full|]; [|done].
  rewrite !bind_bind. apply bind_ext. intros w2 u _.
  rewrite !bind_bind. apply bind_ext. intros w3 g _.
  rewrite !bind_bind. apply bind_ext. intros w4 u' _.
  rewrite !bind_bind. apply bind_ext. intros w5 host _.
  unfold hvac_client_comm_gen_open_rpc, open_rpc_begin. rewrite !bind_bind.
  apply bind_ext. intros w6 u'' _.
  rewrite !bind_bind. apply bind_ext. intros w7 a _.
  rewrite !bind_bind. apply bind_ext. intros w8 v _.
  match goal with |- ?l = _ => change (l =
    (rest_of_call fd a (OpenRequest {| open_path := full |}) ≫= λ r, k (negb (fst r <? 0))) w8) end.
  unfold rest_of_call. rewrite !bind_bind. apply bind_ext. intros w9 r _.
  rewrite !bind_bind. destruct r as [|out| |]; unfold open_callback; rewrite ?bind_bind.
  - (* the address is freed before or after, with the same outcome *)
    unfold hvac_comm_free_addr, assert_true, upd. unfold_st. 
    by destruct (hg_addr_free_ret (net w9) a =? HG_SUCCESS).
  - apply bind_ext. intros w10 u1 _. by rewrite !bind_bind.
  - by destruct (free_addr_fails a w9 (fail (A:=Z * bytes) AssertFailed ≫= λ r, k (negb (fst r <? 0))))
      as [[_ ->]| ->].
  - by apply bind_ext.
Qed.

(** What the first parts leave the call with. *)
Lemma track_begin_shape path flags fd (w w' : world W) x :
  track_begin path flags fd w = Ret (w', x) →
  x = GoOn fd (-1, []) ∨ ∃ a inp, x = Forwarded fd a (OpenRequest inp).
Proof.
  unfold track_begin. destruct (has_substring _ path); [intros [_ ->]%mret_Ret; auto|].
  destruct (_ =? O_WRONLY); [intros [_ ->]%mret_Ret; auto|].
  destruct (has_flag _ _); [intros [_ ->]%mret_Ret; auto|].
  intros Hr. bind_in Hr w1 c E1.
  destruct (tracked_path _ _ _) as [full|]; [|apply mret_Ret in Hr as [_ ->]; auto].
  bind_in Hr w2 u2 E2. bind_in Hr w3 u3 E3. bind_in Hr w4 u4 E4. bind_in Hr w5 host E5.
  bind_in Hr w6 m E6. destruct m as [a inp]. apply mret_Ret in Hr as [_ ->]. right. by exists a, inp.
Qed.

Lemma read_rpc_begin_shape h fd buf count off (w w' : world W) x :
  read_rpc_begin h fd buf count off w = Ret (w', x) →
  x = GoOn fd (-1, []) ∨ (∃ l, x = Waits fd l h count off) ∨ ∃ a inp, x = Forwarded fd a (ReadRequest inp).
Proof.
  unfold read_rpc_begin. intros Hr. bind_in Hr w1 st E1.
  destruct (hvac_get_fd_status fd st) as [l|]; [|apply mret_Ret in Hr as [_ ->]; auto].
  destruct (fd_heap st !! l) as [[]|]; try (apply mret_Ret in Hr as [_ ->]; eauto).
  bind_in Hr w2 y E2. apply mret_Ret in Hr as [_ ->]. destruct y as [[a inp]|]; eauto 10.
Qed.

(** The wrapper's call is its parts. *)
Lemma hvac_op_cut op tm (w : world W) :
  hvac_op E op tm w = (x ← op_begin op tm; finish op tm x) w.
Proof.
  assert (Hcut : ∀ h fd count off (k : Z * bytes → St (world W) (Z * bytes)) w,
    (∀ r, op_end op tm fd r = k r) →
    (hvac_client_comm_gen_read_rpc (getenv E) (read_ahead E) (t_returns tm) h fd true count off ≫= k) w =
    (x ← read_rpc_begin h fd true count off; finish op tm x) w).
  { intros h fd count off k w1 Hk. unfold mbind at 1, St_bind at 1. rewrite read_rpc_cut.
    pose proof (bind_bind (read_rpc_begin h fd true count off)
      (λ x, read_rpc_from (t_returns tm) x) k w1)
      as Hb. unfold mbind at 1, St_bind at 1 in Hb. rewrite Hb. clear Hb. apply bind_ext.
    intros w2 x [->|[[l ->]|(a & inp & ->)]]%read_rpc_begin_shape; cbn [read_rpc_from finish].
    - by rewrite Hk.
    - rewrite Hk. destruct (wait_loop _ _); [|done]. rewrite bind_bind. apply bind_ext.
      intros w3 y _. apply bind_ext. intros w4 r _. by rewrite Hk.
    - apply bind_ext. intros w3 r _. by rewrite Hk. }
  destruct op as [path flags|fd count|fd count off|fd]; cbn [hvac_op op_begin].
  - unfold wrap_open. rewrite !bind_bind. apply bind_ext. intros w1 u _.
    rewrite !bind_bind. apply bind_ext. intros w2 off _. destruct off.
    { rewrite !bind_bind. apply bind_ext. by intros w3 fd _. }
    rewrite !bind_bind. apply bind_ext. intros w3 fd _. destruct (fd =? -1); [done|].
    rewrite bind_bind. rewrite track_cut. apply bind_ext.
    intros w4 x [->|(a & inp & ->)]%track_begin_shape; cbn [finish op_end].
    + by rewrite bind_bind.
    + apply bind_ext. intros w5 r _. by rewrite bind_bind.
  - unfold wrap_read. rewrite bind_bind. apply bind_ext. intros w1 u _.
    unfold hvac_remote_read. rewrite bind_bind, bind_bind. apply bind_ext. intros w2 tracked _.
    destruct tracked; [|done].
    rewrite bind_bind, bind_bind. apply bind_ext. intros w3 host _. by apply Hcut.
  - unfold wrap_pread. rewrite bind_bind. apply bind_ext. intros w1 u _.
    rewrite bind_bind. apply bind_ext. intros w2 path _. destruct path.
    2:{ rewrite bind_bind. by unfold client_sys, zoom, run; unfold_st. }
    unfold hvac_remote_pread. rewrite bind_bind, bind_bind. apply bind_ext. intros w3 tracked _.
    destruct (negb tracked); [done|].
    rewrite bind_bind, bind_bind. apply bind_ext. intros w4 redir _.
    destruct (redir =? 0); [done|].
    rewrite bind_bind, bind_bind. apply bind_ext. intros w5 host _. by apply Hcut.
  - rewrite !bind_bind. apply bind_ext. by intros w1 r _.
Qed.

End cut.
