(* ===== verification/OpenSteps.v ===== *)
(** * Opening a file, with the library and without

    An open in related states, in its parts: the local open and the lookup of
    the server's address, the request, the callback that settles the
    descriptor. Each part keeps the relation of [Sim.v]; while the request is
    on its way the descriptor is a local one ([opening]). *)

From S2P Require Import Prelude CText Posix Wire AddrFile FdState Comm Stats.
From S2P Require Import ClientComm ClientCommProps Client Wrappers Service Sim Cut.

Local Open Scope Z_scope.

Section opens.
Context {H : Mercury} {HOk : MercuryOk H} {W : Type} {T : Transport H W}.
Context {S : FileService T} {SOk : FileServiceOk S}.
Context {E : environment}.

#[local] Abbreviation hvac_op := (Sim.hvac_op E).
#[local] Abbreviation address_file := (Sim.address_file E).
#[local] Abbreviation rank_of := (Sim.rank_of E).
#[local] Abbreviation addr_of := (Sim.addr_of E).
#[local] Abbreviation server_of := (Sim.server_of E).
#[local] Abbreviation is_remote := (Sim.is_remote E).
#[local] Abbreviation fd_rel := (Sim.fd_rel E).
#[local] Abbreviation sim := (Sim.sim E).
#[local] Abbreviation env_ok := (Sim.env_ok E).
#[local] Abbreviation hvac_run := (Sim.hvac_run E).
#[local] Abbreviation cold_lookup := (Sim.cold_lookup E).
#[local] Abbreviation cold_op := (Sim.cold_op E).
#[local] Abbreviation cold_run := (Sim.cold_run E).
#[local] Abbreviation lookup_runs := (Sim.lookup_runs E).
#[local] Abbreviation same_conf := (Sim.same_conf E).

#[local] Abbreviation frame := (Sim.frame E).
#[local] Abbreviation quiet := (Sim.quiet E).
#[local] Abbreviation unowned := (Sim.unowned E).

(** ** The local open and the address *)

(** Opening the file locally, before the library decides whether to track
    it, relates a new local descriptor. *)
Lemma sim_local_open (w : world W) p path flags os' fd :
  sim w p → plain_flags flags = true → os_open path flags (cl_os (cl w)) = (os', fd) →
  ∃ p', os_open path flags p = (p', fd) ∧ sim (set_cl (set_cl_os os' (cl w)) w) p' ∧
    (fd = -1 ∨ 0 ≤ fd < 2 ^ 31 ∧ fd_map (cl w) !! fd = None ∧
      default 0 (fd_redir_map (cl w) !! fd) = 0 ∧
      ∃ i d, content p path = Some d ∧ px_data p' !! i = Some d ∧ content p' path = Some d ∧
        px_fds os' !! fd = Some (Ofd i (Z.land flags O_ACCMODE) 0) ∧
        px_fds p' !! fd = Some (Ofd i (Z.land flags O_ACCMODE) 0)).
Proof.
  intros Hs Hf Ho. pose proof (sim_os _ _ Hs) as Hok. pose proof (sim_plain _ _ Hs) as Hokp.
  pose proof (sim_nofile _ _ Hs) as Hnf. destruct (sim_files _ _ Hs) as (E1 & E2 & E3 & E4).
  pose proof (first_free_dom _ _ (sim_dom _ _ Hs)) as Hff.
  destruct (os_open path flags p) as [p' fd'] eqn:Hp. exists p'.
  destruct (os_open_spec _ _ _ _ _ Hf Hok Ho) as (_ & _ & _ & Hok1 & _).
  destruct (os_open_spec _ _ _ _ _ Hf Hokp Hp) as (_ & _ & _ & Hok2 & _).
  rewrite os_open_plain in Ho, Hp by done. cbv zeta in Ho, Hp.
  rewrite E1, E4, Hff in Ho. pose proof (first_free_nonneg (px_fds p)) as Hnn.
  pose proof (first_free_fresh (px_fds p)) as Hfr.
  destruct (Z.leb_spec (px_nofile p) (first_free (px_fds p))).
  { simplify_eq. split_and!; auto. by eapply sim_agree, Hs; destruct w as [[] ?]. }
  destruct (px_paths p !! path) as [i|] eqn:Hi; simplify_eq;
    [|split_and!; auto; by eapply sim_agree, Hs; destruct w as [[] ?]].
  set (f := first_free (px_fds p)) in *.
  pose proof (sim_fds _ _ Hs f) as Hrel. unfold fd_rel in Hrel. rewrite Hfr in Hrel.
  assert (Hfr' : px_fds (cl_os (cl w)) !! f = None)
    by (revert Hrel; by destruct (px_fds (cl_os (cl w)) !! f)).
  rewrite Hfr' in Hrel. destruct Hrel as [Hmap Hred].
  destruct (ok_paths _ Hokp _ _ Hi) as [d Hd].
  assert (Hc : same_conf w (set_cl (set_cl_os (set_fds (<[f:=Ofd i (Z.land flags O_ACCMODE) 0]>
      (px_fds (cl_os (cl w)))) (cl_os (cl w))) (cl w)) w)).
  { apply same_conf_intro; [by destruct w as [[] ?]..|]. split; auto. apply (sim_net _ _ Hs). }
  assert (Hsa : ∀ g, same_at w (set_cl (set_cl_os (set_fds (<[f:=Ofd i (Z.land flags O_ACCMODE) 0]>
      (px_fds (cl_os (cl w)))) (cl_os (cl w))) (cl w)) w) g).
  { intros g. split; by destruct w as [[] ?]. }
  split_and!; [done| |].
  - eapply sim_steps; try done; try (destruct w as [[] ?]; done).
    + pose proof (sim_states _ _ Hs). by destruct w as [[] ?].
    + intros q full d' a. apply (sim_shared _ _ Hs).
    + intros g q Hq. left. by destruct w as [[] ?].
    + intros g. destruct (decide (g = f)) as [->|Hne].
      * unfold fd_rel. destruct w as [[] nw]. simpl. rewrite !lookup_insert_eq. left.
        by split.
      * eapply fd_rel_same, (sim_fds _ _ Hs g); try done; destruct w as [[] nw]; simpl;
          by rewrite ?lookup_insert_ne.
    + intros g g' t r. rewrite !(is_remote_same _ _ _ _ _ Hc) by auto. apply (sim_inj _ _ Hs).
  - right. split_and!; [lia|lia|done|done|]. exists i, d. unfold content. simpl.
    rewrite Hi. simpl. rewrite !lookup_insert_eq. done.
Qed.

(** Scanning the address file, which stays open where the stream's reads have
    brought it. *)
Lemma sim_scan (w : world W) p rank os' fd :
  sim w p → scan_posts E rank (cl_os (cl w)) = (os', fd) →
  ∃ p', scan_posts E rank p = (p', fd) ∧ sim (set_cl (set_cl_os os' (cl w)) w) p'.
Proof.
  intros Hs Hsc. unfold scan_posts in *.
  destruct (os_open address_file O_RDWR (cl_os (cl w))) as [os1 fd1] eqn:Ho.
  destruct (sim_local_open _ _ _ _ _ _ Hs (eq_refl : plain_flags O_RDWR = true) Ho)
    as (p1 & Hp & Hs1 & Hcase). rewrite Hp.
  destruct (fd1 =? -1) eqn:Hfd; [simplify_eq; by eexists|]. apply Z.eqb_neq in Hfd.
  destruct Hcase as [|(_ & _ & Hloc & _)]; [done|].
  set (w1 := set_cl (set_cl_os os1 (cl w)) w) in *.
  assert (Hl : is_local w1 fd1) by (unfold is_local, w1; by destruct w as [[] ?]).
  assert (Hc : content p1 address_file = content os1 address_file).
  { destruct (sim_files _ _ Hs1) as (F1 & F2 & _). unfold content. rewrite <-F1, <-F2.
    unfold w1. by destruct w as [[] ?]. }
  rewrite Hc. set (c := read_ahead E rank _) in *.
  destruct (os_read fd1 c p1) as [p2 a] eqn:Hr.
  destruct (sim_local_read w1 p1 fd1 c p2 a Hs1 Hl Hr) as (os2 & Hr2 & Hs2).
  replace (cl_os (cl w1)) with os1 in Hr2 by (unfold w1; by destruct w as [[] ?]).
  rewrite Hr2 in Hsc. simplify_eq/=. eexists. split; [done|].
  eapply sim_agree, Hs2; unfold w1; by destruct w as [[] ?].
Qed.

(** Caching an address the address file gives changes no answer. *)
Lemma sim_cache (w : world W) p rank a :
  sim w p → addr_of (cl w) rank = Some a → address_cache (cl w) !! rank = None →
  sim (set_cl (set_address_cache (<[rank := a]> (address_cache (cl w))) (cl w)) w) p.
Proof.
  intros Hs Ha Hn. set (w' := set_cl _ w).
  assert (Hc : same_conf w w').
  { split; [| |by destruct w as [[] ?]|by split; auto; apply (sim_net _ _ Hs)].
    - destruct w as [[] ?]. simpl in *. by apply insert_subseteq.
    - intros r. destruct w as [[] ?]. unfold addr_of in *. simpl in *.
      destruct (decide (r = rank)) as [->|]; [|by rewrite lookup_insert_ne].
      by rewrite lookup_insert_eq, Hn, <-Ha, Hn. }
  assert (Hsa : ∀ g, same_at w w' g) by (intros g; split; by destruct w as [[] ?]).
  eapply (sim_steps w w' p p); try done; try (destruct w as [[] ?]; done).
  - pose proof (sim_os _ _ Hs). by destruct w as [[] ?].
  - apply (sim_plain _ _ Hs).
  - pose proof (sim_states _ _ Hs). by destruct w as [[] ?].
  - intros q full d b. apply (sim_shared _ _ Hs).
  - intros g q Hq. left. by destruct w as [[] ?].
  - intros g. eapply (fd_rel_same w w' p p), (sim_fds _ _ Hs g); try done; by destruct w as [[] ?].
  - intros g g' t r. rewrite !(is_remote_same _ _ _ _ _ Hc) by auto. apply (sim_inj _ _ Hs).
Qed.

(** A lookup of a path's server, and the reference's. *)
Lemma sim_lookup (w : world W) p full t :
  sim w p → server_of w full = Some t →
  let rank := rank_of (cl_conf (cl w)) full in
  match cold_lookup rank (dom (address_cache (cl w)), p) with
  | None => ∀ c, cl_os c = cl_os (cl w) → address_cache c = address_cache (cl w) →
      hvac_client_comm_lookup_addr (getenv E) (read_ahead E) rank (World c (net w)) = Fault NullDeref
  | Some (known, p') => ∃ ac os, lookup_runs w rank ac os t ∧ dom ac = known ∧
      is_Some (ac !! rank) ∧ sim (set_cl (after_lookup ac os (cl w)) w) p' ∧
      same_conf w (set_cl (after_lookup ac os (cl w)) w) ∧
      server_of (set_cl (after_lookup ac os (cl w)) w) full = Some t ∧
      px_data p' = px_data p ∧ px_paths p' = px_paths p ∧
      (∀ g o, px_fds p !! g = Some o → px_fds p' !! g = Some o) ∧
      (∀ g o, px_fds (cl_os (cl w)) !! g = Some o → px_fds os !! g = Some o)
  end.
Proof.
  intros Hs Hsrv rank. unfold cold_lookup. case_bool_decide as Hk.
  { apply elem_of_dom in Hk. exists (address_cache (cl w)), (cl_os (cl w)).
    split; [by apply lookup_cached|]. unfold after_lookup. split_and!; try done.
    - eapply sim_agree, Hs; by destruct w as [[] ?].
    - apply same_conf_intro; try (by destruct w as [[] ?]). apply extends_refl, (sim_net _ _ Hs).
    - by destruct w as [[] ?]. }
  apply not_elem_of_dom in Hk. apply bind_Some in Hsrv as (a & Ha & Ht).
  destruct (scan_posts E rank (cl_os (cl w))) as [os fd] eqn:Ho.
  destruct (sim_scan w p rank os fd Hs Ho) as (p' & Hp & Hs'). rewrite Hp.
  destruct (scan_posts_keeps _ _ _ _ Ho) as (O1 & O2 & _ & O3 & _).
  destruct (scan_posts_keeps _ _ _ _ Hp) as (P1 & P2 & _ & P3 & _).
  destruct (Z.eqb_spec fd (-1)) as [->|Hfd].
  { by apply (lookup_no_descriptor w rank os Hk). }
  exists (<[rank := a]> (address_cache (cl w))), os. split_and!; try done.
  - by eapply lookup_cold.
  - by rewrite dom_insert_L.
  - by rewrite lookup_insert_eq.
  - eapply sim_agree, (sim_cache _ _ rank a Hs'); unfold after_lookup; try (by destruct w as [[] ?]).
    destruct w as [[] ?]. unfold addr_of, content in *. simpl in *. by rewrite O1, O2.
  - pose proof (sim_net _ _ Hs) as Hnet. unfold after_lookup. destruct w as [[] n].
    unfold addr_of in Ha. simpl in *.
    split; [by apply insert_subseteq| |done|by apply extends_refl].
    intros r. unfold addr_of, content in *. simpl. rewrite O1, O2.
    destruct (decide (r = rank)) as [->|]; [rewrite lookup_insert_eq; symmetry; exact Ha|].
    by rewrite lookup_insert_ne.
  - unfold server_of, addr_of, after_lookup, rank in *. destruct w as [[] ?]. simpl in *.
    by rewrite lookup_insert_eq.
Qed.

(** Starting Mercury when it is not started. *)
Lemma start_comm_run (w : world W) :
  env_ok → ∃ k, (if g_mercury_init (cl w) then mret tt
     else zoom (λ w, cl_comm (cl w)) (λ k w, set_cl (set_comm k true (cl w)) w)
            (hvac_init_comm false (getenv E "SLURM_PROCID") (init_res E))) w
     = Ret (set_cl (set_comm k true (cl w)) w, tt).
Proof.
  intros He. destruct (env_procid He) as [s Hsr]. unfold zoom, hvac_init_comm. rewrite Hsr.
  destruct (g_mercury_init (cl w)) eqn:Hg.
  - exists (cl_comm (cl w)). destruct w as [[] ?]. simpl in *. by subst.
  - by eexists.
Qed.

(** ** While the open is not answered *)

(** The descriptor of an open whose request is on its way: tracked, without a
    redirection, and at the start of the file its server has. *)
Record opening (w : world W) (p : posix) (fd : Z) (full : string) (t : hg_addr) (d : bytes) :
    Prop := Opening {
  op_fd : 0 ≤ fd < 2 ^ 31;
  op_map : fd_map (cl w) !! fd = Some full;
  op_local : is_local w fd;
  op_state : fd_state fd (fd_states (cl w)) = Some HVAC_FD_OPENING;
  op_ofd : ∃ i m, px_fds p !! fd = Some (Ofd i m 0) ∧ m ≠ O_WRONLY ∧ px_data p !! i = Some d;
  op_server : server_of w full = Some t;
  op_known : fs_known (net w) t;
  op_file : fs_live (net w) t → fs_file (net w) t full = Some d
}.

(** Other calls do not disturb it. *)
Lemma opening_stable X N (w w' : world W) p p' fd full t d :
  frame X N w w' → ¬ X fd →
  (∀ o, px_fds p !! fd = Some o → px_fds p' !! fd = Some o) → px_data p' = px_data p →
  opening w p fd full t d → opening w' p' fd full t d.
Proof.
  intros [Hc He _ _] HX Hp Hd [A1 A2 A3 A4 (i & m & B1 & B2 & B3) A6 A7 A8].
  destruct (He fd HX) as [[E1 E2 E3] _]. split; try done.
  - by rewrite E1.
  - unfold is_local in *. by rewrite E2.
  - by rewrite E3.
  - exists i, m. rewrite Hd. auto.
  - by rewrite (server_of_same _ _ _ Hc).
  - by apply (ex_known _ _ (sc_net _ _ Hc)).
  - intros Hl. apply (ex_file _ _ (sc_net _ _ Hc)); [done|]. by apply A8, (ex_live _ _ (sc_net _ _ Hc)).
Qed.

(** The library's entries for a descriptor it starts to track. *)
Lemma sim_opening (w w' : world W) p fd full :
  sim w p → is_Some (px_fds p !! fd) → is_local w fd →
  net w' = net w → cl_os (cl w') = cl_os (cl w) → kept w w' →
  is_Some (address_cache (cl w) !! rank_of (cl_conf (cl w)) full) →
  fd_map (cl w') = <[fd := full]> (fd_map (cl w)) →
  fd_redir_map (cl w') = fd_redir_map (cl w) →
  fd_states (cl w') = hvac_set_fd_opening fd (fd_states (cl w)) →
  sim w' p ∧ frame (λ g, g = fd) (λ _ _, False) w w' ∧
  fd_state fd (fd_states (cl w')) = Some HVAC_FD_OPENING.
Proof.
  intros Hs [o Ho] Hl En Eo Hk Hkn Em Er Es. destruct (sim_states _ _ Hs) as [Hsc Hsu].
  assert (Hst : ∀ g, fd_state g (fd_states (cl w')) =
    if bool_decide (g = fd) then Some HVAC_FD_OPENING else fd_state g (fd_states (cl w))).
  { intros g. rewrite Es. by apply fd_state_opening. }
  assert (Ha : ∀ g, g ≠ fd → same_at w w' g).
  { intros g Hg. split; [by rewrite Em, lookup_insert_ne|by rewrite Er|].
    by rewrite Hst, bool_decide_false. }
  assert (Hl' : is_local w' fd) by (unfold is_local in *; by rewrite Er).
  assert (Hno : ∀ t r, ¬ is_remote w' fd t r) by (intros t r Hr; by eapply remote_not_local).
  assert (Hc : same_conf w w').
  { destruct Hk as [Ha' Hk]. apply same_conf_intro; rewrite ?Eo, ?En; try done.
    apply extends_refl, (sim_net _ _ Hs). }
  split_and!.
  - apply (sim_entry w w' p fd); try done.
    + rewrite Es. apply states_opening_ok, (sim_states _ _ Hs).
    + intros q. rewrite Em, lookup_insert_eq. by intros [= <-].
    + destruct (sim_local_fd w p fd Hs Hl) as [Hfd _]. unfold fd_rel.
      rewrite Eo, Hfd, Ho. by left.
    + intros g t r _ Hr. by exfalso; eapply Hno.
  - split; [done| | |by rewrite En].
    + intros g Hg. split; [by apply Ha|]. rewrite Es. simpl. by rewrite lookup_insert_ne.
    + intros g t r Hr. left. destruct (decide (g = fd)) as [->|Hg]; [by exfalso; eapply Hno|].
      by rewrite (is_remote_same _ _ _ _ _ Hc (Ha g Hg)) in Hr.
  - by rewrite Hst, bool_decide_true.
Qed.

(** The decision to track a new local descriptor, up to the request; what the
    reference does at the same moment is a lookup. *)
Lemma begin_track (w : world W) p path flags fd i d :
  env_ok → sim w p → 0 ≤ fd < 2 ^ 31 → is_local w fd →
  px_data p !! i = Some d → content p path = Some d →
  px_fds p !! fd = Some (Ofd i (Z.land flags O_ACCMODE) 0) →
  match eligible E (cl_conf (cl w)) path flags with
  | None => track_begin E path flags fd w = Ret (w, GoOn fd (-1, []))
  | Some full =>
      match cold_lookup (rank_of (cl_conf (cl w)) full) (dom (address_cache (cl w)), p) with
      | None => track_begin E path flags fd w = Fault NullDeref
      | Some (known, p') => ∃ w' t,
          track_begin E path flags fd w =
            Ret (w', Forwarded fd (Some t) (OpenRequest {| open_path := full |})) ∧
          sim w' p' ∧ opening w' p' fd full t d ∧
          dom (address_cache (cl w')) = known ∧ cl_conf (cl w') = cl_conf (cl w) ∧
          net w' = net w ∧ frame (λ g, g = fd) (λ _ _, False) w w'
      end
  end.
Proof.
  intros He Hs Hfd Hloc Hd Hpath Hp. unfold track_begin, eligible.
  destruct (has_substring _ _); [done|].
  destruct (Z.eqb_spec (Z.land flags O_ACCMODE) O_WRONLY) as [|Hm]; [done|].
  destruct (has_flag _ _); [done|]. simpl orb. cbv iota.
  unfold client_gets. erewrite bind_run by done.
  destruct (tracked_path E _ path) as [full|] eqn:Hfull; [|done].
  pose proof (tracked_path_canonical _ _ _ _ Hfull) as Hcan.
  destruct (path_server w full (env_hash He) (sim_addressed _ _ Hs))
    as (h & t & Hh & Hr & Hsrv & Hlive).
  assert (Hfile : fs_live (net w) t → fs_file (net w) t full = Some d)
    by (by eapply (sim_shared _ _ Hs)).
  pose proof (sim_lookup w p full t Hs Hsrv) as Hlk. cbv zeta in Hlk. rewrite <-Hr in Hlk |- *.
  erewrite bind_run by done. erewrite bind_run by done.
  set (w1 := set_cl (set_fd_map (<[fd:=full]> (fd_map (cl w))) (cl w)) w).
  destruct (start_comm_run w1 He) as (k & Hk).
  erewrite bind_run by exact Hk. clear Hk.
  set (w2 := set_cl (set_comm k true (cl w1)) w1).
  assert (Hh2 : host_of_path E full w2 = Ret (w2, h)).
  { revert Hh. unfold host_of_path, client_gets. unfold_st. destruct w as [[] ?]. simpl.
    destruct (_ =? 0); [done|]. by intros [= <-]. }
  erewrite bind_run by exact Hh2. unfold open_rpc_begin.
  set (w3 := set_cl (set_fd_states (hvac_set_fd_opening fd (fd_states (cl w2))) (cl w2)) w2).
  destruct (cold_lookup _ _) as [[known p']|].
  - destruct Hlk as (ac & os & Hrun & Hdom & Hkn & Hs' & Hc' & Hsrv' & P1 & P2 & P3 & O3).
    set (w4 := World (after_lookup ac os (cl w3)) (net w)).
    assert (Hl3 : hvac_client_comm_lookup_addr (getenv E) (read_ahead E) (to_int32 (to_uint32 h)) w3
      = Ret (w4, Some t)) by (apply (Hrun (cl w3)); by destruct w as [[] ?]).
    assert (Hbeg : open_rpc_begin E (to_uint32 h) full fd w2
      = Ret (w4, (Some t, {| open_path := full |}))).
    { unfold open_rpc_begin. erewrite bind_run by done. fold w3.
      erewrite bind_run by exact Hl3.
      erewrite bind_run by (apply create_handle_run; [apply (sim_net _ _ Hs)|done]). done. }
    exists w4, t. split; [by erewrite bind_run by exact Hbeg|].
    set (wl := set_cl (after_lookup ac os (cl w)) w) in *.
    destruct (sim_opening wl w4 p' fd full Hs') as (Hs4 & Hfr & Hst);
      try (unfold wl, w4, after_lookup; by destruct w as [[] ?]).
    { rewrite (P3 _ _ Hp). by eexists. }
    { rewrite Hr in Hkn. unfold wl. by destruct w as [[] ?]. }
    assert (Hq : quiet w wl).
    { assert (He' : ∀ g, entry_same w wl g) by (intros g; unfold wl; by destruct w as [[] ?]).
      split; [done|by auto| |by auto]. intros g t' r'.
      rewrite (is_remote_same _ _ _ _ _ Hc' (es_at _ _ _ (He' g))). by left. }
    split_and!; try done.
    + assert (Hc4 := fr_conf _ _ _ _ Hfr). split; try done.
      * unfold w4, after_lookup. destruct w as [[] ?]. simpl. by rewrite lookup_insert_eq.
      * unfold w4, after_lookup, is_local in *. by destruct w as [[] ?].
      * exists i, (Z.land flags O_ACCMODE). split_and!; [by apply P3|done|by rewrite P1].
      * by rewrite (server_of_same _ _ _ Hc4).
    + unfold w4, after_lookup. by destruct w as [[] ?].
    + unfold w4, after_lookup. by destruct w as [[] ?].
    + eapply frame_trans; [eapply frame_weaken, Hq; done|exact Hfr].
  - assert (Hbad : open_rpc_begin E (to_uint32 h) full fd w2 = Fault NullDeref).
    { unfold open_rpc_begin. erewrite bind_run by done. fold w3.
      assert (Hl3 : hvac_client_comm_lookup_addr (getenv E) (read_ahead E) (to_int32 (to_uint32 h)) w3
        = Fault NullDeref) by (apply (Hlk (cl w3)); by destruct w as [[] ?]).
      by apply bind_Fault. }
    by apply bind_Fault.
Qed.

(** The intercepted open up to its request. *)
Lemma begin_open (w : world W) p path flags tm :
  env_ok → sim w p → plain_flags flags = true →
  match cold_op (cl_conf (cl w)) (OpOpen path flags) (dom (address_cache (cl w)), p) with
  | None => op_begin E (OpOpen path flags) tm w = Fault NullDeref
  | Some (known, p', a) => ∃ w' x, op_begin E (OpOpen path flags) tm w = Ret (w', x) ∧
      sim w' p' ∧ dom (address_cache (cl w')) = known ∧ cl_conf (cl w') = cl_conf (cl w) ∧
      net w' = net w ∧ frame (λ g, g = fst a) (λ _ _, False) w w' ∧ snd a = [] ∧
      ((x = Over a ∨ x = GoOn (fst a) (-1, [])) ∧ quiet w w' ∨
       ∃ full t d, x = Forwarded (fst a) (Some t) (OpenRequest {| open_path := full |}) ∧
         opening w' p' (fst a) full t d)
  end.
Proof.
  intros He Hs Hf. pose proof (sim_net _ _ Hs) as Hnet. cbn [op_begin].
  destruct (map_or_fail_run (E:=E) "open" w He ltac:(set_solver)) as [mp Hmp].
  erewrite bind_run by exact Hmp. apply (sim_mapped mp) in Hs.
  pose proof (proj2 (still_mapped (E:=E) mp w Hnet)) as Hq1.
  replace (cl_conf (cl w)) with (cl_conf (cl (set_cl (set_real_mapped mp (cl w)) w)))
    by (by destruct w as [[] ?]).
  replace (address_cache (cl w)) with (address_cache (cl (set_cl (set_real_mapped mp (cl w)) w)))
    by (by destruct w as [[] ?]).
  set (w1 := set_cl (set_real_mapped mp (cl w)) w) in *.
  assert (Hnet1 : fs_ok (net w1)) by done. assert (Hn1 : net w1 = net w) by done.
  clearbody w1. clear Hmp.
  erewrite bind_run by (by eapply redirect_on). cbv iota.
  destruct (os_open path flags (cl_os (cl w1))) as [os' fd] eqn:Ho.
  destruct (sim_local_open _ _ _ _ _ _ Hs Hf Ho) as (p' & Hp & Hs' & Hcase).
  unfold Sim.cold_op. cbn [plain_op]. rewrite Hp.
  erewrite bind_run; [|unfold client_sys, zoom, run; rewrite Ho; done].
  set (w2 := set_cl (set_cl_os os' (cl w1)) w1) in *.
  destruct (os_open_keeps _ _ _ _ _ Hf Ho) as (O1 & O2 & _).
  assert (Hn2 : net w2 = net w) by (rewrite <-Hn1; by destruct w1 as [[] ?]).
  assert (Hq : quiet w w2).
  { eapply frame_trans; [exact Hq1|]. apply still_client; try (by destruct w1 as [[] ?]). }
  assert (Hq2 : frame (λ g, g = fd) (λ _ _, False) w w2) by (by eapply frame_weaken, Hq).
  cbn [fst snd]. destruct (Z.eqb_spec fd (-1)) as [|Hne].
  { exists w2, (Over (fd, [])). split_and!; try done; [by destruct w1 as [[] ?]..|by left; auto]. }
  destruct Hcase as [?|(Hfd & Hmap & Hred & i & d & _ & Hd & Hc & Hfo & Hfp)]; [done|].
  assert (Ht := begin_track w2 p' path flags fd i d He Hs' Hfd
    ltac:(by destruct w1 as [[] ?]) Hd Hc Hfp).
  replace (cl_conf (cl w2)) with (cl_conf (cl w1)) in Ht by (by destruct w1 as [[] ?]).
  replace (address_cache (cl w2)) with (address_cache (cl w1)) in Ht by (by destruct w1 as [[] ?]).
  destruct (eligible E _ path flags) as [full|].
  - destruct (cold_lookup _ _) as [[known p2]|]; simpl; [|exact Ht].
    destruct Ht as (w3 & t & Ht & Hs3 & Hop & Hd3 & Hc3 & Hn3 & Hfr).
    exists w3, (Forwarded fd (Some t) (OpenRequest {| open_path := full |})).
    split_and!; try done; [congruence|by eapply frame_trans|]. right. by exists full, t, d.
  - exists w2, (GoOn fd (-1, [])). split_and!; try done; [by destruct w1 as [[] ?]..|auto].
Qed.

(** ** The answer *)

(** What a server's answer to an open is worth. *)
Definition answers (n : W) (t : hg_addr) (d : bytes) (ret : Z) : Prop :=
  ret = -1 ∨ 0 ≤ ret < 2 ^ 31 ∧ fs_view n t ret = Some (d, 0).

(** The server serves the open: a descriptor nobody uses, or -1; a server that
    is down gets no request. *)
Lemma serve_open (w : world W) p fd full t d :
  sim w p → opening w p fd full t d →
  ∃ n' r, forward_open (Some t) {| open_path := full |} (net w) = (n', r) ∧ settles r ∧
    sim (World (cl w) n') p ∧ quiet w (World (cl w) n') ∧
    answers n' t d (open_ret r) ∧ unowned w t (open_ret r) ∧
    (0 ≤ open_ret r → fs_view (net w) t (open_ret r) = None).
Proof.
  intros Hs Hop. destruct (svc_open _ _ _ _ (sim_net _ _ Hs) (op_known _ _ _ _ _ _ Hop)
    (op_file _ _ _ _ _ _ Hop)) as (n' & r & Hrun & Hset & Hex & Hcase).
  assert (Hv : ∀ b f x, fs_view (net w) b f = Some x → fs_view n' b f = Some x).
  { intros b f x Hx. destruct Hcase as [[_ ->]|(_ & Hn & _ & Hos)]; [done|].
    rewrite Hos; [done|]. intros [= -> ->]. congruence. }
  exists n', r. split_and!; try done.
  - apply sim_served; [done|done|eauto].
  - apply quiet_intro; try done. eauto.
  - destruct Hcase as [[-> _]|(? & _ & Hn & _)]; [by left|by right].
  - intros g Hg. destruct (is_remote_view _ _ _ _ _ (sim_fds _ _ Hs g) Hg)
      as (_ & o & d' & _ & _ & _ & _ & _ & _ & Hx).
    destruct Hcase as [[Hr _]|(_ & Hn & _)]; [|congruence].
    destruct Hg as (_ & _ & _ & ? & _). lia.
  - intros Hr. destruct Hcase as [[Hr' _]|(_ & Hn & _)]; [lia|done].
Qed.

(** The callback settles the descriptor: it is served from now on, or stays
    local for good. *)
Lemma open_cb_run (w : world W) p fd full t d r :
  sim w p → opening w p fd full t d → settles r → answers (net w) t d (open_ret r) →
  unowned w t (open_ret r) →
  ∃ w', open_callback fd r w = Ret (w', (open_ret r, [])) ∧ sim w' p ∧
    net w' = net w ∧ kept w w' ∧ fd_map (cl w') = fd_map (cl w) ∧
    fd_state_map (fd_states (cl w')) = fd_state_map (fd_states (cl w)) ∧
    fd_state fd (fd_states (cl w')) ≠ Some HVAC_FD_OPENING ∧
    frame (λ g, g = fd) (λ t' r', 0 < open_ret r ∧ t' = t ∧ r' = open_ret r) w w' ∧
    (0 < open_ret r → is_remote w' fd t (open_ret r)).
Proof.
  intros Hs [Hfd Hmap Hl Hst (i & m & Ho & Hm & Hd) Hsrv Hlive Hfile] Hset Ha Hu.
  set (ret := open_ret r) in *.
  set (w' := World (set_fd_states ((if 0 <? ret then hvac_set_fd_ready fd else hvac_set_fd_error fd)
                     (fd_states (cl w)))
      (set_redir (if 0 <? ret then <[fd := ret]> (fd_redir_map (cl w)) else fd_redir_map (cl w)) (cl w)))
    (net w)).
  assert (Hrun : open_callback fd r w = Ret (w', (ret, []))).
  { unfold w', upd. destruct Hset as [->|[out ->]]; [by destruct w as [[] n]|].
    unfold open_callback, hvac_open_cb, upd. fold ret. rewrite to_int32_uint32, to_int32_id by lia.
    change (ret_status out) with ret. destruct w as [[] n]. unfold_st. by destruct (0 <? ret). }
  destruct (fd_state_settle (0 <? ret) fd (fd_states (cl w)) (sim_states _ _ Hs)) as (S1 & S2 & S3 & S4);
    [by rewrite Hst|].
  assert (Hsame : ∀ g, g ≠ fd → entry_same w w' g).
  { intros g Hg. unfold w'. split; [split|]; destruct w as [[] n]; simpl in *; try done.
    - destruct (0 <? ret); [by rewrite lookup_insert_ne|done].
    - by rewrite S3.
    - by rewrite S4. }
  assert (Hk : kept w w') by (unfold w'; by destruct w as [[] n]).
  assert (Hc : same_conf w w').
  { apply same_conf_intro; unfold w'; try (by destruct w as [[] n]).
    apply extends_refl, (sim_net _ _ Hs). }
  assert (Hnew : ∀ t' r', is_remote w' fd t' r' → 0 < ret ∧ t' = t ∧ r' = ret).
  { intros t' r' (q & Hq & Hr & Hr0 & _ & Hsq). rewrite (server_of_same _ _ _ Hc) in Hsq.
    unfold w', is_local in *. destruct w as [[] n]. simpl in *.
    destruct (Z.ltb_spec 0 ret); [|lia]. rewrite lookup_insert_eq in Hr. simpl in Hr.
    split_and!; congruence. }
  assert (Hrem : 0 < ret → is_remote w' fd t ret).
  { intros Hpos. exists full. rewrite (server_of_same _ _ _ Hc). destruct Ha as [?|[Hr _]]; [lia|].
    unfold w'. destruct w as [[] n]. simpl in *. destruct (Z.ltb_spec 0 ret); [|lia].
    rewrite lookup_insert_eq. split_and!; try done; lia. }
  exists w'. split_and!; try done; try (unfold w'; by destruct w as [[] n]).
  - apply (sim_entry w w' p fd); try done; try (unfold w'; by destruct w as [[] n]).
    + intros g Hg. by apply es_at, Hsame.
    + intros q Hq. apply (sim_known _ _ Hs fd). revert Hq. unfold w'. by destruct w as [[] n].
    + destruct (sim_local_fd w p fd Hs Hl) as [Hofd _]. unfold fd_rel.
      replace (cl_os (cl w')) with (cl_os (cl w)) by (unfold w'; by destruct w as [[] n]).
      rewrite Hofd, Ho. destruct (Z.ltb_spec 0 ret) as [Hpos|Hneg].
      * right. split_and!; [done|done|by apply negb_true_iff, Z.eqb_neq|]. exists t, ret, d.
        destruct Ha as [?|[Hr Hv]]; [lia|]. split_and!; [by apply Hrem|done|done].
      * left. split; [done|]. unfold w', is_local in *. destruct w as [[] n]. simpl in *. done.
    + intros g t' r' Hg (Hpos & -> & ->)%Hnew. apply Hu.
  - replace (fd_states (cl w')) with ((if 0 <? ret then hvac_set_fd_ready fd else hvac_set_fd_error fd)
      (fd_states (cl w))) by (unfold w'; by destruct w as [[] n]). rewrite S2. by destruct (0 <? ret).
  - split; [done|by auto| |unfold w'; by destruct w as [[] n]].
    intros g t' r' Hr. destruct (decide (g = fd)) as [->|Hg]; [right; by apply Hnew|left].
    by rewrite (is_remote_same _ _ _ _ _ Hc (es_at _ _ _ (Hsame g Hg))) in Hr.
Qed.

(** ** The whole open *)

Lemma open_end_run path flags tm fd r (w : world W) :
  ∃ st, op_end (OpOpen path flags) tm fd r w = Ret (set_cl (set_stats st (cl w)) w, (fd, [])).
Proof. eexists. cbn [op_end]. by erewrite bind_run by apply count_run. Qed.

Lemma step_open (w : world W) p path flags tm :
  env_ok → sim w p → plain_flags flags = true →
  match cold_op (cl_conf (cl w)) (OpOpen path flags) (dom (address_cache (cl w)), p) with
  | None => hvac_op (OpOpen path flags) tm w = Fault NullDeref
  | Some (known, p', a) => ∃ w', hvac_op (OpOpen path flags) tm w = Ret (w', a) ∧
      sim w' p' ∧ dom (address_cache (cl w')) = known ∧ cl_conf (cl w') = cl_conf (cl w)
  end.
Proof.
  intros He Hs Hf. rewrite hvac_op_cut. pose proof (begin_open w p path flags tm He Hs Hf) as Hb.
  destruct (cold_op _ _ _) as [[[known p'] a]|]; [|by apply bind_Fault].
  destruct Hb as (w1 & x & Hb & Hs1 & Hd & Hk & _ & _ & Ha & Hx). erewrite bind_run by exact Hb.
  assert (Hend : ∀ r w2, sim w2 p' → kept w1 w2 → ∃ w',
    op_end (OpOpen path flags) tm (fst a) r w2 = Ret (w', a) ∧ sim w' p' ∧
    dom (address_cache (cl w')) = known ∧ cl_conf (cl w') = cl_conf (cl w)).
  { intros r w2 Hs2 [E1 E2]. destruct (open_end_run path flags tm (fst a) r w2) as [st ->].
    destruct a as [fd b]. simpl in *. subst b. eexists. split; [done|]. split_and!.
    - eapply sim_agree, Hs2; by destruct w2 as [[] ?].
    - rewrite <-Hd, <-E1. by destruct w2 as [[] ?].
    - rewrite <-Hk, <-E2. by destruct w2 as [[] ?]. }
  destruct Hx as [[[-> | ->] _]|(full & t & d & -> & Hop)]; cbn [finish].
  - by exists w1.
  - by apply Hend.
  - destruct (serve_open w1 p' _ full t d Hs1 Hop) as (n' & r & Hrun & Hset & Hs2 & Hq & Han & Hu & _).
    assert (Hop2 : opening (World (cl w1) n') p' (fst a) full t d) .
    { eapply opening_stable, Hop; [exact Hq|auto..]. }
    destruct (open_cb_run _ p' _ full t d r Hs2 Hop2 Hset Han) as (w3 & Hcb & Hs3 & _ & Hk3 & _);
      [by eapply frame_unowned; [exact Hq|intros []|exact Hu]|].
    assert (Hrest : rest_of_call (fst a) (Some t) (OpenRequest {| open_path := full |}) w1
      = Ret (w3, (open_ret r, []))).
    { unfold rest_of_call. erewrite bind_run by (unfold remote, zoom, run; rewrite Hrun; done).
      erewrite bind_run; [exact Hcb|].
      apply (free_addr_run (World (cl w1) n')); [apply (sim_net _ _ Hs2)|apply (op_known _ _ _ _ _ _ Hop2)]. }
    erewrite bind_run by exact Hrest. by apply Hend.
Qed.

End opens.

#[global] Arguments opening {H W T S} E w p fd full t d.
