(* ===== verification/ReadSteps.v ===== *)
(** * Reading a file, with the library and without

    A read or pread in related states, in its parts: up to its first wait, the
    server's turn, the callback and the end of the wrapper. On a descriptor no
    server serves the call ends on the local file; on a served one its request
    goes out, and takes effect when the server serves it. *)

From S2P Require Import Prelude CText Posix Wire AddrFile FdState Comm Stats.
From S2P Require Import ClientComm ClientCommProps Client Wrappers Service Sim Cut.

Local Open Scope Z_scope.

(** The arguments of the read RPC a call makes: -1 stands for the file's own
    offset. *)
Definition read_args (op : file_op) : option (Z * Z * Z) :=
  match op with
  | OpRead fd count => Some (fd, count, -1)
  | OpPread fd count off => Some (fd, count, off)
  | _ => None
  end.

Section reads.
Context {H : Mercury} {HOk : MercuryOk H} {W : Type} {T : Transport H W}.
Context {S : FileService T} {SOk : FileServiceOk S}.
Context {E : environment}.

#[local] Abbreviation hvac_op := (Sim.hvac_op E).
#[local] Abbreviation address_file := (Sim.address_file E).
#[local] Abbreviation rank_of := (Sim.rank_of E).
#[local] Abbreviation addr_of := (Sim.addr_of E).
#[local] Abbreviation server_of := (Sim.server_of E).
#[local] Abbreviation is_remote := (Sim.is_remote E).
#[local] Abbreviation fd_rel := (Sim.fd_rel E).
#[local] Abbreviation sim := (Sim.sim E).
#[local] Abbreviation env_ok := (Sim.env_ok E).
#[local] Abbreviation hvac_run := (Sim.hvac_run E).
#[local] Abbreviation cold_lookup := (Sim.cold_lookup E).
#[local] Abbreviation cold_op := (Sim.cold_op E).
#[local] Abbreviation cold_run := (Sim.cold_run E).
#[local] Abbreviation lookup_runs := (Sim.lookup_runs E).
#[local] Abbreviation same_conf := (Sim.same_conf E).
#[local] Abbreviation frame := (Sim.frame E).
#[local] Abbreviation quiet := (Sim.quiet E).
#[local] Abbreviation still := (Sim.still E).

(** ** Lemmas *)

Lemma host_of_fd_run (w : world W) fd path :
  fd_map (cl w) !! fd = Some path → host_of_fd E fd w = host_of_path E path w.
Proof. intros Hp. unfold host_of_fd, client_gets. erewrite bind_run by done. by rewrite Hp. Qed.

(** A served read moves the server's offset as the plain process moves its
    own. *)
Lemma sim_after_read (w : world W) n' p p' fd t r o d off :
  sim w p → is_remote w fd t r → px_fds p !! fd = Some o → px_data p !! ofd_ino o = Some d →
  extends (net w) n' → fs_view n' t r = Some (d, off) → others_same (net w) n' t r →
  posix_ok p' → px_paths p' = px_paths p → px_data p' = px_data p → px_dirs p' = px_dirs p →
  px_nofile p' = px_nofile p →
  px_fds p' = <[fd := Ofd (ofd_ino o) (ofd_mode o) off]> (px_fds p) →
  sim (World (cl w) n') p'.
Proof.
  intros Hs Hrem Ho Hd Hex Hv Hos Hok P1 P2 P3 P4 P5.
  assert (Hc : same_conf w (World (cl w) n')) by (by split).
  assert (Ha : ∀ g, same_at w (World (cl w) n') g) by (intros g; by split).
  eapply (sim_steps w); try done.
  - apply (sim_os _ _ Hs).
  - apply (sim_states _ _ Hs).
  - intros q full d' a Hq Hd' Hl. apply (ex_file _ _ Hex), (sim_shared _ _ Hs) with q; try done.
    by apply (ex_live _ _ Hex).
  - intros g q Hq. by left.
  - intros g. destruct (decide (g = fd)) as [->|Hg].
    + destruct (is_remote_view _ _ _ _ _ (sim_fds _ _ Hs fd) Hrem)
        as (o1 & o2 & d2 & E1 & E2 & Hi & Hm & Hr & Hd2 & _).
      simplify_eq. unfold fd_rel. simpl. rewrite E1, P5, lookup_insert_eq. right.
      split_and!; [done|done|done|]. exists t, r, d. rewrite P2. split_and!; try done.
      by apply (is_remote_same _ _ _ _ _ Hc (Ha fd)).
    + eapply (fd_rel_same w _ p p'); try done; [by rewrite P5, lookup_insert_ne| |apply (sim_fds _ _ Hs)].
      intros t' r' x Hrem' Hx. simpl. rewrite Hos; [done|]. intros [= -> ->].
      by apply Hg, (sim_inj _ _ Hs) with t r.
  - intros g g' t' r'. rewrite !(is_remote_same _ _ _ _ _ Hc (Ha _)). apply (sim_inj _ _ Hs).
Qed.

(** A read that is served remotely. *)
Lemma remote_read_remote (w : world W) p returns fd t r count off :
  env_ok → sim w p → is_remote w fd t r → 0 ≤ count < 2 ^ 31 → -1 ≤ off < 2 ^ 63 →
  ∃ n' h o d, px_fds p !! fd = Some o ∧ px_data p !! ofd_ino o = Some d ∧ readable o = true ∧
    host_of_fd E fd w = Ret (w, h) ∧
    let at_ := if off =? -1 then ofd_off o else off in
    let n := n_read d at_ count in
    hvac_client_comm_gen_read_rpc (getenv E) (read_ahead E) returns (to_uint32 h) fd true count off w
      = Ret (World (cl w) n', (n, slice d at_ n)) ∧
    extends (net w) n' ∧
    fs_view n' t r = Some (d, if off =? -1 then ofd_off o + n else ofd_off o) ∧
    others_same (net w) n' t r.
Proof.
  intros He Hs Hrem Hc Hoff.
  destruct (is_remote_view _ _ _ _ _ (sim_fds _ _ Hs fd) Hrem)
    as (_ & o & d & _ & Ho & _ & _ & Hrd & Hd & Hv).
  destruct Hrem as (path & Hp & Hr & Hr0 & Hst & Hsrv).
  destruct (tracked_server w p fd path (env_hash He) Hs Hp)
    as (h & t' & Hh & Hlk & Hsrv' & Hlive). simplify_eq.
  assert (Hred : fd_redir_map (cl w) !! fd = Some (default 0 (fd_redir_map (cl w) !! fd))).
  { destruct (fd_redir_map (cl w) !! fd); [done|]. simpl in Hr0. lia. }
  destruct (read_rpc_run w returns fd h t _ d (ofd_off o) count off (sim_net _ _ Hs) Hlive Hv
    Hred Hr0 Hst Hlk Hc Hoff) as (n' & Hrun & Hex & Hv' & Hos).
  exists n', h, o, d. split_and!; try done. by rewrite (host_of_fd_run _ _ _ Hp).
Qed.

Lemma tracked_run (w : world W) fd :
  hvac_file_tracked fd w = Ret (w, bool_decide (is_Some (fd_map (cl w) !! fd))).
Proof. done. Qed.

Lemma is_remote_tracked (w : world W) fd t r :
  is_remote w fd t r → hvac_file_tracked fd w = Ret (w, true).
Proof. intros (p & Hp & _). by rewrite tracked_run, Hp. Qed.

Lemma insert_same_ofd (p : posix) fd o :
  px_fds p !! fd = Some o →
  px_fds p = <[fd := Ofd (ofd_ino o) (ofd_mode o) (ofd_off o)]> (px_fds p).
Proof. intros Ho. rewrite insert_id; [done|]. rewrite Ho. by destruct o. Qed.

(** Entries of 0 in the redirection table mean nothing. *)
Lemma sim_redir_zero rd (w : world W) p :
  (∀ g, default 0 (rd !! g) = default 0 (fd_redir_map (cl w) !! g)) →
  sim w p → sim (set_cl (set_redir rd (cl w)) w) p.
Proof.
  intros Hrd Hs. set (w' := set_cl (set_redir rd (cl w)) w).
  assert (Hc : same_conf w w').
  { apply same_conf_intro; [by destruct w as [[] ?]..|]. split; auto. apply (sim_net _ _ Hs). }
  assert (Ha : ∀ g, same_at w w' g).
  { intros g. split; [by destruct w as [[] ?]| |by destruct w as [[] ?]].
    rewrite <-Hrd. by destruct w as [[] ?]. }
  eapply (sim_steps w); try done; try (destruct w as [[] ?]; done).
  - pose proof (sim_os _ _ Hs). by destruct w as [[] ?].
  - apply (sim_plain _ _ Hs).
  - pose proof (sim_states _ _ Hs). by destruct w as [[] ?].
  - intros q full d a. apply (sim_shared _ _ Hs).
  - intros g q Hq. left. by destruct w as [[] ?].
  - intros g. eapply (fd_rel_same w _ p p), (sim_fds _ _ Hs); try done; by destruct w as [[] ?].
  - intros g g' t r. rewrite !(is_remote_same _ _ _ _ _ Hc (Ha _)). apply (sim_inj _ _ Hs).
Qed.

(** A pread on the local file gives both processes the same. *)
Lemma sim_local_pread (w : world W) p fd count off :
  sim w p → is_local w fd → os_pread fd count off (cl_os (cl w)) = os_pread fd count off p.
Proof.
  intros Hs Hl. destruct (sim_local_fd _ _ _ Hs Hl) as [Hfd Hdat].
  unfold os_pread. by rewrite Hfd, Hdat.
Qed.

Lemma remote_pread_run (w : world W) returns fd count off t r :
  is_remote w fd t r →
  hvac_remote_pread E returns fd true count off w =
    (host ← host_of_fd E fd;
     hvac_client_comm_gen_read_rpc (getenv E) (read_ahead E) returns (to_uint32 host) fd true
       (to_int64 count) off) w.
Proof.
  intros Hrem. unfold hvac_remote_pread.
  erewrite bind_run by (by eapply is_remote_tracked). change (negb true) with false. cbv iota.
  destruct Hrem as (path & _ & Hr & Hr0 & _).
  erewrite bind_run; [|unfold index_redir, client_gets; erewrite bind_run by done;
    destruct (fd_redir_map (cl w) !! fd) as [r'|]; simpl in Hr; subst; [done|lia]].
  by rewrite (proj2 (Z.eqb_neq r 0)) by lia.
Qed.

(** ** Up to the first wait *)

Lemma read_args_bounds op fd count off :
  allowed op = true → read_args op = Some (fd, count, off) →
  0 ≤ count < 2 ^ 31 ∧ -1 ≤ off < 2 ^ 63.
Proof. destruct op; simpl; intros Ha [= <- <- <-]; bool_to_prop; lia. Qed.

(** Between its two waits the stub sends nothing for a local descriptor. *)
Lemma rest_local (w : world W) h fd count off :
  is_local w fd → read_rpc_rest E h fd true count off w = Ret (w, None).
Proof.
  unfold is_local, read_rpc_rest, client_gets. intros Hl. erewrite bind_run by done.
  destruct (fd_redir_map (cl w) !! fd) as [r|]; [|done]. simpl in Hl. by subst.
Qed.

(** The request of a served one. *)
Definition read_request (count r off : Z) : hvac_rpc_in_t H :=
  mk_rpc_in count (snd (hg_bulk_create (to_uint64 count))) r off.

Lemma rest_remote (w : world W) h fd count off t r :
  is_remote w fd t r →
  hvac_client_comm_lookup_addr (getenv E) (read_ahead E) (to_int32 (to_uint32 h)) w = Ret (w, Some t) →
  hg_create_ret (net w) (Some t) = HG_SUCCESS →
  read_rpc_rest E (to_uint32 h) fd true count off w = Ret (w, Some (Some t, read_request count r off)).
Proof.
  intros (q & Hq & Hr & Hr0 & _) Hlk Hc.
  unfold read_rpc_rest, client_gets. erewrite bind_run by done.
  destruct (fd_redir_map (cl w) !! fd) as [r'|]; simpl in Hr; subst; [|lia].
  destruct (Z.eqb_spec r 0); [lia|].
  erewrite bind_run by exact Hlk. erewrite bind_run by done.
  erewrite bind_run by (unfold hvac_comm_create_handle, assert_true; unfold_st; by rewrite Hc).
  unfold read_request. pose proof (bulk_create_ok (to_uint64 count)) as Hb.
  destruct (hg_bulk_create (to_uint64 count)) as [rc bulk]. simpl in Hb |- *. subst rc.
  by erewrite bind_run by done.
Qed.

(** What sending it takes: a known address. *)
Lemma remote_reachable (w : world W) p fd t r :
  env_ok → sim w p → is_remote w fd t r →
  ∃ path h, fd_map (cl w) !! fd = Some path ∧ host_of_path E path w = Ret (w, h) ∧
    addr_of (cl w) (to_int32 (to_uint32 h)) ≫= hg_addr_lookup2 (net w) = Some t ∧
    is_Some (address_cache (cl w) !! to_int32 (to_uint32 h)) ∧
    hg_create_ret (net w) (Some t) = HG_SUCCESS.
Proof.
  intros He Hs (path & Hp & _ & _ & _ & Hsrv). exists path.
  destruct (path_server w path (env_hash He) (sim_addressed _ _ Hs)) as (h & t' & Hh & Hr & Hsrv' & Hl).
  assert (t' = t) as -> by congruence. exists h. rewrite Hr.
  split_and!; [done|done|done|by eapply (sim_known _ _ Hs)|].
  by apply svc_create; [apply (sim_net _ _ Hs)|].
Qed.

Lemma rest_served (w : world W) p fd count off t r path h :
  env_ok → sim w p → is_remote w fd t r → fd_map (cl w) !! fd = Some path →
  host_of_path E path w = Ret (w, h) →
  read_rpc_rest E (to_uint32 h) fd true count off w = Ret (w, Some (Some t, read_request count r off)).
Proof.
  intros He Hs Hrem Hp Hh. destruct (remote_reachable w p fd t r He Hs Hrem)
    as (path' & h' & Hp' & Hh' & Hsrv & Hk & Hc). simplify_eq.
  rewrite Hh in Hh'. injection Hh' as <-.
  apply rest_remote; [done| |done].
  pose proof (lookup_cached w _ _ Hsrv Hk (cl w) eq_refl eq_refl) as Hl.
  unfold after_lookup in Hl. by destruct w as [[] ?].
Qed.

(** A thread that waits for its descriptor: what it has computed, and the
    status object it holds is the one in the table. *)
Definition waits_for (w : world W) (fd : Z) (status : positive) (svr_hash : Z) : Prop :=
  fd_state_map (fd_states (cl w)) !! fd = Some status ∧
  ∃ path h, fd_map (cl w) !! fd = Some path ∧ host_of_path E path w = Ret (w, h) ∧
    svr_hash = to_uint32 h.

(** An open of the descriptor is not answered. *)
Definition pending_open (w : world W) (fd : Z) : Prop :=
  is_Some (fd_map (cl w) !! fd) ∧ fd_state fd (fd_states (cl w)) = Some HVAC_FD_OPENING.

(** On a local descriptor nothing is sent: the call goes on locally, or, a
    read, waits for an open that is not answered. *)
Lemma begin_local (w : world W) p op tm fd count off :
  env_ok → sim w p → allowed op = true → read_args op = Some (fd, count, off) → is_local w fd →
  ∃ w' x, op_begin E op tm w = Ret (w', x) ∧ sim w' p ∧ still w w' ∧ is_local w' fd ∧
    (x = Over (snd (plain_op op p)) ∧ fst (plain_op op p) = p ∨
     x = GoOn fd (-1, []) ∧ (fst (plain_op op p) = p ∨ ¬ pending_open w fd) ∨
     ∃ status h, x = Waits fd status h count off ∧ waits_for w' fd status h ∧ pending_open w fd).
Proof.
  intros He Hs Ha Hop Hl. destruct (read_args_bounds _ _ _ _ Ha Hop) as [Hc Hoff].
  pose proof (sim_net _ _ Hs) as Hnet.
  assert (Hgo : ∀ mp, let w1 := set_cl (set_real_mapped mp (cl w)) w in
    sim w1 p ∧ is_local w1 fd ∧ still w w1 ∧ (pending_open w1 fd ↔ pending_open w fd)).
  { intros mp. split; [by apply sim_mapped|]. split; [by destruct w as [[] ?]|].
    split; [by apply still_mapped|by destruct w as [[] ?]]. }
  destruct op as [path flags|fd' c'|fd' c' o'|]; simplify_eq; cbn [read_args op_begin] in *; simplify_eq.
  - destruct (map_or_fail_run (E:=E) "read" w He ltac:(set_solver)) as [mp Hmp].
    erewrite bind_run by exact Hmp. destruct (Hgo mp) as (Hs1 & Hl1 & Hst1 & Hes). clear Hmp Hgo.
    setoid_rewrite <-Hes. set (w1 := set_cl _ w) in *. clearbody w1.
    erewrite bind_run by (by rewrite tracked_run).
    case_bool_decide as Hb.
    2:{ exists w1. eexists. split_and!; try done. right. left. split; [done|right]. by intros [? _]. }
    destruct Hb as [path Hp].
    destruct (tracked_server w1 p fd path (env_hash He) Hs1 Hp) as (h & t & Hh & _).
    erewrite bind_run by (erewrite host_of_fd_run; done).
    rewrite (to_int64_id count) by lia.
    unfold read_rpc_begin, client_gets. erewrite bind_run by done.
    unfold pending_open, fd_state. destruct (hvac_get_fd_status fd _) as [l|] eqn:El; simpl.
    2:{ exists w1. eexists. split_and!; try done. right. left. split; [done|right]. by intros [_ ?]. }
    destruct (fd_heap _ !! l) as [[]|] eqn:Eh.
    + exists w1. eexists. split_and!; try done. right. right. exists l, (to_uint32 h).
      split_and!; try done. split; [done|]. by exists path, h.
    + erewrite bind_run by (by apply rest_local). exists w1. eexists. split_and!; try done.
      right. left. split; [done|right]. by intros [_ ?].
    + exists w1. eexists. split_and!; try done. right. left. split; [done|right]. by intros [_ ?].
    + exists w1. eexists. split_and!; try done. right. left. split; [done|right]. by intros [_ ?].
  - destruct (map_or_fail_run (E:=E) "pread" w He ltac:(set_solver)) as [mp Hmp].
    erewrite bind_run by exact Hmp. destruct (Hgo mp) as (Hs1 & Hl1 & Hst1 & _). clear Hmp Hgo.
    set (w1 := set_cl _ w) in *. clearbody w1.
    unfold hvac_get_path, client_gets. erewrite bind_run by done.
    destruct (fd_map (cl w1) !! fd) as [path|] eqn:Hp.
    + erewrite bind_run by (by rewrite tracked_run, Hp). rewrite bool_decide_true by done. cbn [negb].
      unfold is_local in Hl1. unfold index_redir, client_gets.
      destruct (fd_redir_map (cl w1) !! fd) as [r|] eqn:Er; simpl in Hl1; subst.
      * erewrite bind_run by (by erewrite bind_run by done; rewrite Er). exists w1. eexists.
        split_and!; try done; [by unfold is_local; rewrite Er|]. right. left. split; [done|by left].
      * set (w2 := set_cl (set_redir (<[fd := 0]> (fd_redir_map (cl w1))) (cl w1)) w1).
        assert (Hrd : ∀ g, default 0 (fd_redir_map (cl w2) !! g)
          = default 0 (fd_redir_map (cl w1) !! g)).
        { intros g. unfold w2. destruct w1 as [[] n]. simpl in *.
          destruct (decide (g = fd)) as [->|]; [by rewrite lookup_insert_eq, Er|].
          by rewrite lookup_insert_ne. }
        erewrite bind_run; [|erewrite bind_run by done; rewrite Er; done]. exists w2. eexists.
        split_and!; [done| | | |].
        { apply sim_redir_zero; [|done]. intros g. specialize (Hrd g). unfold w2 in Hrd.
          by destruct w1 as [[] n]. }
        { eapply still_trans; [exact Hst1|]. apply still_client; [exact (sim_net _ _ Hs1)|..|exact Hrd|];
            unfold w2; by destruct w1 as [[] n]. }
        { unfold is_local. by rewrite Hrd, Er. }
        { right. left. split; [done|by left]. }
    + erewrite bind_run by done. exists w1, (Over (os_pread fd count off (cl_os (cl w1)))).
      split_and!; try done; [by destruct w1 as [[] n]|]. left. cbn [plain_op fst snd].
      by rewrite (sim_local_pread w1 p).
Qed.

(** On a served descriptor the request for its server goes out. *)
Lemma begin_request (w : world W) op tm fd count off t r path h :
  env_ok → allowed op = true → read_args op = Some (fd, count, off) →
  is_remote w fd t r → fd_map (cl w) !! fd = Some path → host_of_path E path w = Ret (w, h) →
  addr_of (cl w) (to_int32 (to_uint32 h)) ≫= hg_addr_lookup2 (net w) = Some t →
  is_Some (address_cache (cl w) !! to_int32 (to_uint32 h)) →
  hg_create_ret (net w) (Some t) = HG_SUCCESS →
  ∃ mp, op_begin E op tm w = Ret (set_cl (set_real_mapped mp (cl w)) w,
    Forwarded fd (Some t) (ReadRequest (read_request count r off))).
Proof.
  intros He Ha Hop Hrem Hp Hh Hsrv Hk Hc. destruct (read_args_bounds _ _ _ _ Ha Hop) as [Hcnt Hoff].
  assert (Hgo : ∀ mp, let w1 := set_cl (set_real_mapped mp (cl w)) w in
    is_remote w1 fd t r ∧ fd_map (cl w1) !! fd = Some path ∧ host_of_path E path w1 = Ret (w1, h) ∧
    read_rpc_begin E (to_uint32 h) fd true (to_int64 count) off w1 =
      Ret (w1, Forwarded fd (Some t) (ReadRequest (read_request count r off)))).
  { intros mp w1. assert (Hrem1 : is_remote w1 fd t r) by (by destruct w as [[] ?]).
    split; [done|]. split; [by destruct w as [[] ?]|]. split.
    { revert Hh. unfold w1, host_of_path, client_gets. unfold_st. destruct w as [[] ?]. simpl.
      destruct (_ =? 0); [done|]. by intros [= <-]. }
    assert (Hlk : hvac_client_comm_lookup_addr (getenv E) (read_ahead E) (to_int32 (to_uint32 h)) w1 = Ret (w1, Some t)).
    { pose proof (lookup_cached w _ _ Hsrv Hk (cl w1)) as Hl. unfold w1, after_lookup in *.
      destruct w as [[] ?]. by apply Hl. }
    assert (Hrest : read_rpc_rest E (to_uint32 h) fd true count off w1
      = Ret (w1, Some (Some t, read_request count r off))).
    { apply rest_remote; [done|done|]. unfold w1. by destruct w as [[] ?]. }
    pose proof Hrem1 as (_ & _ & _ & _ & Hst & _). apply bind_Some in Hst as (l & Hl & Hst).
    unfold read_rpc_begin, client_gets. erewrite bind_run by done. rewrite Hl, Hst.
    rewrite (to_int64_id count) by lia. by erewrite bind_run by exact Hrest. }
  destruct op as [path' flags|fd' c'|fd' c' o'|]; simplify_eq; cbn [read_args op_begin] in *; simplify_eq.
  - destruct (map_or_fail_run (E:=E) "read" w He ltac:(set_solver)) as [mp Hmp]. exists mp.
    erewrite bind_run by exact Hmp. destruct (Hgo mp) as (Hrem1 & Hp1 & Hh1 & Hb). clear Hmp Hgo.
    set (w1 := set_cl _ w) in *. clearbody w1.
    erewrite bind_run by (by eapply is_remote_tracked). cbv iota.
    erewrite bind_run by (rewrite (host_of_fd_run w1 fd path Hp1); exact Hh1). exact Hb.
  - destruct (map_or_fail_run (E:=E) "pread" w He ltac:(set_solver)) as [mp Hmp]. exists mp.
    erewrite bind_run by exact Hmp. destruct (Hgo mp) as (Hrem1 & Hp1 & Hh1 & Hb). clear Hmp Hgo.
    set (w1 := set_cl _ w) in *. clearbody w1.
    unfold hvac_get_path, client_gets. erewrite bind_run by done. cbv beta. rewrite Hp1.
    erewrite bind_run by (by eapply is_remote_tracked). cbn [negb].
    pose proof Hrem1 as (_ & _ & Hr & Hr0 & _).
    erewrite bind_run; [|unfold index_redir, client_gets; erewrite bind_run by done;
      destruct (fd_redir_map _ !! fd) as [r'|]; simpl in Hr; subst; [done|lia]].
    rewrite (proj2 (Z.eqb_neq r 0)) by lia.
    erewrite bind_run by (rewrite (host_of_fd_run w1 fd path Hp1); exact Hh1). exact Hb.
Qed.

Lemma begin_remote (w : world W) p op tm fd count off t r :
  env_ok → sim w p → allowed op = true → read_args op = Some (fd, count, off) →
  is_remote w fd t r →
  ∃ w', op_begin E op tm w = Ret (w', Forwarded fd (Some t) (ReadRequest (read_request count r off))) ∧
    sim w' p ∧ still w w' ∧ is_remote w' fd t r.
Proof.
  intros He Hs Ha Hop Hrem.
  destruct (remote_reachable w p fd t r He Hs Hrem) as (path & h & Hp & Hh & Hsrv & Hk & Hc).
  destruct (begin_request w op tm fd count off t r path h He Ha Hop Hrem Hp Hh Hsrv Hk Hc) as [mp Hb].
  eexists. split; [exact Hb|].
  split_and!; [by apply sim_mapped|apply still_mapped, (sim_net _ _ Hs)|by destruct w as [[] ?]].
Qed.

(** A read or pread whose request is not served goes on with the local file,
    ends the process, or waits for ever. *)
Lemma unserved_read (w : world W) op tm fd count off t r path h n' rep :
  env_ok → allowed op = true → read_args op = Some (fd, count, off) →
  is_remote w fd t r → fd_map (cl w) !! fd = Some path → host_of_path E path w = Ret (w, h) →
  addr_of (cl w) (to_int32 (to_uint32 h)) ≫= hg_addr_lookup2 (net w) = Some t →
  is_Some (address_cache (cl w) !! to_int32 (to_uint32 h)) →
  hg_create_ret (net w) (Some t) = HG_SUCCESS →
  forward_read (Some t) (read_request count r off) (net w) = (n', rep) →
  hg_addr_free_ret n' (Some t) = HG_SUCCESS →
  ∃ mp, match rep with
        | NotSent => hvac_op op tm w =
            op_end op tm fd (-1, []) (World (set_real_mapped mp (cl w)) n')
        | CallbackError => hvac_op op tm w = Fault AssertFailed
        | NeverAnswered => hvac_op op tm w = Fault Blocked
        | Reply _ => True
        end.
Proof.
  intros He Ha Hop Hrem Hp Hh Hsrv Hk Hc Hf Hfree. rewrite hvac_op_cut.
  destruct (begin_request w op tm fd count off t r path h He Ha Hop Hrem Hp Hh Hsrv Hk Hc) as [mp Hb].
  exists mp.
  assert (Hrest : (x ← op_begin E op tm; finish E op tm x) w =
    (y ← read_callback rep; op_end op tm fd y) (World (set_real_mapped mp (cl w)) n')).
  { erewrite bind_run by exact Hb. cbn [finish]. unfold rest_of_call. rewrite bind_bind.
    erewrite bind_run; [|unfold remote, zoom, run; simpl; rewrite Hf; done]. rewrite bind_bind.
    erewrite bind_run; [done|]. unfold hvac_comm_free_addr, assert_true. unfold_st.
    destruct w as [c n]. simpl. by rewrite Hfree. }
  rewrite Hrest. by destruct rep.
Qed.

(** ** The server's turn and the end *)

(** When its server serves it, the call takes effect on the plain process. *)
Lemma serve_remote (w : world W) p op fd count off t r :
  env_ok → sim w p → allowed op = true → read_args op = Some (fd, count, off) →
  is_remote w fd t r →
  ∃ n' out b, forward_read (Some t) (read_request count r off) (net w) = (n', Reply (out, b)) ∧
    snd (plain_op op p) = (rpc_ret out, b) ∧ 0 ≤ rpc_ret out < 2 ^ 31 ∧
    sim (World (cl w) n') (fst (plain_op op p)) ∧ still w (World (cl w) n').
Proof.
  intros He Hs Ha Hop Hrem.
  destruct (read_args_bounds _ _ _ _ Ha Hop) as [Hc Hoff].
  destruct (is_remote_view _ _ _ _ _ (sim_fds _ _ Hs fd) Hrem)
    as (_ & o & d & _ & Ho & _ & _ & Hrd & Hd & Hv).
  pose proof Hrem as (path & Hp & _ & Hr0 & _ & Hsrv).
  destruct (tracked_server w p fd path (env_hash He) Hs Hp) as (_ & t' & _ & _ & Hsrv' & Hlive).
  assert (t' = t) as -> by congruence.
  destruct (svc_read _ _ _ _ _ count off (sim_net _ _ Hs) Hlive Hv ltac:(lia) Hc Hoff)
    as (n' & out & Hf & Hn & Hex & Hv' & Hos).
  pose proof (sim_plain _ _ Hs) as Hokp. destruct (ok_fds _ Hokp _ _ Ho) as (_ & _ & Hpos).
  pose proof (n_read_range d (if off =? -1 then ofd_off o else off) count) as Hrange.
  unfold MAX_RW_COUNT in Hrange.
  exists n', out, (slice d (if off =? -1 then ofd_off o else off) (rpc_ret out)).
  rewrite Hn in *. split_and!; [done| |lia|lia| |by eapply still_served].
  - destruct op as [|fd' c'|fd' c' o'|]; simplify_eq/=; unfold os_read, os_pread;
      rewrite Ho, Hd, Hrd; simpl.
    + rewrite (proj2 (Z.leb_le _ _) Hpos).
      by destruct (Z.eqb_spec (n_read d (ofd_off o) count) (-1)); [lia|].
    + bool_to_prop. rewrite (proj2 (Z.leb_le 0 off)) by lia.
      by destruct (Z.eqb_spec off (-1)); [lia|].
  - destruct op as [|fd' c'|fd' c' o'|]; simplify_eq/=.
    + destruct (os_read fd count p) as [p' [m b]] eqn:Hop.
      destruct (os_read_spec _ _ _ _ _ _ Hokp Hop) as (_ & P3 & P4 & P1 & P2 & Hok' & Hcase).
      destruct Hcase as [(-> & _)|(o' & d' & Ho' & Hd' & _ & Hm & _ & Hfds)].
      { exfalso. revert Hop. unfold os_read, os_pread. rewrite Ho, Hd, Hrd.
        rewrite (proj2 (Z.leb_le _ _) Hpos). simpl.
        destruct (Z.eqb_spec (n_read d (ofd_off o) count) (-1)); [lia|]. intros [= _ E1 _]. lia. }
      simplify_eq. eapply sim_after_read; done.
    + bool_to_prop. destruct (Z.eqb_spec off (-1)); [lia|].
      eapply sim_after_read; try done. by apply insert_same_ofd.
Qed.

(** A wrapper's last action. *)
Lemma counted_still k d (w : world W) p :
  sim w p → let w' := set_cl (set_stats (bump k d (cl_stats (cl w))) (cl w)) w in
  sim w' p ∧ still w w'.
Proof.
  intros Hs. split; [by apply sim_counted|].
  apply still_client; [exact (sim_net _ _ Hs)|by destruct w as [[] ?]..].
Qed.

(** A read's result fits the wrapper's int. *)
Lemma os_read_narrow fd count p p' n b :
  posix_ok p → os_read fd count p = (p', (n, b)) → to_int32 n = n.
Proof.
  intros Hok Hread. apply to_int32_id. destruct (os_read_spec _ _ _ _ _ _ Hok Hread)
    as (_ & _ & _ & _ & _ & _ & [[-> _]|(o & d & _ & _ & _ & -> & _)]); [lia|].
  pose proof (n_read_range d (ofd_off o) count). unfold MAX_RW_COUNT in *. lia.
Qed.

(** The end of a call whose remote part succeeded, *)
Lemma remote_end (w : world W) p op tm n b fd count off :
  sim w p → read_args op = Some (fd, count, off) → 0 ≤ n < 2 ^ 31 →
  ∃ w', op_end op tm fd (n, b) w = Ret (w', (n, b)) ∧ sim w' p ∧ still w w'.
Proof.
  intros Hs Hop Hn. destruct op as [|fd' c'|fd' c' o'|]; simplify_eq; cbn [op_end fst snd].
  - rewrite to_int32_id by lia. destruct (Z.eqb_spec n (-1)); [lia|].
    erewrite bind_run by done. eexists. split; [done|by apply counted_still].
  - destruct (Z.eqb_spec n (-1)); [lia|]. erewrite bind_run by done.
    eexists. split; [done|by apply counted_still].
Qed.

(** and of one that ends on the local file. *)
Lemma local_end (w : world W) p op tm fd count off :
  sim w p → allowed op = true → read_args op = Some (fd, count, off) → is_local w fd →
  ∃ w', op_end op tm fd (-1, []) w = Ret (w', snd (plain_op op p)) ∧
    sim w' (fst (plain_op op p)) ∧ still w w'.
Proof.
  intros Hs Ha Hop Hl. destruct (read_args_bounds _ _ _ _ Ha Hop) as [Hc Hoff].
  destruct op as [|fd' c'|fd' c' o'|]; simplify_eq; cbn [read_args op_end plain_op fst snd] in *;
    simplify_eq.
  - destruct (os_read fd count p) as [p' [n b]] eqn:Hread.
    destruct (sim_local_read _ _ _ _ _ _ Hs Hl Hread) as (os' & Hos & Hs').
    destruct (os_read_keeps fd count (cl_os (cl w))) as (K1 & K2 & _).
    rewrite Hos in K1, K2. simpl in K1, K2.
    pose proof (os_read_narrow _ _ _ _ _ _ (sim_plain _ _ Hs) Hread) as Hn.
    set (w1 := set_cl (set_cl_os os' (cl w)) w) in *.
    assert (Hst : still w w1).
    { apply still_client; [exact (sim_net _ _ Hs)|unfold w1; by destruct w as [[] ?]..]. }
    change (to_int32 (-1) =? -1) with true. cbv iota.
    erewrite bind_run; [|erewrite bind_run; [done|unfold client_sys, zoom, run; rewrite Hos; done]].
    erewrite bind_run by apply count_run. cbn [fst snd]. rewrite Hn. unfold overlay.
    rewrite drop_nil, app_nil_r. eexists. split; [done|].
    destruct (counted_still SRead (elapsed (t_start tm) (t_finish tm)) w1 p' Hs') as [Hs2 Hst2].
    split; [done|by eapply still_trans].
  - change (-1 =? -1) with true. cbv iota.
    erewrite bind_run; [|erewrite bind_run; [done|unfold client_sys, zoom, run; done]].
    erewrite bind_run by apply count_run. cbn [fst snd]. unfold overlay.
    rewrite drop_nil, app_nil_r, (sim_local_pread w p) by done. 
    destruct (counted_still SPread (elapsed (t_start tm) (t_finish tm))
      (set_cl (set_cl_os (cl_os (cl w)) (cl w)) w) p) as [Hs2 Hst2].
    { eapply sim_agree, Hs; by destruct w as [[] ?]. }
    eexists. split; [by destruct (os_pread fd count off p)|]. split; [done|].
    eapply still_trans, Hst2. apply still_client; [exact (sim_net _ _ Hs)|by destruct w as [[] ?]..].
Qed.

(** ** The whole read *)

Lemma step_read_op (w : world W) p op tm fd count off :
  env_ok → sim w p → allowed op = true → read_args op = Some (fd, count, off) →
  ∃ w', hvac_op op tm w = Ret (w', snd (plain_op op p)) ∧ sim w' (fst (plain_op op p)) ∧ still w w'.
Proof.
  intros He Hs Ha Hop. rewrite hvac_op_cut.
  destruct (sim_local_or_remote w p fd Hs) as [Hl|(t & r & Hrem)].
  - destruct (begin_local w p op tm fd count off He Hs Ha Hop Hl)
      as (w1 & x & Hb & Hs1 & Hst1 & Hl1 & Hx). erewrite bind_run by exact Hb.
    destruct (local_end w1 p op tm fd count off Hs1 Ha Hop Hl1) as (w2 & Hend & Hs2 & Hst2).
    assert (Hst : still w w2) by (by eapply still_trans).
    destruct Hx as [[-> Hp]|[[-> _]|(l & h & -> & _)]]; cbn [finish].
    + exists w1. by rewrite Hp.
    + by exists w2.
    + destruct (wait_loop _ _); [|by exists w2].
      erewrite bind_run by (by apply rest_local). cbn [read_rest]. erewrite bind_run by done.
      by exists w2.
  - destruct (begin_remote w p op tm fd count off t r He Hs Ha Hop Hrem)
      as (w1 & Hb & Hs1 & Hst1 & Hrem1). erewrite bind_run by exact Hb.
    destruct (serve_remote w1 p op fd count off t r He Hs1 Ha Hop Hrem1)
      as (n' & out & b & Hf & Hans & Hn & Hs2 & Hst2).
    destruct (remote_end _ _ op tm (rpc_ret out) b fd count off Hs2 Hop Hn)
      as (w3 & Hend & Hs3 & Hst3).
    cbn [finish]. unfold rest_of_call.
    erewrite bind_run; [|erewrite bind_run by (unfold remote, zoom, run; rewrite Hf; done);
      erewrite bind_run; [unfold read_callback; erewrite bind_run; [done|]|]].
    + rewrite Hend, Hans. exists w3. split_and!; [done|done|].
      eapply still_trans; [exact Hst1|]. by eapply still_trans.
    + apply (read_cb_run _ (World (cl w1) n')), (sim_net _ _ Hs2).
    + apply (free_addr_run (World (cl w1) n')); [apply (sim_net _ _ Hs2)|].
      apply (is_remote_known w1 p fd t r) in Hrem1; [|done].
      by apply (ex_known _ _ (sc_net _ _ (fr_conf _ _ _ _ (proj2 Hst2)))).
Qed.

End reads.
