(* ===== verification/CallSteps.v ===== *)
(** * One call, with the library and without

    Closing, from which no wait separates the caller, and the sum: each
    intercepted call keeps the relation of [Sim.v] and gives the answer of the
    direct call, and what the servers do by themselves keeps it too. *)

From S2P Require Import Prelude CText Posix Wire AddrFile FdState Comm Stats.
From S2P Require Import ClientComm ClientCommProps Client Wrappers Service Sim Cut OpenSteps ReadSteps.

Local Open Scope Z_scope.

Section calls.
Context {H : Mercury} {HOk : MercuryOk H} {W : Type} {T : Transport H W}.
Context {S : FileService T} {SOk : FileServiceOk S}.
Context {E : environment}.

#[local] Abbreviation hvac_op := (Sim.hvac_op E).
#[local] Abbreviation address_file := (Sim.address_file E).
#[local] Abbreviation rank_of := (Sim.rank_of E).
#[local] Abbreviation addr_of := (Sim.addr_of E).
#[local] Abbreviation server_of := (Sim.server_of E).
#[local] Abbreviation is_remote := (Sim.is_remote E).
#[local] Abbreviation fd_rel := (Sim.fd_rel E).
#[local] Abbreviation sim := (Sim.sim E).
#[local] Abbreviation env_ok := (Sim.env_ok E).
#[local] Abbreviation hvac_run := (Sim.hvac_run E).
#[local] Abbreviation cold_lookup := (Sim.cold_lookup E).
#[local] Abbreviation cold_op := (Sim.cold_op E).
#[local] Abbreviation cold_run := (Sim.cold_run E).
#[local] Abbreviation lookup_runs := (Sim.lookup_runs E).
#[local] Abbreviation same_conf := (Sim.same_conf E).
#[local] Abbreviation frame := (Sim.frame E).
#[local] Abbreviation quiet := (Sim.quiet E).
#[local] Abbreviation unowned := (Sim.unowned E).
#[local] Abbreviation still := (Sim.still E).

(** ** Closing *)

Lemma os_close_same (w : world W) p fd :
  sim w p → snd (os_close fd (cl_os (cl w))) = snd (os_close fd p).
Proof.
  intros Hs. pose proof (sim_fds _ _ Hs fd) as Hr. unfold fd_rel in Hr. unfold os_close.
  destruct (px_fds (cl_os (cl w)) !! fd), (px_fds p !! fd); done.
Qed.

(** A descriptor both processes have closed, and the library has forgotten. *)
Lemma sim_after_close (w w' : world W) p fd :
  sim w p → extends (net w) (net w') →
  cl_os (cl w') = fst (os_close fd (cl_os (cl w))) →
  address_cache (cl w') = address_cache (cl w) → cl_conf (cl w') = cl_conf (cl w) →
  fd_map (cl w') !! fd = None → default 0 (fd_redir_map (cl w') !! fd) = 0 →
  states_ok (fd_states (cl w')) →
  (∀ g, g ≠ fd → entry_same w w' g) →
  (∀ t r x, ¬ is_remote w fd t r →
     fs_view (net w) t r = Some x → fs_view (net w') t r = Some x) →
  sim w' (fst (os_close fd p)) ∧ frame (λ g, g = fd) (λ _ _, False) w w'.
Proof.
  intros Hs Hex Eo Ec Ek Hmap Hred Hst He Hv0.
  assert (Ha : ∀ g, g ≠ fd → same_at w w' g) by (intros g Hg; by apply es_at, He).
  assert (Hv : ∀ g t r x, g ≠ fd → is_remote w g t r →
    fs_view (net w) t r = Some x → fs_view (net w') t r = Some x).
  { intros g t r x Hg Hrem Hx. apply Hv0; [|done]. intros Hrem'.
    by apply Hg, (sim_inj _ _ Hs) with t r. }
  destruct (os_close fd (cl_os (cl w))) as [os' r1] eqn:E1.
  destruct (os_close fd p) as [p' r2] eqn:E2. simpl in *.
  destruct (os_close_spec _ _ _ _ (sim_os _ _ Hs) E1) as (_ & A3 & A4 & Ao & Af & _).
  destruct (os_close_spec _ _ _ _ (sim_plain _ _ Hs) E2) as (_ & B3 & B4 & Bo & Bf & _).
  assert (px_paths os' = px_paths (cl_os (cl w)) ∧ px_data os' = px_data (cl_os (cl w))) as [A1 A2].
  { change os' with (fst (os', r1)). rewrite <-E1. apply os_close_files. }
  assert (px_paths p' = px_paths p ∧ px_data p' = px_data p) as [B1 B2].
  { change p' with (fst (p', r2)). rewrite <-E2. apply os_close_files. }
  assert (Hc : same_conf w w') by (by apply same_conf_intro; rewrite ?Eo).
  assert (Hno : ∀ t r, is_remote w' fd t r → False) by (intros t r (q & Hq & _); congruence).
  split.
  2:{ split; [done|by auto| |].
      - intros g t r Hr. left. destruct (decide (g = fd)) as [->|Hg]; [by exfalso; eapply Hno|].
        by rewrite (is_remote_same _ _ _ _ _ Hc (Ha _ Hg)) in Hr.
      - intros t r x Hu _. by apply Hv0. }
  eapply (sim_steps w); try done; try (rewrite Eo; done).
  - intros q full d a Hq Hd Hl. apply (ex_file _ _ Hex), (sim_shared _ _ Hs) with q; try done.
    by apply (ex_live _ _ Hex).
  - intros g q Hq. left. destruct (decide (g = fd)) as [->|Hg]; [congruence|].
    by rewrite <-(sa_map _ _ _ (Ha _ Hg)).
  - intros g. destruct (decide (g = fd)) as [->|Hg].
    + unfold fd_rel. by rewrite Eo, Af, Bf, !lookup_delete_eq.
    + eapply (fd_rel_same w _ p p'); try done; [by apply Ha|by rewrite Eo, Af, lookup_delete_ne|
        by rewrite Bf, lookup_delete_ne|by eauto|apply (sim_fds _ _ Hs)].
  - intros g g' t r Hg Hg'.
    destruct (decide (g = fd)) as [->|Hne]; [by exfalso; eapply Hno|].
    destruct (decide (g' = fd)) as [->|Hne']; [by exfalso; eapply Hno|].
    rewrite (is_remote_same _ _ _ _ _ Hc (Ha _ Hne)) in Hg.
    rewrite (is_remote_same _ _ _ _ _ Hc (Ha _ Hne')) in Hg'. by eapply (sim_inj _ _ Hs).
Qed.

(** What hvac_remove_fd leaves of a tracked descriptor. *)
Lemma remove_fd_run (w : world W) p fd path :
  env_ok → sim w p → fd_map (cl w) !! fd = Some path →
  ∃ w' b, hvac_remove_fd E fd w = Ret (w', b) ∧
    extends (net w) (net w') ∧ cl_os (cl w') = cl_os (cl w) ∧
    address_cache (cl w') = address_cache (cl w) ∧ cl_conf (cl w') = cl_conf (cl w) ∧
    fd_map (cl w') = delete fd (fd_map (cl w)) ∧
    default 0 (fd_redir_map (cl w') !! fd) = 0 ∧
    (∀ g, g ≠ fd → fd_redir_map (cl w') !! g = fd_redir_map (cl w) !! g) ∧
    fd_states (cl w') = hvac_cleanup_fd_state fd (fd_states (cl w)) ∧
    (∀ t r x, ¬ is_remote w fd t r →
      fs_view (net w) t r = Some x → fs_view (net w') t r = Some x) ∧
    (∀ t r, is_Some (fs_view (net w') t r) →
      is_Some (fs_view (net w) t r) ∧ ¬ is_remote w fd t r).
Proof.
  intros He Hs Hp. unfold hvac_remove_fd, hvac_remote_close.
  assert (Htr : hvac_file_tracked fd w = Ret (w, true)) by (by rewrite tracked_run, Hp).
  destruct (tracked_server w p fd path (env_hash He) Hs Hp)
    as (h & t & Hh & Hlk & Hsrv & Hlive).
  destruct (sim_local_or_remote w p fd Hs) as [Hl|(t' & r & Hrem)].
  - assert (Hrun := close_rpc_run_local w fd h t (sim_net _ _ Hs) Hlive Hl Hlk).
    erewrite bind_run; [|erewrite bind_run by exact Htr; cbv iota;
      erewrite bind_run; [exact Hrun|by erewrite host_of_fd_run]].
    erewrite bind_run by done. erewrite bind_run by done.
    assert (Hno : ∀ t r, ¬ is_remote w fd t r) by (intros t' r Hr; by eapply remote_not_local).
    eexists _, _. split; [done|]. unfold is_local in Hl.
    split_and!; try (by destruct w as [[] nw]).
    split; auto. apply (sim_net _ _ Hs).
  - destruct (is_remote_view _ _ _ _ _ (sim_fds _ _ Hs fd) Hrem)
      as (_ & o & d & _ & _ & _ & _ & _ & _ & Hv).
    pose proof Hrem as (q & Hq & Hr & Hr0 & _ & Hsrv').
    assert (t' = t) as -> by congruence.
    assert (Hred : fd_redir_map (cl w) !! fd = Some r).
    { destruct (fd_redir_map (cl w) !! fd); simpl in Hr; [by subst|lia]. }
    destruct (close_rpc_run_remote w fd h t r d (ofd_off o) (sim_net _ _ Hs) Hlive Hv Hred Hr0 Hlk)
      as (n' & Hrun & Hex & Hv' & Hos).
    erewrite bind_run; [|erewrite bind_run by exact Htr; cbv iota;
      erewrite bind_run; [exact Hrun|by erewrite host_of_fd_run]].
    erewrite bind_run by done. erewrite bind_run by done.
    eexists _, _. split; [done|].
    assert (Hviews : ∀ t' r' x, ¬ is_remote w fd t' r' →
      fs_view (net w) t' r' = Some x → fs_view n' t' r' = Some x).
    { intros t' r' x Hg Hx. rewrite Hos; [done|]. by intros [= -> ->]. }
    assert (Hgone : ∀ t' r', is_Some (fs_view n' t' r') →
      is_Some (fs_view (net w) t' r') ∧ ¬ is_remote w fd t' r').
    { intros t' r' Hx. assert (Hne : (t', r') ≠ (t, r)).
      { intros [= -> ->]. rewrite Hv' in Hx. by destruct Hx. }
      rewrite Hos in Hx by done. split; [done|].
      intros Hrem'. destruct Hrem as (q1 & E1 & E2 & _ & _ & E3), Hrem' as (q2 & E4 & E5 & _ & _ & E6).
      apply Hne. congruence. }
    clear Hrem Hlk Hh Hrun Htr Hs Hsrv Hsrv'. destruct w as [[] nw]. simpl in *.
    split_and!; try done; [by rewrite lookup_delete_eq|].
    intros g Hg. by rewrite lookup_delete_ne.
Qed.

Lemma step_close (w : world W) p fd s f p' r :
  env_ok → sim w p → os_close fd p = (p', r) →
  ∃ w', wrap_close E fd s f w = Ret (w', r) ∧ sim w' p' ∧ kept w w' ∧
    frame (λ g, g = fd) (λ _ _, False) w w' ∧
    (∀ t r, is_Some (fs_view (net w') t r) →
      is_Some (fs_view (net w) t r) ∧ ¬ is_remote w fd t r).
Proof.
  intros He Hs Hcl. unfold wrap_close.
  destruct (map_or_fail_run "close" w He ltac:(set_solver)) as [mp Hmp].
  erewrite bind_run by exact Hmp. apply (sim_mapped mp) in Hs.
  destruct (still_mapped (E:=E) mp w (sim_net _ _ Hs)) as [Hk Hq].
  set (w1 := set_cl (set_real_mapped mp (cl w)) w) in *.
  assert (Hsame1 : ∀ t x, is_remote w fd t x → is_remote w1 fd t x) by (by destruct w as [[] ?]).
  assert (Hnet1 : net w1 = net w) by (by destruct w as [[] ?]).
  clearbody w1. clear Hmp.
  erewrite bind_run by (by eapply redirect_on). cbv iota.
  unfold hvac_get_path, client_gets. erewrite bind_run by done.
  pose proof (os_close_same _ _ fd Hs) as Hsame. rewrite Hcl in Hsame. simpl in Hsame.
  assert (∃ w2, (if fd_map (cl w1) !! fd is Some _ then hvac_remove_fd E fd ≫= λ _, mret ()
      else mret ()) w1 = Ret (w2, tt) ∧ cl_os (cl w2) = cl_os (cl w1) ∧ kept w1 w2 ∧
      (∀ t x, is_Some (fs_view (net w2) t x) →
         is_Some (fs_view (net w) t x) ∧ ¬ is_remote w fd t x) ∧
      let w3 := set_cl (set_cl_os (fst (os_close fd (cl_os (cl w1)))) (cl w2)) w2 in
      sim w3 p' ∧ frame (λ g, g = fd) (λ _ _, False) w1 w3)
    as (w2 & Hw2 & Ho2 & Hk2 & Hgone & Hs2 & Hf2).
  { replace p' with (fst (os_close fd p)) by (by rewrite Hcl).
    destruct (fd_map (cl w1) !! fd) as [path|] eqn:Hp.
    - destruct (remove_fd_run w1 p fd path He Hs Hp)
        as (w2 & b & Hrun & Hex & Eo & Ea & Ek & Em & Er & Ers & Es & Hv & Hgo).
      exists w2. erewrite bind_run by exact Hrun. split; [done|]. split; [done|]. split; [done|].
      split.
      { intros t x Hx. destruct (Hgo _ _ Hx) as [H1 H2]. rewrite Hnet1 in H1. by auto. }
      apply (sim_after_close w1); try done; try (destruct w2 as [[] ?]; done).
      + destruct w2 as [[] ?]. simpl in *. by rewrite Em, lookup_delete_eq.
      + destruct w2 as [[] ?]. simpl in *. subst. apply states_cleanup_ok, (sim_states _ _ Hs).
      + intros g Hg. destruct w2 as [[] ?]. simpl in *. split; [split|]; simpl.
        * by rewrite Em, lookup_delete_ne.
        * by rewrite Ers.
        * rewrite Es, fd_state_cleanup. by rewrite bool_decide_false.
        * rewrite Es. simpl. by rewrite lookup_delete_ne.
    - exists w1. split; [done|]. split; [done|]. split; [done|]. split.
      { intros t x Hx. rewrite Hnet1 in Hx. split; [done|]. intros Hrem%Hsame1.
        destruct Hrem as (q & Hq' & _). congruence. }
      apply (sim_after_close w1); try done; try (destruct w1 as [[] ?]; done).
      + split; [|done..]. pose proof (sim_net _ _ Hs). by destruct w1 as [[] ?].
      + destruct (sim_local_or_remote _ p fd Hs) as [Hl|(t & x & (q & Hp' & _))]; [|congruence].
        unfold is_local in Hl. by destruct w1 as [[] ?].
      + pose proof (sim_states _ _ Hs). by destruct w1 as [[] ?]. }
  erewrite bind_run by exact Hw2.
  destruct (os_close fd (cl_os (cl w1))) as [os' r'] eqn:Eos. cbn [fst snd] in *. subst r'.
  erewrite bind_run; [|unfold client_sys, zoom, run; rewrite Ho2, Eos; done].
  set (w3 := set_cl (set_cl_os os' (cl w2)) w2) in *.
  assert (Hk3 : kept w w3) by (eapply kept_trans; [exact Hk|];
    eapply kept_trans; [exact Hk2|]; by destruct w2 as [[] ?]).
  assert (Hf3 : frame (λ g, g = fd) (λ _ _, False) w w3)
    by (eapply frame_trans; [eapply frame_weaken, Hq; done|done]).
  assert (Hgone3 : ∀ t x, is_Some (fs_view (net w3) t x) →
    is_Some (fs_view (net w) t x) ∧ ¬ is_remote w fd t x) by (by destruct w2 as [[] ?]).
  destruct (negb (r =? 0)); [by exists w3|].
  erewrite bind_run by apply count_run. eexists. split; [done|].
  pose proof (still_client (E:=E) w3
    (set_cl (set_stats (bump SClose (elapsed s f) (cl_stats (cl w3))) (cl w3)) w3)
    (sim_net _ _ Hs2)) as Hlast.
  destruct Hlast as [Hk4 Hq4]; try (by destruct w3 as [[] ?]).
  split_and!; [by apply sim_counted|by eapply kept_trans| |].
  - eapply frame_trans; [exact Hf3|]. eapply frame_weaken, Hq4. done.
  - intros t x Hx. apply Hgone3. by destruct w3 as [[] ?].
Qed.

(** ** Any call *)

(** The read wrapper, in the form of [Wrappers.v]. *)
Lemma step_read (w : world W) p returns fd count s f p' a :
  env_ok → sim w p → 0 ≤ count < 2 ^ 31 → os_read fd count p = (p', a) →
  ∃ w', wrap_read E returns fd count s f w = Ret (w', a) ∧ sim w' p' ∧ still w w'.
Proof.
  intros He Hs Hc Hop.
  destruct (step_read_op w p (OpRead fd count) (Timing s f returns) fd count (-1) He Hs)
    as (w' & Hw & Hs' & Hst); [|done|].
  { simpl. apply andb_true_iff. split; [apply Z.leb_le|apply Z.ltb_lt]; lia. }
  exists w'. cbn [plain_op] in Hw, Hs'. by rewrite Hop in Hw, Hs'.
Qed.

Lemma step_op (w : world W) p op t :
  env_ok → sim w p → allowed op = true →
  match cold_op (cl_conf (cl w)) op (dom (address_cache (cl w)), p) with
  | None => hvac_op op t w = Fault NullDeref
  | Some (known, p', a) => ∃ w', hvac_op op t w = Ret (w', a) ∧ sim w' p' ∧
      dom (address_cache (cl w')) = known ∧ cl_conf (cl w') = cl_conf (cl w)
  end.
Proof.
  intros He Hs Ha. destruct op as [path flags|fd count|fd count off|fd].
  - by apply step_open.
  - destruct (step_read_op w p (OpRead fd count) t fd count (-1) He Hs Ha eq_refl)
      as (w' & Hw & Hs' & [Hk1 Hk2] & _). unfold Sim.cold_op.
    destruct (plain_op _ p) as [p' a]. exists w'. by rewrite Hk1.
  - destruct (step_read_op w p (OpPread fd count off) t fd count off He Hs Ha eq_refl)
      as (w' & Hw & Hs' & [Hk1 Hk2] & _). unfold Sim.cold_op.
    destruct (plain_op _ p) as [p' a]. exists w'. by rewrite Hk1.
  - simpl. destruct (os_close fd p) as [p' r] eqn:Ho.
    destruct (step_close w p fd (t_start t) (t_finish t) p' r He Hs Ho)
      as (w' & Hw & Hs' & [Hk1 Hk2] & _).
    exists w'. by rewrite (bind_run _ _ _ _ _ Hw), Hk1.
Qed.

(** Server activity is invisible to the relation. *)
Lemma step_background (w : world W) p e :
  sim w p → sim (World (cl w) (fs_background e (net w))) p.
Proof.
  intros Hs. destruct (svc_background _ e (sim_net _ _ Hs)) as [Hex Hv].
  apply sim_served; [done|done|]. intros g t r x _. by rewrite Hv.
Qed.

End calls.


