(* ===== verification/Threads.v ===== *)
(** * Several threads inside one client

    The calls of [Cut.v] made by any number of threads at once. A thread runs
    up to its first wait in one step; from there it waits for an open of its
    descriptor by another thread, or for its server: the server serves the
    request some time later, the progress thread runs the callback, which
    settles an opened descriptor and publishes the result in the
    synchronisation context on the waiting thread's stack, and the thread
    returns. Servers answer in any order. A step is atomic: what two threads
    do to one of the client's unlocked tables at the very same moment is a data
    race, whose outcome C++ leaves open ([ClientTables.v] says which calls can
    come to that). The start of Mercury is part of the first open's step here;
    [Boot.v] makes it one of its own. *)

From S2P Require Import Prelude CText Posix Wire AddrFile FdState Comm Stats.
From S2P Require Import ClientComm ClientCommProps Client Wrappers Service Sim Cut.

Local Open Scope Z_scope.

Section threads.
Context {H : Mercury} {W : Type} {T : Transport H W} {S : FileService T}.
Context (E : environment).

(** ** State *)

(** How far the request of a waiting thread is. *)
Inductive request : Type :=
| Sent (m : message)
| AnsweredRead (r : reply (hvac_rpc_out_t * bytes))
| AnsweredOpen (r : reply hvac_open_out_t)
| Published (a : Z * bytes).

(** Where a thread waits: in hvac_wait_fd_ready on a status object, or in
    hvac_wait_for_operation; [freed] once hvac_comm_free_addr has run. *)
Inductive stage : Type :=
| Waiting (status : positive) (svr_hash count offset : Z)
| InFlight (svr_addr : option hg_addr) (freed : bool) (r : request).

(** A thread inside a call on the descriptor [c_fd]. *)
Record call : Type := Call {
  c_op : file_op;
  c_time : timing;
  c_fd : Z;
  c_stage : stage
}.

Record threads : Type := Threads {
  th_world : world W;
  th_calls : gmap nat call
}.

(** What an observer sees: a thread calls, the call takes effect, the thread
    gets its answer. An open takes effect when the local file is opened, a
    served read when its server reads, a close at once. *)
Inductive happening : Type :=
| Invoke (t : nat) (op : file_op)
| Effect (t : nat) (op : file_op) (a : Z * bytes)
| Return (t : nat) (a : Z * bytes).

(** ** Steps *)

Inductive thread_label : Type :=
| TCall (t : nat) (op : file_op) (tm : timing)   (* up to the first wait *)
| TWake (t : nat)                                (* the descriptor is settled *)
| TTimeout (t : nat)                             (* hvac_wait_fd_ready gives up *)
| TServe (t : nat)                               (* the server runs the handler *)
| TFree (t : nat)                                (* hvac_comm_free_addr *)
| TTrigger (t : nat)                             (* HG_Trigger runs the callback *)
| TReturn (t : nat)                              (* the wait and the wrapper end *)
| TServers (e : fs_event).                       (* what servers do by themselves *)

Definition with_stage (st : stage) (c : call) : call := Call (c_op c) (c_time c) (c_fd c) st.

(** The thread goes to another stage of its call, *)
Definition stay (t : nat) (c : call) (cs : gmap nat call) (h : list happening)
    (r : res (world W * stage)) : res (threads * list happening) :=
  match r with
  | Ret (w, st) => Ret (Threads w (<[t := with_stage st c]> cs), h)
  | Fault f => Fault f
  end.

(** or leaves it with the result of its remote part. *)
Definition leave (t : nat) (op : file_op) (tm : timing) (fd : Z) (cs : gmap nat call)
    (h : Z * bytes → list happening) (r : Z * bytes) (w : world W) :
    res (threads * list happening) :=
  match op_end op tm fd r w with
  | Ret (w', a) => Ret (Threads w' (delete t cs), h a ++ [Return t a])
  | Fault f => Fault f
  end.

Definition call_step (t : nat) (op : file_op) (tm : timing) (w : world W) (cs : gmap nat call) :
    res (threads * list happening) :=
  match op_begin E op tm w with
  | Ret (w', Over a) => Ret (Threads w' cs, [Invoke t op; Effect t op a; Return t a])
  | Ret (w', GoOn fd r) => leave t op tm fd cs (λ a, [Invoke t op; Effect t op a]) r w'
  | Ret (w', Waits fd status svr_hash count offset) =>
      Ret (Threads w' (<[t := Call op tm fd (Waiting status svr_hash count offset)]> cs),
           [Invoke t op])
  | Ret (w', Forwarded fd a m) =>
      Ret (Threads w' (<[t := Call op tm fd (InFlight a false (Sent m))]> cs),
           Invoke t op :: (if m is OpenRequest _ then [Effect t op (fd, [])] else []))
  | Fault f => Fault f
  end.

(** A thread woken in hvac_wait_fd_ready looks at the state again. *)
Definition wake_step (t : nat) (c : call) (status : positive) (svr_hash count offset : Z)
    (w : world W) (cs : gmap nat call) : option (res (threads * list happening)) :=
  let gives_up := leave t (c_op c) (c_time c) (c_fd c) cs (λ a, [Effect t (c_op c) a]) (-1, []) in
  match fd_heap (fd_states (cl w)) !! status with
  | Some HVAC_FD_OPENING => None
  | Some HVAC_FD_READY => Some
      match read_rpc_rest E svr_hash (c_fd c) true count offset w with
      | Ret (w', Some (a, inp)) =>
          stay t c cs [] (Ret (w', InFlight a false (Sent (ReadRequest inp))))
      | Ret (w', None) => gives_up w'
      | Fault f => Fault f
      end
  | _ => Some (gives_up w)
  end.

(** One step: [None] where it cannot be taken, a fault where it ends the
    process. *)
Definition threads_run (l : thread_label) (s : threads) :
    option (res (threads * list happening)) :=
  let w := th_world s in
  let cs := th_calls s in
  match l with
  | TCall t op tm =>
      match cs !! t with
      | Some _ => None
      | None => Some (call_step t op tm w cs)
      end
  | TWake t =>
      c ← cs !! t;
      match c_stage c with
      | Waiting status svr_hash count offset => wake_step t c status svr_hash count offset w cs
      | _ => None
      end
  | TTimeout t =>
      c ← cs !! t;
      match c_stage c with
      | Waiting _ _ _ _ =>
          (* ETIMEDOUT is final, even if the state has changed meanwhile *)
          Some (leave t (c_op c) (c_time c) (c_fd c) cs (λ a, [Effect t (c_op c) a]) (-1, []) w)
      | _ => None
      end
  | TServe t =>
      c ← cs !! t;
      match c_stage c with
      | InFlight a freed (Sent (ReadRequest inp)) =>
          let '(n, r) := forward_read a inp (net w) in
          Some (stay t c cs (if r is Reply (out, d) then [Effect t (c_op c) (rpc_ret out, d)] else [])
                  (Ret (World (cl w) n, InFlight a freed (AnsweredRead r))))
      | InFlight a freed (Sent (OpenRequest inp)) =>
          let '(n, r) := forward_open a inp (net w) in
          Some (stay t c cs [] (Ret (World (cl w) n, InFlight a freed (AnsweredOpen r))))
      | _ => None
      end
  | TFree t =>
      c ← cs !! t;
      match c_stage c with
      | InFlight a false r =>
          Some (stay t c cs [] ((hvac_comm_free_addr a ;; mret (InFlight a true r)) w))
      | _ => None
      end
  | TTrigger t =>
      c ← cs !! t;
      match c_stage c with
      | InFlight _ _ (AnsweredRead NeverAnswered) | InFlight _ _ (AnsweredOpen NeverAnswered) => None
      | InFlight a freed (AnsweredRead r) =>
          Some (stay t c cs [] ((x ← read_callback r; mret (InFlight a freed (Published x))) w))
      | InFlight a freed (AnsweredOpen r) =>
          Some (stay t c cs [] ((x ← open_callback (c_fd c) r;
                                 mret (InFlight a freed (Published x))) w))
      | _ => None
      end
  | TReturn t =>
      c ← cs !! t;
      match c_stage c with
      | InFlight _ true (Published r) =>
          Some (leave t (c_op c) (c_time c) (c_fd c) cs (λ _, []) r w)
      | _ => None
      end
  | TServers e => Some (Ret (Threads (World (cl w) (fs_background e (net w))) cs, []))
  end.

(** A run with its history; it stops where the process ends. *)
Fixpoint threads_runs (ls : list thread_label) (s : threads) :
    option (res (threads * list happening)) :=
  match ls with
  | [] => Some (Ret (s, []))
  | l :: ls' =>
      r ← threads_run l s;
      match r with
      | Ret (s', h) =>
          r' ← threads_runs ls' s';
          Some match r' with
               | Ret (s'', h') => Ret (s'', h ++ h')
               | Fault f => Fault f
               end
      | Fault f => Some (Fault f)
      end
  end.

(** ** What an application has to keep to *)

(** It closes no descriptor another thread is using; its calls are those of
    [Sim.v]; and no wait for an open takes longer than its timeout. *)
Definition label_ok (l : thread_label) (s : threads) : bool :=
  match l with
  | TCall _ op _ =>
      allowed op &&
      (if op is OpClose fd then bool_decide (map_Forall (λ _ c, c_fd c ≠ fd) (th_calls s)) else true)
  | TTimeout _ => false
  | _ => true
  end.

Fixpoint disciplined (ls : list thread_label) (s : threads) : bool :=
  match ls with
  | [] => true
  | l :: ls' =>
      label_ok l s &&
      match threads_run l s with
      | Some (Ret (s', _)) => disciplined ls' s'
      | _ => true
      end
  end.

(** ** What a history has to be *)

(** The effects, one after the other, on a process without the library that
    opens the address file at the first use of a server. *)
Fixpoint replay (k : config) (h : list happening) (s : gset Z * posix) :
    option (gset Z * posix) :=
  match h with
  | [] => Some s
  | Effect _ op a :: h' =>
      '(s', a') ← cold_op E k op s;
      if bool_decide (a' = a) then replay k h' s' else None
  | _ :: h' => replay k h' s
  end.

(** The same on a process without the library and nothing else. *)
Fixpoint plain_replay (h : list happening) (p : posix) : option posix :=
  match h with
  | [] => Some p
  | Effect _ op a :: h' =>
      let '(p', a') := plain_op op p in
      if bool_decide (a' = a) then plain_replay h' p' else None
  | _ :: h' => plain_replay h' p
  end.

(** Where a thread is: outside, called, or its call has taken effect. *)
Inductive phase : Type :=
| Outside
| Called (op : file_op)
| Effected (a : Z * bytes).

(** A thread's own history alternates call, effect, return, with one answer:
    every effect lies between its call and its return. *)
Definition phase_step (t : nat) (x : happening) (ph : phase) : option phase :=
  match x with
  | Invoke t' op =>
      if bool_decide (t' = t)
      then match ph with Outside => Some (Called op) | _ => None end else Some ph
  | Effect t' op a =>
      if bool_decide (t' = t)
      then match ph with
           | Called op' => if bool_decide (op' = op) then Some (Effected a) else None
           | _ => None
           end else Some ph
  | Return t' a =>
      if bool_decide (t' = t)
      then match ph with
           | Effected a' => if bool_decide (a' = a) then Some Outside else None
           | _ => None
           end else Some ph
  end.

Fixpoint phase_after (t : nat) (h : list happening) (ph : phase) : option phase :=
  match h with
  | [] => Some ph
  | x :: h' => ph' ← phase_step t x ph; phase_after t h' ph'
  end.

End threads.
