(* ===== verification/ThreadSteps.v ===== *)
(** * The pieces of a thread's call

    The labels of [Threads.v] against the calls of [Wrappers.v] and the
    relation of [Sim.v]: a call nobody interrupts is the wrapper's call; what
    each piece of a read does in related states; what of another thread's call
    a step leaves alone. *)

From S2P Require Import Prelude CText Posix Wire AddrFile FdState Comm Stats.
From S2P Require Import ClientComm ClientCommProps Client Wrappers Service Sim Cut OpenSteps ReadSteps CallSteps Threads.

Local Open Scope Z_scope.

(** ** A call without interruption *)

Section whole.
Context {H : Mercury} {W : Type} {T : Transport H W} {S : FileService T}.
Context {E : environment}.

(** Asking does not change the world. *)
Lemma tracked_Ret fd (w w' : world W) b : hvac_file_tracked fd w = Ret (w', b) → w' = w.
Proof. by intros [= <- _]. Qed.

Lemma get_path_Ret fd (w w' : world W) x : hvac_get_path fd w = Ret (w', x) → w' = w.
Proof. by intros [= <- _]. Qed.

Lemma host_of_fd_Ret fd (w w' : world W) h : host_of_fd E fd w = Ret (w', h) → w' = w.
Proof.
  intros Hr. unfold host_of_fd, host_of_path in Hr. bind_in Hr w1 m E1. bind_in Hr w2 k E2.
  injection E1 as <- _. injection E2 as <- _. destruct (_ =? 0); [done|].
  by apply mret_Ret in Hr as [-> _].
Qed.

Lemma map_or_fail_states f (w w' : world W) u :
  MAP_OR_FAIL E f w = Ret (w', u) → fd_states (cl w') = fd_states (cl w).
Proof.
  unfold MAP_OR_FAIL. intros Hm. bind_in Hm w1 m E1. injection E1 as <- <-.
  case_bool_decide; [by apply mret_Ret in Hm as [-> _]|]. destruct (dlsym E f); [|done].
  injection Hm as <- _. by destruct w as [[] ?].
Qed.

Lemma index_redir_states fd (w w' : world W) r :
  index_redir fd w = Ret (w', r) → fd_states (cl w') = fd_states (cl w).
Proof.
  unfold index_redir. intros Hr. bind_in Hr w1 m E1. injection E1 as <- <-.
  destruct (_ !! fd); [by apply mret_Ret in Hr as [-> _]|]. bind_in Hr w2 u E2.
  apply mret_Ret in Hr as [-> _]. injection E2 as <- _. by destruct w as [[] ?].
Qed.

Lemma read_rpc_begin_no_wait h fd buf count off (w w' : world W) fd' l h' c o :
  fd_state fd (fd_states (cl w)) ≠ Some HVAC_FD_OPENING →
  read_rpc_begin E h fd buf count off w ≠ Ret (w', Waits fd' l h' c o).
Proof.
  intros Hst Hr. unfold read_rpc_begin in Hr. bind_in Hr w1 st E1. injection E1 as <- <-.
  unfold fd_state in Hst. destruct (hvac_get_fd_status fd _) as [l'|];
    [|by apply mret_Ret in Hr as [_ ?]].
  simpl in Hst. destruct (fd_heap _ !! l') as [[]|]; try (by apply mret_Ret in Hr as [_ ?]).
  bind_in Hr w4 y E4. apply mret_Ret in Hr as [_ Hr]. by destruct y as [[]|].
Qed.

(** A call does not wait for an open on a descriptor that is not opening. *)
Lemma op_begin_no_wait op tm (w w' : world W) fd l h count off :
  (∀ fd' c o, read_args op = Some (fd', c, o) →
     fd_state fd' (fd_states (cl w)) ≠ Some HVAC_FD_OPENING) →
  op_begin E op tm w ≠ Ret (w', Waits fd l h count off).
Proof.
  destruct op as [path flags|fd' c|fd' c o|fd']; cbn [op_begin]; intros Hst Hr.
  - bind_in Hr w1 u1 E1. bind_in Hr w2 o2 E2. destruct o2; bind_in Hr w3 f E3;
      [by apply mret_Ret in Hr as [_ ?]|].
    destruct (f =? -1); [by apply mret_Ret in Hr as [_ ?]|].
    by apply track_begin_shape in Hr as [?|(? & ? & ?)].
  - bind_in Hr w1 u1 E1. bind_in Hr w2 tr E2. apply map_or_fail_states in E1.
    apply tracked_Ret in E2 as ->. destruct tr; [|by apply mret_Ret in Hr as [_ ?]].
    bind_in Hr w3 host E3. apply host_of_fd_Ret in E3 as ->.
    eapply read_rpc_begin_no_wait, Hr. rewrite E1. by eapply Hst.
  - bind_in Hr w1 u1 E1. apply map_or_fail_states in E1. bind_in Hr w2 path E2.
    apply get_path_Ret in E2 as ->.
    destruct path; [|bind_in Hr w4 a E4; by apply mret_Ret in Hr as [_ ?]].
    bind_in Hr w2 tr E2. apply tracked_Ret in E2 as ->.
    destruct (negb tr); [by apply mret_Ret in Hr as [_ ?]|].
    bind_in Hr w3 redir E3. apply index_redir_states in E3.
    destruct (redir =? 0); [by apply mret_Ret in Hr as [_ ?]|].
    bind_in Hr w4 host E4. apply host_of_fd_Ret in E4 as ->.
    eapply read_rpc_begin_no_wait, Hr. rewrite E3, E1. by eapply Hst.
  - bind_in Hr w1 a E1. by apply mret_Ret in Hr as [_ ?].
Qed.

(** The labels of a whole call. *)
Definition whole_call (t : nat) (op : file_op) (tm : timing) : list (thread_label (S:=S)) :=
  [TCall t op tm; TServe t; TFree t; TTrigger t; TReturn t].

End whole.

(** ** What is true of a thread inside a call *)

Section calls.
Context {H : Mercury} {HOk : MercuryOk H} {W : Type} {T : Transport H W}.
Context {S : FileService T} {SOk : FileServiceOk S}.
Context {E : environment}.

Definition is_open (op : file_op) : bool := if op is OpOpen _ _ then true else false.

(** A request at [t]: what it is about, and whether it has taken effect. *)
Definition in_flight_ok (w : world W) (p : posix) (c : call) (ph : phase) (t : hg_addr)
    (req : request) : Prop :=
  match req with
  | Sent (ReadRequest inp) =>
      ph = Called (c_op c) ∧ ∃ count off r, read_args (c_op c) = Some (c_fd c, count, off) ∧
        is_remote E w (c_fd c) t r ∧ inp = read_request count r off
  | Sent (OpenRequest inp) =>
      ph = Effected (c_fd c, []) ∧ is_open (c_op c) = true ∧
      ∃ full d, opening E w p (c_fd c) full t d ∧ inp = {| open_path := full |}
  | AnsweredRead rep =>
      (∃ count off, read_args (c_op c) = Some (c_fd c, count, off)) ∧
      ∃ out b, rep = Reply (out, b) ∧ 0 ≤ rpc_ret out < 2 ^ 31 ∧ ph = Effected (rpc_ret out, b)
  | AnsweredOpen rep =>
      ph = Effected (c_fd c, []) ∧ is_open (c_op c) = true ∧
      settles rep ∧ ∃ full d, opening E w p (c_fd c) full t d ∧
        answers (net w) t d (open_ret rep) ∧ unowned E w t (open_ret rep)
  | Published a =>
      if is_open (c_op c) then ph = Effected (c_fd c, [])
      else (∃ count off, read_args (c_op c) = Some (c_fd c, count, off)) ∧
           0 ≤ fst a < 2 ^ 31 ∧ ph = Effected a
  end.

Definition call_ok (w : world W) (p : posix) (c : call) (ph : phase) : Prop :=
  allowed (c_op c) = true ∧
  match c_stage c with
  | Waiting status svr_hash count off =>
      ph = Called (c_op c) ∧ read_args (c_op c) = Some (c_fd c, count, off) ∧
      waits_for (E:=E) w (c_fd c) status svr_hash
  | InFlight a _ req => ∃ t, a = Some t ∧ fs_known (net w) t ∧ in_flight_ok w p c ph t req
  end.

(** An open that is not settled. *)
Definition pending (c : call) : bool :=
  match c_stage c with
  | InFlight _ _ (Sent (OpenRequest _)) | InFlight _ _ (AnsweredOpen _) => true
  | _ => false
  end.

(** A call that still needs what the tables say of its descriptor. *)
Definition uses (c : call) : bool :=
  match c_stage c with
  | Waiting _ _ _ _ | InFlight _ _ (Sent _) | InFlight _ _ (AnsweredOpen _) => true
  | _ => false
  end.

Lemma pending_uses c : pending c = true → uses c = true.
Proof. unfold pending, uses. by destruct (c_stage c) as [|? ? [[]| | |]]. Qed.

(** The server's descriptor an answered open is about to install. *)
Definition claims (c : call) : option (hg_addr * Z) :=
  match c_stage c with
  | InFlight (Some t) _ (AnsweredOpen r) =>
      if 0 <=? open_ret r then Some (t, open_ret r) else None
  | _ => None
  end.

Definition files_same (p p' : posix) : Prop := px_paths p' = px_paths p ∧ px_data p' = px_data p.

Lemma unowned_neg (w : world W) t r : r ≤ 0 → unowned E w t r.
Proof. intros Hr g (? & _ & _ & ? & _). lia. Qed.

Lemma host_same (w w' : world W) path h :
  cl_conf (cl w') = cl_conf (cl w) →
  host_of_path E path w = Ret (w, h) → host_of_path E path w' = Ret (w', h).
Proof.
  intros Hk. unfold host_of_path, client_gets. unfold_st. rewrite Hk.
  destruct (_ =? 0); [done|]. by intros [= ->].
Qed.

Lemma waits_for_same (w w' : world W) fd l h :
  cl_conf (cl w') = cl_conf (cl w) → fd_map (cl w') !! fd = fd_map (cl w) !! fd →
  fd_state_map (fd_states (cl w')) !! fd = fd_state_map (fd_states (cl w)) !! fd →
  waits_for (E:=E) w fd l h → waits_for (E:=E) w' fd l h.
Proof.
  intros Hk Hm Hs (Hl & path & h' & Hp & Hh & ->). split; [by rewrite Hs|].
  exists path, h'. split_and!; [by rewrite Hm|by eapply host_same|done].
Qed.

(** The calls in progress do not mind a step about other descriptors. *)
Lemma call_ok_stable X N (w w' : world W) p p' c ph :
  frame E X N w w' → files_same p p' →
  (uses c = true → ¬ X (c_fd c)) →
  (pending c = true → ∀ o, px_fds p !! c_fd c = Some o → px_fds p' !! c_fd c = Some o) →
  (∀ t r, claims c = Some (t, r) → ¬ N t r) →
  call_ok w p c ph → call_ok w' p' c ph.
Proof.
  intros Hf [P1 P2] HX Hpend HN [Ha Hok]. split; [done|].
  pose proof (fr_conf _ _ _ _ Hf) as Hc. unfold uses, pending, claims in *.
  destruct (c_stage c) as [l h count off|a freed req].
  - destruct Hok as (Hph & Hop & Hw). split_and!; try done.
    destruct (fr_entry _ _ _ _ Hf (c_fd c) (HX eq_refl)) as [[E1 _ _] E2].
    eapply waits_for_same, Hw; [apply (sc_conf _ _ Hc)|done|done].
  - destruct Hok as (t & -> & Hl & Hreq). exists t.
    split_and!; [done|by apply (ex_known _ _ (sc_net _ _ Hc))|].
    assert (Hopening : ∀ full d, ¬ X (c_fd c) →
      (∀ o, px_fds p !! c_fd c = Some o → px_fds p' !! c_fd c = Some o) →
      opening E w p (c_fd c) full t d → opening E w' p' (c_fd c) full t d).
    { intros full d Hx Ho. by apply (opening_stable (E:=E) X N). }
    destruct req as [[inp|inp]|rep|rep|a]; simpl in *.
    + destruct Hreq as (Hph & count & off & r & Hop & Hrem & Hinp).
      split; [done|]. exists count, off, r. split_and!; try done.
      destruct (fr_entry _ _ _ _ Hf (c_fd c) (HX eq_refl)) as [E1 _].
      by apply (is_remote_same _ _ _ _ _ Hc E1).
    + destruct Hreq as (Hph & Hop & full & d & Hop' & Hinp). split_and!; try done.
      exists full, d. eauto.
    + done.
    + destruct Hreq as (Hph & Hop & Hset & full & d & Hop' & Han & Hu). split_and!; try done.
      exists full, d. destruct (Z.leb_spec 0 (open_ret rep)) as [Hr|Hr].
      * specialize (HN _ _ eq_refl). split_and!; [by eauto| |by eapply frame_unowned].
        destruct Han as [?|[? Hv]]; [by left|right]. split; [done|]. by eapply fr_views.
      * split_and!; [by eauto| |apply unowned_neg; lia].
        destruct Han as [?|[? _]]; [by left|lia].
    + done.
Qed.

(** A call that uses its descriptor has it open. *)
Lemma uses_open (w : world W) p c ph :
  sim E w p → call_ok w p c ph → uses c = true → is_Some (px_fds p !! c_fd c).
Proof.
  intros Hs [_ Hok] Hu. unfold uses in Hu. destruct (c_stage c) as [l h count off|a freed req].
  - destruct Hok as (_ & _ & _ & path & _ & Hp & _).
    pose proof (sim_fds _ _ Hs (c_fd c)) as Hr. unfold fd_rel in Hr.
    destruct (px_fds p !! c_fd c); [by eexists|]. destruct (px_fds _ !! _); [done|].
    destruct Hr as [Hr _]. congruence.
  - destruct Hok as (t & -> & _ & Hreq). destruct req as [[inp|inp]|rep|rep|a]; simpl in *; try done.
    + destruct Hreq as (_ & count & off & r & _ & Hrem & _).
      destruct (is_remote_view _ _ _ _ _ (sim_fds _ _ Hs _) Hrem) as (_ & o & _ & _ & Ho & _).
      by eexists.
    + destruct Hreq as (_ & _ & full & d & Hop & _).
      destruct (op_ofd _ _ _ _ _ _ Hop) as (i & m & Ho & _). by eexists.
    + destruct Hreq as (_ & _ & _ & full & d & Hop & _).
      destruct (op_ofd _ _ _ _ _ _ Hop) as (i & m & Ho & _). by eexists.
Qed.

(** A pending open's descriptor is local, and opening. *)
Lemma pending_opening (w : world W) p c ph :
  call_ok w p c ph → pending c = true → ∃ full t d, opening E w p (c_fd c) full t d.
Proof.
  intros [_ Hok] Hp. unfold pending in Hp. destruct (c_stage c) as [|a freed req]; [done|].
  destruct Hok as (t & -> & _ & Hreq). destruct req as [[inp|inp]|rep|rep|a]; simpl in *; try done.
  - destruct Hreq as (_ & _ & full & d & Hop & _). eauto.
  - destruct Hreq as (_ & _ & _ & full & d & Hop & _). eauto.
Qed.

Lemma opening_pending (w : world W) p fd full t d :
  opening E w p fd full t d → pending_open w fd.
Proof. intros Hop. split; [rewrite (op_map _ _ _ _ _ _ Hop); by eexists|apply Hop]. Qed.

End calls.
