(* ===== verification/ThreadInv.v ===== *)
(** * The invariant of the threads of a client

    What holds of the threads of [Threads.v] between their steps, with one
    process that makes the calls one after the other beside them; histories;
    and a thread's call up to its first wait. *)

From S2P Require Import Prelude CText Posix Wire AddrFile FdState Comm Stats.
From S2P Require Import ClientComm ClientCommProps Client Wrappers Service Sim Cut OpenSteps.
From S2P Require Import ReadSteps CallSteps Threads ThreadSteps.

Local Open Scope Z_scope.

(** ** Histories *)

Lemma replay_app E k h h' s : replay E k (h ++ h') s = replay E k h s ≫= replay E k h'.
Proof.
  revert s. induction h as [|[t op|t op a|t a] h IH]; intros s; simpl; auto.
  destruct (cold_op E k op s) as [[s' a']|]; simpl; [|done]. by case_bool_decide.
Qed.

Lemma phase_after_app t h h' ph :
  phase_after t (h ++ h') ph = phase_after t h ph ≫= phase_after t h'.
Proof.
  revert ph. induction h as [|x h IH]; intros ph; simpl; [done|].
  destruct (phase_step t x ph); simpl; auto.
Qed.

(** Who an observation is about. *)
Definition happens_to (x : happening) : nat :=
  match x with Invoke t _ | Effect t _ _ | Return t _ => t end.

Lemma phase_other t u h ph :
  Forall (λ x, happens_to x = t) h → u ≠ t → phase_after u h ph = Some ph.
Proof.
  intros Hh Hne. induction Hh as [|x h Hx _ IH]; simpl; [done|].
  destruct x; simpl in *; subst; by rewrite bool_decide_false by done.
Qed.

(** A step's history, as its thread and as the others see it. *)
Lemma phase_step_all t h (ph : nat → phase) ph_t :
  Forall (λ x, happens_to x = t) h → phase_after t h (ph t) = Some ph_t →
  ∀ u, phase_after u h (ph u) = Some (if decide (u = t) then ph_t else ph u).
Proof.
  intros Hh Ht u. destruct (decide (u = t)) as [->|Hne]; [done|]. by apply (phase_other t).
Qed.

Lemma phase_invoke t op : phase_after t [Invoke t op] Outside = Some (Called op).
Proof. simpl. by rewrite bool_decide_true. Qed.

Lemma phase_effect t op a : phase_after t [Effect t op a] (Called op) = Some (Effected a).
Proof. simpl. by rewrite !bool_decide_true. Qed.

Lemma phase_return t a : phase_after t [Return t a] (Effected a) = Some Outside.
Proof. simpl. by rewrite !bool_decide_true. Qed.

Lemma phase_end t op a : phase_after t [Effect t op a; Return t a] (Called op) = Some Outside.
Proof. simpl. by repeat (rewrite bool_decide_true by done; simpl). Qed.

Lemma phase_whole t op a :
  phase_after t [Invoke t op; Effect t op a; Return t a] Outside = Some Outside.
Proof. simpl. by repeat (rewrite bool_decide_true by done; simpl). Qed.

Lemma phase_open t op a : phase_after t [Invoke t op; Effect t op a] Outside = Some (Effected a).
Proof. simpl. by repeat (rewrite bool_decide_true by done; simpl). Qed.

(** ** The invariant of all threads *)

Section all.
Context {H : Mercury} {HOk : MercuryOk H} {W : Type} {T : Transport H W}.
Context {S : FileService T} {SOk : FileServiceOk S}.
Context {E : environment}.

(** The descriptors whose open was on its way before the run. *)
Context (before : Z → Prop).

Record threads_inv (k : config) (p : posix) (ph : nat → phase) (s : threads) : Prop := {
  ti_sim : sim E (th_world s) p;
  ti_conf : cl_conf (cl (th_world s)) = k;
  ti_calls t : match th_calls s !! t with
               | None => ph t = Outside
               | Some c => call_ok (E:=E) (th_world s) p c (ph t)
               end;
  ti_claims t t' c c' x : th_calls s !! t = Some c → th_calls s !! t' = Some c' →
    claims c = Some x → claims c' = Some x → t = t';
  ti_opens t t' c c' : th_calls s !! t = Some c → th_calls s !! t' = Some c' →
    pending c = true → pending c' = true → c_fd c = c_fd c' → t = t';
  ti_pending g : pending_open (th_world s) g → before g ∨
    ∃ t c, th_calls s !! t = Some c ∧ pending c = true ∧ c_fd c = g
}.

(** The process without the library, and the addresses the client knows. *)
Definition reference (s : threads) (p : posix) : gset Z * posix :=
  (dom (address_cache (cl (th_world s))), p).

(** The servers' descriptors a process has: those it reads, and those its
    answered opens are about to install. *)
Definition held (s : threads) (t : hg_addr) (r : Z) : Prop :=
  (∃ g, is_remote E (th_world s) g t r) ∨
  ∃ u c, th_calls s !! u = Some c ∧ claims c = Some (t, r).

(** What a step is to the other clients of the servers: it leaves descriptors
    alone it does not hold, and takes none that is in use. *)
Record polite (s s' : threads) : Prop := {
  po_net : extends (net (th_world s)) (net (th_world s'));
  po_views t r x : ¬ held s t r → fs_view (net (th_world s)) t r = Some x →
    fs_view (net (th_world s')) t r = Some x;
  po_held t r : held s' t r → ¬ held s t r → fs_view (net (th_world s)) t r = None
}.

(** What a step has to do. *)
Definition advances (k : config) (p : posix) (ph : nat → phase) (s : threads)
    (r : res (threads * list happening)) : Prop :=
  ∃ s' h p' ph', r = Ret (s', h) ∧ replay E k h (reference s p) = Some (reference s' p') ∧
    (∀ u, phase_after u h (ph u) = Some (ph' u)) ∧ threads_inv k p' ph' s' ∧ polite s s'.

Definition put (t : nat) (c : option call) (cs : gmap nat call) : gmap nat call :=
  match c with Some c => <[t := c]> cs | None => delete t cs end.

Lemma put_ne t u c cs : u ≠ t → put t c cs !! u = cs !! u.
Proof. intros. destruct c; simpl; [by rewrite lookup_insert_ne|by rewrite lookup_delete_ne]. Qed.

Lemma put_eq t c cs : put t c cs !! t = c.
Proof. destruct c; simpl; [by rewrite lookup_insert_eq|by rewrite lookup_delete_eq]. Qed.

(** One thread's step, with what it has to keep of the others. *)
Lemma inv_update k p ph s t c w' p' ph_t :
  threads_inv k p ph s → sim E w' p' → cl_conf (cl w') = k →
  (∀ u d, u ≠ t → th_calls s !! u = Some d →
     call_ok (E:=E) (th_world s) p d (ph u) → call_ok (E:=E) w' p' d (ph u)) →
  match c with Some c1 => call_ok (E:=E) w' p' c1 ph_t | None => ph_t = Outside end →
  (∀ c1 u d x, c = Some c1 → u ≠ t → th_calls s !! u = Some d →
     claims c1 = Some x → claims d ≠ Some x) →
  (∀ c1 u d, c = Some c1 → u ≠ t → th_calls s !! u = Some d →
     pending c1 = true → pending d = true → c_fd c1 ≠ c_fd d) →
  (∀ g, pending_open w' g →
     pending_open (th_world s) g ∧ (∀ c0, th_calls s !! t = Some c0 → pending c0 = true → c_fd c0 ≠ g) ∨
     ∃ c1, c = Some c1 ∧ pending c1 = true ∧ c_fd c1 = g) →
  threads_inv k p' (λ u, if decide (u = t) then ph_t else ph u) (Threads w' (put t c (th_calls s))).
Proof.
  intros [Hs Hk Hcs Hcl Hop Hpo] Hs' Hk' Hoth Hc Hclaim Hpend Hpo'.
  split; simpl; [done|done| | | |].
  - intros u. destruct (decide (u = t)) as [->|Hne]; [by rewrite put_eq|].
    rewrite put_ne by done. specialize (Hcs u). specialize (Hoth u).
    destruct (th_calls s !! u) as [d|]; [by apply Hoth|done].
  - intros u u' d d' x Hu Hu' Hx Hx'.
    destruct (decide (u = t)) as [->|Hne], (decide (u' = t)) as [->|Hne']; [done| | |].
    + rewrite put_eq in Hu. rewrite put_ne in Hu' by done. by edestruct Hclaim.
    + rewrite put_eq in Hu'. rewrite put_ne in Hu by done. by edestruct Hclaim.
    + rewrite put_ne in Hu, Hu' by done. by eapply Hcl.
  - intros u u' d d' Hu Hu' Hx Hx' Hfd.
    destruct (decide (u = t)) as [->|Hne], (decide (u' = t)) as [->|Hne']; [done| | |].
    + rewrite put_eq in Hu. rewrite put_ne in Hu' by done. by edestruct Hpend.
    + rewrite put_eq in Hu'. rewrite put_ne in Hu by done. by edestruct Hpend.
    + rewrite put_ne in Hu, Hu' by done. by eapply Hop.
  - intros g [[Hg Ht]|(c1 & -> & H1 & H2)]%Hpo'.
    + destruct (Hpo g Hg) as [?|(u & d & Hu & H1 & H2)]; [by left|right]. exists u, d.
      destruct (decide (u = t)) as [->|Hne]; [by edestruct Ht|by rewrite put_ne].
    + right. exists t, c1. by rewrite put_eq.
Qed.

Lemma pending_open_same (w w' : world W) g :
  entry_same w w' g → pending_open w' g ↔ pending_open w g.
Proof. intros [[E1 _ E2] _]. unfold pending_open. by rewrite E1, E2. Qed.

(** A thread's step is polite when it takes no claim that is not free. *)
Lemma polite_put X N s t c w' :
  frame E X N (th_world s) w' →
  (∀ t' r, N t' r → ∃ c0, th_calls s !! t = Some c0 ∧ claims c0 = Some (t', r)) →
  (∀ c1 t' r, c = Some c1 → claims c1 = Some (t', r) →
     (∃ c0, th_calls s !! t = Some c0 ∧ claims c0 = Some (t', r)) ∨
     fs_view (net (th_world s)) t' r = None) →
  polite s (Threads w' (put t c (th_calls s))).
Proof.
  intros Hf HN Hc. split; simpl.
  - apply (sc_net _ _ (fr_conf _ _ _ _ Hf)).
  - intros t' r x Hh. apply (fr_views _ _ _ _ Hf).
    + intros g Hg. apply Hh. left. by exists g.
    + intros (c0 & H0 & H1)%HN. apply Hh. right. by exists t, c0.
  - intros t' r [[g Hg]|(u & d & Hu & Hd)] Hno; simpl in *.
    + destruct Hno. destruct (fr_remote _ _ _ _ Hf _ _ _ Hg) as [?|(c0 & ? & ?)%HN]; [left; by exists g|].
      right. by exists t, c0.
    + destruct (decide (u = t)) as [->|Hne].
      * rewrite put_eq in Hu. destruct (Hc d t' r Hu Hd) as [(c0 & ? & ?)|?]; [destruct Hno|done].
        right. by exists t, c0.
      * rewrite put_ne in Hu by done. destruct Hno. right. by exists u, d.
Qed.

(** A step that claims nothing new and leaves the servers' tables alone, *)
Lemma polite_still X s t c w' :
  frame E X (λ _ _, False) (th_world s) w' →
  (∀ c1 x, c = Some c1 → claims c1 = Some x → ∃ c0, th_calls s !! t = Some c0 ∧ claims c0 = Some x) →
  polite s (Threads w' (put t c (th_calls s))).
Proof. intros Hf Hc. eapply polite_put; [exact Hf|done|]. intros c1 t' r H1 H2. left. by apply (Hc c1). Qed.

(** and one that leaves no thread elsewhere. *)
Lemma polite_at_once X s w' :
  frame E X (λ _ _, False) (th_world s) w' → polite s (Threads w' (th_calls s)).
Proof.
  intros Hf. set (t := fresh (dom (th_calls s))).
  assert (Ht : th_calls s !! t = None) by (apply not_elem_of_dom, is_fresh).
  rewrite <-(delete_id (th_calls s) t) by done. by apply (polite_still X s t None).
Qed.

Lemma polite_refl s : fs_ok (net (th_world s)) → polite s s.
Proof. intros Hok. split; [by apply extends_refl|done|by intros t r ? []]. Qed.

Lemma polite_trans s1 s2 s3 : polite s1 s2 → polite s2 s3 → polite s1 s3.
Proof.
  intros [N1 V1 H1] [N2 V2 H2].
  assert (Hno : ∀ t r x, ¬ held s1 t r → fs_view (net (th_world s1)) t r = Some x → ¬ held s2 t r).
  { intros t r x Hn Hx Hh. by rewrite (H1 _ _ Hh Hn) in Hx. }
  split; [by eapply extends_trans|by eauto|].
  intros t r Hh Hn. destruct (fs_view (net (th_world s1)) t r) as [x|] eqn:Hx; [|done].
  pose proof (H2 _ _ Hh (Hno _ _ _ Hn Hx)) as Hnone. by rewrite (V1 _ _ _ Hn Hx) in Hnone.
Qed.

(** A call that stays in its place keeps the others apart. *)
Lemma apart_same k p ph s t c c1 :
  threads_inv k p ph s → th_calls s !! t = Some c →
  (claims c1 = None ∨ claims c1 = claims c) →
  (pending c1 = true → pending c = true ∧ c_fd c1 = c_fd c) →
  (∀ u d x, u ≠ t → th_calls s !! u = Some d → claims c1 = Some x → claims d ≠ Some x) ∧
  (∀ u d, u ≠ t → th_calls s !! u = Some d → pending c1 = true → pending d = true → c_fd c1 ≠ c_fd d).
Proof.
  intros Hi Ht Hcl Hp. split.
  - intros u d x Hne Hu Hx Hd. destruct Hcl as [Hcl|Hcl]; [congruence|].
    apply Hne. by eapply (ti_claims _ _ _ _ Hi u t d c x); [..|congruence].
  - intros u d Hne Hu Hx Hd Hfd. destruct (Hp Hx) as [Hp1 Hp2].
    apply Hne. eapply (ti_opens _ _ _ _ Hi u t d c); try done. congruence.
Qed.

Lemma pending_open_frame X N (w w' : world W) g :
  frame E X N w w' → ¬ X g → pending_open w' g → pending_open w g.
Proof. intros Hf Hg. by apply (pending_open_same w w'), (fr_entry _ _ _ _ Hf). Qed.

Lemma pending_open_quiet (w w' : world W) g :
  quiet E w w' → pending_open w' g → pending_open w g.
Proof. intros Hq. apply (pending_open_frame _ _ _ _ _ Hq). intros []. Qed.

(** A step that only reads. *)
Lemma inv_still k p ph s t c w' p' ph_t :
  threads_inv k p ph s → sim E w' p' → still E (th_world s) w' → files_same p p' →
  (∀ u d, u ≠ t → th_calls s !! u = Some d → pending d = true →
     ∀ o, px_fds p !! c_fd d = Some o → px_fds p' !! c_fd d = Some o) →
  match c with Some c1 => call_ok (E:=E) w' p' c1 ph_t | None => ph_t = Outside end →
  (∀ c1 u d x, c = Some c1 → u ≠ t → th_calls s !! u = Some d →
     claims c1 = Some x → claims d ≠ Some x) →
  (∀ c1 u d, c = Some c1 → u ≠ t → th_calls s !! u = Some d →
     pending c1 = true → pending d = true → c_fd c1 ≠ c_fd d) →
  (∀ c0, th_calls s !! t = Some c0 → pending c0 = true →
     ∃ c1, c = Some c1 ∧ pending c1 = true ∧ c_fd c1 = c_fd c0) →
  threads_inv k p' (λ u, if decide (u = t) then ph_t else ph u) (Threads w' (put t c (th_calls s))).
Proof.
  intros Hi Hs' [[_ Hk] Hq] Hf Hpend Hc Hcl Hop Hst. apply (inv_update k p); try done.
  - rewrite Hk. apply (ti_conf _ _ _ _ Hi).
  - intros u d Hne Hu Hd. eapply call_ok_stable, Hd; [exact Hq|done|auto|by eapply Hpend|auto].
  - intros g Hg. destruct (th_calls s !! t) as [c0|] eqn:Ht.
    + destruct (pending c0) eqn:Hp; [|left; split; [|intros ? [= <-]; by rewrite Hp]].
      * destruct (Hst c0 eq_refl Hp) as (c1 & -> & H1 & H2).
        destruct (decide (c_fd c0 = g)) as [<-|Hne]; [right; by exists c1|left].
        split; [|by intros ? [= <-]]. by eapply pending_open_quiet.
      * by eapply pending_open_quiet.
    + left. split; [|done]. by eapply pending_open_quiet.
Qed.

(** A call that is over at once. *)
Lemma inv_at_once k p ph s t w' p' :
  threads_inv k p' (λ u, if decide (u = t) then Outside else ph u)
    (Threads w' (put t None (th_calls s))) →
  threads_inv k p ph s → th_calls s !! t = None → threads_inv k p' ph (Threads w' (th_calls s)).
Proof.
  intros [I1 I2 I3 I4 I5 I6] Hi Ht. simpl in *. rewrite delete_id in I3, I4, I5, I6 by done.
  split; simpl; try done. intros u. specialize (I3 u). destruct (decide (u = t)) as [->|]; [|done].
  pose proof (ti_calls _ _ _ _ Hi t) as Hout. rewrite Ht in *. by rewrite Hout.
Qed.

(** ** Effects of reads *)

Lemma cold_read k known p op fd count off :
  read_args op = Some (fd, count, off) →
  cold_op E k op (known, p) = Some (known, fst (plain_op op p), snd (plain_op op p)).
Proof. intros Hop. unfold cold_op. destruct (plain_op op p). by destruct op. Qed.

Lemma plain_read_keeps op p fd count off :
  read_args op = Some (fd, count, off) →
  files_same p (fst (plain_op op p)) ∧
  ∀ g, g ≠ fd → px_fds (fst (plain_op op p)) !! g = px_fds p !! g.
Proof.
  destruct op as [|fd' c'|fd' c' o'|]; intros [= <- <- <-]; [|done]. cbn [plain_op].
  by destruct (os_read_keeps fd' c' p) as (? & ? & ?).
Qed.

(** A local read moves no pending open's offset. *)
Lemma read_pending_kept (w : world W) p op fd count off d ph :
  read_args op = Some (fd, count, off) → (fst (plain_op op p) = p ∨ ¬ pending_open w fd) →
  call_ok (E:=E) w p d ph → pending d = true →
  ∀ o, px_fds p !! c_fd d = Some o → px_fds (fst (plain_op op p)) !! c_fd d = Some o.
Proof.
  intros Hop Hp Hd Hpd o Ho. destruct Hp as [->|Hp]; [done|].
  destruct (plain_read_keeps op p fd count off Hop) as [_ Hg]. rewrite Hg; [done|].
  intros Heq. apply Hp. destruct (pending_opening w p d ph Hd Hpd) as (full & t & b & Hopn).
  rewrite <-Heq. by eapply opening_pending.
Qed.

Lemma replay_effect_read k known p t op fd count off h :
  read_args op = Some (fd, count, off) →
  replay E k (Effect t op (snd (plain_op op p)) :: h) (known, p) =
  replay E k h (known, fst (plain_op op p)).
Proof.
  intros Hop. cbn [replay]. erewrite cold_read by exact Hop. simpl. by rewrite bool_decide_true.
Qed.

(** ** The steps *)

(** A call that ends on the local file. *)
Lemma leave_local k p ph s t op tm fd count off w1 h :
  threads_inv k p ph s → sim E w1 p → still E (th_world s) w1 → allowed op = true →
  (∀ c, th_calls s !! t = Some c → pending c = false) →
  read_args op = Some (fd, count, off) → is_local w1 fd →
  (fst (plain_op op p) = p ∨ ¬ pending_open (th_world s) fd) →
  (∀ a, Forall (λ x, happens_to x = t) (h a) ∧
        phase_after t (h a ++ [Return t a]) (ph t) = Some Outside) →
  replay E k (h (snd (plain_op op p))) (reference s p) =
    replay E k [Effect t op (snd (plain_op op p))] (reference s p) →
  advances k p ph s (leave t op tm fd (th_calls s) h (-1, []) w1).
Proof.
  intros Hi Hs1 Hst1 Ha Hnp Hop Hl Hpend Hh Hrep.
  destruct (local_end w1 p op tm fd count off Hs1 Ha Hop Hl) as (w2 & Hend & Hs2 & Hst2).
  assert (Hst : still E (th_world s) w2) by (by eapply still_trans).
  destruct (Hh (snd (plain_op op p))) as [Hall Hph].
  eexists _, _, (fst (plain_op op p)), (λ u, if decide (u = t) then Outside else ph u).
  split_and!; [unfold leave; by rewrite Hend| | | |].
  4:{ eapply (polite_still _ s t None); [apply Hst|done]. }
  - rewrite replay_app, Hrep. unfold reference. cbn [th_world].
    erewrite replay_effect_read by exact Hop. simpl. by destruct Hst as [[-> _] _].
  - apply phase_step_all; [|done]. apply Forall_app. split; [done|]. by apply Forall_singleton.
  - apply (inv_still k p ph s t None); try done; [by eapply plain_read_keeps| |].
    2:{ intros c0 Hc0. by rewrite (Hnp c0 Hc0). }
    intros u d Hne Hu Hpd. pose proof (ti_calls _ _ _ _ Hi u) as Hd. rewrite Hu in Hd.
    by eapply read_pending_kept.
Qed.

(** A thread calls read or pread. *)
Lemma step_call_read k p ph s t op tm fd count off :
  env_ok E → threads_inv k p ph s → th_calls s !! t = None → allowed op = true →
  read_args op = Some (fd, count, off) →
  advances k p ph s (call_step E t op tm (th_world s) (th_calls s)).
Proof.
  intros He Hi Ht Ha Hop. pose proof (ti_sim _ _ _ _ Hi) as Hs.
  pose proof (ti_calls _ _ _ _ Hi t) as Hout. rewrite Ht in Hout. unfold call_step.
  destruct (sim_local_or_remote (th_world s) p fd Hs) as [Hl|(a & r & Hrem)].
  - destruct (begin_local _ p op tm fd count off He Hs Ha Hop Hl)
      as (w1 & x & Hb & Hs1 & Hst1 & Hl1 & Hx). rewrite Hb.
    destruct Hx as [[-> Hp]|[[-> Hp]|(l & h & -> & Hw & Hpo)]].
    + eexists _, _, p, ph.
      split_and!; [done| | | |by eapply polite_at_once, Hst1].
      * etrans; [by eapply (replay_effect_read k _ p t), Hop|]. rewrite Hp. unfold reference.
        simpl. by destruct Hst1 as [[-> _] _].
      * intros u. destruct (decide (u = t)) as [->|Hne]; [by rewrite Hout, phase_whole|].
        apply (phase_other t); [|done]. by repeat constructor.
      * assert (Hinv : threads_inv k p (λ u, if decide (u = t) then Outside else ph u)
          (Threads w1 (put t None (th_calls s))))
          by (apply (inv_still k p); done || congruence).
        by eapply inv_at_once.
    + apply (leave_local k p ph s t op tm fd count off); try (done || congruence).
      intros b. rewrite Hout. split; [by repeat constructor|apply phase_whole].
    + eexists _, _, p, (λ u, if decide (u = t) then Called op else ph u).
      split_and!; [done| | | |eapply (polite_still _ s t (Some _)); [apply Hst1|by intros c1 ? [= <-]]].
      * simpl. unfold reference. simpl. by destruct Hst1 as [[-> _] _].
      * apply phase_step_all; [by repeat constructor|]. rewrite Hout. apply phase_invoke.
      * eapply (inv_still k p ph s t (Some _)); try (done || congruence).
        -- by intros c1 u d x [= <-].
        -- by intros c1 u d [= <-].
  - destruct (begin_remote _ p op tm fd count off a r He Hs Ha Hop Hrem)
      as (w1 & Hb & Hs1 & Hst1 & Hrem1). rewrite Hb.
    eexists _, _, p, (λ u, if decide (u = t) then Called op else ph u).
      split_and!; [done| | | |eapply (polite_still _ s t (Some _)); [apply Hst1|by intros c1 ? [= <-]]].
    * simpl. unfold reference. simpl. by destruct Hst1 as [[-> _] _].
    * apply phase_step_all; [by repeat constructor|]. rewrite Hout. apply phase_invoke.
    * eapply (inv_still k p ph s t (Some _)); try (done || congruence).
      -- split; [done|]. exists a. split_and!; [done|by eapply is_remote_known|].
         split; [done|]. by exists count, off, r.
      -- by intros c1 u d x [= <-].
      -- by intros c1 u d [= <-].
Qed.

(** What the reference does for an open: no open descriptor changes, and the
    new one was free. *)
Lemma cold_open_keeps k known p path flags known' p' a :
  posix_ok p → plain_flags flags = true →
  cold_op E k (OpOpen path flags) (known, p) = Some (known', p', a) →
  files_same p p' ∧ (∀ g o, px_fds p !! g = Some o → px_fds p' !! g = Some o) ∧
  px_fds p !! fst a = None.
Proof.
  intros Hok Hf. unfold cold_op. cbn [plain_op]. destruct (os_open path flags p) as [p1 fd] eqn:Ho.
  destruct (os_open_keeps _ _ _ _ _ Hf Ho) as (A1 & A2 & A3).
  assert (Hfree : px_fds p !! fd = None).
  { destruct (os_open_fds _ _ _ _ _ Ho) as [_ [[-> _]|(_ & ? & _)]]; [|done].
    destruct (px_fds p !! (-1)) as [o|] eqn:E1; [|done]. destruct (ok_fds _ Hok _ _ E1). lia. }
  cbn [fst]. destruct (fd =? -1); [by intros [= <- <- <-]|].
  destruct (eligible E k path flags) as [full|]; [|by intros [= <- <- <-]].
  intros Hc. apply bind_Some in Hc as ([known2 p2] & Hc & [= <- <- <-]).
  unfold cold_lookup in Hc. case_bool_decide; [by simplify_eq|].
  destruct (scan_posts E (rank_of E k full) p1) as [p3 fd3] eqn:Ho3.
  destruct (scan_posts_keeps _ _ _ _ Ho3) as (B1 & B2 & _ & B3 & _).
  destruct (fd3 =? -1); [done|]. simplify_eq. unfold files_same.
  split_and!; [congruence|congruence|by eauto|done].
Qed.

(** A step about a descriptor no other thread uses. *)
Lemma others_keep k p ph s t w' p' fd :
  threads_inv k p ph s → frame E (λ g, g = fd) (λ _ _, False) (th_world s) w' →
  files_same p p' → (∀ g o, g ≠ fd → px_fds p !! g = Some o → px_fds p' !! g = Some o) →
  (∀ u d, th_calls s !! u = Some d → uses d = true → c_fd d ≠ fd) →
  ∀ u d, u ≠ t → th_calls s !! u = Some d →
    call_ok (E:=E) (th_world s) p d (ph u) → call_ok (E:=E) w' p' d (ph u).
Proof.
  intros Hi Hf Hfs Hg Hu u d Hne Hd Hok.
  assert (Hfd : uses d = true → c_fd d ≠ fd) by (by eapply Hu).
  eapply call_ok_stable, Hok; [exact Hf|done|done| |auto].
  intros Hp o. apply Hg, Hfd. by apply pending_uses.
Qed.

Lemma call_step_Over t op tm (w w1 : world W) cs a :
  op_begin E op tm w = Ret (w1, Over a) →
  call_step E t op tm w cs = Ret (Threads w1 cs, [Invoke t op; Effect t op a; Return t a]).
Proof. unfold call_step. by intros ->. Qed.

(** A thread calls open. *)
Lemma step_call_open k p ph s t path flags tm :
  env_ok E → threads_inv k p ph s → th_calls s !! t = None → plain_flags flags = true →
  match cold_op E k (OpOpen path flags) (reference s p) with
  | None => call_step E t (OpOpen path flags) tm (th_world s) (th_calls s) = Fault NullDeref
  | Some _ => advances k p ph s (call_step E t (OpOpen path flags) tm (th_world s) (th_calls s))
  end.
Proof.
  intros He Hi Ht Hf. pose proof (ti_sim _ _ _ _ Hi) as Hs.
  pose proof (ti_calls _ _ _ _ Hi t) as Hout. rewrite Ht in Hout.
  pose proof (begin_open (th_world s) p path flags tm He Hs Hf) as Hb.
  rewrite (ti_conf _ _ _ _ Hi) in Hb. unfold reference.
  destruct (cold_op E k _ _) as [[[known p'] a]|] eqn:Hcold;
    [|unfold call_step; by rewrite Hb].
  destruct Hb as (w1 & x & Hb & Hs1 & Hk & Hk1 & _ & Hfr & Ha & Hx).
  destruct (cold_open_keeps _ _ _ _ _ _ _ _ (sim_plain _ _ Hs) Hf Hcold) as (Hfs & Hmono & Hfree).
  assert (Hrep : ∀ h, replay E k (Effect t (OpOpen path flags) a :: h) (reference s p)
    = replay E k h (reference (Threads w1 (th_calls s)) p')).
  { intros h. cbn [replay]. unfold reference. rewrite Hcold. simpl.
    by rewrite bool_decide_true, Hk. }
  assert (Huse : ∀ u d, th_calls s !! u = Some d → uses d = true → c_fd d ≠ fst a).
  { intros u d Hu Hd Heq. pose proof (ti_calls _ _ _ _ Hi u) as Hok. rewrite Hu in Hok.
    destruct (uses_open _ _ _ _ Hs Hok Hd) as [o Ho]. congruence. }
  pose proof (others_keep k p ph s t w1 p' (fst a) Hi Hfr Hfs (λ g o _, Hmono g o) Huse) as Hoth.
  destruct Hx as [[[-> | ->] Hq]|(full & ta & d & -> & Hopn)].
  - rewrite (call_step_Over _ _ _ _ _ _ _ Hb). eexists _, _, p', ph.
    split_and!; [done| | | |by eapply polite_at_once].
    + exact (Hrep [Return t a]).
    + intros u. destruct (decide (u = t)) as [->|Hne]; [by rewrite Hout, phase_whole|].
      apply (phase_other t); [|done]. by repeat constructor.
    + eapply inv_at_once; [|exact Hi|done]. apply (inv_update k p); try done.
      intros g Hg. left. split; [by eapply pending_open_quiet|congruence].
  - unfold call_step. rewrite Hb. unfold leave.
    destruct (open_end_run path flags tm (fst a) (-1, []) w1) as [st Hend]. rewrite Hend.
    replace (fst a, []) with a by (destruct a; simpl in *; by subst).
    set (w2 := set_cl (set_stats st (cl w1)) w1).
    assert (Hst : still E w1 w2)
      by (apply still_client; [exact (sim_net _ _ Hs1)|unfold w2; by destruct w1 as [[] ?]..]).
    assert (Hs2 : sim E w2 p') by (eapply sim_agree, Hs1; unfold w2; by destruct w1 as [[] ?]).
    eexists _, _, p', (λ u, if decide (u = t) then Outside else ph u).
    split_and!; [done| | | |eapply (polite_still _ s t None); [eapply frame_trans; [exact Hq|apply Hst]|done]].
    + etrans; [exact (Hrep [Return t a])|]. unfold reference. cbn [th_world].
      by destruct Hst as [[-> _] _].
    + apply phase_step_all; [by repeat constructor|]. rewrite Hout. apply phase_whole.
    + apply (inv_update k p ph s t None); try done.
      * destruct Hst as [[_ ->] _]. exact Hk1.
      * apply (others_keep k p ph s t w2 p' (fst a) Hi); try done.
        -- eapply frame_trans; [exact Hfr|]. eapply frame_weaken, (proj2 Hst). done.
        -- intros g o _. apply Hmono.
      * intros g Hg. left. split; [|congruence].
        eapply pending_open_quiet; [eapply frame_trans; [exact Hq|apply Hst]|done].
  - unfold call_step. rewrite Hb.
    eexists _, _, p', (λ u, if decide (u = t) then Effected a else ph u).
    split_and!; [done| | | |eapply (polite_still _ s t (Some _)); [exact Hfr|by intros c1 ? [= <-]]].
    + simpl app. replace (fst a, []) with a by (destruct a; simpl in *; by subst). exact (Hrep []).
    + replace (fst a, []) with a by (destruct a; simpl in *; by subst).
      apply phase_step_all; [by repeat constructor|]. rewrite Hout. apply phase_open.
    + eapply (inv_update k p ph s t (Some _)); try done.
      * split; [done|]. exists ta. split_and!; [done|by eapply op_known|]. simpl.
        split_and!; [by destruct a; simpl in *; subst|done|]. by exists full, d.
      * by intros c1 u e x [= <-].
      * intros c1 u e [= <-] Hne Hu _ Hpe. simpl. intros Heq.
        eapply Huse; [exact Hu|by apply pending_uses|done].
      * intros g Hg. destruct (decide (g = fst a)) as [->|Hne]; [right; by eexists|left].
        split; [by eapply pending_open_frame|congruence].
Qed.

(** A thread calls close. *)
Lemma step_call_close k p ph s t fd tm :
  env_ok E → threads_inv k p ph s → th_calls s !! t = None →
  map_Forall (λ _ c, c_fd c ≠ fd) (th_calls s) →
  advances k p ph s (call_step E t (OpClose fd) tm (th_world s) (th_calls s)).
Proof.
  intros He Hi Ht Hfree. pose proof (ti_sim _ _ _ _ Hi) as Hs.
  pose proof (ti_calls _ _ _ _ Hi t) as Hout. rewrite Ht in Hout.
  destruct (os_close fd p) as [p' r] eqn:Hcl.
  destruct (step_close (th_world s) p fd (t_start tm) (t_finish tm) p' r He Hs Hcl)
    as (w1 & Hw & Hs1 & [Hk1 Hk2] & Hfr & _).
  assert (Hb : op_begin E (OpClose fd) tm (th_world s) = Ret (w1, Over (r, []))).
  { cbn [op_begin hvac_op]. erewrite bind_run; [|by erewrite bind_run by exact Hw]. done. }
  rewrite (call_step_Over _ _ _ _ _ _ _ Hb). eexists _, _, p', ph.
  split_and!; [done| | | |by eapply polite_at_once].
  - cbn [replay]. unfold reference, cold_op. cbn [plain_op th_world]. rewrite Hcl. simpl.
    by rewrite bool_decide_true, Hk1.
  - intros u. destruct (decide (u = t)) as [->|Hne]; [by rewrite Hout, phase_whole|].
    apply (phase_other t); [|done]. by repeat constructor.
  - destruct (os_close_files fd p) as [F1 F2]. destruct (os_close_fds _ _ _ _ Hcl) as [_ F3].
    rewrite Hcl in F1, F2. simpl in F1, F2.
    eapply inv_at_once; [|exact Hi|done]. apply (inv_update k p); try done.
    + rewrite Hk2. apply (ti_conf _ _ _ _ Hi).
    + apply (others_keep k p ph s t w1 p' fd Hi); try done.
      * intros g o Hg Ho. by rewrite F3, lookup_delete_ne.
      * intros u d Hu _. by apply (Hfree u).
    + intros g Hg. left. split; [|congruence]. eapply pending_open_frame; [exact Hfr| |done].
      intros ->. destruct Hg as [[path Hg] _]. pose proof (sim_fds _ _ Hs1 fd) as Hrel.
      unfold fd_rel in Hrel. rewrite F3, lookup_delete_eq in Hrel.
      destruct (px_fds _ !! fd); [done|]. destruct Hrel as [? _]. congruence.
Qed.

End all.
