(* ===== verification/Ledger.v ===== *)
(** * What the servers hold open for a client

    The other half of the relation of [Sim.v]: there, every served descriptor
    of the client is open at its server; here, what the servers have open is
    some descriptor of the client's tables, from each call to the next
    ([accounted]). Server descriptor 0 is the exception: the client takes an
    answer of 0 for a failed open, and that descriptor is never closed. *)

From S2P Require Import Prelude CText Posix Wire AddrFile FdState Comm Stats.
From S2P Require Import ClientComm ClientCommProps Client Wrappers Service Sim Cut OpenSteps ReadSteps.
From S2P Require Import CallSteps Threads ThreadSteps ThreadInv.

Local Open Scope Z_scope.

(** ** Computations that send nothing *)

Section offline.
Context {H : Mercury} {W : Type} {T : Transport H W}.
Context (E : environment).

Definition offline {A} (m : St (world W) A) : Prop :=
  ∀ w w' a, m w = Ret (w', a) → net w' = net w.

Lemma offline_bind {A B} (m : St (world W) A) (f : A → St (world W) B) :
  offline m → (∀ a, offline (f a)) → offline (m ≫= f).
Proof. intros Hm Hf w w' b Hr. bind_in Hr w1 a E1. by rewrite (Hf _ _ _ _ Hr), (Hm _ _ _ E1). Qed.

Lemma offline_mret {A} (a : A) : offline (mret a).
Proof. intros w w' b Hr. by apply mret_Ret in Hr as [-> _]. Qed.

Lemma offline_fail {A} f : offline (A:=A) (fail f).
Proof. by intros w w' a Hr. Qed.

Lemma offline_assert b : offline (assert_true b).
Proof. intros w w' a Hr. by apply assert_Ret in Hr as [_ ->]. Qed.

Lemma offline_gets {A} (f : world W → A) : offline (gets f).
Proof. intros w w' a Hr. by unfold gets in Hr; simplify_eq. Qed.

Lemma offline_upd f : offline (upd f).
Proof. intros w w' u Hr. apply upd_Ret in Hr as ->. by destruct w as [[] ?]. Qed.

Lemma offline_sys {A} (f : posix → posix * A) : offline (client_sys f).
Proof.
  intros w w' a. unfold client_sys, zoom, run. destruct (f _) as [p x]. intros [= <- <-].
  by destruct w as [[] ?].
Qed.

Lemma offline_comm {A} (m : St comm A) :
  offline (zoom (λ w : world W, cl_comm (cl w)) (λ k w, set_cl (set_comm k true (cl w)) w) m).
Proof.
  intros w w' a. unfold zoom. destruct (m _) as [[k x]|]; [|done]. intros [= <- <-].
  by destruct w as [[] ?].
Qed.

End offline.

Create HintDb offline.
#[local] Hint Unfold MAP_OR_FAIL redirect_disabled track_begin host_of_fd host_of_path open_rpc_begin
  hvac_client_comm_lookup_addr hvac_comm_create_handle hvac_comm_free_addr hvac_file_tracked
  hvac_get_path index_redir read_rpc_begin read_rpc_rest count_call hvac_read_cb release_asserted
  : offline.

(** [offline], by the structure of the program. *)
Ltac offline_tac :=
  repeat first
    [ match goal with Hk : _ |- offline _ => simple apply Hk end
    | lazymatch goal with
      | |- offline (_ ≫= _) => apply offline_bind; [|intros ?]
      | |- offline (mret _) => apply offline_mret
      | |- offline (fail _) => apply offline_fail
      | |- offline (assert_true _) => apply offline_assert
      | |- offline (gets _) => apply offline_gets
      | |- offline (client_gets _) => apply offline_gets
      | |- offline (upd _) => apply offline_upd
      | |- offline (client_sys _) => apply offline_sys
      | |- offline (zoom _ _ _) => apply offline_comm
      | |- offline (match ?x with _ => _ end) => destruct x
      | |- offline _ => progress autounfold with offline
      end ].

(** ** The servers' descriptors *)

Section ledger.
Context {H : Mercury} {HOk : MercuryOk H} {W : Type} {T : Transport H W}.
Context {S : FileService T} {SOk : FileServiceOk S}.
Context {Haddr : EqDecision (hg_addr (Transport:=T))}.
Context {E : environment}.

#[local] Abbreviation is_remote := (Sim.is_remote E).
#[local] Abbreviation sim := (Sim.sim E).
#[local] Abbreviation frame := (Sim.frame E).
#[local] Abbreviation opening := (OpenSteps.opening E).

(** Every server descriptor but 0 that is open is one of the client's. *)
Definition accounted (w : world W) : Prop :=
  ∀ t r, 0 < r → is_Some (fs_view (net w) t r) → ∃ fd, is_remote w fd t r.

Lemma begin_offline op tm : (∀ fd, op ≠ OpClose fd) → offline (op_begin E op tm).
Proof.
  intros Hop. destruct op as [path flags|fd count|fd count off|fd]; [| | |by destruct (Hop fd)];
    cbn [op_begin]; offline_tac.
Qed.

Lemma end_offline op tm fd r : offline (op_end (W:=W) op tm fd r).
Proof. destruct op; cbn [op_end]; offline_tac. Qed.

Lemma read_callback_offline r : offline (read_callback (W:=W) r).
Proof. unfold read_callback. offline_tac. Qed.

Lemma free_offline a : offline (hvac_comm_free_addr (W:=W) a).
Proof. unfold hvac_comm_free_addr. offline_tac. Qed.

(** Steps that open nothing at the servers and leave the client's served
    descriptors alone. *)
Lemma accounted_frame X N (w w' : world W) :
  frame X N w w' → (∀ g t r, is_remote w g t r → ¬ X g) →
  (∀ t r, is_Some (fs_view (net w') t r) → is_Some (fs_view (net w) t r)) →
  accounted w → accounted w'.
Proof.
  intros Hf HX Hv Ha t r Hr Hs. destruct (Ha t r Hr (Hv _ _ Hs)) as [fd Hrem]. exists fd.
  apply (is_remote_same _ _ _ _ _ (fr_conf _ _ _ _ Hf)), Hrem.
  apply es_at, (fr_entry _ _ _ _ Hf). by eapply HX.
Qed.

(** A read opens nothing. *)
Lemma read_views (w w' : world W) p op tm fd count off a :
  env_ok E → sim w p → allowed op = true → read_args op = Some (fd, count, off) →
  hvac_op E op tm w = Ret (w', a) →
  ∀ t r, is_Some (fs_view (net w') t r) → is_Some (fs_view (net w) t r).
Proof.
  intros He Hs Ha Hop Hrun t0 r0. rewrite hvac_op_cut in Hrun.
  assert (Hno : ∀ g, op ≠ OpClose g) by (by intros g ->).
  destruct (sim_local_or_remote w p fd Hs) as [Hl|(t & r & Hrem)].
  - destruct (begin_local w p op tm fd count off He Hs Ha Hop Hl)
      as (w1 & x & Hb & Hs1 & _ & Hl1 & Hx).
    rewrite (bind_run _ _ _ _ _ Hb) in Hrun. rewrite <-(begin_offline op tm Hno _ _ _ Hb).
    assert (net w' = net w1) as ->; [|done].
    destruct Hx as [[-> _]|[[-> _]|(l & h & -> & _)]]; cbn [finish] in Hrun.
    + by apply mret_Ret in Hrun as [-> _].
    + by apply (end_offline _ _ _ _ _ _ _ Hrun).
    + destruct (wait_loop _ _); [|by apply (end_offline _ _ _ _ _ _ _ Hrun)].
      rewrite (bind_run _ _ _ _ _ (rest_local w1 h fd count off Hl1)) in Hrun.
      by apply (end_offline _ _ _ _ _ _ _ Hrun).
  - destruct (begin_remote w p op tm fd count off t r He Hs Ha Hop Hrem)
      as (w1 & Hb & Hs1 & _ & Hrem1).
    rewrite (bind_run _ _ _ _ _ Hb) in Hrun. rewrite <-(begin_offline op tm Hno _ _ _ Hb).
    cbn [finish] in Hrun. bind_in Hrun w2 y E2. rewrite (end_offline _ _ _ _ _ _ _ Hrun).
    unfold rest_of_call in E2. bind_in E2 w3 rep E3. apply remote_Ret in E3 as [_ E3].
    bind_in E2 w4 u E4. rewrite (read_callback_offline _ _ _ _ E2), (free_offline _ _ _ _ E4).
    destruct (read_args_bounds _ _ _ _ Ha Hop) as [Hc Hoff].
    destruct (is_remote_view _ _ _ _ _ (sim_fds _ _ Hs1 fd) Hrem1)
      as (_ & o & d & _ & _ & _ & _ & _ & _ & Hv).
    pose proof Hrem1 as (_ & _ & _ & Hr0 & _).
    destruct (svc_read _ _ _ _ _ count off (sim_net _ _ Hs1) (is_remote_known _ _ _ _ _ Hs1 Hrem1)
      Hv ltac:(lia) Hc Hoff) as (n' & out & Hf & _ & _ & _ & Hos).
    unfold read_request in E3. rewrite Hf in E3. injection E3 as <- _.
    destruct (fs_view (net w1) t0 r0) eqn:Hv0; [by eexists|].
    rewrite Hos, Hv0; [done|]. intros [= -> ->]. congruence.
Qed.

(** A fresh descriptor serves nothing. *)
Lemma fresh_not_remote (w : world W) p fd t r :
  sim w p → px_fds p !! fd = None → ¬ is_remote w fd t r.
Proof.
  intros Hs Hn Hrem. pose proof (is_remote_view _ _ _ _ _ (sim_fds _ _ Hs fd) Hrem)
    as (_ & o & _ & _ & Ho & _). congruence.
Qed.

(** An open adds what the callback records. *)
Lemma open_accounted (w w' : world W) p path flags tm p' known a b :
  env_ok E → sim w p → plain_flags flags = true →
  cold_op E (cl_conf (cl w)) (OpOpen path flags) (dom (address_cache (cl w)), p) = Some (known, p', a) →
  hvac_op E (OpOpen path flags) tm w = Ret (w', b) → accounted w → accounted w'.
Proof.
  intros He Hs Hf Hcold Hrun Hacc. rewrite hvac_op_cut in Hrun.
  pose proof (begin_open w p path flags tm He Hs Hf) as Hb. rewrite Hcold in Hb.
  destruct Hb as (w1 & x & Hb & Hs1 & _ & _ & En & Hfr & _ & Hx).
  rewrite (bind_run _ _ _ _ _ Hb) in Hrun.
  destruct (cold_open_keeps _ _ _ _ _ _ _ _ (sim_plain _ _ Hs) Hf Hcold) as (_ & _ & Hfree).
  assert (Hacc1 : accounted w1).
  { apply (accounted_frame _ _ w w1 Hfr); [|by rewrite En|done].
    intros g t r Hg ->. exact (fresh_not_remote _ _ _ _ _ Hs Hfree Hg). }
  clear Hs Hb Hacc Hcold Hfr. 
  assert (Hend : ∀ r w2, accounted w2 → op_end (OpOpen path flags) tm (fst a) r w2 = Ret (w', b) →
    accounted w').
  { intros r w2 H2 Hend. destruct (open_end_run path flags tm (fst a) r w2) as [st E2].
    rewrite E2 in Hend. injection Hend as <- _. revert H2. unfold accounted. by destruct w2 as [[] ?]. }
  destruct Hx as [[[-> | ->] _]|(full & t & d & -> & Hop)]; cbn [finish] in Hrun.
  - by apply mret_Ret in Hrun as [-> _].
  - by eapply Hend.
  - bind_in Hrun w2 y E2. apply (Hend y w2); [|done]. unfold rest_of_call in E2.
    bind_in E2 w3 rep E3. apply remote_Ret in E3 as [Ew3 E3]. bind_in E2 w4 u E4.
    unfold hvac_comm_free_addr in E4. bind_in E4 w5 n5 E5. apply assert_Ret in E4 as [_ ->].
    unfold gets in E5. injection E5 as <- _.
    destruct (svc_open _ _ _ _ (sim_net _ _ Hs1) (op_known _ _ _ _ _ _ Hop)
      (op_file _ _ _ _ _ _ Hop)) as (n' & r' & Hfw & Hset & Hex & Hcase).
    destruct (serve_open w1 p' _ full t d Hs1 Hop) as (n2 & r2 & Hfw2 & _ & Hs2 & Hq & Han & Hu & _).
    rewrite E3 in Hfw, Hfw2. injection Hfw as <- <-. injection Hfw2 as <- <-.
    rewrite <-Ew3 in Hs2, Hq.
    assert (Hop2 : opening w3 p' (fst a) full t d) by (eapply opening_stable, Hop; [exact Hq|auto..]).
    destruct (open_cb_run w3 p' _ full t d rep Hs2 Hop2 Hset Han)
      as (w6 & Hcb & Hs3 & En6 & _ & _ & _ & _ & Hfr6 & Hrem6).
    { eapply frame_unowned; [exact Hq|intros []|exact Hu]. }
    rewrite Hcb in E2. injection E2 as <- _. intros t0 r0 Hr0 Hsome. rewrite En6 in Hsome.
    assert (Hold : is_Some (fs_view (net w1) t0 r0) → ∃ g, is_remote w6 g t0 r0).
    { intros H1. destruct (Hacc1 t0 r0 Hr0 H1) as [g Hg]. exists g.
      assert (Hne : g ≠ fst a).
      { intros ->. eapply remote_not_local; [exact Hg|apply (op_local _ _ _ _ _ _ Hop)]. }
      apply (is_remote_same _ _ _ _ _ (fr_conf _ _ _ _ Hfr6) (es_at _ _ _ (fr_entry _ _ _ _ Hfr6 g Hne))).
      apply (is_remote_same _ _ _ _ _ (fr_conf _ _ _ _ Hq)), Hg.
      apply es_at, (fr_entry _ _ _ _ Hq). by intros []. }
    destruct Hcase as [[_ Hv]|(_ & _ & _ & Hos)]; [apply Hold; by rewrite <-Hv|].
    destruct (decide ((t0, r0) = (t, open_ret rep))) as [[= -> ->]|Hne].
    + exists (fst a). by apply Hrem6.
    + apply Hold. by rewrite <-Hos.
Qed.

(** Every call keeps the account. *)
Lemma op_accounted (w w' : world W) p op tm known p' a b :
  env_ok E → sim w p → allowed op = true →
  cold_op E (cl_conf (cl w)) op (dom (address_cache (cl w)), p) = Some (known, p', a) →
  hvac_op E op tm w = Ret (w', b) → accounted w → accounted w'.
Proof.
  intros He Hs Ha Hcold Hrun Hacc.
  assert (Hread : ∀ fd count off, read_args op = Some (fd, count, off) → accounted w').
  { intros fd count off Hop.
    destruct (step_read_op w p op tm fd count off He Hs Ha Hop) as (w1 & Hrun1 & _ & _ & Hq).
    rewrite Hrun in Hrun1. injection Hrun1 as <- _.
    apply (accounted_frame _ _ w w' Hq); [by intros g t r _ []| |done].
    by apply (read_views w w' p op tm fd count off b). }
  destruct op as [path flags|fd count|fd count off|fd]; [|by eapply Hread..|].
  - by eapply open_accounted.
  - destruct (os_close fd p) as [p1 r1] eqn:Hcl.
    destruct (step_close w p fd (t_start tm) (t_finish tm) p1 r1 He Hs Hcl)
      as (w1 & Hw & _ & _ & Hfr & Hgone).
    cbn [hvac_op] in Hrun. rewrite (bind_run _ _ _ _ _ Hw) in Hrun. injection Hrun as <- _.
    intros t r Hr Hv. destruct (Hgone t r Hv) as [Hv0 Hno]. destruct (Hacc t r Hr Hv0) as [g Hg].
    exists g. apply (is_remote_same _ _ _ _ _ (fr_conf _ _ _ _ Hfr)), Hg.
    apply es_at, (fr_entry _ _ _ _ Hfr). by intros ->.
Qed.

(** So does a whole run; and what the client has open stays open. *)
Lemma run_accounted es (w : world W) p answers :
  env_ok E → sim w p → all_allowed es = true → accounted w →
  cold_run E (cl_conf (cl w)) es (dom (address_cache (cl w)), p) = Some answers →
  ∃ w' p', hvac_run E es w = Ret (w', answers) ∧ sim w' p' ∧ accounted w'.
Proof.
  intros He. revert w p answers. induction es as [|[op t|e] es IH]; intros w p answers Hs Ha Hacc Hc.
  - injection Hc as <-. by exists w, p.
  - simpl in Ha. apply andb_true_iff in Ha as [Ha1 Ha2]. cbn [cold_run hvac_run] in *.
    pose proof (step_op w p op t He Hs Ha1) as Hop.
    destruct (cold_op _ _ _ _) as [[[known p1] a]|] eqn:Hcold; [|done]. cbn in Hc.
    destruct Hop as (w1 & Hw1 & Hs1 & <- & Hk). rewrite (bind_run _ _ _ _ _ Hw1).
    pose proof (op_accounted w w1 p op t _ _ _ _ He Hs Ha1 Hcold Hw1 Hacc) as Hacc1.
    apply bind_Some in Hc as (rest & Hc & [= <-]). rewrite <-Hk in Hc.
    destruct (IH w1 p1 rest Hs1 Ha2 Hacc1 Hc) as (w2 & p2 & Hw2 & Hs2 & Hacc2).
    exists w2, p2. by rewrite (bind_run _ _ _ _ _ Hw2).
  - cbn [cold_run hvac_run] in *. erewrite bind_run by done.
    destruct (svc_background _ e (sim_net _ _ Hs)) as [Hex Hv].
    apply (IH _ p answers); [by apply step_background|done| |done].
    intros t r Hr Hsome. simpl in Hsome. rewrite Hv in Hsome.
    destruct (Hacc t r Hr Hsome) as [fd Hrem]. exists fd.
    assert (Hsc : same_conf E w (World (cl w) (fs_background e (net w)))) by (by split).
    by apply (is_remote_same _ _ _ _ _ Hsc).
Qed.

(** Between two calls the servers have open what the client has open. *)
Lemma accounted_exactly (w : world W) p t r :
  sim w p → accounted w → 0 < r →
  is_Some (fs_view (net w) t r) ↔ ∃ fd, is_remote w fd t r.
Proof.
  intros Hs Hacc Hr. split; [by apply Hacc|]. intros [fd Hrem].
  destruct (is_remote_view _ _ _ _ _ (sim_fds _ _ Hs fd) Hrem) as (_ & o & d & _ & _ & _ & _ & _ & _ & Hv).
  by rewrite Hv.
Qed.

End ledger.
