(* ===== verification/ThreadsProps.v ===== *)
(** * What concurrent calls return

    The threads of [Threads.v] against the file-service interface: every run
    of any number of threads that open, read and close keeps the invariant of
    [ThreadInv.v], hence agrees with one process that makes the calls one
    after the other, each between its call and its return; and every call can
    be brought to its end. *)

From S2P Require Import Prelude CText Posix Wire AddrFile FdState Comm Stats.
From S2P Require Import ClientComm ClientCommProps Client Wrappers Service Sim Cut OpenSteps.
From S2P Require Import ReadSteps CallSteps Threads ThreadSteps ThreadInv.

Local Open Scope Z_scope.

Section all.
Context {H : Mercury} {HOk : MercuryOk H} {W : Type} {T : Transport H W}.
Context {S : FileService T} {SOk : FileServiceOk S}.
Context {E : environment}.
Context (before : Z → Prop).

#[local] Abbreviation threads_inv := (ThreadInv.threads_inv (E:=E) before).
#[local] Abbreviation advances := (ThreadInv.advances (E:=E) before).

(** ** The steps of a call in progress *)

(** A call that stays inside, when the step leaves the tables alone. *)
Lemma advance_stay k p ph s t c w' p' st h ph_t :
  threads_inv k p ph s → th_calls s !! t = Some c →
  sim E w' p' → still E (th_world s) w' → files_same p p' →
  (∀ u d, u ≠ t → th_calls s !! u = Some d → pending d = true →
     ∀ o, px_fds p !! c_fd d = Some o → px_fds p' !! c_fd d = Some o) →
  call_ok (E:=E) w' p' (with_stage st c) ph_t →
  (∀ u d x, u ≠ t → th_calls s !! u = Some d →
     claims (with_stage st c) = Some x → claims d ≠ Some x) →
  (∀ t' r, claims (with_stage st c) = Some (t', r) →
     claims c = Some (t', r) ∨ fs_view (net (th_world s)) t' r = None) →
  pending (with_stage st c) = pending c →
  Forall (λ x, happens_to x = t) h → phase_after t h (ph t) = Some ph_t →
  replay E k h (reference s p) = Some (dom (address_cache (cl (th_world s))), p') →
  advances k p ph s (stay t c (th_calls s) h (Ret (w', st))).
Proof.
  intros Hi Ht Hs' Hst Hf Hoth Hc Hcl Hfresh Hp Hh Hph Hrep.
  eexists _, _, p', (λ u, if decide (u = t) then ph_t else ph u). split_and!; [done| | | |].
  4:{ eapply (polite_put _ _ s t (Some _)); [apply Hst|done|]. intros c1 t' r [= <-] Hx.
      destruct (Hfresh _ _ Hx); [left; by exists c|by right]. }
  - rewrite Hrep. unfold reference. cbn [th_world]. by destruct Hst as [[-> _] _].
  - by apply phase_step_all.
  - apply (inv_still before k p ph s t (Some (with_stage st c))); try done.
    + intros c1 u d x [= <-]. by apply Hcl.
    + intros c1 u d [= <-] Hne Hu Hp1 Hpd Hfd. apply Hne.
      eapply (ti_opens _ _ _ _ _ Hi u t d c); [done|done|done| |done]. by rewrite <-Hp.
    + intros c0 Hc0 Hp0. rewrite Ht in Hc0. injection Hc0 as <-. eexists. by rewrite Hp.
Qed.

(** A thread wakes: its descriptor is settled. *)
Lemma step_wake k p ph s t c l h count off r :
  env_ok E → threads_inv k p ph s → th_calls s !! t = Some c →
  c_stage c = Waiting l h count off →
  wake_step E t c l h count off (th_world s) (th_calls s) = Some r → advances k p ph s r.
Proof.
  intros He Hi Ht Hst Hr. pose proof (ti_sim _ _ _ _ _ Hi) as Hs.
  pose proof (ti_calls _ _ _ _ _ Hi t) as Hok. rewrite Ht in Hok.
  destruct Hok as [Ha Hok]. rewrite Hst in Hok.
  destruct Hok as (Hph & Hop & Hl & path & host & Hp & Hh & ->).
  set (w := th_world s) in *.
  assert (Hstate : fd_state (c_fd c) (fd_states (cl w)) = fd_heap (fd_states (cl w)) !! l).
  { unfold fd_state, hvac_get_fd_status. by rewrite Hl. }
  assert (Hnp : ∀ c0, th_calls s !! t = Some c0 → pending c0 = false).
  { intros c0 Hc0. rewrite Ht in Hc0. injection Hc0 as <-. unfold pending. by rewrite Hst. }
  assert (Hlocal : is_local w (c_fd c) → fd_heap (fd_states (cl w)) !! l ≠ Some HVAC_FD_OPENING →
    advances k p ph s (leave t (c_op c) (c_time c) (c_fd c) (th_calls s)
      (λ a, [Effect t (c_op c) a]) (-1, []) w)).
  { intros Hloc Hno. eapply leave_local; try done.
    - apply still_refl, (sim_net _ _ Hs).
    - right. intros [_ Hpo]. fold w in Hpo. congruence.
    - intros a. rewrite Hph. split; [by repeat constructor|apply phase_end]. }
  assert (Hnl : fd_heap (fd_states (cl w)) !! l ≠ Some HVAC_FD_READY → is_local w (c_fd c)).
  { intros Hno. destruct (sim_local_or_remote w p (c_fd c) Hs) as [?|(a & r' & Hrem)]; [done|].
    destruct Hrem as (_ & _ & _ & _ & Hrdy & _). congruence. }
  unfold wake_step in Hr. destruct (fd_heap (fd_states (cl w)) !! l) as [[]|] eqn:El; simplify_eq.
  2-3: apply Hlocal; [by apply Hnl|done].
  destruct (sim_local_or_remote w p (c_fd c) Hs) as [Hloc|(a & r' & Hrem)].
  - erewrite rest_local by done. by apply Hlocal.
  - erewrite (rest_served w p (c_fd c) count off) by done.
    assert (Hlive : fs_known (net w) a) by (by eapply is_remote_known).
    apply (advance_stay k p ph s t c w p _ _ (ph t)); try done.
    + apply still_refl, (sim_net _ _ Hs).
    + split; [done|]. exists a. split_and!; [done|done|]. simpl. split; [done|].
      by exists count, off, r'.
    + unfold pending. by rewrite Hst.
Qed.

(** The server runs the handler of a read, *)
Lemma step_serve_read k p ph s t c a freed inp :
  env_ok E → threads_inv k p ph s → th_calls s !! t = Some c →
  c_stage c = InFlight a freed (Sent (ReadRequest inp)) →
  ∃ r, threads_run E (TServe t) s = Some r ∧ advances k p ph s r.
Proof.
  intros He Hi Ht Hst. pose proof (ti_sim _ _ _ _ _ Hi) as Hs.
  pose proof (ti_calls _ _ _ _ _ Hi t) as Hok. rewrite Ht in Hok.
  destruct Hok as [Ha Hok]. rewrite Hst in Hok.
  destruct Hok as (b & -> & Hl & Hph & count & off & r & Hop & Hrem & ->).
  destruct (serve_remote _ p (c_op c) _ count off b r He Hs Ha Hop Hrem)
    as (n' & out & d & Hf & Hans & Hn & Hs' & Hst').
  eexists. split; [cbn [threads_run]; rewrite Ht; simpl; by rewrite Hst, Hf|].
  eapply (advance_stay k p ph s t c _ (fst (plain_op (c_op c) p)) _ _ (Effected (rpc_ret out, d)));
    try done.
  - by eapply plain_read_keeps.
  - intros u e Hne Hu Hpe. pose proof (ti_calls _ _ _ _ _ Hi u) as Hue. rewrite Hu in Hue.
    eapply read_pending_kept; try done. right.
    intros [_ Hpo]. destruct Hrem as (_ & _ & _ & _ & Hrdy & _). congruence.
  - split; [done|]. exists b. split_and!; [done| |].
    + by apply (ex_known _ _ (sc_net _ _ (fr_conf _ _ _ _ (proj2 Hst')))).
    + split; [by eexists _, _|]. by exists out, d.
  - unfold pending. by rewrite Hst.
  - by repeat constructor.
  - rewrite Hph. apply phase_effect.
  - rewrite <-Hans. by apply (replay_effect_read k _ p t _ (c_fd c) count off []).
Qed.

(** and that of an open. *)
Lemma step_serve_open k p ph s t c a freed inp :
  threads_inv k p ph s → th_calls s !! t = Some c →
  c_stage c = InFlight a freed (Sent (OpenRequest inp)) →
  ∃ r, threads_run E (TServe t) s = Some r ∧ advances k p ph s r.
Proof.
  intros Hi Ht Hst. pose proof (ti_sim _ _ _ _ _ Hi) as Hs.
  pose proof (ti_calls _ _ _ _ _ Hi t) as Hok. rewrite Ht in Hok.
  destruct Hok as [Ha Hok]. rewrite Hst in Hok.
  destruct Hok as (b & -> & Hl & Hph & Hop & full & d & Hopn & ->).
  destruct (serve_open _ p _ full b d Hs Hopn) as (n' & r & Hf & Hset & Hs' & Hq & Han & Hu & Hnew).
  assert (Hst' : still E (th_world s) (World (cl (th_world s)) n')) by (by split).
  eexists. split; [cbn [threads_run]; rewrite Ht; simpl; by rewrite Hst, Hf|].
  eapply (advance_stay k p ph s t c _ p _ _ (ph t)); try done.
  - split; [done|]. exists b. split_and!; [done| |].
    + by apply (ex_known _ _ (sc_net _ _ (fr_conf _ _ _ _ Hq))).
    + simpl. split_and!; [done|done|done|]. exists full, d. split_and!; [|done|].
      * by eapply opening_stable, Hopn; [exact Hq|auto..].
      * by eapply frame_unowned; [exact Hq|intros []|].
  - intros u e x Hne Hue Hx. unfold claims in Hx. simpl in Hx. revert Hx.
    destruct (Z.leb_spec 0 (open_ret r)) as [Hr|]; [|done]. intros [= <-] Hx'.
    pose proof (ti_calls _ _ _ _ _ Hi u) as Hou. rewrite Hue in Hou. destruct Hou as [_ Hou].
    unfold claims in Hx'. destruct (c_stage e) as [|[b'|] fr [| |o|]]; try done.
    revert Hx'. destruct (Z.leb_spec 0 (open_ret o)); [|done]. intros Hx'.
    destruct Hou as (b2 & [= <-] & _ & _ & _ & _ & full' & d' & _ & Han' & _).
    destruct Han' as [|[_ Hv]]; [lia|].
    specialize (Hnew Hr). congruence.
  - intros t' r'. unfold claims. simpl. destruct (Z.leb_spec 0 (open_ret r)); [|done].
    intros [= <- <-]. right. by apply Hnew.
  - unfold pending. by rewrite Hst.
Qed.

(** The thread frees the server's address. *)
Lemma step_free k p ph s t c a r :
  threads_inv k p ph s → th_calls s !! t = Some c → c_stage c = InFlight a false r →
  ∃ r, threads_run E (TFree t) s = Some r ∧ advances k p ph s r.
Proof.
  intros Hi Ht Hst. pose proof (ti_sim _ _ _ _ _ Hi) as Hs.
  pose proof (ti_calls _ _ _ _ _ Hi t) as Hok. rewrite Ht in Hok.
  destruct Hok as [Ha Hok]. rewrite Hst in Hok. destruct Hok as (b & -> & Hl & Hreq).
  eexists. split.
  { cbn [threads_run]. rewrite Ht. simpl. rewrite Hst.
    erewrite bind_run by (by apply free_addr_run; [apply (sim_net _ _ Hs)|]). done. }
  apply (advance_stay k p ph s t c (th_world s) p _ _ (ph t)); try done.
  - apply still_refl, (sim_net _ _ Hs).
  - split; [done|]. by exists b.
  - intros u d x Hne Hu Hx Hx'. apply Hne. eapply (ti_claims _ _ _ _ _ Hi u t d c x); try done.
    revert Hx. unfold claims. simpl. by rewrite Hst.
  - intros t' r'. unfold claims. simpl. rewrite Hst. by left.
  - unfold pending. simpl. by rewrite Hst.
Qed.

(** The progress thread runs the callback of a read, *)
Lemma step_trigger_read k p ph s t c a freed rep :
  threads_inv k p ph s → th_calls s !! t = Some c → c_stage c = InFlight a freed (AnsweredRead rep) →
  ∃ r, threads_run E (TTrigger t) s = Some r ∧ advances k p ph s r.
Proof.
  intros Hi Ht Hst. pose proof (ti_sim _ _ _ _ _ Hi) as Hs.
  pose proof (ti_calls _ _ _ _ _ Hi t) as Hok. rewrite Ht in Hok.
  destruct Hok as [Ha Hok]. rewrite Hst in Hok.
  destruct Hok as (b & -> & Hl & (count & off & Hop) & out & d & -> & Hn & Hph).
  eexists. split.
  { cbn [threads_run]. rewrite Ht. simpl. rewrite Hst. unfold read_callback.
    erewrite bind_run by (erewrite bind_run by (by apply read_cb_run, (sim_net _ _ Hs)); done). done. }
  apply (advance_stay k p ph s t c (th_world s) p _ _ (ph t)); try done.
  - apply still_refl, (sim_net _ _ Hs).
  - split; [done|]. exists b. split_and!; [done|done|]. simpl.
    assert (is_open (c_op c) = false) as -> by (by destruct (c_op c)). split; [by eexists _, _|done].
  - unfold pending. simpl. by rewrite Hst.
Qed.

(** and of an open: the descriptor is settled. *)
Lemma step_trigger_open k p ph s t c a freed rep :
  threads_inv k p ph s → th_calls s !! t = Some c → c_stage c = InFlight a freed (AnsweredOpen rep) →
  ∃ r, threads_run E (TTrigger t) s = Some r ∧ advances k p ph s r.
Proof.
  intros Hi Ht Hst. pose proof (ti_sim _ _ _ _ _ Hi) as Hs.
  pose proof (ti_calls _ _ _ _ _ Hi t) as Hok. rewrite Ht in Hok.
  destruct Hok as [Ha Hok]. rewrite Hst in Hok.
  destruct Hok as (b & -> & Hl & Hph & Hop & Hset & full & d & Hopn & Han & Hu).
  destruct (open_cb_run _ p _ full b d rep Hs Hopn Hset Han Hu)
    as (w' & Hcb & Hs' & En & Hk & Em & Es & Hno & Hfr & _).
  eexists. split.
  { cbn [threads_run]. rewrite Ht. simpl. rewrite Hst. erewrite bind_run by exact Hcb.
    by destruct Hset as [->|[out ->]]. }
  eexists _, _, p, (λ u, if decide (u = t) then ph t else ph u). split_and!; [done| | | |].
  - unfold reference. simpl. by destruct Hk as [-> _].
  - apply phase_step_all; [done|done].
  - assert (Hpc : pending c = true) by (unfold pending; by rewrite Hst).
    apply (inv_update before k p ph s t (Some (with_stage (InFlight (Some b) freed
      (Published (open_ret rep, []))) c))); try done.
    + destruct Hk as [_ ->]. apply (ti_conf _ _ _ _ _ Hi).
    + intros u e Hne Hue Hoe.
      assert (Hclaim : ∀ t' r, claims e = Some (t', r) →
        ¬ (0 < open_ret rep ∧ t' = b ∧ r = open_ret rep)).
      { intros t' r Hx (Hpos & -> & ->). apply Hne.
        apply (ti_claims _ _ _ _ _ Hi u t e c (b, open_ret rep)); try done.
        unfold claims. rewrite Hst. by rewrite (proj2 (Z.leb_le _ _)) by lia. }
      destruct (decide (uses e = true ∧ c_fd e = c_fd c)) as [[Hue' Hfd]|Hoth].
      * destruct Hoe as [Hae Hoe]. split; [done|]. unfold uses in Hue'.
        destruct (c_stage e) as [l h count off|a fr req] eqn:Hse.
        -- destruct Hoe as (H1 & H2 & Hw). split_and!; try done.
           eapply waits_for_same, Hw; [apply Hk|by rewrite Em|by rewrite Es].
        -- exfalso. assert (Hpe : pending e = true).
           { unfold pending. rewrite Hse. destruct Hoe as (b2 & _ & _ & Hreq).
             destruct req as [[inp|inp]| | |]; try done. exfalso.
             destruct Hreq as (_ & _ & _ & r & _ & Hrem & _). rewrite Hfd in Hrem.
             by eapply remote_not_local; [exact Hrem|apply (op_local _ _ _ _ _ _ Hopn)]. }
           apply Hne. by apply (ti_opens _ _ _ _ _ Hi u t e c).
      * eapply call_ok_stable, Hoe; [exact Hfr|done| |done|done]. intros Hx Hy. by apply Hoth.
    + split; [done|]. exists b. split_and!; [done|by rewrite En|]. simpl. by rewrite Hop.
    + by intros c1 u e x [= <-].
    + by intros c1 u e [= <-].
    + intros g Hg. left. assert (g ≠ c_fd c) as Hgne by (intros ->; by destruct Hg).
      split; [by eapply pending_open_frame|]. intros c0. rewrite Ht. by intros [= <-].
  - eapply (polite_put _ _ s t (Some _)); [exact Hfr| |by intros c1 ? ? [= <-]].
    intros t' r' (Hpos & -> & ->). exists c. split; [done|]. unfold claims. rewrite Hst.
    by rewrite (proj2 (Z.leb_le _ _)) by lia.
Qed.

(** The thread returns. *)
Lemma step_return k p ph s t c a r :
  threads_inv k p ph s → th_calls s !! t = Some c → c_stage c = InFlight a true (Published r) →
  ∃ r, threads_run E (TReturn t) s = Some r ∧ advances k p ph s r.
Proof.
  intros Hi Ht Hst. pose proof (ti_sim _ _ _ _ _ Hi) as Hs.
  pose proof (ti_calls _ _ _ _ _ Hi t) as Hok. rewrite Ht in Hok.
  destruct Hok as [Ha Hok]. rewrite Hst in Hok. destruct Hok as (b & -> & Hl & Hreq).
  assert (∃ w' x, op_end (c_op c) (c_time c) (c_fd c) r (th_world s) = Ret (w', x) ∧
    sim E w' p ∧ still E (th_world s) w' ∧ ph t = Effected x) as (w' & x & Hend & Hs' & Hst' & Hph).
  { simpl in Hreq. destruct (is_open (c_op c)) eqn:Hop.
    - destruct (c_op c) as [path flags| | |]; try done.
      destruct (open_end_run path flags (c_time c) (c_fd c) r (th_world s)) as [st ->].
      eexists _, _. split_and!; [done| | |done].
      + eapply sim_agree, Hs; by destruct (th_world s) as [[] ?].
      + apply still_client; [exact (sim_net _ _ Hs)|by destruct (th_world s) as [[] ?]..].
    - destruct Hreq as ((count & off & Hargs) & Hn & Hph). destruct r as [n d].
      destruct (remote_end _ p (c_op c) (c_time c) n d _ count off Hs Hargs Hn)
        as (w' & Hend & Hs' & Hst'). by exists w', (n, d). }
  eexists. split; [cbn [threads_run]; rewrite Ht; simpl; by rewrite Hst|].
  unfold leave. rewrite Hend.
  eexists _, _, p, (λ u, if decide (u = t) then Outside else ph u). split_and!; [done| | | |eapply (polite_still _ s t None); [apply Hst'|done]].
  - simpl. unfold reference. simpl. by destruct Hst' as [[-> _] _].
  - apply phase_step_all; [by repeat constructor|]. rewrite Hph. apply phase_return.
  - apply (inv_still before k p ph s t None); try done.
    intros c0 Hc0. rewrite Ht in Hc0. injection Hc0 as <-. unfold pending. by rewrite Hst.
Qed.

(** The servers do something by themselves. *)
Lemma step_servers k p ph s e :
  threads_inv k p ph s →
  ∃ r, threads_run E (TServers e) s = Some r ∧ advances k p ph s r.
Proof.
  intros Hi. pose proof (ti_sim _ _ _ _ _ Hi) as Hs.
  destruct (svc_background _ e (sim_net _ _ Hs)) as [Hex Hv].
  assert (Hq : quiet E (th_world s) (World (cl (th_world s)) (fs_background e (net (th_world s))))).
  { apply quiet_intro; try done. intros t r x _ Hx. simpl. by rewrite Hv. }
  eexists. split; [done|]. eexists _, _, p, ph.
  split_and!; [done|done|done| |by eapply polite_at_once].
  destruct Hi as [I1 I2 I3 I4 I5 I6]. split; cbn [th_world th_calls]; try done.
  - by apply step_background.
  - intros t. specialize (I3 t). destruct (th_calls s !! t) as [c|]; [|done].
    eapply call_ok_stable, I3; [exact Hq|done|auto..].
Qed.

(** ** Any run *)

Lemma threads_step k p ph s l r :
  env_ok E → threads_inv k p ph s → label_ok l s = true → threads_run E l s = Some r →
  advances k p ph s r ∨
  r = Fault NullDeref ∧ ∃ t op tm, l = TCall t op tm ∧ cold_op E k op (reference s p) = None.
Proof.
  intros He Hi Hl Hr.
  assert (Hgo : (∃ r, threads_run E l s = Some r ∧ advances k p ph s r) → advances k p ph s r).
  { intros (r' & Hr' & Ha). by simplify_eq. }
  destruct l as [t op tm|t|t|t|t|t|t|e]; simpl in Hl; [|left; apply Hgo; clear Hgo..].
  - clear Hgo. simpl in Hr. destruct (th_calls s !! t) eqn:Ht; [done|]. injection Hr as <-.
    apply andb_true_iff in Hl as [Ha Hl].
    destruct op as [path flags|fd count|fd count off|fd].
    + pose proof (step_call_open before k p ph s t path flags tm He Hi Ht Ha) as Hstep.
      destruct (cold_op E k _ _) eqn:Hcold; [by left|right]. split; [done|by eexists _, _, _].
    + left. by eapply step_call_read.
    + left. by eapply step_call_read.
    + left. apply step_call_close; try done. by apply bool_decide_eq_true in Hl.
  - pose proof Hr as Hr'. cbn [threads_run] in Hr'. apply bind_Some in Hr' as (c & Ht & Hr').
    destruct (c_stage c) eqn:Hst; [|done]. exists r. split; [done|]. by eapply step_wake.
  - done.
  - cbn [threads_run] in Hr. apply bind_Some in Hr as (c & Ht & Hr).
    destruct (c_stage c) as [|a freed [[inp|inp]| | |]] eqn:Hst; try done;
      [by eapply step_serve_read|by eapply step_serve_open].
  - cbn [threads_run] in Hr. apply bind_Some in Hr as (c & Ht & Hr).
    destruct (c_stage c) as [|a [] req] eqn:Hst; try done. by eapply step_free.
  - cbn [threads_run] in Hr. apply bind_Some in Hr as (c & Ht & Hr).
    destruct (c_stage c) as [|a freed [| | |]] eqn:Hst; try done;
      [by eapply step_trigger_read|by eapply step_trigger_open].
  - cbn [threads_run] in Hr. apply bind_Some in Hr as (c & Ht & Hr).
    destruct (c_stage c) as [|a [] [| | |]] eqn:Hst; try done. by eapply step_return.
  - by apply step_servers.
Qed.

(** A run ends in a state with the invariant, or at a call whose open has no
    descriptor left for the address file. *)
Definition ends (k : config) (p : posix) (ph : nat → phase) (ls : list thread_label) (s : threads)
    (r : res (threads * list happening)) : Prop :=
  advances k p ph s r ∨
  r = Fault NullDeref ∧ ∃ n s' h p' ph' t op tm,
    threads_runs E (take n ls) s = Some (Ret (s', h)) ∧
    replay E k h (reference s p) = Some (reference s' p') ∧
    (∀ u, phase_after u h (ph u) = Some (ph' u)) ∧ threads_inv k p' ph' s' ∧
    ls !! n = Some (TCall t op tm) ∧ cold_op E k op (reference s' p') = None.

Lemma ends_cons k p ph s l s1 h1 p1 ph1 ls r :
  threads_run E l s = Some (Ret (s1, h1)) →
  replay E k h1 (reference s p) = Some (reference s1 p1) →
  (∀ u, phase_after u h1 (ph u) = Some (ph1 u)) → polite (E:=E) s s1 → ends k p1 ph1 ls s1 r →
  ends k p ph (l :: ls) s
    (match r with Ret (s2, h2) => Ret (s2, h1 ++ h2) | Fault f => Fault f end).
Proof.
  intros Hrun Hrep Hph Hpo [(s2 & h2 & p2 & ph2 & -> & Hrep2 & Hph2 & Hi2 & Hpo2)|
    (-> & n & s2 & h2 & p2 & ph2 & t & op & tm & Hr2 & Hrep2 & Hph2 & Hi2 & Hn & Hc)].
  - left. exists s2, (h1 ++ h2), p2, ph2. split_and!; [done| | |done|by eapply polite_trans].
    + by rewrite replay_app, Hrep.
    + intros u. rewrite phase_after_app, Hph. apply Hph2.
  - right. split; [done|]. exists (Datatypes.S n), s2, (h1 ++ h2), p2, ph2, t, op, tm.
    split_and!; try done.
    + cbn [take threads_runs]. rewrite Hrun. cbn [mbind option_bind]. by rewrite Hr2.
    + by rewrite replay_app, Hrep.
    + intros u. rewrite phase_after_app, Hph. apply Hph2.
Qed.

Lemma threads_steps k p ph s ls r :
  env_ok E → threads_inv k p ph s → disciplined E ls s = true →
  threads_runs E ls s = Some r → ends k p ph ls s r.
Proof.
  intros He. revert p ph s r. induction ls as [|l ls IH]; intros p ph s r Hi Hd Hr.
  - simpl in Hr. simplify_eq. left. exists s, [], p, ph.
    split_and!; try done. apply polite_refl, (sim_net _ _ (ti_sim _ _ _ _ _ Hi)).
  - cbn [threads_runs] in Hr. apply bind_Some in Hr as (r1 & Hr1 & Hr).
    cbn [disciplined] in Hd. apply andb_true_iff in Hd as [Hl Hd]. rewrite Hr1 in Hd.
    destruct (threads_step k p ph s l r1 He Hi Hl Hr1)
      as [(s1 & h1 & p1 & ph1 & -> & Hrep & Hph & Hi1 & Hpo1)|(-> & t & op & tm & -> & Hc)].
    + apply bind_Some in Hr as (r2 & Hr2 & Hr). injection Hr as <-.
      eapply ends_cons; try done. by apply IH.
    + injection Hr as <-. right. split; [done|]. by exists 0%nat, s, [], p, ph, t, op, tm.
Qed.

End all.

(** ** The claims *)

Section claims.
Context {H : Mercury} {HOk : MercuryOk H} {W : Type} {T : Transport H W}.
Context {S : FileService T} {SOk : FileServiceOk S}.
Context {E : environment}.

Lemma threads_start (w : world W) p :
  sim E w p → threads_inv (E:=E) (pending_open w) (cl_conf (cl w)) p (λ _, Outside) (Threads w ∅).
Proof.
  intros Hs. split; simpl; try done. intros g Hg. by left.
Qed.

(** Concurrent calls are linearizable: whatever threads open, read, pread
    and close at the same time, in whatever order requests are served,
    callbacks run and threads resume, and whatever the servers move in between,
    the calls have the answers a process without the library gets when it makes
    them one after the other (and opens the address file at the first use of a
    server), each between its thread's call and return, and each thread gets
    the answer of its own call. The process ends only where that process has
    no descriptor left for the address file. *)
Theorem concurrent_calls_are_linearizable ls (w : world W) p r :
  env_ok E → sim E w p → disciplined E ls (Threads w ∅) = true →
  threads_runs E ls (Threads w ∅) = Some r →
  let start := (dom (address_cache (cl w)), p) in
  match r with
  | Ret (s, h) => ∃ known p', replay E (cl_conf (cl w)) h start = Some (known, p') ∧
      (∀ t, is_Some (phase_after t h Outside)) ∧
      sim E (th_world s) p' ∧ known = dom (address_cache (cl (th_world s)))
  | Fault f => f = NullDeref ∧ ∃ n s h x t op tm,
      threads_runs E (take n ls) (Threads w ∅) = Some (Ret (s, h)) ∧
      replay E (cl_conf (cl w)) h start = Some x ∧
      ls !! n = Some (TCall t op tm) ∧ cold_op E (cl_conf (cl w)) op x = None
  end.
Proof.
  intros He Hs Hd Hr start.
  destruct (threads_steps _ _ _ _ _ ls r He (threads_start w p Hs) Hd Hr)
    as [(s & h & p' & ph' & -> & Hrep & Hph & Hi & _)|
        (-> & n & s & h & p' & ph' & t & op & tm & Hn & Hrep & _ & _ & Hl & Hc)].
  - eexists _, p'. split_and!; [exact Hrep| |apply (ti_sim _ _ _ _ _ Hi)|done].
    intros t. by rewrite Hph.
  - split; [done|]. by exists n, s, h, (reference s p'), t, op, tm.
Qed.

(** With every address known, the reference opens nothing of its own. *)
Lemma replay_warm k h known p x :
  0 < g_hvac_server_count k →
  (∀ rank, 0 ≤ rank < g_hvac_server_count k → rank ∈ known) →
  replay E k h (known, p) = Some x → fst x = known ∧ plain_replay h p = Some (snd x).
Proof.
  intros Hc Hk. revert p. induction h as [|[t op|t op a|t a] h IH]; intros p; cbn [replay plain_replay];
    [by intros [= <-]|apply IH| |apply IH].
  rewrite cold_op_warm by done. simpl. destruct (plain_op op p) as [p' a']. simpl.
  case_bool_decide; [apply IH|done].
Qed.

(** Once every server's address is known no call of any thread ends the
    process, and concurrent calls have the answers of the operating system
    alone: those of the direct calls made one after the other in the order in
    which the calls take effect. *)
Theorem warm_concurrent_calls_are_direct_calls ls (w : world W) p r :
  env_ok E → sim E w p → warm (cl w) → disciplined E ls (Threads w ∅) = true →
  threads_runs E ls (Threads w ∅) = Some r →
  ∃ s h p', r = Ret (s, h) ∧ plain_replay h p = Some p' ∧
    (∀ t, is_Some (phase_after t h Outside)) ∧ sim E (th_world s) p'.
Proof.
  intros He Hs Hw Hd Hr.
  pose proof (ad_count _ (sim_addressed _ _ Hs)) as [Hc _].
  assert (Hk : ∀ rank, 0 ≤ rank < g_hvac_server_count (cl_conf (cl w)) →
    rank ∈ dom (address_cache (cl w))) by (intros rank Hrank; by apply elem_of_dom, Hw).
  destruct (threads_steps _ _ _ _ _ ls r He (threads_start w p Hs) Hd Hr)
    as [(s & h & p' & ph' & -> & Hrep & Hph & Hi & _)|
        (-> & n & s & h & p' & ph' & t & op & tm & Hn & Hrep & _ & _ & Hl & Hcold)].
  - exists s, h, p'. split_and!; [done| |by intros t; rewrite Hph|apply (ti_sim _ _ _ _ _ Hi)].
    by apply replay_warm in Hrep as [_ ?].
  - apply replay_warm in Hrep as [Hx _]; try done. exfalso. revert Hcold.
    destruct (reference s p') as [known q]. simpl in Hx. subst known. by rewrite cold_op_warm.
Qed.

(** ** Every call ends *)

(** The steps a thread still has to see: its own waking, free and return, its
    server's answer, its callback. *)
Definition steps_left (c : call) : nat :=
  match c_stage c with
  | Waiting _ _ _ _ => 5
  | InFlight _ freed r =>
      match r with
      | Sent _ => 3
      | AnsweredRead _ | AnsweredOpen _ => 2
      | Published _ => 1
      end + (if freed then 0 else 1)
  end.

Definition all_left (cs : gmap nat call) : nat := map_fold (λ _ c n, steps_left c + n)%nat 0%nat cs.

Lemma all_left_delete cs t c :
  cs !! t = Some c → all_left cs = (steps_left c + all_left (delete t cs))%nat.
Proof.
  intros Ht. unfold all_left. rewrite (map_fold_delete_L _ _ t c); [done| |done].
  intros. lia.
Qed.

Lemma all_left_insert cs t c :
  all_left (<[t := c]> cs) = (steps_left c + all_left (delete t cs))%nat.
Proof. rewrite (all_left_delete _ t c) by apply lookup_insert_eq. by rewrite delete_insert_eq. Qed.

(** A step on behalf of a call in progress. *)
Definition internal (t : nat) (l : thread_label) : bool :=
  match l with
  | TWake u | TServe u | TFree u | TTrigger u | TReturn u => bool_decide (u = t)
  | _ => false
  end.

Lemma stay_left t c cs h r s' h' :
  cs !! t = Some c → stay t c cs h r = Ret (s', h') →
  (∀ w st, r = Ret (w, st) → steps_left (with_stage st c) < steps_left c)%nat →
  (all_left (th_calls (W:=W) s') < all_left cs)%nat.
Proof.
  intros Ht Hr Hlt. destruct r as [[w st]|]; [|done]. injection Hr as <- <-. simpl.
  rewrite all_left_insert, (all_left_delete cs t c) by done. specialize (Hlt w st eq_refl). lia.
Qed.

Lemma leave_left t c cs h r w s' h' :
  cs !! t = Some c → leave t (c_op c) (c_time c) (c_fd c) cs h r w = Ret (s', h') →
  (all_left (th_calls (W:=W) s') < all_left cs)%nat.
Proof.
  intros Ht. unfold leave. destruct (op_end _ _ _ _ _) as [[w' a]|]; [|done]. intros [= <- <-]. simpl.
  rewrite (all_left_delete cs t c) by done. unfold steps_left.
  destruct (c_stage c) as [|? [] []]; lia.
Qed.

Lemma internal_decreases t l (s s' : threads (W:=W)) h :
  internal t l = true → threads_run E l s = Some (Ret (s', h)) →
  (all_left (th_calls s') < all_left (th_calls s))%nat.
Proof.
  intros Hl Hr. destruct l as [|u|u|u|u|u|u|]; simpl in Hl; try done;
    apply bool_decide_eq_true in Hl as ->; cbn [threads_run] in Hr;
    apply bind_Some in Hr as (c & Ht & Hr);
    destruct (c_stage c) as [l h0 count off|a freed req] eqn:Hst; try done.
  - unfold wake_step in Hr. destruct (fd_heap _ !! l) as [[]|]; simplify_eq;
      try by eapply leave_left.
    destruct (read_rpc_rest _ _ _ _ _ _ _) as [[w' [[a inp]|]]|]; [|by eapply leave_left|done].
    eapply stay_left; [exact Ht|done|]. intros w st [= <- <-]. unfold steps_left. by rewrite Hst; simpl; lia.
  - destruct req as [[inp|inp]| | |]; try done.
    + destruct (forward_read _ _ _) as [n rep]. apply (inj Some) in Hr. eapply stay_left; [exact Ht|exact Hr|].
      intros w st [= <- <-]. unfold steps_left. rewrite Hst. simpl. lia.
    + destruct (forward_open _ _ _) as [n rep]. apply (inj Some) in Hr. eapply stay_left; [exact Ht|exact Hr|].
      intros w st [= <- <-]. unfold steps_left. rewrite Hst. simpl. lia.
  - destruct freed; [done|]. apply (inj Some) in Hr. eapply stay_left; [exact Ht|exact Hr|].
    intros w st Hw. bind_in Hw w1 u E1. apply mret_Ret in Hw as [_ ->].
    unfold steps_left. rewrite Hst. simpl. destruct req; lia.
  - destruct req as [|rep|rep|]; try done.
    + assert (Hr' : stay t c (th_calls s) [] ((x ← read_callback rep; mret (InFlight a freed (Published x)))
        (th_world s)) = Ret (s', h)) by (destruct rep; first [done|by apply (inj Some) in Hr]).
      eapply stay_left; [exact Ht|exact Hr'|]. intros w st Hw. bind_in Hw w1 u E1.
      apply mret_Ret in Hw as [_ ->]. unfold steps_left. rewrite Hst. simpl. lia.
    + assert (Hr' : stay t c (th_calls s) [] ((x ← open_callback (c_fd c) rep;
        mret (InFlight a freed (Published x))) (th_world s)) = Ret (s', h)) by (destruct rep; first [done|by apply (inj Some) in Hr]).
      eapply stay_left; [exact Ht|exact Hr'|]. intros w st Hw. bind_in Hw w1 u E1.
      apply mret_Ret in Hw as [_ ->]. unfold steps_left. rewrite Hst. simpl. lia.
  - destruct freed, req; try done. apply (inj Some) in Hr. by eapply leave_left.
Qed.

(** A thread that has sent its request can always be moved on. *)
Lemma in_flight_moves before k p ph s t c a freed r :
  env_ok E → threads_inv (E:=E) before k p ph s → th_calls s !! t = Some c →
  c_stage c = InFlight a freed r →
  ∃ l s' h, internal t l = true ∧ threads_run E l s = Some (Ret (s', h)).
Proof.
  intros He Hi Ht Hst.
  assert (Hgo : ∀ l, internal t l = true →
    (∃ r, threads_run E l s = Some r ∧ advances (E:=E) before k p ph s r) →
    ∃ l s' h, internal t l = true ∧ threads_run E l s = Some (Ret (s', h))).
  { intros l Hl (r' & Hr & s' & h & _ & _ & -> & _). by exists l, s', h. }
  destruct freed.
  - destruct r as [[inp|inp]|rep|rep|x].
    + apply (Hgo (TServe t)); [by apply bool_decide_eq_true|by eapply step_serve_read].
    + apply (Hgo (TServe t)); [by apply bool_decide_eq_true|by eapply step_serve_open].
    + apply (Hgo (TTrigger t)); [by apply bool_decide_eq_true|by eapply step_trigger_read].
    + apply (Hgo (TTrigger t)); [by apply bool_decide_eq_true|by eapply step_trigger_open].
    + apply (Hgo (TReturn t)); [by apply bool_decide_eq_true|by eapply step_return].
  - apply (Hgo (TFree t)); [by apply bool_decide_eq_true|by eapply step_free].
Qed.

(** What a thread waits for that cannot move itself: another thread's open of
    its descriptor. *)
Definition waits_on (s : threads (W:=W)) (t u : nat) : Prop :=
  ∃ c d status svr_hash count off, th_calls s !! t = Some c ∧ th_calls s !! u = Some d ∧
    c_stage c = Waiting status svr_hash count off ∧ pending d = true ∧ c_fd d = c_fd c.

Lemma call_moves k p ph s t :
  env_ok E → threads_inv (E:=E) (λ _, False) k p ph s → is_Some (th_calls s !! t) →
  ∃ u l s' h, (u = t ∨ waits_on s t u) ∧
    internal u l = true ∧ threads_run E l s = Some (Ret (s', h)).
Proof.
  intros He Hi [c Ht].
  destruct (c_stage c) as [l h0 count off|a freed r] eqn:Hst.
  2:{ destruct (in_flight_moves (λ _, False) k p ph s t c a freed r) as (l & s' & h & ? & ?); try done.
      exists t, l, s', h. auto. }
  pose proof (ti_calls _ _ _ _ _ Hi t) as Hok. rewrite Ht in Hok. destruct Hok as [Ha Hok].
  rewrite Hst in Hok. destruct Hok as (Hph & Hop & Hl & path & host & Hp & Hh & Heq).
  destruct (wake_step E t c l h0 count off (th_world s) (th_calls s)) as [r|] eqn:Hw.
  - destruct (step_wake _ k p ph s t c l h0 count off r He Hi Ht Hst Hw)
      as (s' & h & _ & _ & -> & _).
    exists t, (TWake t), s', h. split_and!; [by left|by apply bool_decide_eq_true|].
    cbn [threads_run]. rewrite Ht. simpl. by rewrite Hst.
  - assert (Hpo : pending_open (th_world s) (c_fd c)).
    { split; [by rewrite Hp|]. unfold fd_state, hvac_get_fd_status. rewrite Hl. simpl.
      unfold wake_step in Hw. by destruct (fd_heap _ !! l) as [[]|]. }
    destruct (ti_pending _ _ _ _ _ Hi _ Hpo) as [[]|(u & d & Hu & Hpd & Hfd)].
    destruct (c_stage d) as [|a freed r] eqn:Hsd; [unfold pending in Hpd; by rewrite Hsd in Hpd|].
    destruct (in_flight_moves (λ _, False) k p ph s u d a freed r) as (l' & s' & h & ? & ?); try done.
    exists u, l', s', h. split; [|done]. right. by exists c, d, l, h0, count, off.
Qed.

Lemma all_left_bound cs : (all_left cs ≤ 5 * size cs)%nat.
Proof.
  induction cs as [|t c cs Hn IH] using map_ind; [done|].
  rewrite map_size_insert_None, all_left_insert, delete_id by done.
  unfold steps_left. destruct (c_stage c) as [|? [] []]; lia.
Qed.

(** Every call in progress comes to its end: at any moment of any run,
    each thread inside a call can be moved on by a step of its own that
    succeeds, or waits for the open another thread makes of its descriptor and
    that one can be moved on; every such step, whoever takes it, lowers the
    number of steps left, which is at most five for each call; and when no
    call is left no descriptor is left opening. *)
Theorem concurrent_calls_complete ls (w : world W) p s h :
  env_ok E → sim E w p → (∀ fd, ¬ pending_open w fd) →
  disciplined E ls (Threads w ∅) = true →
  threads_runs E ls (Threads w ∅) = Some (Ret (s, h)) →
  (∀ t, is_Some (th_calls s !! t) → ∃ u l s' h', (u = t ∨ waits_on s t u) ∧
     internal u l = true ∧ threads_run E l s = Some (Ret (s', h'))) ∧
  (∀ t l s' h', internal t l = true → threads_run E l s = Some (Ret (s', h')) →
     (all_left (th_calls s') < all_left (th_calls s))%nat) ∧
  (all_left (th_calls s) ≤ 5 * size (th_calls s))%nat ∧
  (th_calls s = ∅ → ∀ fd, ¬ pending_open (th_world s) fd).
Proof.
  intros He Hs Hno Hd Hr.
  assert (Hi0 : threads_inv (E:=E) (λ _, False) (cl_conf (cl w)) p (λ _, Outside) (Threads w ∅)).
  { destruct (threads_start w p Hs) as [I1 I2 I3 I4 I5 I6]. split; try done.
    intros g Hg. by destruct (Hno g). }
  destruct (threads_steps _ _ _ _ _ ls _ He Hi0 Hd Hr)
    as [(s0 & h0 & p' & ph' & Heq & _ & _ & Hi & _)|[? _]]; [|done]. injection Heq as <- <-.
  split_and!; [|intros ? ? ? ?; apply internal_decreases|apply all_left_bound|].
  - intros t Ht. by eapply call_moves.
  - intros Hcs fd Hpo. destruct (ti_pending _ _ _ _ _ Hi _ Hpo) as [[]|(t & c & Ht & _)].
    by rewrite Hcs, lookup_empty in Ht.
Qed.

(** ** A call nobody interrupts *)

(** C25. A call that nobody interrupts is the wrapper's call: its pieces, taken
    one after the other while any other threads wait, return what the
    intercepted call returns and leave the world it leaves, whether it opens,
    reads or closes; a read, if no open of its descriptor is on its way. *)
Theorem uninterrupted_call_is_the_wrapper t op tm (w w' : world W) cs a :
  (∀ fd count off, read_args op = Some (fd, count, off) →
     fd_state fd (fd_states (cl w)) ≠ Some HVAC_FD_OPENING) →
  cs !! t = None → hvac_op E op tm w = Ret (w', a) →
  ∃ ls h, threads_runs E ls (Threads w cs) = Some (Ret (Threads w' cs, h)) ∧
    last h = Some (Return t a) ∧ (ls = [TCall t op tm] ∨ ls = whole_call t op tm).
Proof.
  intros Hst Ht Hr. rewrite hvac_op_cut in Hr.
  bind_in Hr w1 x Hb. destruct x as [a'|fd r|fd l h c o|fd ad m].
  - apply mret_Ret in Hr as [-> ->]. exists [TCall t op tm]. eexists.
    cbn [threads_runs threads_run th_world th_calls]. rewrite Ht. unfold call_step. rewrite Hb.
    split_and!; [done|done|by left].
  - exists [TCall t op tm]. eexists.
    cbn [threads_runs threads_run th_world th_calls]. rewrite Ht. unfold call_step, leave.
    cbn [finish] in Hr. rewrite Hb, Hr, delete_id by done.
    split_and!; [done|done|by left].
  - by apply op_begin_no_wait in Hb.
  - cbn [finish] in Hr. bind_in Hr w2 r Hrest. exists (whole_call t op tm).
    unfold whole_call. cbn [threads_runs threads_run th_world th_calls]. rewrite Ht.
    unfold call_step. rewrite Hb. simpl. rewrite lookup_insert_eq. simpl.
    unfold rest_of_call in Hrest.
    destruct m as [inp|inp]; bind_in Hrest w3 rep Hf; bind_in Hrest w4 u Hfree;
      unfold remote, zoom, run in Hf; simpl in Hf;
      [destruct (forward_read ad inp (net w1)) as [n' rep'] eqn:Hfw|
       destruct (forward_open ad inp (net w1)) as [n' rep'] eqn:Hfw]; simplify_eq; simpl;
      rewrite lookup_insert_eq; simpl; unfold set_net in Hfree;
      rewrite (bind_run _ _ _ _ _ Hfree); simpl; rewrite lookup_insert_eq; simpl;
      assert (rep ≠ NeverAnswered) as Hnever by (by intros ->);
      destruct rep as [|out| |]; try done; eexists;
      rewrite (bind_run _ _ _ _ _ Hrest); simpl; rewrite lookup_insert_eq; simpl; unfold leave;
      rewrite Hr; simpl; rewrite !insert_insert_eq, delete_insert_id by done;
      (split_and!; [done| |by right]); try done. by destruct out.
Qed.

End claims.
