(* ===== verification/Job.v ===== *)
(** * The processes of a job

    Several client processes in front of the same servers, each with threads
    of its own ([Threads.v]). The processes share nothing but the servers: a
    step of one of them leaves the others' descriptors at the servers alone,
    and so each process has the history of a process that has the servers for
    itself. A process starts Mercury within its first open's step; [Boot.v] has
    the job in which the other processes go on meanwhile. *)

From S2P Require Import Prelude CText Posix Wire AddrFile FdState Comm Stats.
From S2P Require Import ClientComm ClientCommProps Client Wrappers Service Sim Cut OpenSteps.
From S2P Require Import ReadSteps CallSteps Threads ThreadSteps ThreadInv ThreadsProps.

Local Open Scope Z_scope.

(** ** State and steps *)

Section job.
Context {H : Mercury} {W : Type} {T : Transport H W} {S : FileService T}.

(** What a process finds around it: its variables, the C library, the hash. *)
Context (E : nat → environment).

(** The servers, and the processes with their threads' calls. A process that
    starts later is one that takes no step yet; one that is killed takes no more
    of its own, keeps its descriptors at the servers open, and the requests it
    has sent may still be served. *)
Record job : Type := Job {
  jb_net : W;
  jb_procs : gmap nat (client * gmap nat call)
}.

(** A process and its view of the servers. *)
Definition process (i : nat) (j : job) : option threads :=
  x ← jb_procs j !! i; Some (Threads (World (fst x) (jb_net j)) (snd x)).

Definition set_process (i : nat) (s : threads) (j : job) : job :=
  Job (net (th_world s)) (<[i := (cl (th_world s), th_calls s)]> (jb_procs j)).

(** One process takes a step; the job ends where a process is ended by a
    fault. *)
Definition job_run (x : nat * thread_label) (j : job) :
    option (res (job * list (nat * happening))) :=
  let '(i, l) := x in
  s ← process i j;
  match threads_run (E i) l s with
  | Some (Ret (s', h)) => Some (Ret (set_process i s' j, pair i <$> h))
  | Some (Fault f) => Some (Fault f)
  | None => None
  end.

Fixpoint job_runs (xs : list (nat * thread_label)) (j : job) :
    option (res (job * list (nat * happening))) :=
  match xs with
  | [] => Some (Ret (j, []))
  | x :: xs' =>
      r ← job_run x j;
      match r with
      | Ret (j', h) =>
          r' ← job_runs xs' j';
          Some match r' with
               | Ret (j'', h') => Ret (j'', h ++ h')
               | Fault f => Fault f
               end
      | Fault f => Some (Fault f)
      end
  end.

(** Every process keeps to what [Threads.v] asks of it. *)
Fixpoint job_disciplined (xs : list (nat * thread_label)) (j : job) : bool :=
  match xs with
  | [] => true
  | (i, l) :: xs' =>
      match process i j with Some s => label_ok l s | None => true end &&
      match job_run (i, l) j with
      | Some (Ret (j', _)) => job_disciplined xs' j'
      | _ => true
      end
  end.

(** What happens in one process. *)
Definition own (i : nat) (h : list (nat * happening)) : list happening :=
  (filter (λ x, fst x = i) h).*2.

End job.

Section projection.
Context {H : Mercury} {W : Type} {T : Transport H W} {S : FileService T}.

Lemma own_app i h h' : own i (h ++ h') = own i h ++ own i h'.
Proof. unfold own. by rewrite filter_app, fmap_app. Qed.

Lemma own_self i h : own i (pair i <$> h) = h.
Proof.
  unfold own. induction h as [|x h IH]; [done|]. rewrite fmap_cons, filter_cons_True by done.
  by rewrite fmap_cons, IH.
Qed.

Lemma own_other i i' h : i' ≠ i → own i' (pair i <$> h) = [].
Proof.
  intros Hne. unfold own. induction h as [|x h IH]; [done|].
  rewrite fmap_cons, filter_cons_False; [done|]. simpl. congruence.
Qed.

Lemma process_set_eq i s j : process i (set_process (W:=W) i s j) = Some s.
Proof. unfold process, set_process. simpl. rewrite lookup_insert_eq. by destruct s as [[] ?]. Qed.

Lemma process_set_ne i i' s s' j :
  i' ≠ i → process i' j = Some s →
  process i' (set_process (W:=W) i s' j) =
    Some (Threads (World (cl (th_world s)) (net (th_world s'))) (th_calls s)).
Proof.
  intros Hne Hs. unfold process, set_process in *. simpl. rewrite lookup_insert_ne by done.
  apply bind_Some in Hs as ([c cs] & -> & [= <-]). done.
Qed.

Lemma process_set_ne_inv i i' s s' j :
  i' ≠ i → process i' (set_process (W:=W) i s' j) = Some s →
  ∃ s0, process i' j = Some s0 ∧
    s = Threads (World (cl (th_world s0)) (net (th_world s'))) (th_calls s0).
Proof.
  intros Hne Hs. unfold process, set_process in *. simpl in *.
  rewrite lookup_insert_ne in Hs by done. apply bind_Some in Hs as ([c cs] & Hc & [= <-]).
  rewrite Hc. by eexists.
Qed.

Lemma process_set_None i i' s j :
  i' ≠ i → process i' j = None → process i' (set_process (W:=W) i s j) = None.
Proof.
  intros Hne. unfold process, set_process. simpl. rewrite lookup_insert_ne by done.
  by destruct (_ !! i').
Qed.

Lemma process_net i s j : process i j = Some s → net (th_world s) = jb_net (W:=W) j.
Proof. unfold process. intros Hs. by apply bind_Some in Hs as ([c cs] & _ & [= <-]). Qed.

End projection.

(** ** A process among others *)

Section foreign.
Context {H : Mercury} {HOk : MercuryOk H} {W : Type} {T : Transport H W}.
Context {S : FileService T} {SOk : FileServiceOk S}.
Context {E : environment} {before : Z → Prop}.

#[local] Abbreviation threads_inv := (ThreadInv.threads_inv (E:=E) before).
#[local] Abbreviation held := (ThreadInv.held (E:=E)).

(** What a process holds is open. *)
Lemma held_view k p ph s t r :
  threads_inv k p ph s → held s t r → is_Some (fs_view (net (th_world s)) t r).
Proof.
  intros Hi [[g Hg]|(u & c & Hu & Hc)].
  - pose proof (ti_sim _ _ _ _ _ Hi) as Hs.
    destruct (is_remote_view _ _ _ _ _ (sim_fds _ _ Hs g) Hg)
      as (o1 & o2 & d & _ & _ & _ & _ & _ & _ & Hv). by eexists.
  - pose proof (ti_calls _ _ _ _ _ Hi u) as Hok. rewrite Hu in Hok. destruct Hok as [_ Hok].
    unfold claims in Hc. destruct (c_stage c) as [|[b|] fr [| |o|]]; try done.
    revert Hc. destruct (Z.leb_spec 0 (open_ret o)); [intros [= -> <-]|done].
    destruct Hok as (b & [= <-] & _ & _ & _ & _ & full & d & _ & Han & _).
    destruct Han as [|[_ Hv]]; [lia|by eexists].
Qed.

Lemma remote_foreign (w : world W) n g t r :
  extends (net w) n → is_remote E (World (cl w) n) g t r → is_remote E w g t r.
Proof.
  intros Hn. apply (is_remote_same w (World (cl w) n)); [by apply same_conf_intro|by split].
Qed.

(** Another client's step changes the servers and keeps what the process
    holds. *)
Lemma foreign_step k p ph s n :
  threads_inv k p ph s → extends (net (th_world s)) n →
  (∀ t r x, held s t r → fs_view (net (th_world s)) t r = Some x → fs_view n t r = Some x) →
  threads_inv k p ph (Threads (World (cl (th_world s)) n) (th_calls s)).
Proof.
  intros Hi Hn Hv. set (w' := World (cl (th_world s)) n).
  assert (Hf : frame E (λ _, False) (λ t r, ¬ held s t r) (th_world s) w').
  { split.
    - by apply same_conf_intro.
    - by split.
    - intros g t r Hg. left. by eapply remote_foreign.
    - intros t r x _ Hh Hx. simpl. destruct (decide (fs_view n t r = Some x)) as [|Hne]; [done|].
      exfalso. apply Hh. intros Hh'. by apply Hne, Hv. }
  destruct Hi as [I1 I2 I3 I4 I5 I6]. split; cbn [th_world th_calls]; try done.
  - apply sim_served; [done|done|]. intros g t r x Hg. apply Hv. left. by exists g.
  - intros u. specialize (I3 u). destruct (th_calls s !! u) as [c|] eqn:Hu; [|done].
    eapply call_ok_stable, I3; [exact Hf|done|auto|auto|].
    intros t r Hc Hno. apply Hno. right. by exists u, c.
Qed.

Lemma held_foreign s n t r :
  extends (net (th_world s)) n →
  held (Threads (World (cl (th_world s)) n) (th_calls s)) t r → held s t r.
Proof.
  intros Hn [[g Hg]|Hc]; [left; exists g|by right]. by eapply remote_foreign.
Qed.

End foreign.

(** ** The processes keep out of each other's way *)

Section jobs.
Context {H : Mercury} {HOk : MercuryOk H} {W : Type} {T : Transport H W}.
Context {S : FileService T} {SOk : FileServiceOk S}.
Context {E : nat → environment} (Henv : ∀ i, env_ok (E i)) {before : nat → Z → Prop}.

(** Every process has its invariant, and no two hold the same descriptor of a
    server. *)
Record job_inv (k : nat → config) (p : nat → posix) (ph : nat → nat → phase) (j : job) : Prop := {
  ji_process i s : process i j = Some s →
    threads_inv (E:=E i) (before i) (k i) (p i) (ph i) s;
  ji_apart i i' s s' t r : process i j = Some s → process i' j = Some s' →
    held (E:=E i) s t r → held (E:=E i') s' t r → i = i'
}.

(** What a piece of a run does: each process goes on as its own process
    without the library. *)
Definition job_goes (k : nat → config) (p : nat → posix) (ph : nat → nat → phase) (j : job)
    (h : list (nat * happening)) (p' : nat → posix) (ph' : nat → nat → phase) (j' : job) : Prop :=
  ∀ i, match process i j, process i j' with
       | Some s, Some s' =>
           replay (E i) (k i) (own i h) (reference s (p i)) = Some (reference s' (p' i)) ∧
           ∀ t, phase_after t (own i h) (ph i t) = Some (ph' i t)
       | None, None => True
       | _, _ => False
       end.

Lemma job_goes_refl k p ph j : job_goes k p ph j [] p ph j.
Proof. intros i. by destruct (process i j). Qed.

Lemma job_goes_trans k p ph j h p1 ph1 j1 h' p2 ph2 j2 :
  job_goes k p ph j h p1 ph1 j1 → job_goes k p1 ph1 j1 h' p2 ph2 j2 →
  job_goes k p ph j (h ++ h') p2 ph2 j2.
Proof.
  intros H1 H2 i. specialize (H1 i). specialize (H2 i).
  destruct (process i j) as [s|], (process i j1) as [s1|], (process i j2) as [s2|]; try done.
  destruct H1 as [Hr1 Hp1], H2 as [Hr2 Hp2]. split.
  - by rewrite own_app, replay_app, Hr1.
  - intros t. rewrite own_app, phase_after_app, Hp1. apply Hp2.
Qed.

(** One process's step, with what the others see of it. *)
Lemma job_advance k p ph j i s s1 h p1 ph1 :
  job_inv k p ph j → process i j = Some s →
  replay (E i) (k i) h (reference s (p i)) = Some (reference s1 p1) →
  (∀ u, phase_after u h (ph i u) = Some (ph1 u)) →
  threads_inv (E:=E i) (before i) (k i) p1 ph1 s1 → polite (E:=E i) s s1 →
  let p' := λ i', if decide (i' = i) then p1 else p i' in
  let ph' := λ i', if decide (i' = i) then ph1 else ph i' in
  job_inv k p' ph' (set_process i s1 j) ∧
  job_goes k p ph j (pair i <$> h) p' ph' (set_process i s1 j).
Proof.
  intros [Hp Hapart] Hs Hrep Hph Hi1 [Hn Hv Hh] p' ph'.
  assert (Hnet : ∀ i' s', process i' j = Some s' → net (th_world s) = net (th_world s')).
  { intros i' s' Hs'. by rewrite (process_net _ _ _ Hs), (process_net _ _ _ Hs'). }
  assert (Hother : ∀ i' s', i' ≠ i → process i' j = Some s' → ∀ t r,
    held (E:=E i') s' t r → ¬ held (E:=E i) s t r).
  { intros i' s' Hne Hs' t r H1 H2. apply Hne. by eapply (Hapart i' i). }
  split; [split|].
  - intros i' s' Hs'. unfold p', ph'. destruct (decide (i' = i)) as [->|Hne].
    + rewrite process_set_eq in Hs'. by simplify_eq.
    + apply process_set_ne_inv in Hs' as (s0 & Hs0 & ->); [|done].
      pose proof (Hnet _ _ Hs0) as En. rewrite En in Hn, Hv.
      apply foreign_step; [by apply Hp|done|]. intros t r x Hheld. apply Hv. by eapply Hother.
  - intros i' i'' s' s'' t r Hs' Hs'' Hd' Hd''.
    assert (Hfar : ∀ a sa sb, a ≠ i → process a (set_process i s1 j) = Some sa →
      process i (set_process i s1 j) = Some sb → held (E:=E a) sa t r → held (E:=E i) sb t r → False).
    { intros a sa sb Ha Hsa Hsb Hda Hdb. rewrite process_set_eq in Hsb. simplify_eq.
      apply process_set_ne_inv in Hsa as (s0 & Hs0 & ->); [|done].
      pose proof (Hnet _ _ Hs0) as En. rewrite En in Hn, Hh. apply held_foreign in Hda; [|done].
      destruct (held_view _ _ _ _ _ _ (Hp _ _ Hs0) Hda) as [x Hx].
      pose proof (Hh _ _ Hdb (Hother _ _ Ha Hs0 _ _ Hda)). congruence. }
    destruct (decide (i' = i)) as [->|Hne], (decide (i'' = i)) as [->|Hne']; [done| | |].
    + exfalso. by eapply (Hfar i'').
    + exfalso. by eapply (Hfar i').
    + apply process_set_ne_inv in Hs' as (s0 & Hs0 & ->); [|done].
      apply process_set_ne_inv in Hs'' as (s2 & Hs2 & ->); [|done].
      apply held_foreign in Hd'; [|by rewrite <-(Hnet _ _ Hs0)].
      apply held_foreign in Hd''; [|by rewrite <-(Hnet _ _ Hs2)]. by eapply Hapart.
  - intros i'. unfold p', ph'. destruct (decide (i' = i)) as [->|Hne].
    + by rewrite process_set_eq, Hs, own_self.
    + rewrite own_other by done. destruct (process i' j) as [s0|] eqn:Hs0.
      * by rewrite (process_set_ne _ _ _ _ _ Hne Hs0).
      * by rewrite process_set_None.
Qed.

Lemma job_step k p ph j i l r :
  job_inv k p ph j → (∀ s, process i j = Some s → label_ok l s = true) →
  job_run E (i, l) j = Some r →
  (∃ j' h p' ph', r = Ret (j', h) ∧ job_inv k p' ph' j' ∧ job_goes k p ph j h p' ph' j') ∨
  r = Fault NullDeref ∧ ∃ s t op tm, process i j = Some s ∧ l = TCall t op tm ∧
    cold_op (E i) (k i) op (reference s (p i)) = None.
Proof.
  intros Hj Hl Hr. cbn [job_run] in Hr. apply bind_Some in Hr as (s & Hs & Hr).
  destruct (threads_run (E i) l s) as [r1|] eqn:Hrun; [|done].
  destruct (threads_step (before i) (k i) (p i) (ph i) s l r1 (Henv i) (ji_process _ _ _ _ Hj _ _ Hs)
    (Hl _ Hs) Hrun) as [(s1 & h & p1 & ph1 & -> & Hrep & Hph & Hi1 & Hpo)|(-> & t & op & tm & -> & Hc)].
  - left. injection Hr as <-. eexists _, _, _, _. split; [done|]. by eapply job_advance.
  - right. injection Hr as <-. split; [done|]. by exists s, t, op, tm.
Qed.

Lemma job_steps k p ph xs j r :
  job_inv k p ph j → job_disciplined E xs j = true → job_runs E xs j = Some r →
  (∃ j' h p' ph', r = Ret (j', h) ∧ job_inv k p' ph' j' ∧ job_goes k p ph j h p' ph' j') ∨
  r = Fault NullDeref ∧ ∃ n j' h p' ph' i s t op tm,
    job_runs E (take n xs) j = Some (Ret (j', h)) ∧ job_goes k p ph j h p' ph' j' ∧
    xs !! n = Some (i, TCall t op tm) ∧ process i j' = Some s ∧
    cold_op (E i) (k i) op (reference s (p' i)) = None.
Proof.
  revert p ph j r. induction xs as [|[i l] xs IH]; intros p ph j r Hj Hd Hr.
  { injection Hr as <-. left. exists j, [], p, ph. split_and!; [done..|apply job_goes_refl]. }
  cbn [job_runs] in Hr. apply bind_Some in Hr as (r1 & Hr1 & Hr).
  cbn [job_disciplined] in Hd. apply andb_true_iff in Hd as [Hl Hd]. rewrite Hr1 in Hd.
  destruct (job_step k p ph j i l r1 Hj) as
    [(j1 & h1 & p1 & ph1 & -> & Hj1 & Hg1)|(-> & s & t & op & tm & Hs & -> & Hc)].
  { intros s Hs. by rewrite Hs in Hl. }
  { done. }
  2:{ injection Hr as <-. right. split; [done|]. exists 0%nat, j, [], p, ph, i, s, t, op, tm.
      split_and!; try done. apply job_goes_refl. }
  apply bind_Some in Hr as (r2 & Hr2 & Hr). injection Hr as <-.
  destruct (IH p1 ph1 j1 r2 Hj1 Hd Hr2) as [(j2 & h2 & p2 & ph2 & -> & Hj2 & Hg2)|
    (-> & n & j2 & h2 & p2 & ph2 & i2 & s & t & op & tm & Hpre & Hg2 & Hn & Hs & Hc)].
  - left. exists j2, (h1 ++ h2), p2, ph2. split_and!; [done..|by eapply job_goes_trans].
  - right. split; [done|].
    exists (Datatypes.S n), j2, (h1 ++ h2), p2, ph2, i2, s, t, op, tm. split_and!; try done.
    + cbn [take job_runs]. rewrite Hr1. cbn [mbind option_bind]. by rewrite Hpre.
    + by eapply job_goes_trans.
Qed.

End jobs.

(** ** The claims *)

Section claims.
Context {H : Mercury} {HOk : MercuryOk H} {W : Type} {T : Transport H W}.
Context {S : FileService T} {SOk : FileServiceOk S}.
Context {E : nat → environment} (Henv : ∀ i, env_ok (E i)).

(** The processes before the run: outside all calls, each related to one
    without the library, and no descriptor of a server in two hands. *)
Record job_start (k : nat → config) (p : nat → posix) (j : job) : Prop := {
  js_process i s : process i j = Some s →
    th_calls s = ∅ ∧ cl_conf (cl (th_world s)) = k i ∧ sim (E i) (th_world s) (p i);
  js_apart i i' s s' g g' t r : process i j = Some s → process i' j = Some s' →
    is_remote (E i) (th_world s) g t r → is_remote (E i') (th_world s') g' t r → i = i'
}.

Lemma job_start_inv k p j :
  job_start k p j →
  job_inv (E:=E) (before:=λ i g, ∃ s, process i j = Some s ∧ pending_open (th_world s) g)
    k p (λ _ _, Outside) j.
Proof.
  intros [Hp Hapart]. split.
  - intros i s Hs. destruct (Hp i s Hs) as (Hcs & Hk & Hsim).
    split; rewrite ?Hcs; try done. intros g Hg. left. by exists s.
  - intros i i' s s' t r Hs Hs' [[g Hg]|(u & c & Hu & _)] [[g' Hg']|(u' & c' & Hu' & _)].
    + by eapply Hapart.
    + by rewrite (proj1 (Hp _ _ Hs')) in Hu'.
    + by rewrite (proj1 (Hp _ _ Hs)) in Hu.
    + by rewrite (proj1 (Hp _ _ Hs)) in Hu.
Qed.

(** C5. The processes of a job do not disturb each other: however the steps of
    any number of processes, each with any number of threads, are interleaved
    in front of the same servers, the calls of every process have the answers
    a process without the library gets when it makes them one after the other,
    each between its thread's call and return. The job ends only where one
    process's reference has no descriptor left for the address file. *)
Theorem job_is_linearizable xs k p j r :
  job_start k p j → job_disciplined E xs j = true → job_runs E xs j = Some r →
  match r with
  | Ret (j', h) => ∀ i s, process i j = Some s → ∃ s' known p', process i j' = Some s' ∧
      replay (E i) (k i) (own i h) (dom (address_cache (cl (th_world s))), p i) = Some (known, p') ∧
      (∀ t, is_Some (phase_after t (own i h) Outside)) ∧ sim (E i) (th_world s') p'
  | Fault f => f = NullDeref ∧ ∃ n j' h i s t op tm x,
      job_runs E (take n xs) j = Some (Ret (j', h)) ∧ process i j = Some s ∧
      replay (E i) (k i) (own i h) (dom (address_cache (cl (th_world s))), p i) = Some x ∧
      xs !! n = Some (i, TCall t op tm) ∧ cold_op (E i) (k i) op x = None
  end.
Proof.
  intros Hj Hd Hr. destruct (job_steps Henv k p _ xs j r (job_start_inv k p j Hj) Hd Hr)
    as [(j' & h & p' & ph' & -> & Hi & Hg)|
        (-> & n & j' & h & p' & ph' & i & s' & t & op & tm & Hpre & Hg & Hn & Hs' & Hc)].
  - intros i s Hs. specialize (Hg i). rewrite Hs in Hg.
    destruct (process i j') as [s'|] eqn:Hs'; [|done]. destruct Hg as [Hrep Hph].
    exists s'. eexists _, _. split_and!; [done|exact Hrep|intros t; by rewrite Hph|].
    apply (ti_sim _ _ _ _ _ (ji_process _ _ _ _ Hi _ _ Hs')).
  - split; [done|]. specialize (Hg i). rewrite Hs' in Hg.
    destruct (process i j) as [s|] eqn:Hs; [|done]. destruct Hg as [Hrep _].
    by exists n, j', h, i, s, t, op, tm, (reference s' (p' i)).
Qed.

(** C6. Where every process knows every server's address no process of the job
    ends, and each one's calls have the answers of the operating system alone,
    made in the order in which they take effect: what other processes open,
    read and close at the servers is invisible to it. *)
Theorem warm_job_is_transparent xs k p j r :
  job_start k p j → (∀ i s, process i j = Some s → warm (cl (th_world s))) →
  job_disciplined E xs j = true → job_runs E xs j = Some r →
  ∃ j' h, r = Ret (j', h) ∧ ∀ i s, process i j = Some s → ∃ s' p', process i j' = Some s' ∧
    plain_replay (own i h) (p i) = Some p' ∧
    (∀ t, is_Some (phase_after t (own i h) Outside)) ∧ sim (E i) (th_world s') p'.
Proof.
  intros Hj Hw Hd Hr.
  assert (Hplain : ∀ i s h x, process i j = Some s →
    replay (E i) (k i) h (reference s (p i)) = Some x →
    fst x = dom (address_cache (cl (th_world s))) ∧ plain_replay h (p i) = Some (snd x) ∧
    ∀ q op, cold_op (E i) (k i) op (fst x, q) ≠ None).
  { intros i s h x Hs Hrep. destruct (js_process _ _ _ Hj i s Hs) as (_ & Hk & Hsim).
    pose proof (ad_count _ (sim_addressed _ _ Hsim)) as [Hc _].
    pose proof (Hw i s Hs) as Hwarm. unfold warm in Hwarm. rewrite Hk in Hc, Hwarm.
    assert (Hkn : ∀ rank, 0 ≤ rank < g_hvac_server_count (k i) →
      rank ∈ dom (address_cache (cl (th_world s)))) by (intros; by apply elem_of_dom, Hwarm).
    apply replay_warm in Hrep as [Hx Hpl]; [|done..]. split_and!; [done|done|].
    intros q op. by rewrite Hx, cold_op_warm. }
  destruct (job_steps Henv k p _ xs j r (job_start_inv k p j Hj) Hd Hr)
    as [(j' & h & p' & ph' & -> & Hi & Hg)|
        (-> & n & j' & h & p' & ph' & i & s' & t & op & tm & Hpre & Hg & Hn & Hs' & Hc)].
  - exists j', h. split; [done|]. intros i s Hs. specialize (Hg i). rewrite Hs in Hg.
    destruct (process i j') as [s'|] eqn:Hs'; [|done]. destruct Hg as [Hrep Hph].
    destruct (Hplain _ _ _ _ Hs Hrep) as (_ & Hpl & _).
    exists s', (p' i). split_and!; [done|exact Hpl|intros t; by rewrite Hph|].
    apply (ti_sim _ _ _ _ _ (ji_process _ _ _ _ Hi _ _ Hs')).
  - exfalso. specialize (Hg i). rewrite Hs' in Hg.
    destruct (process i j) as [s|] eqn:Hs; [|done]. destruct Hg as [Hrep _].
    destruct (Hplain _ _ _ _ Hs Hrep) as (_ & _ & Hno). by eapply Hno.
Qed.

(** ** Every call of every process ends *)

(** The steps the job's calls still have to see. *)
Definition job_left (j : job (W:=W)) : nat :=
  map_fold (λ _ x n, all_left (snd x) + n)%nat 0%nat (jb_procs j).

Lemma job_left_delete i x m n :
  m !! i = Some x →
  job_left (Job n m) = (all_left (snd x) + job_left (Job n (delete i m)))%nat.
Proof.
  intros Hi. unfold job_left. simpl. rewrite (map_fold_delete_L _ _ i x); [done| |done].
  intros. lia.
Qed.

Lemma job_left_set i s s' j :
  process i j = Some s →
  (job_left (set_process i s' j) + all_left (th_calls s) = job_left j + all_left (th_calls s'))%nat.
Proof.
  intros Hs. destruct j as [n m]. unfold process, set_process in *. simpl in *.
  apply bind_Some in Hs as (x & Hx & [= <-]). simpl.
  rewrite (job_left_delete i (cl (th_world s'), th_calls s')) by apply lookup_insert_eq.
  rewrite (job_left_delete i x m) by done. rewrite delete_insert_eq.
  change (job_left (Job (net (th_world s')) (delete i m))) with (job_left (Job n (delete i m))).
  simpl. lia.
Qed.

Lemma job_left_decreases i t l j j' h :
  internal t l = true → job_run E (i, l) j = Some (Ret (j', h)) → (job_left j' < job_left j)%nat.
Proof.
  intros Hl Hrun. cbn [job_run] in Hrun. apply bind_Some in Hrun as (s & Hs & Hrun).
  destruct (threads_run (E i) l s) as [[[s' h0]|]|] eqn:Hrun'; [|done|done].
  injection Hrun as <- <-. pose proof (job_left_set i s s' j Hs).
  pose proof (internal_decreases _ _ _ _ _ Hl Hrun'). lia.
Qed.

(** Every call in progress in any process comes to its end: at any moment
    of any run of a job, each thread inside a call can be moved on by a step
    of its own that succeeds, or waits for the open another thread of its
    process makes of its descriptor and that one can be moved on, whatever the
    other processes are waiting for; every such step lowers the number of
    steps the job's calls have left; and a process with no call left has no
    descriptor left opening. *)
Theorem job_calls_complete xs k p j j' h :
  job_start k p j → (∀ i s fd, process i j = Some s → ¬ pending_open (th_world s) fd) →
  job_disciplined E xs j = true → job_runs E xs j = Some (Ret (j', h)) →
  (∀ i s t, process i j' = Some s → is_Some (th_calls s !! t) →
     ∃ u l j'' h', (u = t ∨ waits_on s t u) ∧ internal u l = true ∧
       job_run E (i, l) j' = Some (Ret (j'', h'))) ∧
  (∀ i t l j'' h', internal t l = true → job_run E (i, l) j' = Some (Ret (j'', h')) →
     (job_left j'' < job_left j')%nat) ∧
  (∀ i s fd, process i j' = Some s → th_calls s = ∅ → ¬ pending_open (th_world s) fd).
Proof.
  intros Hj Hno Hd Hr.
  assert (Hj0 : job_inv (E:=E) (before:=λ _ _, False) k p (λ _ _, Outside) j).
  { destruct (job_start_inv k p j Hj) as [Hp Hapart]. split; [|done]. intros i s Hs.
    destruct (Hp i s Hs) as [I1 I2 I3 I4 I5 I6]. split; try done.
    intros g Hg. by destruct (Hno i s g). }
  destruct (job_steps Henv k p _ xs j _ Hj0 Hd Hr)
    as [(j0 & h0 & p' & ph' & Heq & Hi & _)|[? _]]; [|done]. injection Heq as <- <-.
  split_and!.
  - intros i s t Hs Ht.
    destruct (call_moves _ _ _ s t (Henv i) (ji_process _ _ _ _ Hi i s Hs) Ht)
      as (u & l & s' & h' & Hu & Hl & Hrun).
    exists u, l, (set_process i s' j'), (pair i <$> h'). split_and!; [done|done|].
    cbn [job_run]. rewrite Hs. cbn [mbind option_bind]. by rewrite Hrun.
  - intros i t l j'' h'. by apply job_left_decreases.
  - intros i s fd Hs Hcs Hpo.
    destruct (ti_pending _ _ _ _ _ (ji_process _ _ _ _ Hi i s Hs) _ Hpo) as [[]|(t & c & Ht & _)].
    by rewrite Hcs, lookup_empty in Ht.
Qed.

End claims.
