(* ===== verification/Room.v ===== *)
(** * Room for the address file

    The library opens the address file, and leaves it open, once for each
    server a process comes to use. With a descriptor for each of these and for
    each open of the application no reference process stops, and no process of
    a job ends. *)

From S2P Require Import Prelude CText Posix Wire FdState Comm ClientComm ClientCommProps Client.
From S2P Require Import Wrappers Service Sim Cut Threads ThreadSteps ThreadInv Job.

Local Open Scope Z_scope.

(** ** What is counted *)

Definition is_open (op : file_op) : nat := match op with OpOpen _ _ => 1 | _ => 0 end.

(** The ranks whose address is not known. *)
Definition unknown (k : config) (known : gset Z) : nat :=
  size ((list_to_set (seqZ 0 (g_hvac_server_count k)) : gset Z) ∖ known).

(** The opens of a run, of a process's labels, invoked and effected ones of a
    history. *)
Definition event_opens `{S : FileService} (e : event) : nat :=
  match e with App op _ => is_open op | Background _ => 0 end.

Definition opens `{S : FileService} (es : list event) : nat := sum_list_with event_opens es.

Definition label_opens `{S : FileService} (l : thread_label) : nat :=
  match l with TCall _ op _ => is_open op | _ => 0 end.

Definition calls_open `{S : FileService} (i : nat) (xs : list (nat * thread_label)) : nat :=
  sum_list_with (λ x, if decide (fst x = i) then label_opens (snd x) else 0%nat) xs.

Definition invoked (x : happening) : nat := match x with Invoke _ op => is_open op | _ => 0 end.
Definition effected (x : happening) : nat := match x with Effect _ op _ => is_open op | _ => 0 end.

Section room.
Context {H : Mercury} {W : Type} {T : Transport H W} {S : FileService T}.

(** ** One operation of the reference *)

Lemma unknown_insert k known rank :
  0 ≤ rank < g_hvac_server_count k → rank ∉ known →
  unknown k known = Datatypes.S (unknown k ({[rank]} ∪ known)).
Proof.
  intros Hr Hk. unfold unknown. set (ranks := (list_to_set _ : gset Z)).
  assert (rank ∈ ranks) as Hin by (apply elem_of_list_to_set, elem_of_seqZ; lia).
  replace (ranks ∖ known) with ({[rank]} ∪ ranks ∖ ({[rank]} ∪ known)).
  { rewrite size_union by set_solver. by rewrite size_singleton. }
  apply set_eq. intros x. destruct (decide (x = rank)) as [->|]; set_solver.
Qed.

Lemma unknown_none k : unknown k ∅ = Z.to_nat (g_hvac_server_count k).
Proof.
  unfold unknown. rewrite difference_empty_L, size_list_to_set by apply NoDup_seqZ.
  by rewrite length_seqZ.
Qed.

(** [b] descriptors more at most, and no path of [p] gone. *)
Definition grows_by (b : nat) (p p' : posix) : Prop :=
  (∀ q, is_Some (px_paths p !! q) → is_Some (px_paths p' !! q)) ∧
  px_nofile p' = px_nofile p ∧ (size (px_fds p') ≤ b + size (px_fds p))%nat.

Lemma grows_refl b p : grows_by b p p.
Proof. split_and!; [done|done|lia]. Qed.

Lemma os_open_room path flags p p' fd :
  os_open path flags p = (p', fd) → grows_by 1 p p' ∧
  (Z.of_nat (size (px_fds p)) < px_nofile p → is_Some (px_paths p !! path) → fd ≠ -1).
Proof.
  unfold os_open. pose proof (first_free_nonneg (px_fds p)).
  pose proof (first_free_le (px_fds p)). cbv zeta.
  assert (Hfresh : ∀ o, size (<[first_free (px_fds p) := o]> (px_fds p)) = Datatypes.S (size (px_fds p))).
  { intros o. by rewrite map_size_insert_None by apply first_free_fresh. }
  destruct (Z.leb_spec (px_nofile p) (first_free (px_fds p))).
  { intros [= <- <-]. split; [apply grows_refl|lia]. }
  destruct (px_paths p !! path) as [i|] eqn:Hp.
  - intros [= <- <-]. split; [|lia]. destruct (has_flag flags O_TRUNC); (split; [done|split; [done|]]);
      simpl; rewrite Hfresh; lia.
  - destruct (_ && _); intros [= <- <-]; (split; [|by intros ? [??]]).
    + split; [|split; [done|simpl; rewrite Hfresh; lia]]. intros q Hq. simpl.
      destruct (decide (q = path)) as [->|]; [by rewrite lookup_insert_eq|by rewrite lookup_insert_ne].
    + apply grows_refl.
Qed.

Lemma scan_posts_room E rank p p' fd :
  scan_posts E rank p = (p', fd) → grows_by 1 p p' ∧
  (Z.of_nat (size (px_fds p)) < px_nofile p → is_Some (px_paths p !! address_file E) → fd ≠ -1).
Proof.
  intros Hs. destruct (scan_posts_keeps _ _ _ _ Hs) as (O1 & _ & O2 & _ & O3). revert Hs.
  unfold scan_posts. destruct (os_open (address_file E) O_RDWR p) as [p1 fd1] eqn:Ho.
  destruct (os_open_room _ _ _ _ _ Ho) as [Q1 Q2]. destruct (Z.eqb_spec fd1 (-1)) as [->|Hne].
  - by intros [= <- <-].
  - intros Hs. assert (fd = fd1) as -> by (by simplify_eq). split; [|done].
    destruct O3 as [|(o & Hn & Hdom)]; [done|]. split_and!; [intros q; by rewrite O1|done|].
    rewrite <-size_dom, Hdom, size_dom, map_size_insert_None by done. lia.
Qed.

Lemma plain_op_room op p : grows_by (is_open op) p (fst (plain_op op p)).
Proof.
  destruct op as [path flags|fd count|fd count off|fd]; simpl.
  - destruct (os_open path flags p) as [p' fd] eqn:Ho. by destruct (os_open_room _ _ _ _ _ Ho).
  - unfold os_read. destruct (px_fds p !! fd) eqn:Hfd; [|apply grows_refl].
    destruct (os_pread _ _ _ _) as [n b]. destruct (n =? -1); [apply grows_refl|]. simpl.
    split_and!; [done|done|]. simpl. by rewrite map_size_insert_Some by eauto.
  - apply grows_refl.
  - unfold os_close. destruct (px_fds p !! fd) eqn:Hfd; [|apply grows_refl]. simpl.
    split_and!; [done|done|]. simpl. rewrite map_size_delete, Hfd. lia.
Qed.

(** The descriptors in use and those the address file may still need. *)
Definition demand (k : config) (s : gset Z * posix) : nat := size (px_fds (snd s)) + unknown k (fst s).

Lemma cold_op_room E k op s :
  0 < g_hvac_server_count k → is_Some (px_paths (snd s) !! address_file E) →
  match cold_op E k op s with
  | Some (s', _) => is_Some (px_paths (snd s') !! address_file E) ∧
      px_nofile (snd s') = px_nofile (snd s) ∧ (demand k s' ≤ is_open op + demand k s)%nat
  | None => px_nofile (snd s) < Z.of_nat (is_open op + demand k s)
  end.
Proof.
  intros Hc. destruct s as [known p]. unfold demand. cbn [fst snd]. intros Hp.
  pose proof (plain_op_room op p) as Hop. unfold cold_op.
  destruct (plain_op op p) as [p1 a]. cbn [fst] in Hop. destruct Hop as (P1 & P2 & P3).
  assert (Hplain : is_Some (px_paths p1 !! address_file E) ∧ px_nofile p1 = px_nofile p ∧
    (size (px_fds p1) + unknown k known ≤ is_open op + (size (px_fds p) + unknown k known))%nat)
    by (split_and!; [by apply P1|done|lia]).
  destruct op as [path flags|fd count|fd count off|fd]; try exact Hplain.
  destruct (fst a =? -1); [exact Hplain|].
  destruct (eligible E k path flags) as [full|]; [|exact Hplain].
  unfold cold_lookup. case_bool_decide as Hk; [exact Hplain|].
  assert (Hrank : 0 ≤ rank_of E k full < g_hvac_server_count k) by (apply Z.mod_pos_bound, Hc).
  pose proof (unknown_insert _ _ _ Hrank Hk) as Hu.
  destruct (scan_posts E (rank_of E k full) p1) as [p2 fd] eqn:Ho.
  destruct (scan_posts_room _ _ _ _ _ Ho) as ((Q1 & Q2 & Q3) & Q4).
  destruct (Z.eqb_spec fd (-1)) as [Hfd|_]; cbn [mbind option_bind fst snd] in *.
  - destruct (Z.lt_ge_cases (Z.of_nat (size (px_fds p1))) (px_nofile p1)) as [Hlt|]; [|lia].
    destruct (Q4 Hlt (P1 _ Hp) Hfd).
  - split_and!; [by apply Q1, P1|congruence|lia].
Qed.

(** ** A run of one thread *)

(** With a descriptor for every open and for every unknown server the
    reference never stops. *)
Lemma cold_run_room E k es s :
  0 < g_hvac_server_count k → is_Some (px_paths (snd s) !! address_file E) →
  Z.of_nat (opens es + demand k s) ≤ px_nofile (snd s) → is_Some (cold_run E k es s).
Proof.
  intros Hc. revert s. unfold opens.
  induction es as [|[op t|e] es IH]; intros s Hp Hroom; cbn [cold_run]; [done| |by apply IH].
  cbn [sum_list_with event_opens] in Hroom. pose proof (cold_op_room E k op s Hc Hp) as Hop.
  destruct (cold_op E k op s) as [[s' a]|]; [|exfalso; simpl in Hroom; lia].
  destruct Hop as (Hp' & Hn & Hd). simpl.
  destruct (IH s' Hp') as [rest Hrest]; [rewrite Hn; simpl in Hroom; lia|].
  rewrite Hrest. by eexists.
Qed.

(** ** A history *)

Lemma replay_room E k h s s' :
  0 < g_hvac_server_count k → is_Some (px_paths (snd s) !! address_file E) →
  replay E k h s = Some s' →
  is_Some (px_paths (snd s') !! address_file E) ∧ px_nofile (snd s') = px_nofile (snd s) ∧
  (demand k s' ≤ sum_list_with effected h + demand k s)%nat.
Proof.
  intros Hc. revert s. induction h as [|x h IH]; intros s Hp Hr.
  - injection Hr as <-. split_and!; [done|done|simpl; lia].
  - destruct x as [t op|t op a|t a]; cbn [replay] in Hr;
      [destruct (IH s Hp Hr) as (? & ? & ?); split_and!; [done|done|simpl; lia]| |
       destruct (IH s Hp Hr) as (? & ? & ?); split_and!; [done|done|simpl; lia]].
    pose proof (cold_op_room E k op s Hc Hp) as Hop.
    destruct (cold_op E k op s) as [[s1 a']|]; [|done]. simpl in Hr. case_bool_decide; [|done].
    destruct Hop as (H1 & H2 & H3). destruct (IH s1 H1 Hr) as (H4 & H5 & H6).
    split_and!; [done|congruence|simpl; lia].
Qed.

(** A thread is in a call that has not taken effect after it was invoked, or
    as it was before. *)
Lemma phase_step_called t x ph op :
  phase_step t x ph = Some (Called op) →
  x = Invoke t op ∨ ph = Called op ∧ ∀ op' a, x ≠ Effect t op' a.
Proof.
  destruct x as [t' op1|t' op1 a1|t' a1]; cbn [phase_step]; case_bool_decide as Hd; subst.
  - destruct ph; try done. intros [= ->]. by left.
  - intros [= ->]. by right.
  - destruct ph; try done. by case_bool_decide.
  - intros [= ->]. right. split; [done|]. intros op' a [= ? _ _]. congruence.
  - destruct ph; try done. by case_bool_decide.
  - intros [= ->]. by right.
Qed.

(** Where every thread is inside or outside a call, only calls that have invoked
    have taken effect; [P] are the threads that began an open before. *)
Lemma effected_begun h (ph : nat → phase) (P : gset nat) :
  (∀ t op, ph t = Called op → is_open op = 1%nat → t ∈ P) →
  (∀ t, is_Some (phase_after t h (ph t))) →
  (sum_list_with effected h ≤ size P + sum_list_with invoked h)%nat.
Proof.
  revert ph P. induction h as [|x h IH]; intros ph P HP Hph; [simpl; lia|].
  set (ph' := λ t, default Outside (phase_step t x (ph t))).
  assert (Hstep : ∀ t, phase_step t x (ph t) = Some (ph' t) ∧ is_Some (phase_after t h (ph' t))).
  { intros t. destruct (Hph t) as [y Hy]. cbn [phase_after] in Hy.
    apply bind_Some in Hy as (z & Hz & Hy). unfold ph'. rewrite Hz. simpl. by split; [|eexists]. }
  assert (Hnext : ∀ P' : gset nat, (∀ t op, x = Invoke t op ∨ ph t = Called op ∧ (∀ op' a, x ≠ Effect t op' a) →
    is_open op = 1%nat → t ∈ P') → (sum_list_with effected h ≤ size P' + sum_list_with invoked h)%nat).
  { intros P' HP'. apply (IH ph' P'); [|apply Hstep]. intros t op Ht. apply HP', phase_step_called.
    rewrite <-Ht. apply Hstep. }
  assert (Hsame : (∀ t op, x = Invoke t op → is_open op ≠ 1%nat) →
    (sum_list_with effected h ≤ size P + sum_list_with invoked h)%nat).
  { intros Hx. apply Hnext. intros t op [->|[Ht _]] Ho; [by destruct (Hx t op)|by apply (HP t op)]. }
  destruct x as [t op|t op a|t a]; cbn [sum_list_with effected invoked].
  - destruct (is_open op) as [|[|n]] eqn:Hop; [|clear Hsame|by destruct op].
    + rewrite Hsame; [lia|]. intros ? ? [= -> ->]. lia.
    + rewrite (Hnext ({[t]} ∪ P)).
      * rewrite size_union_alt, size_singleton. pose proof (subseteq_size (P ∖ {[t]}) P). set_solver by lia.
      * intros u op' [[= <- <-]|[Hu _]] Ho; [set_solver|]. apply elem_of_union_r, (HP u op' Hu Ho).
  - destruct (is_open op) as [|[|n]] eqn:Hop; [|clear Hsame|by destruct op].
    + by rewrite Hsame by done.
    + assert (Ht : t ∈ P).
      { apply (HP t op); [|done]. destruct (Hstep t) as [Hs _]. cbn [phase_step] in Hs.
        rewrite bool_decide_true in Hs by done. destruct (ph t); try done.
        by case_bool_decide; subst. }
      etrans; [apply le_n_S, (Hnext (P ∖ {[t]}))|].
      2:{ rewrite size_difference by set_solver. rewrite size_singleton.
          assert (size P ≠ 0%nat); [|lia]. intros Hz%size_empty_inv. set_solver. }
      intros u op' [?|[Hu Hne]] Ho; [done|]. pose proof (HP u op' Hu Ho).
        assert (u ≠ t); [intros ->; by destruct (Hne op a)|set_solver].
  - by rewrite Hsame by done.
Qed.

(** A step begins the opens it is asked to. *)
Lemma step_begun E l (s s' : threads) h :
  threads_run E l s = Some (Ret (s', h)) → sum_list_with invoked h = label_opens l.
Proof.
  assert (Hleave : ∀ t op tm fd cs g r w x hs, leave (T:=T) t op tm fd cs g r w = Ret (x, hs) →
    ∃ a, hs = g a ++ [Return t a]).
  { intros t op tm fd cs g r w x hs. unfold leave.
    destruct (op_end _ _ _ _ _) as [[w' a]|]; [|done]. intros [= _ <-]. by exists a. }
  assert (Hstay : ∀ t c cs g r x hs, stay (T:=T) t c cs g r = Ret (x, hs) → hs = g).
  { intros t c cs g r x hs. unfold stay. by destruct r as [[w st]|]; [intros [= _ <-]|]. }
  destruct l as [t op tm|t|t|t|t|t|t|e]; cbn [threads_run label_opens]; intros Hr.
  - destruct (th_calls s !! t); [done|]. apply (inj Some) in Hr. unfold call_step in Hr.
    destruct (op_begin E op tm (th_world s)) as [[w1 [a|fd r|fd q v n o|fd a m]]|]; [| | | |done].
    + injection Hr as _ <-. simpl. lia.
    + apply Hleave in Hr as [a ->]. simpl. lia.
    + injection Hr as _ <-. simpl. lia.
    + injection Hr as _ <-. destruct m; simpl; lia.
  - apply bind_Some in Hr as (c & _ & Hr). destruct (c_stage c); [|done].
    unfold wake_step in Hr. destruct (fd_heap _ !! _) as [[| |]|]; try done;
      apply (inj Some) in Hr.
    all: try (by apply Hleave in Hr as [a ->]).
    destruct (read_rpc_rest _ _ _ _ _ _ _) as [[w1 [[a inp]|]]|]; [| |done].
    + by apply Hstay in Hr as ->.
    + by apply Hleave in Hr as [a ->].
  - apply bind_Some in Hr as (c & _ & Hr). destruct (c_stage c); [|done].
    apply (inj Some), Hleave in Hr as [a ->]. done.
  - apply bind_Some in Hr as (c & _ & Hr). destruct (c_stage c) as [|a freed [[inp|inp]|r|r|r]]; try done.
    + destruct (forward_read a inp _) as [n r]. apply (inj Some), Hstay in Hr as ->.
      by repeat case_match.
    + destruct (forward_open a inp _) as [n r]. by apply (inj Some), Hstay in Hr as ->.
  - apply bind_Some in Hr as (c & _ & Hr). destruct (c_stage c) as [|a [] r]; try done.
    by apply (inj Some), Hstay in Hr as ->.
  - apply bind_Some in Hr as (c & _ & Hr).
    destruct (c_stage c) as [|a freed [m|[]|[]|r]]; try done; by apply (inj Some), Hstay in Hr as ->.
  - apply bind_Some in Hr as (c & _ & Hr).
    destruct (c_stage c) as [|a [] [m|r|r|r]]; try done. by apply (inj Some), Hleave in Hr as [x ->].
  - by injection Hr as _ <-.
Qed.

(** ** A job *)

Lemma calls_open_take i n (xs : list (nat * thread_label)) t op tm :
  xs !! n = Some (i, TCall t op tm) → (calls_open i (take n xs) + is_open op ≤ calls_open i xs)%nat.
Proof.
  intros Hn. rewrite <-(take_drop_middle _ _ _ Hn) at 2. unfold calls_open.
  rewrite sum_list_with_app. cbn [sum_list_with fst snd label_opens]. rewrite decide_True by done. lia.
Qed.

Lemma job_begun (E : nat → environment) xs (j j' : job) h i :
  job_runs E xs j = Some (Ret (j', h)) → sum_list_with invoked (own i h) = calls_open i xs.
Proof.
  revert j h. induction xs as [|[i' l] xs IH]; intros j h Hr; [by injection Hr as _ <-|].
  cbn [job_runs job_run] in Hr. apply bind_Some in Hr as ([[j1 h1]|] & Hr1 & Hr); [|done].
  apply bind_Some in Hr1 as (s & _ & Hr1).
  destruct (threads_run (E i') l s) as [[[s1 h0]|]|] eqn:Hl; [|done..]. injection Hr1 as <- <-.
  apply bind_Some in Hr as ([[j2 h2]|] & Hr2 & Hr); [|done]. injection Hr as -> <-.
  rewrite own_app, sum_list_with_app, (IH _ _ Hr2). unfold calls_open at 2.
  cbn [sum_list_with fst snd]. destruct (decide (i' = i)) as [->|Hne].
  - by rewrite own_self, (step_begun _ _ _ _ _ Hl).
  - by rewrite own_other.
Qed.

End room.

Section job.
Context {H : Mercury} {HOk : MercuryOk H} {W : Type} {T : Transport H W}.
Context {S : FileService T} {SOk : FileServiceOk S}.
Context {E : nat → environment} (Henv : ∀ i, env_ok (E i)).

(** A process has the address file, and a descriptor for each of its opens in
    a run and for each server it does not know. *)
Definition has_room (k : config) (E : environment) (calls : nat) (s : gset Z * posix) : Prop :=
  is_Some (px_paths (snd s) !! address_file E) ∧
  Z.of_nat (calls + demand k s) ≤ px_nofile (snd s).

(** Then no process ends. *)
Lemma job_with_room xs k p j r :
  job_start (E:=E) k p j →
  (∀ i s, process i j = Some s → has_room (k i) (E i) (calls_open i xs) (reference s (p i))) →
  job_disciplined E xs j = true → job_runs E xs j = Some r →
  ∃ j' h, r = Ret (j', h) ∧ ∀ i s, process i j = Some s → ∃ s' p', process i j' = Some s' ∧
    replay (E i) (k i) (own i h) (reference s (p i)) = Some (reference s' p') ∧
    (∀ t, ∃ ph, phase_after t (own i h) Outside = Some ph ∧
       (th_calls s' !! t = None → ph = Outside)) ∧ sim (E i) (th_world s') p'.
Proof.
  intros Hj Hroom Hd Hr. destruct (job_steps Henv k p _ xs j r (job_start_inv k p j Hj) Hd Hr)
    as [(j' & h & p' & ph' & -> & Hi & Hg)|
        (-> & n & j' & h & p' & ph' & i & s' & t & op & tm & Hpre & Hg & Hn & Hs' & Hc)].
  - exists j', h. split; [done|]. intros i s Hs. specialize (Hg i). rewrite Hs in Hg.
    destruct (process i j') as [s'|] eqn:Hs'; [|done]. destruct Hg as [Hrep Hph].
    pose proof (ji_process _ _ _ _ Hi _ _ Hs') as His.
    exists s', (p' i). split_and!; [done|exact Hrep| |apply (ti_sim _ _ _ _ _ His)].
    intros t. exists (ph' i t). split; [apply Hph|]. intros Ht.
    pose proof (ti_calls _ _ _ _ _ His t) as Hout. by rewrite Ht in Hout.
  - exfalso. specialize (Hg i). rewrite Hs' in Hg.
    destruct (process i j) as [s|] eqn:Hs; [|done]. destruct Hg as [Hrep Hph].
    destruct (Hroom i s Hs) as [Hfile Hfits].
    destruct (js_process _ _ _ Hj i s Hs) as (_ & Hk & Hsim).
    pose proof (ad_count _ (sim_addressed _ _ Hsim)) as [Hcount _]. rewrite Hk in Hcount.
    destruct (replay_room _ _ _ _ _ Hcount Hfile Hrep) as (Hfile' & Hnofile & Hdem).
    pose proof (cold_op_room (E i) (k i) op _ Hcount Hfile') as Hop. rewrite Hc, Hnofile in Hop.
    pose proof (effected_begun (own i h) (λ _, Outside) ∅ ltac:(done)) as Heff.
    rewrite size_empty, (job_begun _ _ _ _ _ i Hpre) in Heff.
    pose proof (calls_open_take _ _ _ _ _ _ Hn).
    assert (∀ t, is_Some (phase_after t (own i h) Outside)) as Hph' by (intros u; by rewrite Hph).
    specialize (Heff Hph'). lia.
Qed.

End job.
