(* ===== verification/Boot.v ===== *)
(** * The first opens of a process

    hvac_track_file tests g_mercury_init, runs hvac_init_comm and sets the flag
    without a lock ([src/src/mthvac_client.cpp], lines 146-150). In [Job.v] an
    open does so in one step. Here it does not: an open that finds the flag
    unset stops there, as a call that is starting Mercury, while the rest of
    the job goes on, and a later step initialises and takes the call to its
    request. What two threads of one process do to each other between the test
    and the set is [FirstOpens.v]'s subject; the discipline of this file is
    that there are no two: while a thread of a process is starting Mercury,
    the process's other threads make no step. Then the test and the set might
    as well be one step, and what is proved of [Job.v] holds here. *)

From S2P Require Import Prelude CText Posix Wire AddrFile FdState Comm Stats.
From S2P Require Import ClientComm ClientCommProps Client Wrappers Service Sim Cut OpenSteps.
From S2P Require Import ReadSteps CallSteps Threads ThreadSteps ThreadInv ThreadsProps Job Room.

Local Open Scope Z_scope.

(** ** An open cut at the test *)

Section test.
Context {H : Mercury} {W : Type} {T : Transport H W}.
Context (E : environment).

(** An open is over, or goes on, without the test; or it comes to the test,
    with its local descriptor in the table. *)
Inductive tested : Type :=
| Untested (x : begun (T:=T))
| AtTest (fd : Z) (full : string).

Definition track_to_test (path : string) (flags fd : Z) : St (world W) tested :=
  if has_substring ".ports.cfg." path then mret (Untested (GoOn fd (-1, [])))
  else if Z.land flags O_ACCMODE =? O_WRONLY then mret (Untested (GoOn fd (-1, [])))
  else if has_flag flags O_APPEND then mret (Untested (GoOn fd (-1, [])))
  else
    c ← client_gets cl_conf;
    match tracked_path E (hvac_data_dir c) path with
    | None => mret (Untested (GoOn fd (-1, [])))
    | Some full =>
        upd (λ c, set_fd_map (<[fd := full]> (fd_map c)) c) ;; mret (AtTest fd full)
    end.

Definition open_to_test (path : string) (flags : Z) : St (world W) tested :=
  MAP_OR_FAIL E "open" ;;
  off ← redirect_disabled;
  if off : bool then fd ← client_sys (os_open path flags); mret (Untested (Over (fd, [])))
  else
    fd ← client_sys (os_open path flags);
    if fd =? -1 then mret (Untested (Over (fd, [])))
    else track_to_test path flags fd.

(** The body of the test, up to the set, *)
Definition start_mercury : St (world W) unit :=
  zoom (λ w, cl_comm (cl w)) (λ k w, set_cl (set_comm k true (cl w)) w)
       (hvac_init_comm false (getenv E "SLURM_PROCID") (init_res E)).

(** and what follows, up to the request. *)
Definition request_open (fd : Z) (full : string) :
    St (world W) (option hg_addr * hvac_open_in_t) :=
  host ← host_of_path E full; open_rpc_begin E (to_uint32 host) full fd.

Definition open_from_test (x : tested) : St (world W) begun :=
  match x with
  | Untested x => mret x
  | AtTest fd full =>
      g ← client_gets g_mercury_init;
      (if g : bool then mret tt else start_mercury) ;;
      '(a, inp) ← request_open fd full;
      mret (Forwarded fd a (OpenRequest inp))
  end.

(** The parts make the open. *)
Lemma open_cut path flags tm (w : world W) :
  op_begin E (OpOpen path flags) tm w = (x ← open_to_test path flags; open_from_test x) w.
Proof.
  cbn [op_begin]. unfold open_to_test. rewrite bind_bind. apply bind_ext. intros w1 u _.
  rewrite bind_bind. apply bind_ext. intros w2 off _.
  destruct off; rewrite bind_bind; apply bind_ext; intros w3 fd _; [done|].
  destruct (fd =? -1); [done|]. unfold track_begin, track_to_test.
  destruct (has_substring _ path); [done|]. destruct (_ =? O_WRONLY); [done|].
  destruct (has_flag _ _); [done|]. rewrite bind_bind. apply bind_ext. intros w4 c _.
  destruct (tracked_path _ _ _) as [full|]; [|done].
  rewrite bind_bind. apply bind_ext. intros w5 u' _. symmetry. erewrite bind_run by done. symmetry.
  cbn [open_from_test]. apply bind_ext. intros w6 g _. apply bind_ext. intros w7 u'' _.
  unfold request_open. by rewrite bind_bind.
Qed.

(** ** The first part does not see the servers *)

Definition local {A} (m : St (world W) A) : Prop :=
  ∀ c, (∃ c' a, ∀ n, m (World c n) = Ret (World c' n, a)) ∨ (∃ f, ∀ n, m (World c n) = Fault f).

Lemma local_bind {A B} (m : St (world W) A) (f : A → St (world W) B) :
  local m → (∀ a, local (f a)) → local (m ≫= f).
Proof.
  intros Hm Hf c. destruct (Hm c) as [(c1 & a & H1)|[e H1]].
  - destruct (Hf a c1) as [(c2 & b & H2)|[e H2]].
    + left. exists c2, b. intros n. by rewrite (bind_run _ _ _ _ _ (H1 n)).
    + right. exists e. intros n. by rewrite (bind_run _ _ _ _ _ (H1 n)).
  - right. exists e. intros n. by apply bind_Fault.
Qed.

Lemma local_mret {A} (a : A) : local (mret a).
Proof. intros c. left. by exists c, a. Qed.

Lemma local_fail {A} f : local (A:=A) (fail f).
Proof. intros c. right. by exists f. Qed.

Lemma local_gets {A} (f : client → A) : local (client_gets f).
Proof. intros c. left. by exists c, (f c). Qed.

Lemma local_upd f : local (upd f).
Proof. intros c. left. by exists (f c), tt. Qed.

Lemma local_sys {A} (f : posix → posix * A) : local (client_sys f).
Proof.
  intros c. left. exists (set_cl_os (fst (f (cl_os c))) c), (snd (f (cl_os c))).
  intros n. unfold client_sys, zoom, run. simpl. by destruct (f (cl_os c)).
Qed.

Lemma open_to_test_local path flags : local (open_to_test path flags).
Proof.
  unfold open_to_test, track_to_test, MAP_OR_FAIL, redirect_disabled.
  repeat first
    [ apply local_bind; [|intros ?] | apply local_mret | apply local_fail | apply local_gets
    | apply local_upd | apply local_sys
    | lazymatch goal with |- local (match ?x with _ => _ end) => destruct x end ].
Qed.

(** It does not touch the flag. *)
Lemma open_to_test_flag path flags (w w' : world W) x :
  open_to_test path flags w = Ret (w', x) → g_mercury_init (cl w') = g_mercury_init (cl w).
Proof.
  unfold open_to_test, MAP_OR_FAIL, redirect_disabled. intros Hr.
  bind_in Hr w1 u1 E1. bind_in Hr w2 off E2. bind_in E2 w2' k E2'. unfold client_gets, gets in E2'.
  injection E2' as <- <-. apply mret_Ret in E2 as [-> ->].
  assert (Hg : g_mercury_init (cl w1) = g_mercury_init (cl w)).
  { bind_in E1 w0 m E0. unfold client_gets, gets in E0. injection E0 as <- <-.
    case_bool_decide; [by apply mret_Ret in E1 as [-> _]|]. destruct (dlsym E "open"); [|done].
    apply upd_Ret in E1 as ->. by destruct w as [[] ?]. }
  rewrite <-Hg.
  assert (Hsys : ∀ w2 fd, client_sys (os_open path flags) w1 = Ret (w2, fd) →
    g_mercury_init (cl w2) = g_mercury_init (cl w1)).
  { intros w2 fd. unfold client_sys, zoom, run. destruct (os_open _ _ _). intros [= <- _].
    by destruct w1 as [[] ?]. }
  destruct (g_disable_redirect _ || _); bind_in Hr w3 fd E3; apply Hsys in E3 as <-.
  - by apply mret_Ret in Hr as [-> _].
  - destruct (fd =? -1); [by apply mret_Ret in Hr as [-> _]|]. unfold track_to_test in Hr.
    destruct (has_substring _ path); [by apply mret_Ret in Hr as [-> _]|].
    destruct (_ =? O_WRONLY); [by apply mret_Ret in Hr as [-> _]|].
    destruct (has_flag _ _); [by apply mret_Ret in Hr as [-> _]|].
    bind_in Hr w4 k4 E4. unfold client_gets, gets in E4. injection E4 as <- <-.
    destruct (tracked_path _ _ _); [|by apply mret_Ret in Hr as [-> _]].
    bind_in Hr w5 u5 E5. apply mret_Ret in Hr as [-> _]. apply upd_Ret in E5 as ->.
    by destruct w3 as [[] ?].
Qed.

End test.

Arguments Untested {H W T} _.
Arguments AtTest {H W T} _ _.

(** ** Jobs in which Mercury is started in a step of its own *)

Section boot.
Context {H : Mercury} {W : Type} {T : Transport H W} {S : FileService T}.
Context (E : nat → environment).

(** A call between the test and the set. *)
Record starting : Type := Starting {
  st_path : string;
  st_flags : Z;
  st_time : timing;
  st_fd : Z;
  st_full : string
}.

Definition st_op (st : starting) : file_op := OpOpen (st_path st) (st_flags st).

(** A job, and the threads, each under its process and its number, that are
    starting Mercury. *)
Record boot : Type := Boot {
  bt_job : job (T:=T);
  bt_starting : gmap (nat * nat) starting
}.

Inductive boot_label : Type :=
| BStep (i : nat) (l : thread_label (S:=S))     (* a step of Job.v *)
| BInit (i t : nat).                            (* hvac_init_comm, and on *)

Definition with_starting (m : gmap (nat * nat) starting)
    (r : option (res (job * list (nat * happening)))) :
    option (res (boot * list (nat * happening))) :=
  match r with
  | Some (Ret (j, h)) => Some (Ret (Boot j m, h))
  | Some (Fault f) => Some (Fault f)
  | None => None
  end.

(** A thread outside calls an operation; an open that finds the flag unset
    stops at the test. *)
Definition boot_call (i t : nat) (op : file_op) (tm : timing) (b : boot) :
    option (res (boot * list (nat * happening))) :=
  let whole := with_starting (bt_starting b) (job_run E (i, TCall t op tm) (bt_job b)) in
  s ← process i (bt_job b);
  match bt_starting b !! (i, t), th_calls s !! t, op with
  | Some _, _, _ | _, Some _, _ => None
  | None, None, OpOpen path flags =>
      match open_to_test (E i) path flags (th_world s) with
      | Ret (w', AtTest fd full) =>
          if g_mercury_init (cl w') then whole
          else Some (Ret (Boot (set_process i (Threads w' (th_calls s)) (bt_job b))
                               (<[(i, t) := Starting path flags tm fd full]> (bt_starting b)),
                          [(i, Invoke t op)]))
      | _ => whole
      end
  | None, None, _ => whole
  end.

(** The thread initialises Mercury, sets the flag and sends its request. *)
Definition boot_init (i t : nat) (b : boot) : option (res (boot * list (nat * happening))) :=
  st ← bt_starting b !! (i, t);
  s ← process i (bt_job b);
  Some match (start_mercury (E i) ;; request_open (E i) (st_fd st) (st_full st)) (th_world s) with
       | Ret (w', (a, inp)) =>
           let c := Call (st_op st) (st_time st) (st_fd st) (InFlight a false (Sent (OpenRequest inp))) in
           Ret (Boot (set_process i (Threads w' (<[t := c]> (th_calls s))) (bt_job b))
                     (delete (i, t) (bt_starting b)),
                [(i, Effect t (st_op st) (st_fd st, []))])
       | Fault f => Fault f
       end.

Definition boot_run (l : boot_label) (b : boot) : option (res (boot * list (nat * happening))) :=
  match l with
  | BStep i (TCall t op tm) => boot_call i t op tm b
  | BStep i l => with_starting (bt_starting b) (job_run E (i, l) (bt_job b))
  | BInit i t => boot_init i t b
  end.

Fixpoint boot_runs (ls : list boot_label) (b : boot) :
    option (res (boot * list (nat * happening))) :=
  match ls with
  | [] => Some (Ret (b, []))
  | l :: ls' =>
      r ← boot_run l b;
      match r with
      | Ret (b', h) =>
          r' ← boot_runs ls' b';
          Some match r' with
               | Ret (b'', h') => Ret (b'', h ++ h')
               | Fault f => Fault f
               end
      | Fault f => Some (Fault f)
      end
  end.

(** Every process keeps to what [Threads.v] asks of it, and while one of its
    threads is starting Mercury the others make no step. *)
Definition boot_label_ok (l : boot_label) (b : boot) : bool :=
  match l with
  | BStep i l =>
      match process i (bt_job b) with Some s => label_ok l s | None => true end &&
      (if l is TServers _ then true
       else bool_decide (map_Forall (λ x _, fst x ≠ i) (bt_starting b)))
  | BInit _ _ => true
  end.

Fixpoint boot_disciplined (ls : list boot_label) (b : boot) : bool :=
  match ls with
  | [] => true
  | l :: ls' =>
      boot_label_ok l b &&
      match boot_run l b with
      | Some (Ret (b', _)) => boot_disciplined ls' b'
      | _ => true
      end
  end.

(** The opens a process calls. *)
Definition boot_opens (i : nat) (ls : list boot_label) : nat :=
  sum_list_with (λ l, match l with
    | BStep i' l' => if decide (i' = i) then label_opens l' else 0%nat
    | BInit _ _ => 0%nat
    end) ls.

(** ** The same job with the test and the set in one step *)

(** At process [i] the job [j] has not begun the call that is starting Mercury
    in [b]; [x] is what the history of [b] has more. *)
Definition late_at (x : list happening) (b : boot) (j : job) (i : nat) : Prop :=
  x = [] ∧ (∀ t, bt_starting b !! (i, t) = None) ∧ jb_procs (bt_job b) !! i = jb_procs j !! i ∨
  ∃ t st c c' cs, x = [Invoke t (st_op st)] ∧ bt_starting b !! (i, t) = Some st ∧
    (∀ u, u ≠ t → bt_starting b !! (i, u) = None) ∧ allowed (st_op st) = true ∧
    jb_procs j !! i = Some (c, cs) ∧ jb_procs (bt_job b) !! i = Some (c', cs) ∧ cs !! t = None ∧
    g_mercury_init c' = false ∧
    ∀ n, open_to_test (E i) (st_path st) (st_flags st) (World c n)
      = Ret (World c' n, AtTest (st_fd st) (st_full st)).

Definition late (f : nat → list happening) (b : boot) (j : job) : Prop :=
  jb_net (bt_job b) = jb_net j ∧ ∀ i, late_at (f i) b j i.

Lemma late_refl j : late (λ _, []) (Boot j ∅) j.
Proof. split; [done|]. intros i. left. split_and!; [done|intros t; apply lookup_empty|done]. Qed.

(** What happens in one process does not concern the others. *)
Lemma late_step f b j i x b' j' :
  late f b j → jb_net (bt_job b') = jb_net j' →
  (∀ i' u, i' ≠ i → bt_starting b' !! (i', u) = bt_starting b !! (i', u)) →
  (∀ i', i' ≠ i → jb_procs (bt_job b') !! i' = jb_procs (bt_job b) !! i') →
  (∀ i', i' ≠ i → jb_procs j' !! i' = jb_procs j !! i') →
  late_at x b' j' i → late (λ i', if decide (i' = i) then x else f i') b' j'.
Proof.
  intros [_ Hl] Hn Hs Hb Hj Hx. split; [done|]. intros i'.
  destruct (decide (i' = i)) as [->|Hne]; [done|]. specialize (Hl i'). unfold late_at in *.
  rewrite Hb, Hj by done. setoid_rewrite (λ u, Hs i' u Hne). exact Hl.
Qed.

Lemma quiet_none (b : boot) i t :
  map_Forall (λ x _, fst x ≠ i) (bt_starting b) → bt_starting b !! (i, t) = None.
Proof. intros Hq. destruct (bt_starting b !! (i, t)) eqn:Hs; [|done]. by destruct (Hq _ _ Hs). Qed.

Lemma late_quiet f b j i :
  late f b j → map_Forall (λ x _, fst x ≠ i) (bt_starting b) →
  f i = [] ∧ process i (bt_job b) = process i j.
Proof.
  intros [Hn Hl] Hq. destruct (Hl i) as [(-> & _ & Hp)|(t & st & c & c' & cs & _ & Hst & _)].
  - split; [done|]. unfold process. by rewrite Hp, Hn.
  - by rewrite quiet_none in Hst.
Qed.

(** A step of a process in which nobody is starting. *)
Lemma late_same f b j i l r :
  late f b j → map_Forall (λ x _, fst x ≠ i) (bt_starting b) →
  job_run E (i, l) (bt_job b) = Some r →
  match r with
  | Ret (j1, h) => ∃ j', job_run E (i, l) j = Some (Ret (j', h)) ∧ h = pair i <$> own i h ∧
      late (λ i', if decide (i' = i) then [] else f i') (Boot j1 (bt_starting b)) j'
  | Fault e => job_run E (i, l) j = Some (Fault e)
  end.
Proof.
  intros Hl Hq Hr. destruct (late_quiet f b j i Hl Hq) as [_ Hp]. cbn [job_run] in *.
  rewrite <-Hp. apply bind_Some in Hr as (s & Hs & Hr). rewrite Hs. cbn [mbind option_bind].
  destruct (threads_run (E i) l s) as [[[s' h0]|e]|]; [| |done]; injection Hr as <-; [|done].
  eexists. split; [done|]. split; [by rewrite own_self|].
  apply (late_step f b j); try done; try (intros i' Hne; simpl; by rewrite lookup_insert_ne).
  left. split; [done|]. split; [intros t; by apply quiet_none|]. simpl. by rewrite !lookup_insert_eq.
Qed.

(** What the servers do by themselves. *)
Lemma late_servers f b j i e r :
  late f b j → job_run E (i, TServers e) (bt_job b) = Some r →
  ∃ j1 j', r = Ret (j1, []) ∧ job_run E (i, TServers e) j = Some (Ret (j', [])) ∧
    late f (Boot j1 (bt_starting b)) j'.
Proof.
  intros [Hn Hl] Hr. cbn [job_run threads_run] in *. unfold process in *.
  destruct (jb_procs (bt_job b) !! i) as [[c1 cs1]|] eqn:H1; [|done].
  cbn [mbind option_bind fst snd th_world th_calls cl net] in Hr. injection Hr as <-.
  assert (∃ c2, jb_procs j !! i = Some (c2, cs1)) as [c2 H2].
  { destruct (Hl i) as [(_ & _ & Hp)|(t & st & c & c' & cs & _ & _ & _ & _ & Hc & Hc' & _)].
    - exists c1. by rewrite <-Hp.
    - rewrite H1 in Hc'. injection Hc' as <- <-. by exists c. }
  rewrite H2. cbn [mbind option_bind fst snd th_world th_calls cl net].
  eexists _, _. split; [done|]. split; [done|]. unfold set_process. simpl. rewrite Hn.
  split; [done|]. intros i'. specialize (Hl i'). unfold late_at in *. simpl.
  by rewrite !insert_id by done.
Qed.

Lemma job_runs_one x (j : job (W:=W)) r :
  job_run E x j = Some r →
  job_runs E [x] j = Some match r with Ret (j', h) => Ret (j', h ++ []) | Fault e => Fault e end.
Proof. intros Hr. cbn [job_runs]. rewrite Hr. by destruct r as [[j' h]|]. Qed.

(** The late call catches up. *)
Lemma late_init f b j i t r :
  late f b j → boot_run (BInit i t) b = Some r →
  ∃ st, bt_starting b !! (i, t) = Some st ∧ f i = [Invoke t (st_op st)] ∧
    job_disciplined E [(i, TCall t (st_op st) (st_time st))] j = true ∧
    match r with
    | Ret (b', h) => ∃ j', h = [(i, Effect t (st_op st) (st_fd st, []))] ∧
        job_run E (i, TCall t (st_op st) (st_time st)) j
          = Some (Ret (j', (i, Invoke t (st_op st)) :: h)) ∧
        late (λ i', if decide (i' = i) then [] else f i') b' j'
    | Fault e => job_run E (i, TCall t (st_op st) (st_time st)) j = Some (Fault e)
    end.
Proof.
  intros Hl Hr. pose proof Hl as [Hn Hl0]. cbn [boot_run] in Hr. unfold boot_init in Hr.
  apply bind_Some in Hr as (st & Hst & Hr). exists st. split; [done|].
  destruct (Hl0 i) as [(_ & Hno & _)|(u & st' & c & c' & cs & Hf & Hu & Hone & Ha & Hj & Hb & Ht & Hg & Hot)];
    [by rewrite Hno in Hst|].
  assert (u = t) as -> by (destruct (decide (u = t)) as [|Hne]; [done|by rewrite Hone in Hst]).
  rewrite Hst in Hu. injection Hu as <-. split; [done|].
  apply bind_Some in Hr as (s & Hs & Hr). unfold process in Hs. rewrite Hb in Hs. injection Hs as <-.
  cbn [fst snd th_world th_calls] in Hr.
  assert (Hpj : process i j = Some (Threads (World c (jb_net j)) cs)) by (unfold process; by rewrite Hj).
  assert (Hbegin : op_begin (E i) (st_op st) (st_time st) (World c (jb_net j)) =
    match (start_mercury (E i) ;; request_open (E i) (st_fd st) (st_full st)) (World c' (jb_net j)) with
    | Ret (w', (a, inp)) => Ret (w', Forwarded (st_fd st) a (OpenRequest inp))
    | Fault e => Fault e
    end).
  { unfold st_op. rewrite open_cut, (bind_run _ _ _ _ _ (Hot _)). cbn [open_from_test].
    erewrite bind_run by done. cbn [cl]. rewrite Hg. unfold mbind, St_bind.
    destruct (start_mercury _ _) as [[w1 u1]|]; [|done].
    by destruct (request_open _ _ _ _) as [[w2 [a inp]]|]. }
  rewrite Hn in Hr.
  assert (Hstep : job_run E (i, TCall t (st_op st) (st_time st)) j =
    match (start_mercury (E i) ;; request_open (E i) (st_fd st) (st_full st)) (World c' (jb_net j)) with
    | Ret (w', (a, inp)) => Some (Ret (set_process i (Threads w' (<[t := Call (st_op st) (st_time st)
        (st_fd st) (InFlight a false (Sent (OpenRequest inp)))]> cs)) j,
        [(i, Invoke t (st_op st)); (i, Effect t (st_op st) (st_fd st, []))]))
    | Fault e => Some (Fault e)
    end).
  { cbn [job_run]. rewrite Hpj. cbn [mbind option_bind threads_run th_calls th_world]. rewrite Ht.
    unfold call_step. rewrite Hbegin.
    by destruct ((start_mercury _ ;; _) _) as [[w' [a inp]]|]. }
  split.
  { cbn [job_disciplined]. rewrite Hpj. cbn [label_ok]. rewrite Ha. cbn [st_op andb].
    by destruct (job_run _ _ _) as [[[? ?]|]|]. }
  rewrite Hstep. clear Hstep Hbegin.
  destruct ((start_mercury _ ;; _) _) as [[w' [a inp]]|]; apply (inj Some) in Hr; subst r; [|done].
  eexists. split; [done|]. split; [done|].
  apply (late_step f b j i []); [done|done| | | |].
  - intros i' v Hne. simpl. rewrite lookup_delete_ne; [done|]. congruence.
  - intros i' Hne. simpl. by rewrite lookup_insert_ne.
  - intros i' Hne. simpl. by rewrite lookup_insert_ne.
  - left. split; [done|]. split; [|simpl; by rewrite !lookup_insert_eq].
    intros v. simpl. destruct (decide (v = t)) as [->|Hne]; [apply lookup_delete_eq|].
    rewrite lookup_delete_ne by congruence. by apply Hone.
Qed.

Lemma own_cons_eq i x h : own i ((i, x) :: h) = x :: own i h.
Proof. unfold own. by rewrite filter_cons_True. Qed.

Lemma own_cons_ne i i' x h : i' ≠ i → own i' ((i, x) :: h) = own i' h.
Proof. intros Hne. unfold own. rewrite filter_cons_False; [done|]. simpl. congruence. Qed.

(** A call that stops at the test. *)
Lemma late_begin f b j i t path flags tm s w' fd full :
  late f b j → map_Forall (λ x _, fst x ≠ i) (bt_starting b) →
  process i (bt_job b) = Some s → th_calls s !! t = None → plain_flags flags = true →
  open_to_test (E i) path flags (th_world s) = Ret (w', AtTest fd full) →
  g_mercury_init (cl w') = false →
  late (λ i', if decide (i' = i) then [Invoke t (OpOpen path flags)] else f i')
    (Boot (set_process i (Threads w' (th_calls s)) (bt_job b))
          (<[(i, t) := Starting path flags tm fd full]> (bt_starting b))) j.
Proof.
  intros Hl Hq Hs Ht Hf Hot Hg. pose proof Hl as [Hn _].
  destruct (late_quiet f b j i Hl Hq) as [_ Hp]. unfold process in Hs, Hp.
  destruct (jb_procs (bt_job b) !! i) as [[c cs]|] eqn:Hb; [|done]. injection Hs as <-.
  destruct (jb_procs j !! i) as [[c2 cs2]|] eqn:Hj; [|done]. injection Hp as <- _ <-.
  cbn [fst snd th_world th_calls] in *.
  destruct (open_to_test_local (E i) path flags c) as [(c' & x & Hall)|[e Hall]];
    [|by rewrite Hall in Hot].
  rewrite Hall in Hot. injection Hot as <- ->. cbn [cl] in Hg.
  apply (late_step f b j); try done.
  - intros i' u Hne. simpl. rewrite lookup_insert_ne; [done|]. congruence.
  - intros i' Hne. simpl. by rewrite lookup_insert_ne.
  - right. exists t, (Starting path flags tm fd full), c, c', cs. simpl.
    rewrite !lookup_insert_eq. split_and!; try done.
    + intros u Hu. rewrite lookup_insert_ne by congruence. by apply quiet_none.
Qed.

(** A piece [ls] of a run of the job with a separate start, which begins where
    [j] is behind by [f] and ends in [r], is a disciplined run of the job
    without, with the same history up to calls that are starting. *)
Definition follows (f : nat → list happening) (j : job) (ls : list boot_label)
    (r : res (boot * list (nat * happening))) : Prop :=
  ∃ ys, job_disciplined E ys j = true ∧
    match r with
    | Ret (b', h) => ∃ j' h' f', job_runs E ys j = Some (Ret (j', h')) ∧ late f' b' j' ∧
        (∀ i, f i ++ own i h = own i h' ++ f' i) ∧
        ∀ i, (calls_open i ys + length (f' i) = boot_opens i ls + length (f i))%nat
    | Fault e => job_runs E ys j = Some (Fault e) ∧
        ∀ i, (calls_open i ys ≤ boot_opens i ls + length (f i))%nat
    end.

Lemma follows_whole f b j i l r :
  late f b j → boot_label_ok (BStep i l) b = true →
  map_Forall (λ x _, fst x ≠ i) (bt_starting b) →
  with_starting (bt_starting b) (job_run E (i, l) (bt_job b)) = Some r →
  follows f j [BStep i l] r.
Proof.
  intros Hl Hok Hq Hw. destruct (late_quiet f b j i Hl Hq) as [Hf Hp].
  cbn [boot_label_ok] in Hok. apply andb_true_iff in Hok as [Hok _]. rewrite Hp in Hok.
  exists [(i, l)]. split.
  { cbn [job_disciplined]. rewrite Hok. by destruct (job_run E (i, l) j) as [[[? ?]|]|]. }
  destruct (job_run E (i, l) (bt_job b)) as [r1|] eqn:Hrun; [|done].
  pose proof (late_same f b j i l r1 Hl Hq Hrun) as Hsame.
  destruct r1 as [[j1 h]|e]; injection Hw as <-.
  - destruct Hsame as (j' & Hj' & Hh & Hl'). exists j', h. eexists.
    rewrite (job_runs_one _ _ _ Hj'), app_nil_r. split; [done|]. split; [exact Hl'|]. split.
    + intros i'. cbn beta. destruct (decide (i' = i)) as [->|Hne]; [by rewrite Hf, app_nil_r|].
      by rewrite Hh, own_other, app_nil_r.
    + intros i'. unfold calls_open, boot_opens. simpl. rewrite !Nat.add_0_r.
      destruct (decide (i' = i)) as [->|Hne]; [rewrite Hf, decide_True by done; simpl; lia|].
      by rewrite decide_False by congruence.
  - rewrite (job_runs_one _ _ _ Hsame). split; [done|]. intros i'.
    unfold calls_open, boot_opens. simpl. lia.
Qed.

Lemma follows_call f b j i t op tm r :
  late f b j → boot_label_ok (BStep i (TCall t op tm)) b = true →
  boot_run (BStep i (TCall t op tm)) b = Some r → follows f j [BStep i (TCall t op tm)] r.
Proof.
  intros Hl Hok Hr. pose proof Hok as Hok'. cbn [boot_label_ok] in Hok.
  apply andb_true_iff in Hok as [Hok Hq%bool_decide_eq_true].
  pose proof (follows_whole f b j i (TCall t op tm)) as Hwhole.
  cbn [boot_run] in Hr. unfold boot_call in Hr.
  apply bind_Some in Hr as (s & Hs & Hr). rewrite quiet_none in Hr by done.
  destruct (th_calls s !! t) eqn:Ht; [done|]. destruct op as [path flags| | |]; try by apply Hwhole.
  destruct (open_to_test _ _ _ _) as [[w' [x|fd full]]|] eqn:Hot; try by apply Hwhole.
  destruct (g_mercury_init (cl w')) eqn:Hg; [by apply Hwhole|]. clear Hwhole.
  injection Hr as <-. destruct (late_quiet f b j i Hl Hq) as [Hf _].
  rewrite Hs in Hok. cbn [label_ok allowed] in Hok. rewrite !andb_true_iff in Hok.
  destruct Hok as [Hfl _]. exists []. split; [done|]. exists j, []. eexists. split; [done|].
  split; [by apply late_begin|]. split.
  - intros i'. cbn beta. destruct (decide (i' = i)) as [->|Hne].
    + by rewrite Hf, own_cons_eq.
    + by rewrite own_cons_ne, app_nil_r.
  - intros i'. unfold calls_open, boot_opens. simpl. rewrite Nat.add_0_r.
    destruct (decide (i' = i)) as [->|Hne]; [rewrite Hf, decide_True by done; simpl; lia|].
    by rewrite decide_False by congruence.
Qed.

Lemma follows_servers f b j i e r :
  late f b j → boot_run (BStep i (TServers e)) b = Some r → follows f j [BStep i (TServers e)] r.
Proof.
  intros Hl Hr. cbn [boot_run] in Hr.
  destruct (job_run E (i, TServers e) (bt_job b)) as [r1|] eqn:Hrun; [|done].
  destruct (late_servers f b j i e r1 Hl Hrun) as (j1 & j' & -> & Hj' & Hl').
  injection Hr as <-. exists [(i, TServers e)]. split.
  { cbn [job_disciplined]. rewrite Hj'. by destruct (process i j). }
  exists j', [], f. rewrite (job_runs_one _ _ _ Hj'). split_and!; [done|done| |].
  - intros i'. by rewrite app_nil_r.
  - intros i'. unfold calls_open, boot_opens. simpl. by destruct (decide _).
Qed.

Lemma follows_init f b j i t r :
  late f b j → boot_run (BInit i t) b = Some r → follows f j [BInit i t] r.
Proof.
  intros Hl Hr. destruct (late_init f b j i t r Hl Hr) as (st & Hst & Hf & Hd & Hcase).
  exists [(i, TCall t (st_op st) (st_time st))]. split; [done|].
  assert (Hcount : ∀ i' (n : nat), (n = if decide (i' = i) then 0 else length (f i'))%nat →
    (calls_open i' [(i, TCall t (st_op st) (st_time st))] + n = boot_opens i' [BInit i t] + length (f i'))%nat).
  { intros i' n ->. unfold calls_open, boot_opens. simpl. rewrite Nat.add_0_r.
    destruct (decide (i' = i)) as [->|Hne]; [by rewrite Hf, decide_True|].
    by rewrite decide_False by congruence. }
  destruct r as [[b' h]|e].
  - destruct Hcase as (j' & -> & Hj' & Hl'). exists j'. eexists _, _.
    rewrite (job_runs_one _ _ _ Hj'). split; [done|]. split; [exact Hl'|]. split.
    + intros i'. cbn beta. destruct (decide (i' = i)) as [->|Hne].
      * by rewrite Hf, !app_nil_r, !own_cons_eq.
      * by rewrite !app_nil_r, !own_cons_ne, app_nil_r.
    + intros i'. apply Hcount. by destruct (decide _).
  - rewrite (job_runs_one _ _ _ Hcase). split; [done|]. intros i'.
    rewrite <-(Hcount i' _ eq_refl). lia.
Qed.

(** One step is one step or none. *)
Lemma follows_step f b j l r :
  late f b j → boot_label_ok l b = true → boot_run l b = Some r → follows f j [l] r.
Proof.
  intros Hl Hok Hr. destruct l as [i l|i t]; [|by eapply follows_init].
  assert (Hq : (∀ e, l ≠ TServers e) → map_Forall (λ x _, fst x ≠ i) (bt_starting b)).
  { intros Hne. cbn [boot_label_ok] in Hok. apply andb_true_iff in Hok as [_ Hq].
    destruct l; try (by apply bool_decide_eq_true in Hq). by destruct (Hne e). }
  destruct l; try (by eapply follows_whole; [|..|apply Hq|]); [by eapply follows_call|].
  by eapply follows_servers.
Qed.

(** ** Whole runs *)

Lemma job_runs_app xs ys (j j' : job (W:=W)) h :
  job_runs E xs j = Some (Ret (j', h)) →
  job_runs E (xs ++ ys) j = match job_runs E ys j' with
    | Some (Ret (j'', h')) => Some (Ret (j'', h ++ h'))
    | Some (Fault e) => Some (Fault e)
    | None => None
    end.
Proof.
  revert j h. induction xs as [|x xs IH]; intros j h Hr.
  - injection Hr as <- <-. cbn [app]. by destruct (job_runs E ys j) as [[[? ?]|]|].
  - cbn [app job_runs] in *. apply bind_Some in Hr as ([[j1 h1]|] & Hx & Hr); [|done].
    apply bind_Some in Hr as ([[j2 h2]|] & Hxs & Hr); [|done]. injection Hr as -> <-.
    rewrite Hx. cbn [mbind option_bind]. rewrite (IH _ _ Hxs).
    destruct (job_runs E ys j') as [[[j3 h3]|]|]; [|done..]. simpl. by rewrite app_assoc.
Qed.

Lemma job_disciplined_app xs ys (j j' : job (W:=W)) h :
  job_disciplined E xs j = true → job_runs E xs j = Some (Ret (j', h)) →
  job_disciplined E ys j' = true → job_disciplined E (xs ++ ys) j = true.
Proof.
  revert j h. induction xs as [|[i l] xs IH]; intros j h Hd Hr Hy; [by injection Hr as <- _|].
  cbn [app job_disciplined job_runs] in *. apply andb_true_iff in Hd as [H1 H2].
  apply bind_Some in Hr as ([[j1 h1]|] & Hx & Hr); [|done].
  apply bind_Some in Hr as ([[j2 h2]|] & Hxs & Hr); [|done]. injection Hr as -> <-.
  rewrite Hx in *. rewrite H1. simpl. by eapply IH.
Qed.

Lemma calls_open_app i xs ys :
  calls_open i (xs ++ ys) = (calls_open (S:=S) i xs + calls_open i ys)%nat.
Proof. apply sum_list_with_app. Qed.

Lemma boot_opens_cons i l ls : boot_opens i (l :: ls) = (boot_opens i [l] + boot_opens i ls)%nat.
Proof. unfold boot_opens. simpl. lia. Qed.

Lemma follows_run f b j ls r :
  late f b j → boot_disciplined ls b = true → boot_runs ls b = Some r → follows f j ls r.
Proof.
  revert f b j r. induction ls as [|l ls IH]; intros f b j r Hl Hd Hr.
  { injection Hr as <-. exists []. split; [done|]. exists j, [], f.
    split_and!; [done|done| |done]. intros i. by rewrite app_nil_r. }
  cbn [boot_disciplined boot_runs] in *. apply andb_true_iff in Hd as [Hok Hd].
  apply bind_Some in Hr as (r1 & Hr1 & Hr). rewrite Hr1 in Hd.
  destruct (follows_step f b j l r1 Hl Hok Hr1) as (ys1 & Hd1 & H1).
  destruct r1 as [[b1 h1]|e].
  2:{ injection Hr as <-. destruct H1 as [H1 Hc]. exists ys1. split_and!; [done..|].
      intros i. specialize (Hc i). rewrite boot_opens_cons. lia. }
  destruct H1 as (j1 & h1' & f1 & Hrun1 & Hl1 & Hh1 & Hc1).
  apply bind_Some in Hr as (r2 & Hr2 & Hr). injection Hr as <-.
  destruct (IH f1 b1 j1 r2 Hl1 Hd Hr2) as (ys2 & Hd2 & H2). exists (ys1 ++ ys2).
  split; [by eapply job_disciplined_app|]. rewrite (job_runs_app _ _ _ _ _ Hrun1).
  destruct r2 as [[b2 h2]|e].
  - destruct H2 as (j2 & h2' & f2 & -> & Hl2 & Hh2 & Hc2). exists j2. eexists _, f2.
    split; [done|]. split; [done|]. split; intros i.
    + by rewrite !own_app, app_assoc, Hh1, <-!app_assoc, Hh2.
    + specialize (Hc1 i). specialize (Hc2 i). rewrite calls_open_app, boot_opens_cons. lia.
  - destruct H2 as [-> Hc2]. split; [done|]. intros i.
    specialize (Hc1 i). specialize (Hc2 i). rewrite calls_open_app, boot_opens_cons. lia.
Qed.

End boot.

(** ** The claims *)

Section claims.
Context {H : Mercury} {HOk : MercuryOk H} {W : Type} {T : Transport H W}.
Context {S : FileService T} {SOk : FileServiceOk S}.
Context {E : nat → environment} (Henv : ∀ i, env_ok (E i)).

Lemma has_room_less k E' n m s : (n ≤ m)%nat → has_room k E' m s → has_room k E' n s.
Proof. intros Hle [Hp Hr]. split; [done|]. lia. Qed.

(** With room for its opens no process ends, and each has the history of a
    process without the library. *)
Lemma boot_with_room xs k p j r :
  job_start (E:=E) k p j →
  (∀ i s, process i j = Some s → has_room (k i) (E i) (boot_opens i xs) (reference s (p i))) →
  boot_disciplined E xs (Boot j ∅) = true → boot_runs E xs (Boot j ∅) = Some r →
  ∃ b' h, r = Ret (b', h) ∧ ∀ i s, process i j = Some s →
    is_Some (replay (E i) (k i) (own i h) (reference s (p i))) ∧
    ∀ t, is_Some (phase_after t (own i h) Outside).
Proof.
  intros Hj Hroom Hd Hr.
  destruct (follows_run E _ _ j xs r (late_refl E j) Hd Hr) as (ys & Hdy & Hcase).
  assert (Hroom' : (∀ i, calls_open i ys ≤ boot_opens i xs)%nat →
    ∀ i s, process i j = Some s → has_room (k i) (E i) (calls_open i ys) (reference s (p i))).
  { intros Hle i s Hs. by eapply has_room_less, Hroom. }
  destruct r as [[b' h]|e].
  2:{ destruct Hcase as [Hf Hc].
      destruct (job_with_room Henv ys k p j (Fault e) Hj) as (? & ? & ? & _); [|done..].
      apply Hroom'. intros i. specialize (Hc i). simpl in Hc. lia. }
  destruct Hcase as (j' & h' & f' & Hrun & [_ Hl] & Hh & Hc). exists b', h. split; [done|].
  destruct (job_with_room Henv ys k p j (Ret (j', h')) Hj) as (j0 & h0 & Heq & Hall); [|done..|].
  { apply Hroom'. intros i. specialize (Hc i). simpl in Hc. lia. }
  injection Heq as <- <-. intros i s Hs.
  destruct (Hall i s Hs) as (s' & p' & Hs' & Hrep & Hph & _). specialize (Hh i). simpl in Hh. rewrite Hh.
  destruct (Hl i) as [(-> & _)|(t & st & c & c' & cs & -> & _ & _ & _ & Hjp & _ & Ht & _)].
  - rewrite app_nil_r. split; [by eexists|]. intros t. destruct (Hph t) as (ph & -> & _). by eexists.
  - unfold process in Hs'. rewrite Hjp in Hs'. injection Hs' as <-.
    split; [rewrite replay_app, Hrep; by eexists|]. intros u. rewrite phase_after_app.
    destruct (Hph u) as (ph & -> & Hout). cbn [mbind option_bind phase_after phase_step th_calls] in *.
    case_bool_decide as Hu; [|by eexists]. subst u. rewrite Hout by done. by eexists.
Qed.







End claims.
