(* ===== verification/Delivery.v ===== *)
(** * Closes that are served later

    hvac_client_comm_gen_close_rpc hands its request to HG_Forward with no
    callback and returns: the server runs the close handler at some later
    moment, after other requests of the same client, or never. This file wraps
    any transport and file service so that closes stay in flight until an event
    delivers one of them, in any order, and proves that the promises of
    [Service.v] survive: a descriptor whose close is in flight is gone for the
    client, and is not handed out again before the server has closed it. *)

From S2P Require Import Prelude CText Posix Wire FdState Comm Stats ClientComm Service.

Local Open Scope Z_scope.

(** ** The transport *)

Section transport.
Context {H : Mercury} {W : Type} (T : Transport H W).

(** The servers, and the close requests on their way to them. *)
Record delayed : Type := Delayed {
  served : W;
  in_flight : list (option hg_addr * hvac_close_in_t)
}.

Definition on_served {A} (f : W → W * A) (w : delayed) : delayed * A :=
  let '(n, a) := f (served w) in (Delayed n (in_flight w), a).

(** A close is accepted and kept; every other request is served at once. *)
Definition delayed_transport : Transport H delayed := {|
  hg_addr := hg_addr;
  hg_addr_lookup2 w := hg_addr_lookup2 (served w);
  hg_addr_garbage := hg_addr_garbage;
  hg_output_garbage := hg_output_garbage;
  hg_create_ret w := hg_create_ret (served w);
  hg_addr_free_ret w := hg_addr_free_ret (served w);
  hg_release_ret w := hg_release_ret (served w);
  forward_open a inp := on_served (forward_open a inp);
  forward_read a inp := on_served (forward_read a inp);
  forward_seek a inp := on_served (forward_seek a inp);
  forward_close a inp w := (Delayed (served w) (in_flight w ++ [(a, inp)]), HG_SUCCESS);
  forward_stats a inp := on_served (forward_stats a inp)
|}.

(** The close that has been in flight behind [i] others reaches its server. *)
Definition deliver (i : nat) (w : delayed) : delayed :=
  match in_flight w !! i with
  | Some (a, inp) =>
      Delayed (fst (forward_close a inp (served w))) (delete i (in_flight w))
  | None => w
  end.

(** All of them do, the oldest first. *)
Definition arrive_all (w : delayed) : delayed :=
  Nat.iter (length (in_flight w)) (deliver 0) w.

End transport.

Arguments Delayed {H W T} _ _.
Arguments served {H W T} _.
Arguments in_flight {H W T} _.

(** ** The service *)

Global Instance hvac_close_in_t_eq_dec : EqDecision hvac_close_in_t.
Proof. solve_decision. Defined.

Section service.
Context {H : Mercury} {W : Type} {T : Transport H W} {S : FileService T}.
Context {Haddr : EqDecision (hg_addr (Transport:=T))}.

Abbreviation addr := (hg_addr (Transport:=T)).

(** The descriptors whose close is in flight. *)
Definition closing (q : list (option addr * hvac_close_in_t)) (a : addr) (fd : Z) : bool :=
  bool_decide ((Some a, {| close_fd := fd |}) ∈ q).

(** What the client still sees of a server's descriptors. *)
Definition delayed_view (w : delayed T) (a : addr) (fd : Z) : option (bytes * Z) :=
  if closing (in_flight w) a fd then None else fs_view (served w) a fd.

(** A close in flight is of an open descriptor. *)
Definition close_due (n : W) (m : option addr * hvac_close_in_t) : Prop :=
  ∃ a fd, m = (Some a, {| close_fd := fd |}) ∧ 0 ≤ fd < 2 ^ 31 ∧ fs_known n a ∧ is_Some (fs_view n a fd).

Definition delayed_ok (w : delayed T) : Prop :=
  fs_ok (served w) ∧ NoDup (in_flight w) ∧ Forall (close_due (served w)) (in_flight w).

Definition delayed_service : FileService (delayed_transport T) :=
  Build_FileService H (delayed T) (delayed_transport T)
    delayed_ok
    (λ w a, fs_known (served w) a)
    (λ w a, fs_live (served w) a)
    delayed_view
    (λ w a, fs_file (served w) a)
    (fs_event + nat)
    (λ e w, match e with
            | inl e => Delayed (fs_background e (served w)) (in_flight w)
            | inr i => deliver T i w
            end).

#[local] Existing Instances delayed_transport delayed_service.

(** ** What the client sees *)

Lemma mk_close_in_id fd : 0 ≤ fd < 2 ^ 31 → mk_close_in fd = {| close_fd := fd |}.
Proof. intros. unfold mk_close_in. by rewrite to_int32_id by lia. Qed.

Lemma delayed_view_Some (w : delayed T) a fd x :
  delayed_view w a fd = Some x →
  closing (in_flight w) a fd = false ∧ fs_view (served w) a fd = Some x.
Proof. unfold delayed_view. by destruct (closing _ _ _). Qed.

(** What is in flight does not care for a step at the server that keeps the
    open descriptors open. *)
Lemma close_due_stable (n n' : W) q :
  extends n n' →
  (∀ a fd, (Some a, {| close_fd := fd |}) ∈ q → is_Some (fs_view n a fd) → is_Some (fs_view n' a fd)) →
  Forall (close_due n) q → Forall (close_due n') q.
Proof.
  intros Hex Hv. rewrite !Forall_forall. intros Hq m Hm.
  destruct (Hq m Hm) as (a & fd & -> & Hfd & Hl & Hs). exists a, fd.
  split_and!; [done|lia|lia|by apply (ex_known _ _ Hex)|by apply Hv].
Qed.

(** The servers move on, the requests in flight stay. *)
Lemma delayed_extends (w : delayed T) n' :
  fs_ok w → extends (served w) n' → Forall (close_due n') (in_flight w) →
  extends w (Delayed n' (in_flight w)).
Proof.
  intros (Ho & Hnd & _) Hex Hq. split; simpl.
  - split_and!; [by apply (ex_ok _ _ Hex)|done|done].
  - apply (ex_known _ _ Hex).
  - apply (ex_live _ _ Hex).
  - apply (ex_lookup _ _ Hex).
  - apply (ex_file _ _ Hex).
Qed.

Lemma delayed_others (w : delayed T) n' a fd :
  others_same (served w) n' a fd → others_same w (Delayed n' (in_flight w)) a fd.
Proof.
  intros Ho b f Hne. simpl. unfold delayed_view. simpl. by destruct (closing _ _ _); [|apply Ho].
Qed.

Lemma delayed_view_same (n n' : W) q :
  (∀ b f, fs_view n' b f = fs_view n b f) →
  ∀ b f, fs_view (Delayed n' q) b f = fs_view (Delayed n q) b f.
Proof. intros Hv b f. simpl. unfold delayed_view. simpl. by rewrite Hv. Qed.

(** A descriptor that is not open is not closing. *)
Lemma closing_open (w : delayed T) a fd :
  fs_ok w → closing (in_flight w) a fd = true → is_Some (fs_view (served w) a fd).
Proof.
  intros (_ & _ & Hq) Hc%bool_decide_eq_true. rewrite Forall_forall in Hq.
  by destruct (Hq _ Hc) as (b & f & [= <- <-] & _ & _ & Hs).
Qed.

(** ** The promises *)

Context {SOk : FileServiceOk S}.

Lemma delayed_open (w : delayed T) (a : addr) path d :
  fs_ok w → fs_known w a → (fs_live w a → fs_file w a path = Some d) →
  ∃ w' r, forward_open (Transport:=delayed_transport T) (Some a) {| open_path := path |} w
      = (w', r) ∧ settles r ∧
    extends w w' ∧
    (open_ret r = -1 ∧ (∀ b f, fs_view w' b f = fs_view w b f) ∨
     0 ≤ open_ret r < 2 ^ 31 ∧ fs_view w a (open_ret r) = None ∧
     fs_view w' a (open_ret r) = Some (d, 0) ∧
     others_same w w' a (open_ret r)).
Proof.
  intros Hok Hl Hf. pose proof Hok as (Ho & Hnd & Hq).
  destruct (svc_open _ _ _ _ Ho Hl Hf) as (n' & r & Hrun & Hset & Hex & Hcase).
  exists (Delayed n' (in_flight w)), r. split; [simpl; unfold on_served; by rewrite Hrun|].
  split; [done|].
  split.
  { apply delayed_extends; [done|done|]. apply (close_due_stable (served w)); try done.
    intros b f _ Hs. destruct Hcase as [[_ ->]|(_ & Hn & _ & Hos)]; [done|].
    rewrite Hos; [done|]. intros [= -> ->]. rewrite Hn in Hs. by destruct Hs. }
  destruct Hcase as [[Hr Hv]|(Hr & Hn & Hv & Hos)].
  - left. split; [exact Hr|]. destruct w as [n q]. by apply delayed_view_same.
  - right. assert (Hc : closing (in_flight w) a (open_ret r) = false).
    { apply not_true_is_false. intros Hc. apply (closing_open w a) in Hc; [|done].
      rewrite Hn in Hc. by destruct Hc. }
    split_and!; [lia|lia| | |by apply delayed_others]; simpl; unfold delayed_view; simpl;
      by rewrite Hc.
Qed.

Lemma delayed_read (w : delayed T) (a : addr) fd d o count off :
  fs_ok w → fs_known w a → fs_view w a fd = Some (d, o) →
  0 ≤ fd < 2 ^ 31 → 0 ≤ count < 2 ^ 31 → -1 ≤ off < 2 ^ 63 →
  let at_ := if off =? -1 then o else off in
  let n := n_read d at_ count in
  ∃ w' out, forward_read (Transport:=delayed_transport T) (Some a)
      (mk_rpc_in count (snd (hg_bulk_create (to_uint64 count))) fd off) w
      = (w', Reply (out, slice d at_ n)) ∧
    rpc_ret out = n ∧ extends w w' ∧
    fs_view w' a fd = Some (d, if off =? -1 then o + n else o) ∧
    others_same w w' a fd.
Proof.
  intros Hok Hl Hv Hfd Hc Hoff at_ n. pose proof Hok as (Ho & Hnd & Hq).
  apply delayed_view_Some in Hv as [Hcl Hv].
  destruct (svc_read _ _ _ _ _ count off Ho Hl Hv Hfd Hc Hoff)
    as (n' & out & Hrun & Hn & Hex & Hv' & Hos).
  exists (Delayed n' (in_flight w)), out. split; [simpl; unfold on_served; by rewrite Hrun|].
  split_and!; [done| | |by apply delayed_others].
  - apply delayed_extends; [done|done|]. apply (close_due_stable (served w)); try done.
    intros b f Hin Hs. rewrite Hos; [done|]. intros [= -> ->].
    by apply bool_decide_eq_false in Hcl.
  - simpl. unfold delayed_view. simpl. by rewrite Hcl.
Qed.

Lemma delayed_close (w : delayed T) (a : addr) fd d o :
  fs_ok w → fs_known w a → fs_view w a fd = Some (d, o) → 0 ≤ fd < 2 ^ 31 →
  ∃ w' r, forward_close (Transport:=delayed_transport T) (Some a) (mk_close_in fd) w = (w', r) ∧
    extends w w' ∧ fs_view w' a fd = None ∧ others_same w w' a fd.
Proof.
  intros Hok Hl Hv Hfd. pose proof Hok as (Ho & Hnd & Hq).
  apply delayed_view_Some in Hv as [Hcl Hv]. apply bool_decide_eq_false in Hcl.
  rewrite mk_close_in_id by done. eexists _, _. split; [done|]. split_and!.
  - split; [|done..]. simpl. split_and!; [done| |].
    + apply NoDup_app. split_and!; [done| |by apply NoDup_singleton].
      by intros m Hm ->%list_elem_of_singleton.
    + apply Forall_app. split; [done|]. apply Forall_singleton. by exists a, fd.
  - simpl. unfold delayed_view, closing. simpl. rewrite bool_decide_true; [done|].
    apply elem_of_app. right. by apply list_elem_of_singleton.
  - intros b f Hne. simpl. unfold delayed_view, closing. simpl.
    rewrite (bool_decide_ext (_ ∈ _ ++ _) ((Some b, {| close_fd := f |}) ∈ in_flight w)); [done|].
    rewrite elem_of_app, list_elem_of_singleton. split; [|by left].
    intros [?|[= -> ->]]; done.
Qed.

(** A delivery closes what the client no longer sees. *)
Lemma deliver_ok (w : delayed T) i :
  fs_ok w → extends w (deliver T i w) ∧ ∀ b f, fs_view (deliver T i w) b f = fs_view w b f.
Proof.
  intros Hok. pose proof Hok as (Ho & Hnd & Hq). unfold deliver.
  destruct (in_flight w !! i) as [[a inp]|] eqn:Hi; [|by split; [split; simpl|]].
  rewrite Forall_forall in Hq.
  destruct (Hq (a, inp)) as (b & fd & [= -> ->] & Hfd & Hl & [[d o] Hs]);
    [by eapply list_elem_of_lookup_2|].
  destruct (svc_close _ _ _ _ _ Ho Hl Hs Hfd) as (n' & r & Hrun & Hex & Hn & Hos).
  rewrite mk_close_in_id in Hrun by done. rewrite Hrun. simpl.
  (* what is left is in flight for other descriptors *)
  pose proof (delete_Permutation _ _ _ Hi) as Hperm.
  assert (Hsplit : ∀ m, m ∈ in_flight w ↔ m = (Some b, {| close_fd := fd |}) ∨ m ∈ delete i (in_flight w)).
  { intros m. rewrite <-elem_of_cons. by apply elem_of_Permutation_proper. }
  assert (Hnd' : NoDup ((Some b, {| close_fd := fd |}) :: delete i (in_flight w))).
  { eapply NoDup_Permutation_proper; [symmetry; exact Hperm|done]. }
  apply NoDup_cons in Hnd' as [Hnot Hnd'].
  split.
  - split; simpl; [split_and!; [by apply (ex_ok _ _ Hex)|done|]|apply (ex_known _ _ Hex)|apply (ex_live _ _ Hex)|
      apply (ex_lookup _ _ Hex)|apply (ex_file _ _ Hex)].
    apply (close_due_stable (served w)); [done| |].
    + intros c f Hin Hsome. rewrite Hos; [done|]. by intros [= -> ->].
    + apply Forall_forall. intros m Hm. apply Hq, Hsplit. by right.
  - intros c f. simpl. unfold delayed_view, closing. simpl.
    destruct (decide ((c, f) = (b, fd))) as [[= -> ->]|Hne].
    + rewrite Hn, (bool_decide_true (_ ∈ in_flight w)) by (apply Hsplit; by left).
      by destruct (bool_decide _).
    + rewrite (bool_decide_ext ((Some c, {| close_fd := f |}) ∈ in_flight w)
        ((Some c, {| close_fd := f |}) ∈ delete i (in_flight w))), Hos; [done|done|].
      rewrite Hsplit. split; [|by right]. intros [[= -> ->]|?]; done.
Qed.

(** When the last one has arrived the client sees the servers as they are. *)
Lemma arrive_all_ok (w : delayed T) :
  fs_ok w → let n := arrive_all T w in
  fs_ok (served n) ∧ in_flight n = [] ∧ ∀ a fd, fs_view (served n) a fd = fs_view w a fd.
Proof.
  intros Hok n.
  assert (∀ k, (k ≤ length (in_flight w))%nat →
    let m := Nat.iter k (deliver T 0) w in
    fs_ok m ∧ length (in_flight m) = (length (in_flight w) - k)%nat ∧
    ∀ a fd, fs_view m a fd = fs_view w a fd) as Hk.
  { induction k as [|k IH]; intros Hle; [split_and!; [done|simpl; lia|done]|].
    destruct IH as (IH1 & IH2 & IH3); [lia|].
    change (Nat.iter (Datatypes.S k) (deliver T 0) w) with (deliver T 0 (Nat.iter k (deliver T 0) w)).
    cbv zeta in *. set (m := Nat.iter k (deliver T 0) w) in *. destruct (deliver_ok m 0 IH1) as [Hex Hv].
    split_and!; [by apply (ex_ok _ _ Hex)| |intros a fd; by rewrite Hv].
    destruct (in_flight m) as [|x q] eqn:Hq; [simpl in IH2; lia|].
    unfold deliver. rewrite Hq. simpl. destruct x as [a inp]. simpl in *. lia. }
  destruct (Hk (length (in_flight w))) as (H1 & H2 & H3); [done|].
  fold (arrive_all T w) in H1, H2, H3. fold n in H1, H2, H3. cbv zeta in *.
  rewrite Nat.sub_diag in H2. apply length_zero_iff_nil in H2.
  split_and!; [apply H1|done|]. intros a fd. rewrite <-H3. simpl. unfold delayed_view, closing.
  by rewrite H2.
Qed.

Lemma delayed_background (w : delayed T) e :
  fs_ok w → extends w (fs_background e w) ∧
    ∀ b f, fs_view (fs_background e w) b f = fs_view w b f.
Proof.
  intros Hok. destruct e as [e|i]; [|by apply deliver_ok]. simpl in e.
  pose proof Hok as (Ho & Hnd & Hq).
  destruct (svc_background _ e Ho) as [Hex Hv]. split.
  - apply delayed_extends; [done|done|]. apply (close_due_stable (served w)); try done.
    intros b f _ Hs. by rewrite Hv.
  - destruct w as [n q]. by apply delayed_view_same.
Qed.

Lemma delayed_service_ok : FileServiceOk delayed_service.
Proof.
  split.
  - intros w a (Ho & _). apply (svc_create _ _ Ho).
  - intros w a (Ho & _). apply (svc_free _ _ Ho).
  - intros w (Ho & _). apply (svc_release _ Ho).
  - apply delayed_open.
  - apply delayed_read.
  - apply delayed_close.
  - apply delayed_background.
Qed.

End service.
