(* ===== verification/Transparency.v ===== *)
(** * Transparency of the client library

    An application whose [open], [read], [pread] and [close] go through the
    wrappers gets the answers the operating system alone would give it, on
    every sequence of calls interleaved with anything the servers do. The
    reference is [Posix.v]: the same calls made directly. Proved against the
    interface of [Service.v]. *)

From S2P Require Import Prelude CText Posix Wire AddrFile FdState Comm Stats.
From S2P Require Import ClientComm ClientCommProps Client Wrappers Service Sim Cut OpenSteps ReadSteps CallSteps.
From S2P Require Import Threads Ledger Delivery.

Local Open Scope Z_scope.

Section transparency.
Context {H : Mercury} {HOk : MercuryOk H} {W : Type} {T : Transport H W}.
Context {S : FileService T} {SOk : FileServiceOk S}.
Context {E : environment}.

#[local] Abbreviation hvac_op := (Sim.hvac_op E).
#[local] Abbreviation address_file := (Sim.address_file E).
#[local] Abbreviation rank_of := (Sim.rank_of E).
#[local] Abbreviation addr_of := (Sim.addr_of E).
#[local] Abbreviation server_of := (Sim.server_of E).
#[local] Abbreviation is_remote := (Sim.is_remote E).
#[local] Abbreviation fd_rel := (Sim.fd_rel E).
#[local] Abbreviation sim := (Sim.sim E).
#[local] Abbreviation env_ok := (Sim.env_ok E).
#[local] Abbreviation hvac_run := (Sim.hvac_run E).
#[local] Abbreviation cold_lookup := (Sim.cold_lookup E).
#[local] Abbreviation cold_op := (Sim.cold_op E).
#[local] Abbreviation cold_run := (Sim.cold_run E).
#[local] Abbreviation lookup_runs := (Sim.lookup_runs E).
#[local] Abbreviation same_conf := (Sim.same_conf E).
#[local] Abbreviation opening := (OpenSteps.opening E).

Lemma run_cold es (w : world W) p :
  env_ok → sim w p → all_allowed es = true →
  match cold_run (cl_conf (cl w)) es (dom (address_cache (cl w)), p) with
  | Some answers => ∃ w' p', hvac_run es w = Ret (w', answers) ∧ sim w' p'
  | None => hvac_run es w = Fault NullDeref
  end.
Proof.
  intros He. revert w p. induction es as [|[op t|e] es IH]; intros w p Hs Ha.
  - by exists w, p.
  - simpl in Ha. apply andb_true_iff in Ha as [Ha1 Ha2].
    pose proof (step_op w p op t He Hs Ha1) as Hop. cbn [cold_run hvac_run].
    destruct (cold_op _ _ _) as [[[known p1] a]|]; simpl.
    + destruct Hop as (w1 & Hw1 & Hs1 & <- & Hc). rewrite (bind_run _ _ _ _ _ Hw1).
      pose proof (IH w1 p1 Hs1 Ha2) as Hrest. rewrite Hc in Hrest.
      destruct (cold_run _ es _) as [rest|]; simpl.
      * destruct Hrest as (w2 & p2 & Hw2 & Hs2). exists w2, p2. by rewrite (bind_run _ _ _ _ _ Hw2).
      * by apply bind_Fault.
    + by apply bind_Fault.
  - cbn [cold_run hvac_run]. erewrite bind_run by done.
    apply (IH _ _ (step_background _ _ e Hs) Ha).
Qed.

(** With every address in the cache the reference is the plain process. *)
Lemma cold_run_warm k es known p :
  0 < g_hvac_server_count k →
  (∀ rank, 0 ≤ rank < g_hvac_server_count k → rank ∈ known) →
  cold_run k es (known, p) = Some (plain_run es p).
Proof.
  intros Hc Hk. revert p. induction es as [|[op t|e] es IH]; intros p; cbn [cold_run plain_run];
    [done| |done].
  rewrite cold_op_warm by done. simpl. destruct (plain_op op p) as [p' a]. simpl. by rewrite IH.
Qed.

Lemma run_transparent es (w : world W) p :
  env_ok → sim w p → warm (cl w) → all_allowed es = true →
  ∃ w' p', hvac_run es w = Ret (w', plain_run es p) ∧ sim w' p'.
Proof.
  intros He Hs Hw Ha. pose proof (run_cold es w p He Hs Ha) as Hr.
  rewrite cold_run_warm in Hr; [done|apply (ad_count _ (sim_addressed _ _ Hs))|].
  intros rank Hrank. by apply elem_of_dom, Hw.
Qed.

(** C3. Transparency: from any related start, an application that opens,
    reads and closes through the wrappers gets, call by call, the very
    results and bytes it would get from the operating system without the
    library, whatever the servers do in between; every call returns. The one
    trace of the library is the address file: it is opened, and left open, at
    the first open of a file of each server whose address is not cached, and
    the process dies of a NULL stream exactly when no descriptor is left for
    that. *)
Theorem library_is_transparent es (w : world W) p :
  env_ok → sim w p → all_allowed es = true →
  match cold_run (cl_conf (cl w)) es (dom (address_cache (cl w)), p) with
  | Some answers => ∃ w', hvac_run es w = Ret (w', answers)
  | None => hvac_run es w = Fault NullDeref
  end.
Proof.
  intros He Hs Ha. pose proof (run_cold es w p He Hs Ha) as Hr.
  destruct (cold_run _ _ _); [|done]. destruct Hr as (w' & p' & Hr & _). by exists w'.
Qed.

(** ** The calls the interface does not cover *)

(** A local seek on a served descriptor: the relation does not see it. *)
Lemma sim_seek (w : world W) p fd t r off whence os' pos :
  sim w p → is_remote w fd t r → os_lseek fd off whence (cl_os (cl w)) = (os', pos) →
  sim (set_cl (set_cl_os os' (cl w)) w) p.
Proof.
  intros Hs Hrem Hl. set (w' := set_cl (set_cl_os os' (cl w)) w).
  destruct (os_lseek_spec _ _ _ _ _ _ (sim_os _ _ Hs) Hl) as (_ & Hnf & Hok & _).
  destruct (os_lseek_files _ _ _ _ _ _ Hl) as (A1 & A2 & A3 & Hfds).
  assert (Hc : same_conf w w').
  { apply same_conf_intro; [by destruct w as [[] ?]..|]. split; auto. apply (sim_net _ _ Hs). }
  assert (Ha : ∀ g, same_at w w' g) by (intros g; split; by destruct w as [[] ?]).
  assert (Eo : cl_os (cl w') = os') by (by destruct w as [[] ?]).
  eapply (sim_steps w w' p p); try done; try (by rewrite Eo).
  - apply (sim_plain _ _ Hs).
  - pose proof (sim_states _ _ Hs). by destruct w as [[] ?].
  - intros q full d a. apply (sim_shared _ _ Hs).
  - intros g q Hq. left. by destruct w as [[] ?].
  - intros g. destruct (Hfds g) as [Hg|(-> & o & o' & Hg & Hg' & Hi & Hm)].
    + eapply (fd_rel_same w w' p p), (sim_fds _ _ Hs); try done; by rewrite Eo.
    + destruct (is_remote_view _ _ _ _ _ (sim_fds _ _ Hs fd) Hrem)
        as (o1 & o2 & d & E1 & E2 & Hi1 & Hm1 & Hr & Hd & Hv).
      unfold fd_rel. rewrite Eo, Hg', E2. right.
      split_and!; [congruence|congruence|done|]. exists t, r, d. split_and!; [|done|done].
      by apply (is_remote_same _ _ _ _ _ Hc (Ha fd)).
  - intros g g' t' r'. rewrite !(is_remote_same _ _ _ _ _ Hc (Ha _)). apply (sim_inj _ _ Hs).
Qed.

(** The server a served descriptor's requests go to. *)
Lemma host_of_remote (w : world W) p fd t r :
  env_ok → sim w p → is_remote w fd t r →
  ∃ h, ∀ w1 : world W, cl_conf (cl w1) = cl_conf (cl w) → fd_map (cl w1) = fd_map (cl w) →
    host_of_fd E fd w1 = Ret (w1, h).
Proof.
  intros He Hs (path & Hp & _).
  exists (to_int32 (hash E path mod g_hvac_server_count (cl_conf (cl w)))).
  intros w1 Hk Hm. rewrite (host_of_fd_run w1 fd path) by congruence.
  unfold host_of_path, client_gets. erewrite bind_run by done. rewrite Hk.
  pose proof (ad_count _ (sim_addressed _ _ Hs)).
  by destruct (Z.eqb_spec (g_hvac_server_count (cl_conf (cl w))) 0); [lia|].
Qed.

(** The pread wrapper on a served descriptor, given what the RPC does. *)
Lemma wrap_pread_remote (w : world W) p returns fd t r count off s f h :
  env_ok → sim w p → is_remote w fd t r → 0 ≤ count < 2 ^ 31 →
  (∀ w1 : world W, cl_conf (cl w1) = cl_conf (cl w) → fd_map (cl w1) = fd_map (cl w) →
     host_of_fd E fd w1 = Ret (w1, h)) →
  ∃ mp, let w1 := set_cl (set_real_mapped mp (cl w)) w in
  wrap_pread E returns fd count off s f w =
    (rr ← hvac_client_comm_gen_read_rpc (getenv E) (read_ahead E) returns (to_uint32 h) fd true count off;
     res ← (if fst rr =? -1
            then l ← client_sys (λ p, (p, os_pread fd count off p));
                 mret (fst l, overlay (snd l) (snd rr))
            else mret rr);
     count_call SPread s f ;; mret res) w1.
Proof.
  intros He Hs Hrem Hc Hh. unfold wrap_pread.
  destruct (map_or_fail_run "pread" w He ltac:(set_solver)) as [mp Hmp]. exists mp. cbv zeta.
  erewrite bind_run by exact Hmp. set (w1 := set_cl (set_real_mapped mp (cl w)) w).
  assert (Hrem1 : is_remote w1 fd t r) by (by destruct w as [[] ?]).
  unfold hvac_get_path, client_gets. erewrite bind_run by done.
  pose proof Hrem1 as (path & Hp & _). rewrite Hp.
  assert (to_int64 count = count) as Hc64 by (apply to_int64_id; lia).
  unfold mbind at 1, St_bind at 1. erewrite remote_pread_run by exact Hrem1.
  erewrite bind_run by (apply Hh; by destruct w as [[] ?]). by rewrite Hc64.
Qed.

(** A pread at -1 on a served descriptor does what a read does. *)
Lemma step_pread_minus_one (w : world W) p fd t r returns count s f :
  env_ok → sim w p → is_remote w fd t r → 0 ≤ count < 2 ^ 31 →
  ∃ w', wrap_pread E returns fd count (-1) s f w = Ret (w', snd (os_read fd count p)) ∧
        sim w' (fst (os_read fd count p)).
Proof.
  intros He Hs Hrem Hc.
  destruct (host_of_remote w p fd t r He Hs Hrem) as (h & Hh).
  destruct (wrap_pread_remote w p returns fd t r count (-1) s f h He Hs Hrem Hc Hh) as (mp & Hw).
  rewrite Hw. clear Hw. cbv zeta. apply (sim_mapped mp) in Hs.
  assert (Hrem1 : is_remote (set_cl (set_real_mapped mp (cl w)) w) fd t r)
    by (by destruct w as [[] ?]).
  specialize (Hh (set_cl (set_real_mapped mp (cl w)) w)
    ltac:(by destruct w as [[] ?]) ltac:(by destruct w as [[] ?])).
  set (w1 := set_cl (set_real_mapped mp (cl w)) w) in *. clearbody w1. clear Hrem w.
  destruct (remote_read_remote w1 p returns fd t r count (-1) He Hs Hrem1 Hc ltac:(lia))
    as (n' & h' & o & d & Ho & Hd & Hrd & Hh' & Hrun & Hex & Hv & Hos).
  assert (h' = h) as -> by congruence.
  change (-1 =? -1) with true in *. cbv iota in *. erewrite bind_run by exact Hrun.
  pose proof (sim_plain _ _ Hs) as Hokp. destruct (ok_fds _ Hokp _ _ Ho) as (_ & _ & Hoff).
  pose proof (n_read_range d (ofd_off o) count) as Hrange.
  assert (Hplain : os_read fd count p =
    (set_fds (<[fd := Ofd (ofd_ino o) (ofd_mode o) (ofd_off o + n_read d (ofd_off o) count)]>
       (px_fds p)) p,
     (n_read d (ofd_off o) count, slice d (ofd_off o) (n_read d (ofd_off o) count)))).
  { unfold os_read, os_pread. rewrite Ho, Hd, Hrd, (proj2 (Z.leb_le _ _) Hoff). simpl.
    by destruct (Z.eqb_spec (n_read d (ofd_off o) count) (-1)); [lia|]. }
  destruct (os_read_spec fd count p _ _ _ Hokp Hplain) as (_ & _ & _ & _ & _ & Hok' & _).
  rewrite Hplain. simpl.
  destruct (Z.eqb_spec (n_read d (ofd_off o) count) (-1)); [lia|].
  erewrite bind_run by done. erewrite bind_run by done. eexists. split; [done|].
  eapply (sim_agree (World (cl w1) n')); try (by destruct w1 as [[] ?]).
  eapply sim_after_read; done.
Qed.

(** What reading a file from its start gives, and where it leaves the offset. *)
Lemma os_read_start fd count q i m d :
  px_fds q !! fd = Some (Ofd i m 0) → m ≠ O_WRONLY → px_data q !! i = Some d →
  os_read fd count q =
    (set_fds (<[fd := Ofd i m (n_read d 0 count)]> (px_fds q)) q,
     (n_read d 0 count, slice d 0 (n_read d 0 count))).
Proof.
  intros Ho Hm Hd. unfold os_read, os_pread. rewrite Ho. simpl. rewrite Hd.
  assert (readable (Ofd i m 0) = true) as -> by (by apply negb_true_iff, Z.eqb_neq). simpl.
  pose proof (n_read_range d 0 count). by destruct (Z.eqb_spec (n_read d 0 count) (-1)); [lia|].
Qed.

(** The next read goes on from there. *)
Lemma os_read_next fd count count2 q i m d :
  px_fds q !! fd = Some (Ofd i m 0) → m ≠ O_WRONLY → px_data q !! i = Some d →
  let n := n_read d 0 count in
  snd (os_read fd count2 (fst (os_read fd count q))) =
    (n_read d n count2, slice d n (n_read d n count2)).
Proof.
  intros Ho Hm Hd n. rewrite (os_read_start fd count q i m d) by done. fold n. simpl.
  unfold os_read, os_pread. simpl. rewrite lookup_insert_eq. simpl. rewrite Hd.
  assert (readable (Ofd i m n) = true) as -> by (by apply negb_true_iff, Z.eqb_neq).
  pose proof (n_read_range d 0 count). pose proof (n_read_range d n count2).
  rewrite (proj2 (Z.leb_le 0 n)) by (unfold n; lia). simpl.
  by destruct (Z.eqb_spec (n_read d n count2) (-1)); [lia|].
Qed.

(** The wrapper of a read that gave up waiting: the local file's first bytes,
    and the local offset behind them. *)
Lemma gave_up_run (w : world W) p tm fd count full t d :
  sim w p → opening w p fd full t d →
  ∃ os' st, os_lseek fd (n_read d 0 count) SEEK_SET (cl_os (cl w)) = (os', n_read d 0 count) ∧
    op_end (OpRead fd count) tm fd (-1, []) w =
      Ret (set_cl (set_stats st (set_cl_os os' (cl w))) w,
           (n_read d 0 count, slice d 0 (n_read d 0 count))).
Proof.
  intros Hs [Hfd Hmap Hl Hst (i & m & Ho & Hm & Hd) _ _ _].
  destruct (sim_local_fd w p fd Hs Hl) as [Hofd Hdat]. rewrite Ho in Hofd. rewrite <-Hdat in Hd.
  pose proof (n_read_range d 0 count) as Hn. unfold MAX_RW_COUNT in Hn.
  eexists _, _. split.
  - unfold os_lseek. rewrite Hofd. cbn [ofd_ino ofd_mode]. rewrite Hd. change (SEEK_SET =? SEEK_SET) with true. cbv iota zeta.
    rewrite Z.add_0_l, (proj2 (Z.leb_le 0 _)), (proj2 (Z.ltb_lt _ (2 ^ 63))) by lia. done.
  - cbn [op_end]. change (to_int32 (fst (-1, [])) =? -1) with true. cbv iota.
    erewrite bind_run; [|erewrite bind_run; [done|unfold client_sys, zoom, run;
      rewrite (os_read_start fd count _ i m d) by done; done]].
    erewrite bind_run by apply count_run. cbn [fst snd]. rewrite to_int32_id by lia.
    unfold overlay. rewrite drop_nil, app_nil_r. destruct w as [[] ?]. done.
Qed.

(** The callback of an open does not look at the local file. *)
Lemma open_callback_over fd out os' st (w w' : world W) a :
  open_callback fd (Reply out) w = Ret (w', a) →
  open_callback fd (Reply out) (set_cl (set_stats st (set_cl_os os' (cl w))) w) =
    Ret (set_cl (set_stats st (set_cl_os os' (cl w'))) w', a).
Proof.
  unfold open_callback, hvac_open_cb, upd. unfold_st. destruct w as [[] n]. simpl.
  by destruct (0 <? ret_status out); intros [= <- <-].
Qed.

(** C34. A wait for an open that reaches its timeout breaks the agreement. A
    thread is reading a descriptor whose open, by another thread, is on its way
    to a server that will open the file. The wait gives up: the read is
    answered from the local file and moves the local offset. Then the server
    answers and the callback makes the descriptor a served one; and the next
    read, served from the start of the server's file, gives the first bytes
    again. Alone the operating system gives those behind the first read's. *)
Theorem timed_out_wait_repeats_bytes (s : threads) p u tmu t op tmt fd full b d count freed l h
    count2 tm2 :
  env_ok → sim (th_world s) p → opening (th_world s) p fd full b d → u ≠ t →
  th_calls s !! u = Some (Call (OpRead fd count) tmu fd (Waiting l h count (-1))) →
  th_calls s !! t = Some (Call op tmt fd (InFlight (Some b) freed
    (Sent (OpenRequest {| open_path := full |})))) →
  0 < open_ret (snd (forward_open (Some b) {| open_path := full |} (net (th_world s)))) →
  0 ≤ count2 < 2 ^ 31 →
  let n := n_read d 0 count in let m := n_read d 0 count2 in let m' := n_read d n count2 in
  ∃ s' w', threads_runs E [TTimeout u; TServe t; TTrigger t] s =
      Some (Ret (s', [Effect u (OpRead fd count) (n, slice d 0 n); Return u (n, slice d 0 n)])) ∧
    hvac_op (OpRead fd count2) tm2 (th_world s') = Ret (w', (m, slice d 0 m)) ∧
    snd (os_read fd count p) = (n, slice d 0 n) ∧
    snd (os_read fd count2 (fst (os_read fd count p))) = (m', slice d n m').
Proof.
  intros He Hs Hop Hne Hu Ht Hpos Hc2 n m m'. destruct s as [w cs]. cbn [th_world th_calls] in *.
  destruct (gave_up_run w p tmu fd count full b d Hs Hop) as (os' & st & Hseek & Hend).
  destruct (serve_open w p fd full b d Hs Hop) as (n' & r & Hrun & Hset & Hs2 & Hq & Han & Hun & _).
  rewrite Hrun in Hpos. cbn [snd] in Hpos. destruct Hset as [->|[out ->]]; [cbn in Hpos; lia|].
  assert (Hop2 : opening (World (cl w) n') p fd full b d).
  { eapply opening_stable, Hop; [exact Hq|auto..]. }
  destruct (open_cb_run _ p fd full b d (Reply out) Hs2 Hop2 ltac:(right; by exists out) Han)
    as (w3 & Hcb & Hs3 & _ & _ & _ & _ & _ & _ & Hrem).
  { eapply frame_unowned; [exact Hq|intros []|exact Hun]. }
  specialize (Hrem Hpos). pose proof (open_callback_over fd out os' st _ _ _ Hcb) as Hcb'.
  set (w4 := set_cl (set_stats st (set_cl_os os' (cl w3))) w3) in *.
  assert (Eos : cl_os (cl w3) = cl_os (cl w)).
  { revert Hcb. unfold open_callback, hvac_open_cb, upd. unfold_st. destruct w as [[] ?]. simpl.
    by destruct (0 <? ret_status out); intros [= <-]. }
  assert (Hs4 : sim w4 p).
  { rewrite <-Eos in Hseek. pose proof (sim_seek w3 p fd b _ _ _ _ _ Hs3 Hrem Hseek) as Hs4.
    eapply sim_agree, Hs4; unfold w4; by destruct w3 as [[] ?]. }
  destruct (op_ofd _ _ _ _ _ _ Hop) as (i & md & Ho & Hm & Hd).
  destruct (step_read_op w4 p (OpRead fd count2) tm2 fd count2 (-1) He Hs4) as (w5 & Hr5 & _);
    [|done|].
  { simpl. rewrite andb_true_iff, Z.leb_le, Z.ltb_lt. lia. }
  cbn [plain_op] in Hr5. rewrite (os_read_start fd count2 p i md d) in Hr5 by done. cbn [snd] in Hr5.
  eexists (Threads w4 _), w5. split_and!; [|exact Hr5| |by eapply os_read_next].
  2:{ by rewrite (os_read_start fd count p i md d). }
  cbn [threads_runs threads_run th_calls th_world]. rewrite Hu. cbn [mbind option_bind c_stage].
  unfold leave. cbn [c_op c_time c_fd]. rewrite Hend. cbn [th_calls th_world].
  rewrite lookup_delete_ne, Ht by done. cbn [mbind option_bind c_stage].
  replace (net (set_cl _ w)) with (net w) by (by destruct w as [[] ?]). rewrite Hrun.
  cbn [mbind option_bind stay th_calls th_world]. rewrite lookup_insert_eq.
  cbn [mbind option_bind with_stage c_stage c_fd].
  replace (World (cl (set_cl (set_stats st (set_cl_os os' (cl w))) w)) n')
    with (set_cl (set_stats st (set_cl_os os' (cl (World (cl w) n')))) (World (cl w) n'))
    by (by destruct w as [[] ?]).
  rewrite (bind_run _ _ _ _ _ Hcb'). reflexivity.
Qed.

(** A read RPC whose server ends while it serves it. *)
Lemma read_rpc_broken (w : world W) returns fd h t r count off n' told :
  fs_ok (net w) → fs_known (net w) t →
  default 0 (fd_redir_map (cl w) !! fd) = r → 0 < r < 2 ^ 31 →
  fd_state fd (fd_states (cl w)) = Some HVAC_FD_READY →
  hvac_client_comm_lookup_addr (getenv E) (read_ahead E) (to_int32 (to_uint32 h)) w = Ret (w, Some t) →
  forward_read (Some t) (mk_rpc_in count (snd (hg_bulk_create (to_uint64 count))) r off) (net w)
    = (n', broken_reply told) →
  hg_addr_free_ret n' (Some t) = HG_SUCCESS →
  hvac_client_comm_gen_read_rpc (getenv E) (read_ahead E) returns (to_uint32 h) fd true count off w
    = Fault (if told then AssertFailed else Blocked).
Proof.
  intros Ho Hl Hr Hr0 Hst Hlk Hf Hfree.
  assert (Hr' : fd_redir_map (cl w) !! fd = Some r).
  { destruct (fd_redir_map (cl w) !! fd); simpl in Hr; [by subst|lia]. }
  unfold hvac_client_comm_gen_read_rpc. erewrite bind_run by done.
  assert (hvac_wait_fd_ready fd returns (fd_states (cl w)) = true) as ->.
  { unfold hvac_wait_fd_ready. by rewrite Hst. }
  simpl. erewrite bind_run by done. rewrite Hr'. destruct (Z.eqb_spec r 0); [lia|].
  erewrite bind_run by exact Hlk. erewrite bind_run by done.
  erewrite bind_run by (by apply create_handle_run).
  pose proof (bulk_create_ok (to_uint64 count)) as Hb.
  destruct (hg_bulk_create (to_uint64 count)) as [rc bulk]. simpl in Hb, Hf. subst rc.
  erewrite bind_run by done.
  erewrite bind_run; [|unfold remote, zoom, run; rewrite Hf; done]. cbv iota.
  destruct told; [done|]. cbv iota beta delta [broken_reply].
  unfold hvac_comm_free_addr, assert_true. unfold_st. by rewrite Hfree.
Qed.

End transparency.

(** ** Closes that arrive later *)

Section late.
Context {H : Mercury} {HOk : MercuryOk H} {W : Type} {T : Transport H W}.
Context {S : FileService T} {SOk : FileServiceOk S}.
Context {Haddr : EqDecision (hg_addr (Transport:=T))}.
Context {E : environment}.

#[local] Existing Instances delayed_transport delayed_service delayed_service_ok.

(** C7. The client does not wait for its closes, and it does not matter: when
    close requests stay in flight after hvac_client_comm_gen_close_rpc returns
    and reach their servers at any later moment, in any order, between any
    other requests, every allowed call still has the answer of a process
    without the library (which opens the address file once for each server it
    comes to use); and no descriptor is lost on the way. Once the last close has
    arrived, the servers have open exactly the descriptors that the client's
    tables say it has open there, if they had at the start; descriptor 0 of a
    server, which the client takes for a failed open, is left out. *)
Theorem late_closes_are_invisible es (w : world (delayed T)) p answers :
  env_ok E → sim E w p → accounted (E:=E) w → all_allowed es = true →
  cold_run E (cl_conf (cl w)) es (dom (address_cache (cl w)), p) = Some answers →
  ∃ w', hvac_run E es w = Ret (w', answers) ∧
    let n := arrive_all T (net w') in
    fs_ok (served n) ∧ in_flight n = [] ∧
    ∀ a r, 0 < r → is_Some (fs_view (served n) a r) ↔ ∃ fd, is_remote E w' fd a r.
Proof.
  intros He Hs Hacc Ha Hc.
  destruct (run_accounted (T:=delayed_transport T) (Haddr:=Haddr) es w p answers He Hs Ha Hacc Hc)
    as (w' & p' & Hr & Hs' & Hacc').
  destruct (arrive_all_ok (net w') (sim_net _ _ Hs')) as (H1 & H2 & Hv).
  exists w'. split; [done|]. split; [done|]. split; [done|]. intros a r Hr0. rewrite Hv.
  by apply (accounted_exactly (T:=delayed_transport T) w' p').
Qed.

End late.
