(* ===== verification/System.v ===== *)
(** * The composed system

    A cluster of server nodes behind a transport that delivers: the instance
    of [Transport] in which a forwarded request runs the handler of
    [Server.v] on its node, and the proof that it keeps the promises of
    [Service.v], so that the client's transparency applies to it. A node whose
    handler faults is gone; a node may also be down, or go down by itself. What
    becomes of requests to it then is a parameter ([losses]). *)

From S2P Require Import Prelude CText Posix Wire Server ServerSpec Mover AddrFile FdState.
From S2P Require Import Comm Stats ClientComm ClientCommProps Client Wrappers Service.

Local Open Scope Z_scope.

(** The nodes, under the number an address resolves to. *)
Abbreviation cluster := (gmap Z server).

Section system.
Context {H : Mercury}.
Context (calloc_ok : Z → bool) (template : text) (resolve : text → option Z) (lost : losses Z).

(** A request that runs a handler on a node. *)
Definition on_node {A} (n : Z) (handler : St server A) (w : cluster) : cluster * reply A :=
  match w !! n with
  | None => (w, lost_reply (when_down lost n))
  | Some s =>
      match handler s with
      | Ret (s', a) => (<[n := s']> w, Reply a)
      | Fault _ => (delete n w, broken_reply (when_ended lost n))
      end
  end.

(** No handle can be made for an address that was not found ([with_addr]), so
    that nothing is forwarded to it. *)
Definition to_addr {A} (a : option Z) (handler : St server A) (w : cluster) : cluster * reply A :=
  match a with
  | Some n => on_node n handler w
  | None => (w, NotSent)
  end.

(** The return code of a request nobody waits for. *)
Definition sent {A} (r : cluster * reply A) : cluster * Z :=
  (fst r, match snd r with NotSent => 1 | _ => HG_SUCCESS end).

Definition with_addr (a : option Z) : Z :=
  match a with Some _ => HG_SUCCESS | None => 1 end.

#[local] Instance cluster_transport : Transport H cluster := {|
  hg_addr := Z;
  hg_addr_lookup2 _ a := resolve a;
  hg_addr_garbage := None;
  hg_output_garbage := {| seek_ret := 0 |};
  hg_create_ret _ a := with_addr a;
  hg_addr_free_ret _ a := with_addr a;
  hg_release_ret _ := HG_SUCCESS;
  forward_open a inp := to_addr a (hvac_open_rpc_handler 0 inp);
  forward_read a inp := to_addr a (hvac_rpc_handler calloc_ok 0 0 inp);
  forward_seek a inp := to_addr a (hvac_seek_rpc_handler 0 inp);
  forward_close a inp w := sent (to_addr a (hvac_close_rpc_handler 0 inp) w);
  forward_stats a inp w :=
    sent (to_addr a (mret (hvac_trigger_srv_print_stats_handler 0 0)) w)
|}.

(** ** What the interface observes *)

Definition node_view (s : server) (fd : Z) : option (bytes * Z) :=
  match px_fds (sv_os s) !! fd with
  | Some o =>
      if readable o then d ← px_data (sv_os s) !! ofd_ino o; Some (d, ofd_off o) else None
  | None => None
  end.

(** What happens to a node without a request: its mover moves on, or it goes
    down. The promises to the client are about nodes that go down only while
    they have no file open, and only if Mercury refuses requests to them then. *)
Inductive node_event : Type :=
| Moves (e : mover_event)
| GoesDown.

Definition idle (s : server) : bool :=
  bool_decide (map_Forall (λ _ o, readable o = false) (px_fds (sv_os s))).

Definition may_go (n : Z) (s : server) : bool :=
  idle s && (if when_down lost n is Refused then true else false).

Definition node_background (n : Z) (e : node_event) (w : cluster) : cluster :=
  match w !! n with
  | None => w
  | Some s =>
      match e with
      | Moves e => match mover_run template e s with Some s' => <[n := s']> w | None => w end
      | GoesDown => if may_go n s then delete n w else w
      end
  end.

#[local] Instance cluster_service : FileService cluster_transport := {|
  fs_ok w := map_Forall (λ _, server_inv) w;
  fs_known w n := when_down lost n = Refused ∨ is_Some (w !! n);
  fs_live w n := is_Some (w !! n);
  fs_view w n fd := w !! n ≫= λ s, node_view s fd;
  fs_file w n p := w !! n ≫= λ s, content (sv_os s) p;
  fs_event := (Z * node_event)%type;
  fs_background e := node_background (fst e) (snd e)
|}.

(** ** Lemmas *)

Lemma on_node_run {A} n (h : St server A) (w : cluster) s s' a :
  w !! n = Some s → h s = Ret (s', a) → on_node n h w = (<[n := s']> w, Reply a).
Proof. unfold on_node. by intros -> ->. Qed.

(** Replacing a node by one that kept its files. *)
Lemma cluster_extends (w : cluster) (n : Z) s s' :
  fs_ok w → w !! n = Some s → server_inv s' → files_extend (sv_os s) (sv_os s') →
  extends w (<[n := s']> w).
Proof.
  intros Ho Hn Hi He. split; simpl.
  - by apply map_Forall_insert_2.
  - intros a [?|Ha]; [by left|right]. destruct (decide (a = n)) as [->|].
    + rewrite lookup_insert_eq. by eexists.
    + by rewrite lookup_insert_ne.
  - intros a. destruct (decide (a = n)) as [->|]; [by rewrite lookup_insert_eq, Hn|].
    by rewrite lookup_insert_ne.
  - done.
  - intros a p d _. destruct (decide (a = n)) as [->|]; [|by rewrite lookup_insert_ne].
    rewrite lookup_insert_eq, Hn. simpl. by apply content_extend.
Qed.

Lemma cluster_view (w : cluster) (n : Z) s fd :
  w !! n = Some s → fs_view w n fd = node_view s fd.
Proof. simpl. by intros ->. Qed.

Lemma cluster_view_new (w : cluster) (n : Z) s' fd :
  fs_view (<[n := s']> w) n fd = node_view s' fd.
Proof. simpl. by rewrite lookup_insert_eq. Qed.

Lemma cluster_others (w : cluster) (n : Z) s s' fd :
  w !! n = Some s → (∀ f, f ≠ fd → node_view s' f = node_view s f) →
  others_same w (<[n := s']> w) n fd.
Proof.
  intros Hn Hf. unfold others_same. simpl. intros b f Hne. destruct (decide (b = n)) as [->|].
  - rewrite lookup_insert_eq, Hn. simpl. apply Hf. congruence.
  - by rewrite lookup_insert_ne.
Qed.

(** An open descriptor is a node's. *)
Lemma view_node (w : cluster) (n : Z) fd x : fs_view w n fd = Some x → is_Some (w !! n).
Proof. simpl. destruct (w !! n); [by eexists|done]. Qed.

Lemma idle_view s fd : idle s = true → node_view s fd = None.
Proof.
  intros Hi%bool_decide_eq_true. unfold node_view.
  destruct (px_fds (sv_os s) !! fd) as [o|] eqn:Ho; [|done]. by rewrite (Hi _ _ Ho).
Qed.

(** Views after changing one descriptor. *)
Lemma node_view_set_fds s s' m fd :
  sv_os s' = set_fds m (sv_os s) → m !! fd = px_fds (sv_os s) !! fd →
  node_view s' fd = node_view s fd.
Proof. intros Ho Hm. unfold node_view. rewrite Ho. simpl. by rewrite Hm. Qed.

Lemma node_view_Some s fd d o :
  node_view s fd = Some (d, o) → 
  ∃ f, px_fds (sv_os s) !! fd = Some f ∧ readable f = true ∧
    px_data (sv_os s) !! ofd_ino f = Some d ∧ ofd_off f = o.
Proof.
  unfold node_view. destruct (px_fds (sv_os s) !! fd) as [f|]; [|done].
  destruct (readable f) eqn:Hr; [|done]. destruct (px_data (sv_os s) !! ofd_ino f) eqn:E; [|done].
  intros [= <- <-]. eauto.
Qed.

(** ** The handlers keep the promises *)

Lemma cluster_open (w : cluster) (n : Z) path d :
  fs_ok w → fs_known w n → (fs_live w n → fs_file w n path = Some d) →
  ∃ w' r, forward_open (Some n) {| open_path := path |} w = (w', r) ∧ settles r ∧
    extends w w' ∧
    (open_ret r = -1 ∧ (∀ b f, fs_view w' b f = fs_view w b f) ∨
     0 ≤ open_ret r < 2 ^ 31 ∧ fs_view w n (open_ret r) = None ∧
     fs_view w' n (open_ret r) = Some (d, 0) ∧
     others_same w w' n (open_ret r)).
Proof.
  intros Ho Hk Hf. simpl in Hf, Hk. destruct (w !! n) as [s|] eqn:Hn.
  2:{ destruct Hk as [Hk|[? ?]]; [|done]. exists w, NotSent.
      split_and!; [simpl; unfold on_node; by rewrite Hn, Hk|by left|by split|by left]. }
  specialize (Hf (mk_is_Some _ _ eq_refl)). assert (Hi : server_inv s) by (by apply (Ho n)).
  simpl in Hf.
  destruct (open_handler_serves {| open_path := path |} s d Hi Hf) as (s' & out & Hrun & Hc).
  pose proof (open_handler_inv _ _ _ _ _ Hrun Hi) as Hi'.
  exists (<[n := s']> w), (Reply out). split; [by apply (on_node_run n _ w s)|].
  split; [by right; exists out|]. cbn [open_ret].
  cbv zeta in Hc. destruct (px_nofile (sv_os s) <=? first_free (px_fds (sv_os s))).
  - destruct Hc as [-> Hos]. split.
    + apply (cluster_extends w n s); [done..|]. by rewrite Hos.
    + left. split; [done|]. simpl. intros b f. destruct (decide (b = n)) as [->|].
      * rewrite lookup_insert_eq, Hn. simpl. unfold node_view. by rewrite Hos.
      * by rewrite lookup_insert_ne.
  - destruct Hc as (-> & Hr & _ & i & Hd & Hos). set (fd := first_free (px_fds (sv_os s))) in *.
    split; [apply (cluster_extends w n s); [done..|]; by rewrite Hos|]. right.
    split_and!; [lia|lia| | |].
    + rewrite (cluster_view w n s) by done. unfold node_view. unfold fd. by rewrite first_free_fresh.
    + rewrite cluster_view_new. unfold node_view. rewrite Hos. simpl.
      rewrite lookup_insert_eq. simpl. by rewrite Hd.
    + apply (cluster_others w n s); [done|]. intros f Hne.
      eapply node_view_set_fds; [exact Hos|]. by rewrite lookup_insert_ne.
Qed.

Lemma cluster_close (w : cluster) (n : Z) fd d o :
  fs_ok w → fs_view w n fd = Some (d, o) → 0 ≤ fd < 2 ^ 31 →
  ∃ w' r, forward_close (Some n) (mk_close_in fd) w = (w', r) ∧
    extends w w' ∧ fs_view w' n fd = None ∧ others_same w w' n fd.
Proof.
  intros Ho Hv Hfd. destruct (view_node _ _ _ _ Hv) as [s Hn]. assert (Hi : server_inv s) by (by apply (Ho n)).
  rewrite (cluster_view w n s) in Hv by done.
  apply node_view_Some in Hv as (f & Hf & _).
  assert (Hcf : close_fd (mk_close_in fd) = fd) by (apply to_int32_id; lia).
  destruct (close_handler_run (mk_close_in fd) s) as (s' & Hrun & Hos & _).
  { rewrite Hcf. by eexists. }
  pose proof (close_handler_inv _ _ _ _ Hrun Hi) as Hi'.
  rewrite Hcf in Hos. unfold os_close in Hos. rewrite Hf in Hos. simpl in Hos.
  exists (<[n := s']> w), HG_SUCCESS. split_and!.
  - simpl. by rewrite (on_node_run n _ w s s' tt).
  - apply (cluster_extends w n s); [done..|]. by rewrite Hos.
  - rewrite cluster_view_new. unfold node_view. rewrite Hos. simpl. by rewrite lookup_delete_eq.
  - apply (cluster_others w n s); [done|]. intros g Hne.
    eapply node_view_set_fds; [exact Hos|]. by rewrite lookup_delete_ne.
Qed.

Lemma cluster_background (w : cluster) e :
  fs_ok w → extends w (fs_background e w) ∧
    ∀ b f, fs_view (fs_background e w) b f = fs_view w b f.
Proof.
  intros Ho. destruct e as [n e]. simpl. unfold node_background.
  assert (Hrefl : extends w w) by (by split).
  destruct (w !! n) as [s|] eqn:Hn; [|done].
  assert (Hi : server_inv s) by (by apply (Ho n)). destruct e as [e|].
  - destruct (mover_run template e s) as [s'|] eqn:He; [|done].
    destruct (mover_run_os template e s s' He (si_os _ Hi)) as [Hex Hfds].
    split; [apply (cluster_extends w n s); [done..|by eapply mover_run_inv|done]|].
    intros b f. destruct (decide (b = n)) as [->|]; [|by rewrite lookup_insert_ne].
    rewrite lookup_insert_eq, Hn. simpl. unfold node_view. rewrite Hfds.
    destruct (px_fds (sv_os s) !! f) as [o|] eqn:Ef; [|done]. destruct (readable o); [|done].
    destruct (ok_fds _ (si_os _ Hi) _ _ Ef) as ([d Hd] & _).
    rewrite Hd. destruct Hex as [_ Hex]. by rewrite (lookup_weaken _ _ _ _ Hd Hex).
  - destruct (may_go n s) eqn:Hgo; [|done]. apply andb_true_iff in Hgo as [Hidle Hl].
    split; [split|]; simpl.
    + by apply map_Forall_delete.
    + intros a Ha. destruct (decide (a = n)) as [->|]; [left; by destruct (when_down lost n)|].
      by rewrite lookup_delete_ne.
    + intros a [x [_ Hx]%lookup_delete_Some]. by eexists.
    + done.
    + intros a p d [x [Hne Hx]%lookup_delete_Some]. by rewrite lookup_delete_ne.
    + intros b f. destruct (decide (b = n)) as [->|]; [|by rewrite lookup_delete_ne].
      rewrite lookup_delete_eq, Hn. simpl. by rewrite idle_view.
Qed.

Section read.
Context {HOk : MercuryOk H}.
Context (Hcalloc : ∀ n, 0 ≤ n < 2 ^ 31 → calloc_ok n = true).

Lemma cluster_read (w : cluster) (n : Z) fd d o count off :
  fs_ok w → fs_view w n fd = Some (d, o) →
  0 ≤ fd < 2 ^ 31 → 0 ≤ count < 2 ^ 31 → -1 ≤ off < 2 ^ 63 →
  let at_ := if off =? -1 then o else off in
  let m := n_read d at_ count in
  ∃ w' out, forward_read (Some n)
      (mk_rpc_in count (snd (hg_bulk_create (to_uint64 count))) fd off) w
      = (w', Reply (out, slice d at_ m)) ∧
    rpc_ret out = m ∧ extends w w' ∧
    fs_view w' n fd = Some (d, if off =? -1 then o + m else o) ∧
    others_same w w' n fd.
Proof.
  intros Ho Hv Hfd Hc Hoff at_ m. destruct (view_node _ _ _ _ Hv) as [s Hn]. assert (Hi : server_inv s) by (by apply (Ho n)).
  rewrite (cluster_view w n s) in Hv by done.
  apply node_view_Some in Hv as (f & Hf & Hr & Hd & Hfo).
  set (inp := mk_rpc_in count (snd (hg_bulk_create (to_uint64 count))) fd off).
  assert (Hi1 : input_val inp = count) by (apply to_int32_id; lia).
  assert (Hi2 : accessfd inp = fd) by (apply to_int32_id; lia).
  assert (Hi3 : rd_offset inp = off) by (apply to_int64_id; lia).
  destruct (ok_fds _ (si_os _ Hi) _ _ Hf) as (_ & _ & Hpos).
  destruct (read_handler_slice calloc_ok inp s f d (to_uint64 count)) as (s' & Hrun & Hos);
    rewrite ?Hi1, ?Hi2, ?Hi3; try done; [lia|by apply Hcalloc|rewrite to_uint64_id; lia|].
  rewrite Hi1, Hi2, Hi3, Hfo in *. fold at_ in Hrun, Hos. fold m in Hrun, Hos.
  pose proof (read_handler_inv calloc_ok _ _ _ _ _ _ Hrun Hi) as Hi'.
  exists (<[n := s']> w), {| rpc_ret := m |}.
  split; [by apply (on_node_run n _ w s)|]. split; [done|].
  assert (∃ f', sv_os s' = set_fds (<[fd := f']> (px_fds (sv_os s))) (sv_os s) ∧
    ofd_ino f' = ofd_ino f ∧ readable f' = true ∧ ofd_off f' = if off =? -1 then o + m else o)
    as (f' & Hos' & Hino & Hr' & Hoff').
  { destruct (off =? -1); [by eexists|]. exists f. split_and!; try done.
    rewrite insert_id by done. rewrite Hos. by destruct (sv_os s). }
  split_and!.
  - apply (cluster_extends w n s); [done..|]. by rewrite Hos'.
  - rewrite cluster_view_new. unfold node_view. rewrite Hos'. simpl.
    rewrite lookup_insert_eq, Hr', Hino, Hd. simpl. by rewrite Hoff'.
  - apply (cluster_others w n s); [done|]. intros g Hne.
    eapply node_view_set_fds; [exact Hos'|]. by rewrite lookup_insert_ne.
Qed.

Lemma cluster_service_ok : FileServiceOk cluster_service.
Proof.
  split.
  - done.
  - done.
  - done.
  - apply cluster_open.
  - intros w a fd d o count off Ho _. by apply cluster_read.
  - intros w a fd d o Ho _. by apply cluster_close.
  - apply cluster_background.
Qed.

(** A read at a negative offset other than -1 ends the node: its handler's
    assertion fails. *)
Lemma read_negative_handler (w : cluster) (n : Z) fd d o count off :
  fs_view w n fd = Some (d, o) →
  0 ≤ fd < 2 ^ 31 → 0 ≤ count < 2 ^ 31 → - 2 ^ 63 ≤ off < -1 →
  ∃ s, w !! n = Some s ∧
    hvac_rpc_handler calloc_ok 0 0
      (mk_rpc_in count (snd (hg_bulk_create (to_uint64 count))) fd off) s = Fault AssertFailed.
Proof.
  intros Hv Hfd Hc Hoff. destruct (view_node _ _ _ _ Hv) as [s Hn]. exists s. split; [done|].
  rewrite (cluster_view w n s) in Hv by done.
  apply node_view_Some in Hv as (f & Hf & Hr & Hd & Hfo).
  set (inp := mk_rpc_in count (snd (hg_bulk_create (to_uint64 count))) fd off).
  assert (Hi2 : accessfd inp = fd) by (apply to_int32_id; lia).
  assert (Hi3 : rd_offset inp = off) by (apply to_int64_id; lia).
  apply (read_handler_bad calloc_ok 0 0 inp (to_uint64 count) s (sv_os s)); try done.
  - rewrite to_uint64_id; lia.
  - unfold server_read, os_pread. rewrite Hi2, Hi3, Hf, Hd, Hr.
    destruct (Z.eqb_spec off (-1)); [lia|]. by destruct (Z.leb_spec 0 off); [lia|].
Qed.

Lemma cluster_read_negative (w : cluster) (n : Z) fd d o count off :
  fs_view w n fd = Some (d, o) →
  0 ≤ fd < 2 ^ 31 → 0 ≤ count < 2 ^ 31 → - 2 ^ 63 ≤ off < -1 →
  forward_read (Some n) (mk_rpc_in count (snd (hg_bulk_create (to_uint64 count))) fd off) w
  = (delete n w, broken_reply (when_ended lost n)).
Proof.
  intros Hv Hfd Hc Hoff. destruct (read_negative_handler w n fd d o count off) as (s & Hn & Hh); try done.
  simpl. unfold on_node. by rewrite Hn, Hh.
Qed.

End read.

End system.
