(* ===== verification/SystemProps.v ===== *)
(** * Properties of the composed system

    The cluster keeps the service's promises, so a fresh client of it is
    transparent; and the calls at the edge of that promise: a seek the library
    never sees, and the preads whose offset is negative. *)

From S2P Require Import Prelude CText Posix Wire Server ServerSpec Mover NodeProps AddrFile.
From S2P Require Import FdState Comm Stats ClientComm ClientCommProps Client Wrappers Service Sim Cut OpenSteps ReadSteps CallSteps.
From S2P Require Import Threads ThreadSteps ThreadInv Ledger ThreadsProps Job Room Delivery Transparency System.
From S2P Require Import ClientTables TableCalls.

Local Open Scope Z_scope.

(** ** A client that has opened nothing *)

Section start.
Context {H : Mercury} {W : Type} {T : Transport H W} {S : FileService T}.
Context (E : environment).

Record fresh_client (w : world W) : Prop := {
  fc_os : posix_ok (cl_os (cl w)) ∧ px_nofile (cl_os (cl w)) ≤ 2 ^ 31;
  fc_tables : fd_map (cl w) = ∅ ∧ fd_redir_map (cl w) = ∅ ∧ fd_states (cl w) = FdTable ∅ ∅;
  fc_on : g_disable_redirect (cl_conf (cl w)) = false ∧
          tl_disable_redirect (cl_conf (cl w)) = false;
  fc_net : fs_ok (net w);
  fc_shared path full d a : canonical E path = Some full →
    content (cl_os (cl w)) path = Some d → fs_live (net w) a → fs_file (net w) a full = Some d
}.

(** It is related to the same process without the library. *)
Lemma sim_fresh (w : world W) : fresh_client w → addressed E w → sim E w (cl_os (cl w)).
Proof.
  intros [[Ho Hn] (Hm & Hr & Hs) Hon Hnet Hsh] Had.
  split; try done.
  - rewrite Hs. split; [intros fd l|intros fd fd' l]; simpl; by rewrite lookup_empty.
  - intros fd path. by rewrite Hm, lookup_empty.
  - intros fd. unfold fd_rel. rewrite Hm, Hr, !lookup_empty.
    destruct (px_fds _ !! fd); [|done]. left. split; [done|].
    unfold is_local. by rewrite Hr, lookup_empty.
  - intros fd fd' t r (p & Hp & _). by rewrite Hm, lookup_empty in Hp.
Qed.

(** With nothing cached, it is enough that the address file is a list of the
    servers' posts in which every rank occurs. *)
Lemma posted_addressed (w : world W) posts :
  0 < g_hvac_server_count (cl_conf (cl w)) < 2 ^ 31 → address_cache (cl w) = ∅ →
  content (cl_os (cl w)) (address_file E) = Some (posts_text posts) → Forall good_post posts →
  (∀ rank, 0 ≤ rank < g_hvac_server_count (cl_conf (cl w)) → ∃ a t,
     first_post rank posts = Some a ∧ hg_addr_lookup2 (net w) a = Some t ∧ fs_known (net w) t) →
  addressed E w.
Proof.
  intros Hc Ha Hf Hg Hr. split; [done|]. intros rank Hrank.
  destruct (Hr rank Hrank) as (a & t & Hp & Ht & Hl). exists a, t. split_and!; try done.
  unfold addr_of. rewrite Ha, lookup_empty, Hf. simpl.
  unfold lookup_in_file. by rewrite find_rank_posts by (done || lia).
Qed.

End start.

Section cluster_props.
Context {H : Mercury} {HOk : MercuryOk H}.
Context (calloc_ok : Z → bool) (template : text) (resolve : text → option Z) (lost : losses Z).
Context (E : environment).
Context (Hcalloc : ∀ n, 0 ≤ n < 2 ^ 31 → calloc_ok n = true).

#[local] Existing Instance cluster_transport.
#[local] Existing Instance cluster_service.
#[local] Instance the_service_ok : FileServiceOk (cluster_service calloc_ok template resolve lost) :=
  cluster_service_ok calloc_ok template resolve lost Hcalloc.

Abbreviation sys_world := (world cluster).
Abbreviation sys_sim :=
  (sim (T:=cluster_transport calloc_ok resolve lost)
       (S:=cluster_service calloc_ok template resolve lost) E).
Abbreviation sys_remote := (is_remote (T:=cluster_transport calloc_ok resolve lost) E).
Abbreviation sys_fresh :=
  (fresh_client (T:=cluster_transport calloc_ok resolve lost)
     (S:=cluster_service calloc_ok template resolve lost) E).
Abbreviation sys_addressed :=
  (addressed (T:=cluster_transport calloc_ok resolve lost)
     (S:=cluster_service calloc_ok template resolve lost) E).
Abbreviation sys_run :=
  (hvac_run (T:=cluster_transport calloc_ok resolve lost)
     (S:=cluster_service calloc_ok template resolve lost) E).
Abbreviation sys_events := (list (event (S:=cluster_service calloc_ok template resolve lost))).

(** C2. End to end, from the start: the servers have posted their addresses in
    the job's address file, the client has just started and knows none of
    them, and the servers see the client's files. Then every sequence of calls
    the interface covers (opens without O_CREAT and O_TRUNC, reads of fewer
    than 2^31 bytes, preads of those at offsets from 0 on, and closes),
    interleaved with the servers' data movers, returns, with the results and
    bytes of a process without the library that opens the address file once
    for each server it comes to use; all it takes is room for those
    descriptors. A server may be down from the start, or go down while it has
    no file open, if HG_Forward refuses the requests to it; the other servers
    are up. *)
Theorem started_cluster_is_transparent (es : sys_events) (w : sys_world) posts :
  env_ok E → sys_fresh w → address_cache (cl w) = ∅ →
  content (cl_os (cl w)) (address_file E) = Some (posts_text posts) → Forall good_post posts →
  0 < g_hvac_server_count (cl_conf (cl w)) < 2 ^ 31 →
  (∀ rank, 0 ≤ rank < g_hvac_server_count (cl_conf (cl w)) → ∃ a n,
     first_post rank posts = Some a ∧ resolve a = Some n ∧
     (when_down lost n = Refused ∨ is_Some (net w !! n))) →
  all_allowed es = true →
  Z.of_nat (size (px_fds (cl_os (cl w))) + opens es) +
    g_hvac_server_count (cl_conf (cl w)) ≤ px_nofile (cl_os (cl w)) →
  ∃ w' answers, sys_run es w = Ret (w', answers) ∧
    cold_run E (cl_conf (cl w)) es (∅, cl_os (cl w)) = Some answers.
Proof.
  intros He Hf Ha Hc Hg Hcount Hposts Hal Hroom.
  assert (Hs : sys_sim w (cl_os (cl w))).
  { apply sim_fresh; [done|]. eapply posted_addressed; try done. }
  assert (Hp : is_Some (px_paths (cl_os (cl w)) !! address_file E)).
  { apply bind_Some in Hc as (i & Hi & _). by eexists. }
  destruct (cold_run_room E (cl_conf (cl w)) es (∅, cl_os (cl w)) ltac:(lia) Hp)
    as [answers Hans].
  { unfold demand. cbn [fst snd]. rewrite unknown_none. lia. }
  pose proof (run_cold (E:=E) es w _ He Hs Hal) as Hr.
  rewrite Ha, dom_empty_L, Hans in Hr. destruct Hr as (w' & _ & Hr & _). by exists w', answers.
Qed.

(** End to end, once the client has every server's address in its cache:
    for every sequence of allowed calls interleaved with the servers' data
    movers, and with servers that refuse requests once they are down, the
    library gives exactly the results and bytes of the operating system. *)
Theorem cluster_is_transparent (es : sys_events) (w : sys_world) :
  env_ok E → sys_fresh w → sys_addressed w → warm (cl w) → all_allowed es = true →
  ∃ w', sys_run es w = Ret (w', plain_run es (cl_os (cl w))).
Proof.
  intros He Hf Had Hw Ha.
  destruct (run_transparent (E:=E) es w _ He (sim_fresh E w Hf Had) Hw Ha) as (w' & _ & Hr & _).
  by exists w'.
Qed.

(** C30. A seek is not intercepted, so on a file a server serves it is lost:
    after any lseek the application makes, the next read gives what it would
    have given had the lseek not been made. *)
Theorem lseek_is_lost (w : sys_world) p fd t r off whence os' pos returns count s f :
  env_ok E → sys_sim w p → sys_remote w fd t r →
  os_lseek fd off whence (cl_os (cl w)) = (os', pos) → 0 ≤ count < 2 ^ 31 →
  ∃ w', wrap_read (T:=cluster_transport calloc_ok resolve lost) E returns fd count s f
          (set_cl (set_cl_os os' (cl w)) w) = Ret (w', snd (os_read fd count p)).
Proof.
  intros He Hs Hrem Hl Hc.
  assert (Hs' : sys_sim (set_cl (set_cl_os os' (cl w)) w) p).
  { by eapply sim_seek. }
  destruct (os_read fd count p) as [p' a] eqn:Hr.
  destruct (step_read (E:=E) _ _ returns _ _ s f _ _ He Hs' Hc Hr) as (w' & Hw & _). by exists w'.
Qed.

(** C32. A pread at offset -1, which the operating system refuses, is taken
    by the server for a sequential read: it returns the next bytes and moves
    the server's offset. *)
Theorem pread_minus_one_is_a_read (w : sys_world) p fd t r returns count s f :
  env_ok E → sys_sim w p → sys_remote w fd t r → 0 ≤ count < 2 ^ 31 →
  os_pread fd count (-1) p = (-1, []) ∧
  ∃ w', wrap_pread (T:=cluster_transport calloc_ok resolve lost) E returns fd count (-1) s f w
          = Ret (w', snd (os_read fd count p)) ∧
        sys_sim w' (fst (os_read fd count p)).
Proof.
  intros He Hs Hrem Hc. split; [|by eapply step_pread_minus_one].
  destruct (is_remote_view _ _ _ _ _ (sim_fds _ _ Hs fd) Hrem)
    as (_ & o & d & _ & Ho & _ & _ & _ & Hd & _).
  unfold os_pread. rewrite Ho, Hd. by rewrite andb_false_r.
Qed.

(** C31. A pread at any other negative offset, which the operating system
    would answer with -1, ends the server that holds the file: an assertion of
    its read handler fails and the node is gone. The caller does not survive it
    either: where Mercury reports the broken request to the callback the
    client's own assertion ends the process, and where it does not the calling
    thread waits for ever. *)
Theorem negative_pread_kills_server (w : sys_world) p fd t r returns count off s f :
  env_ok E → sys_sim w p → sys_remote w fd t r → 0 ≤ count < 2 ^ 31 →
  - 2 ^ 63 ≤ off < -1 →
  let request := mk_rpc_in count (snd (hg_bulk_create (to_uint64 count))) r off in
  os_pread fd count off p = (-1, []) ∧
  (∃ node, net w !! t = Some node ∧
     hvac_rpc_handler calloc_ok 0 0 request node = Fault AssertFailed) ∧
  forward_read (Transport:=cluster_transport calloc_ok resolve lost) (Some t) request (net w)
    = (delete t (net w), broken_reply (when_ended lost t)) ∧
  wrap_pread (T:=cluster_transport calloc_ok resolve lost) E returns fd count off s f w
    = Fault (if when_ended lost t then AssertFailed else Blocked).
Proof.
  intros He Hs Hrem Hc Hoff request.
  destruct (is_remote_view _ _ _ _ _ (sim_fds _ _ Hs fd) Hrem)
    as (_ & o & d & _ & Ho & _ & _ & Hrd & Hd & Hv).
  assert (Hr0 : 0 < r < 2 ^ 31) by (by destruct Hrem as (_ & _ & _ & ? & _)).
  split.
  { unfold os_pread. rewrite Ho, Hd, Hrd. by destruct (Z.leb_spec 0 off); [lia|]. }
  split; [by apply (read_negative_handler calloc_ok template resolve lost (net w) t r d (ofd_off o)); try lia|].
  split; [apply (cluster_read_negative calloc_ok template resolve lost (net w) t r d (ofd_off o)); done || lia|].
  clear request.
  destruct (host_of_remote (E:=E) w p fd t r He Hs Hrem) as (h & Hh).
  destruct (wrap_pread_remote (E:=E) w p returns fd t r count off s f h He Hs Hrem Hc Hh) as (mp & Hw).
  rewrite Hw. clear Hw. cbv zeta. apply (sim_mapped mp) in Hs.
  set (w1 := set_cl (set_real_mapped mp (cl w)) w) in *.
  assert (Hrem1 : sys_remote w1 fd t r) by (by destruct w as [[] ?]).
  assert (Hh1 : host_of_fd E fd w1 = Ret (w1, h)) by (apply Hh; by destruct w as [[] ?]).
  clear Hr0. destruct Hrem1 as (path & Hp & Hr & Hr0 & Hst & Hsrv).
  destruct (tracked_server w1 p fd path (env_hash He) Hs Hp)
    as (h' & t' & Hh' & Hlk & Hsrv' & Hlive).
  rewrite (host_of_fd_run w1 fd path Hp) in Hh1.
  assert (h' = h) as -> by congruence. assert (t' = t) as -> by congruence. subst r.
  assert (Hf := cluster_read_negative calloc_ok template resolve lost
    (net w1) t (default 0 (fd_redir_map (cl w1) !! fd)) d (ofd_off o) count off
    Hv ltac:(lia) Hc Hoff).
  unfold mbind at 1, St_bind at 1.
  by rewrite (read_rpc_broken (E:=E) w1 returns fd h t _ count off _ _ (sim_net _ _ Hs) Hlive
    eq_refl Hr0 Hst Hlk Hf eq_refl).
Qed.

(** C33. A server goes down while a client has a file open there, and what
    becomes of the next read is Mercury's to say. If HG_Forward refuses the
    request, the call goes on with the local file: a pread still has the
    operating system's answer, but a read has the answer at the local offset,
    which the reads served before did not move. If the callback is told, its
    assertion ends the process; if nothing comes back, the call never
    returns. *)
Theorem down_server_read_restarts (w : sys_world) p fd t r returns count off s f :
  env_ok E → sys_sim w p → sys_remote w fd t r → 0 ≤ count < 2 ^ 31 → 0 ≤ off < 2 ^ 63 →
  let w0 := World (cl w) (delete t (net w)) in
  let pread := wrap_pread (T:=cluster_transport calloc_ok resolve lost) E returns fd count off s f w0 in
  let read := wrap_read (T:=cluster_transport calloc_ok resolve lost) E returns fd count s f w0 in
  match when_down lost t with
  | Refused => (∃ w', pread = Ret (w', os_pread fd count off p)) ∧
               (∃ w', read = Ret (w', snd (os_read fd count (cl_os (cl w)))))
  | Reported => pread = Fault AssertFailed ∧ read = Fault AssertFailed
  | Silent => pread = Fault Blocked ∧ read = Fault Blocked
  end.
Proof.
  intros He Hs Hrem Hc Hoff w0 pread read.
  destruct (remote_reachable (E:=E) w p fd t r He Hs Hrem) as (path & h & Hp & Hh & Hsrv & Hk & _).
  assert (Hh0 : host_of_path E path w0 = Ret (w0, h)).
  { revert Hh. unfold host_of_path, client_gets. unfold_st. destruct w as [c n]. simpl.
    destruct (_ =? 0); [done|]. by intros [= <-]. }
  assert (Hgo : ∀ op o, allowed op = true → read_args op = Some (fd, count, o) → ∃ mp,
    let call := hvac_op (T:=cluster_transport calloc_ok resolve lost) E op (Timing s f returns) w0 in
    match when_down lost t with
    | Refused => call =
        op_end op (Timing s f returns) fd (-1, []) (World (set_real_mapped mp (cl w)) (delete t (net w)))
    | Reported => call = Fault AssertFailed
    | Silent => call = Fault Blocked
    end).
  { intros op o Ha Hop.
    destruct (unserved_read (T:=cluster_transport calloc_ok resolve lost)
      (S:=cluster_service calloc_ok template resolve lost) (E:=E) w0 op (Timing s f returns) fd count
      o t r path h (delete t (net w)) (lost_reply (when_down lost t))) as [mp Hr]; try done.
    { simpl. unfold on_node. by rewrite lookup_delete_eq. }
    exists mp. by destruct (when_down lost t). }
  destruct (Hgo (OpPread fd count off) off) as [mp1 Hpread]; [|done|].
  { simpl. rewrite !andb_true_iff, !Z.leb_le, ?Z.ltb_lt. lia. }
  destruct (Hgo (OpRead fd count) (-1)) as [mp2 Hread]; [|done|].
  { simpl. rewrite !andb_true_iff, !Z.leb_le, ?Z.ltb_lt. lia. }
  clear Hgo. cbn [hvac_op t_returns t_start t_finish] in Hpread, Hread.
  fold pread in Hpread. fold read in Hread.
  destruct (when_down lost t); [|by split..].
  rewrite Hpread, Hread. clear Hpread Hread pread read.
  destruct (is_remote_view _ _ _ _ _ (sim_fds _ _ Hs fd) Hrem)
    as (ol & o & d & Hol & Ho & Hi & Hm & Hrd & Hd & _).
  destruct (sim_files _ _ Hs) as (_ & Hdat & _).
  split.
  - cbn [op_end].
    change (fst (-1, []) =? -1) with true. cbv iota.
    erewrite bind_run; [|erewrite bind_run; [done|unfold client_sys, zoom, run; done]].
    erewrite bind_run by apply count_run. eexists.
    assert (os_pread fd count off (cl_os (cl w)) = os_pread fd count off p) as <-.
    { unfold os_pread. rewrite Hol, Ho, Hi, Hdat, Hd. unfold readable in *. by rewrite Hm. }
    replace (cl_os (cl (World (set_real_mapped mp1 (cl w)) (delete t (net w))))) with (cl_os (cl w))
      by (by destruct w as [[] ?]).
    destruct (os_pread fd count off (cl_os (cl w))) as [n b].
    cbn [fst snd]. unfold overlay. rewrite drop_nil, app_nil_r. reflexivity.
  - cbn [op_end].
    destruct (os_read fd count (cl_os (cl w))) as [os' [n b]] eqn:Hread.
    pose proof (os_read_narrow _ _ _ _ _ _ (sim_os _ _ Hs) Hread) as Hn.
    change (to_int32 (fst (-1, [])) =? -1) with true. cbv iota.
    erewrite bind_run; [|erewrite bind_run; [done|unfold client_sys, zoom, run;
      replace (cl_os (cl (World (set_real_mapped mp2 (cl w)) (delete t (net w))))) with (cl_os (cl w))
        by (by destruct w as [[] ?]); rewrite Hread; done]].
    erewrite bind_run by apply count_run. eexists. cbn [fst snd]. rewrite Hn.
    unfold overlay. by rewrite drop_nil, app_nil_r.
Qed.

End cluster_props.

(** ** Witnesses: one server holding one file, one client *)

Definition ex_env : environment := {|
  getenv name := if String.eqb name "SLURM_PROCID" then Some (s2t "0")
                 else if String.eqb name "SLURM_JOBID" then Some (s2t "77") else None;
  read_ahead _ _ := 4096;
  canonical p := Some p;
  current_path := None;
  hash _ := 12345;
  dlsym _ := true;
  init_res := InitResults true true true
|}.

Definition ex_resolve (a : text) : option Z := Some 0.

(** Requests to node 0 are refused when it is down; of others, nothing is
    heard. *)
Definition ex_lost : losses Z := Losses (λ n, if n =? 0 then Refused else Silent) (λ _, false).

Definition ex_sys_client : client :=
  Client (set_fds ∅ ex_os) ∅ ∅ (FdTable ∅ ∅) {[ 0 := s2t "ofi+tcp://n0" ]} comm_initial false
    (Config 1 (Some "/pfs") true false false) stats_initial ∅.

(** The node writes a log under its descriptor 0. *)
Definition ex_sys_node : server := {|
  sv_os := set_fds {[ 0 := Ofd 1 O_WRONLY 0 ]} ex_os; fd_to_path := ∅; path_cache_map := ∅;
  data_queue := []; mv_pc := MvTop; local_list := []
|}.

Definition ex_sys : world cluster := World ex_sys_client {[ 0 := ex_sys_node ]}.

Abbreviation ex_tr := (cluster_transport (H:=sized_mercury) (λ _, true) ex_resolve ex_lost).
Abbreviation ex_fs := (cluster_service (H:=sized_mercury) (λ _, true) ex_template ex_resolve ex_lost).

Lemma ex_env_ok : env_ok ex_env.
Proof. split; [intros p; simpl; lia|done|by eexists]. Qed.

Lemma ex_sys_fresh : fresh_client (T:=ex_tr) (S:=ex_fs) ex_env ex_sys.
Proof.
  split.
  - split; [|vm_compute; congruence]. destruct ex_os_ok as [Hp _]. split; [exact Hp|].
    intros fd o. simpl. by rewrite lookup_empty.
  - done.
  - done.
  - simpl. apply map_Forall_singleton, node_init_inv.
    destruct ex_os_ok as [Hp _]. split_and!; [split; [exact Hp|]|vm_compute; congruence|done..].
    intros fd o. simpl. intros [<- <-]%lookup_singleton_Some. split_and!; [by eexists|done|done].
  - intros path full d a [= <-] Hd [s Hs]. simpl in Hs.
    apply lookup_singleton_Some in Hs as [<- <-]. simpl. rewrite lookup_singleton_eq. exact Hd.
Qed.

Lemma ex_sys_warm : warm (cl ex_sys).
Proof. intros rank Hr. simpl in *. assert (rank = 0) as -> by lia. by eexists. Qed.

Lemma ex_sys_addressed : addressed (T:=ex_tr) (S:=ex_fs) ex_env ex_sys.
Proof.
  split; [done|]. intros rank Hr. simpl in *.
  assert (rank = 0) as -> by lia. eexists _, 0. split_and!; [reflexivity|done|by left].
Qed.

Lemma ex_sys_sim : sim (T:=ex_tr) (S:=ex_fs) ex_env ex_sys (cl_os (cl ex_sys)).
Proof. apply sim_fresh; [exact ex_sys_fresh|exact ex_sys_addressed]. Qed.

(** The same system before anything is cached: two servers have posted their
    addresses on the shared file system. *)
Definition ex_posted_os : posix :=
  add_file "./.ports.cfg.77" 2 (posts_text ex_posts) (set_fds ∅ ex_os).

Definition ex_start_node : server := {|
  sv_os := ex_posted_os; fd_to_path := ∅; path_cache_map := ∅; data_queue := [];
  mv_pc := MvTop; local_list := []
|}.

Definition ex_start_client : client :=
  Client ex_posted_os ∅ ∅ (FdTable ∅ ∅) ∅ comm_initial false
    (Config 2 (Some "/pfs") true false false) stats_initial ∅.

Definition ex_start : world cluster :=
  World ex_start_client {[ 0 := ex_start_node ]}.

Lemma ex_posted_os_ok : posix_ok ex_posted_os.
Proof.
  split.
  - intros path i. unfold ex_posted_os. simpl.
    intros [[_ <-]|[_ [_ <-]%lookup_singleton_Some]]%lookup_insert_Some; by eexists.
  - intros fd o. simpl. by rewrite lookup_empty.
Qed.

Lemma ex_start_fresh : fresh_client (T:=ex_tr) (S:=ex_fs) ex_env ex_start.
Proof.
  split.
  - split; [apply ex_posted_os_ok|vm_compute; congruence].
  - done.
  - done.
  - simpl. apply map_Forall_singleton, node_init_inv.
    split_and!; [apply ex_posted_os_ok|vm_compute; congruence|done..].
  - intros path full d a [= <-] Hd [s Hs]. simpl in Hs.
    apply lookup_singleton_Some in Hs as [<- <-]. simpl. rewrite lookup_singleton_eq. exact Hd.
Qed.

Definition ts0 : timespec := {| tv_sec := 0; tv_nsec := 0 |}.
Definition ex_t : timing := Timing ts0 ts0 [].

(** Open, read 4, let the server move its files, pread 3 at 8, read 9, close,
    read again; the server goes down; open and read. *)
Definition ex_events : list (event (S:=ex_fs)) :=
  [ App (OpOpen ex_path O_RDONLY) ex_t; App (OpRead 0 4) ex_t;
    Background (S:=ex_fs) (0, Moves EvWait); App (OpPread 0 3 8) ex_t; App (OpRead 0 9) ex_t;
    App (OpClose 0) ex_t; App (OpRead 0 1) ex_t; Background (S:=ex_fs) (0, GoesDown);
    App (OpOpen ex_path O_RDONLY) ex_t; App (OpRead 0 4) ex_t ].

Definition ex_answers : list (Z * bytes) :=
  [(0, []); (4, s2t "0123"); (2, s2t "89"); (6, s2t "456789"); (0, []); (-1, []); (0, []);
   (4, s2t "0123")].

Lemma library_is_transparent_witness :
  ∃ w', hvac_run (T:=ex_tr) (S:=ex_fs) ex_env ex_events ex_sys = Ret (w', ex_answers).
Proof.
  pose proof (library_is_transparent (HOk:=sized_mercury_ok) (T:=ex_tr) (S:=ex_fs)
    (SOk:=cluster_service_ok (HOk:=sized_mercury_ok) (λ _, true) ex_template ex_resolve ex_lost
            (λ _ _, eq_refl))
    ex_events ex_sys (cl_os (cl ex_sys)) ex_env_ok ex_sys_sim
    ltac:(vm_compute; reflexivity)) as Hr.
  replace (cold_run ex_env (cl_conf (cl ex_sys)) ex_events _) with (Some ex_answers) in Hr
    by (vm_compute; reflexivity).
  exact Hr.
Defined.

(** The second file the application opens gets descriptor 2: descriptor 1 is
    the address file. *)
Definition ex_start_events : list (event (S:=ex_fs)) :=
  [ App (OpOpen ex_path O_RDONLY) ex_t; App (OpRead 0 4) ex_t;
    App (OpOpen ex_path O_RDONLY) ex_t; App (OpPread 2 3 8) ex_t; App (OpClose 0) ex_t ].

Lemma started_cluster_is_transparent_witness :
  ∃ w', hvac_run (T:=ex_tr) (S:=ex_fs) ex_env ex_start_events ex_start
    = Ret (w', [(0, []); (4, s2t "0123"); (2, []); (2, s2t "89"); (0, [])]).
Proof.
  destruct (started_cluster_is_transparent (HOk:=sized_mercury_ok) (λ _, true) ex_template
    ex_resolve ex_lost ex_env (λ _ _, eq_refl) ex_start_events ex_start ex_posts ex_env_ok
    ex_start_fresh eq_refl ltac:(vm_compute; reflexivity)) as (w' & answers & Hr & Ha).
  - pose proof ex_posts_good as Hg. by apply Forall_app in Hg as [Hg _].
  - split; reflexivity.
  - simpl. intros rank Hr. assert (rank = 0 ∨ rank = 1) as [-> | ->] by lia;
      eexists _, 0; (split; [reflexivity|split; [reflexivity|by left]]).
  - vm_compute. reflexivity.
  - vm_compute. congruence.
  - exists w'. rewrite Hr. do 2 f_equal. vm_compute in Ha. by injection Ha as <-.
Defined.

Lemma cluster_is_transparent_witness :
  ∃ w', hvac_run (T:=ex_tr) (S:=ex_fs) ex_env ex_events ex_sys = Ret (w', ex_answers).
Proof.
  destruct (cluster_is_transparent (HOk:=sized_mercury_ok) (λ _, true) ex_template ex_resolve ex_lost
    ex_env (λ _ _, eq_refl) ex_events ex_sys ex_env_ok ex_sys_fresh
    ex_sys_addressed ex_sys_warm ltac:(vm_compute; reflexivity)) as (w' & Hr).
  exists w'. rewrite Hr. vm_compute. reflexivity.
Defined.

(** The system after the application has opened the file. *)
Definition ex_opened : world cluster :=
  match hvac_op (T:=ex_tr) ex_env (OpOpen ex_path O_RDONLY) ex_t ex_sys with
  | Ret (w, _) => w
  | Fault _ => ex_sys
  end.

Definition ex_plain : posix := fst (plain_op (OpOpen ex_path O_RDONLY) (cl_os (cl ex_sys))).

Lemma ex_opened_sim : sim (T:=ex_tr) (S:=ex_fs) ex_env ex_opened ex_plain.
Proof.
  pose proof (step_op (HOk:=sized_mercury_ok) (T:=ex_tr) (S:=ex_fs)
    (SOk:=cluster_service_ok (HOk:=sized_mercury_ok) (λ _, true) ex_template ex_resolve ex_lost
            (λ _ _, eq_refl))
    ex_sys (cl_os (cl ex_sys)) (OpOpen ex_path O_RDONLY) ex_t ex_env_ok ex_sys_sim eq_refl) as Hop.
  destruct Hop as (w' & Hr & Hs & _).
  unfold ex_opened. rewrite Hr. exact Hs.
Qed.

Lemma ex_opened_remote : is_remote (T:=ex_tr) ex_env ex_opened 0 0 1.
Proof.
  exists ex_path. split_and!; [vm_compute; reflexivity|vm_compute; reflexivity|lia|lia|
    vm_compute; reflexivity|vm_compute; reflexivity].
Qed.

(** After a read of four bytes; then the server goes down. *)
Definition ex_read_4 : world cluster :=
  match hvac_op (T:=ex_tr) ex_env (OpRead 0 4) ex_t ex_opened with
  | Ret (w, _) => w
  | Fault _ => ex_opened
  end.

Lemma ex_read_4_sim :
  sim (T:=ex_tr) (S:=ex_fs) ex_env ex_read_4 (fst (plain_op (OpRead 0 4) ex_plain)).
Proof.
  destruct (step_read_op (HOk:=sized_mercury_ok) (T:=ex_tr) (S:=ex_fs)
    (SOk:=cluster_service_ok (HOk:=sized_mercury_ok) (λ _, true) ex_template ex_resolve ex_lost
            (λ _ _, eq_refl))
    ex_opened ex_plain (OpRead 0 4) ex_t 0 4 (-1) ex_env_ok ex_opened_sim eq_refl eq_refl)
    as (w' & Hr & Hs & _).
  unfold ex_read_4. rewrite Hr. exact Hs.
Qed.

Lemma ex_read_4_remote : is_remote (T:=ex_tr) ex_env ex_read_4 0 0 1.
Proof.
  exists ex_path. split_and!; [vm_compute; reflexivity|vm_compute; reflexivity|lia|lia|
    vm_compute; reflexivity|vm_compute; reflexivity].
Qed.

Lemma down_server_read_restarts_witness :
  ∃ w', wrap_read (T:=ex_tr) ex_env [] 0 4 ts0 ts0 (World (cl ex_read_4) (delete 0 (net ex_read_4)))
    = Ret (w', (4, s2t "0123")).
Proof.
  destruct (down_server_read_restarts (HOk:=sized_mercury_ok) (λ _, true) ex_template ex_resolve ex_lost
    ex_env (λ _ _, eq_refl) ex_read_4 (fst (plain_op (OpRead 0 4) ex_plain)) 0 0 1 [] 4 0 ts0 ts0
    ex_env_ok ex_read_4_sim ex_read_4_remote ltac:(lia) ltac:(lia)) as (_ & w' & Hr).
  exists w'. etrans; [exact Hr|]. vm_compute. reflexivity.
Defined.

Lemma lseek_is_lost_witness :
  ∃ w', wrap_read (T:=ex_tr) ex_env [] 0 4 ts0 ts0
    (set_cl (set_cl_os (fst (os_lseek 0 5 SEEK_SET (cl_os (cl ex_opened)))) (cl ex_opened)) ex_opened)
    = Ret (w', (4, s2t "0123")).
Proof.
  destruct (lseek_is_lost (HOk:=sized_mercury_ok) (λ _, true) ex_template ex_resolve ex_lost ex_env
    (λ _ _, eq_refl) ex_opened ex_plain 0 0 1 5 SEEK_SET
    (fst (os_lseek 0 5 SEEK_SET (cl_os (cl ex_opened)))) 5 [] 4 ts0 ts0
    ex_env_ok ex_opened_sim ex_opened_remote ltac:(vm_compute; reflexivity) ltac:(lia))
    as (w' & Hr).
  exists w'. rewrite Hr. vm_compute. reflexivity.
Defined.

Lemma pread_minus_one_is_a_read_witness :
  os_pread 0 4 (-1) ex_plain = (-1, []) ∧
  ∃ w', wrap_pread (T:=ex_tr) ex_env [] 0 4 (-1) ts0 ts0 ex_opened = Ret (w', (4, s2t "0123")).
Proof.
  destruct (pread_minus_one_is_a_read (HOk:=sized_mercury_ok) (λ _, true) ex_template ex_resolve ex_lost
    ex_env (λ _ _, eq_refl) ex_opened ex_plain 0 0 1 [] 4 ts0 ts0
    ex_env_ok ex_opened_sim ex_opened_remote ltac:(lia)) as (Hp & w' & Hr & _).
  split; [exact Hp|]. exists w'. rewrite Hr. vm_compute. reflexivity.
Defined.

Lemma negative_pread_kills_server_witness :
  (∃ node, net ex_opened !! 0 = Some node ∧
     hvac_rpc_handler (H:=sized_mercury) (λ _, true) 0 0
       (mk_rpc_in 4 (snd (hg_bulk_create (to_uint64 4))) 1 (-7)) node = Fault AssertFailed) ∧
  wrap_pread (T:=ex_tr) ex_env [] 0 4 (-7) ts0 ts0 ex_opened = Fault Blocked.
Proof.
  destruct (negative_pread_kills_server (HOk:=sized_mercury_ok) (λ _, true) ex_template
    ex_resolve ex_lost ex_env (λ _ _, eq_refl) ex_opened ex_plain 0 0 1 [] 4 (-7) ts0 ts0
    ex_env_ok ex_opened_sim ex_opened_remote ltac:(lia) ltac:(lia)) as (_ & Hn & _ & Hw).
  split; [exact Hn|exact Hw].
Defined.

(** Thread 1 opens the file; thread 2 reads the descriptor before the open is
    answered, and waits; thread 3 calls later and is served first. *)
Definition ex_labels : list (thread_label (S:=ex_fs)) :=
  [ TCall 1 (OpOpen ex_path O_RDONLY) ex_t; TCall 2 (OpRead 0 4) ex_t;
    TServe 1; TFree 1; TTrigger 1; TWake 2; TCall 3 (OpRead 0 4) ex_t;
    TServers (S:=ex_fs) (0, Moves EvWait); TServe 3; TServe 2; TFree 3; TTrigger 2; TFree 2;
    TReturn 1; TTrigger 3; TReturn 2; TReturn 3; TCall 1 (OpClose 0) ex_t ].

Definition ex_history : list happening :=
  [ Invoke 1 (OpOpen ex_path O_RDONLY); Effect 1 (OpOpen ex_path O_RDONLY) (0, []);
    Invoke 2 (OpRead 0 4); Invoke 3 (OpRead 0 4);
    Effect 3 (OpRead 0 4) (4, s2t "0123"); Effect 2 (OpRead 0 4) (4, s2t "4567");
    Return 1 (0, []); Return 2 (4, s2t "4567"); Return 3 (4, s2t "0123");
    Invoke 1 (OpClose 0); Effect 1 (OpClose 0) (0, []); Return 1 (0, []) ].

Definition history_of {A} (r : option (res (A * list happening))) : option (list happening) :=
  match r with Some (Ret (_, h)) => Some h | _ => None end.

Lemma history_of_Some {A} (r : option (res (A * list happening))) h :
  history_of r = Some h → ∃ s, r = Some (Ret (s, h)).
Proof. destruct r as [[[s h']|]|]; intros [= ->]. by exists s. Qed.

Abbreviation ex_runs := (threads_runs (T:=ex_tr) (S:=ex_fs) ex_env).

Lemma ex_start_sim : sim (T:=ex_tr) (S:=ex_fs) ex_env ex_start (cl_os (cl ex_start)).
Proof.
  apply sim_fresh; [exact ex_start_fresh|].
  eapply (posted_addressed (T:=ex_tr) (S:=ex_fs) ex_env ex_start ex_posts);
    [split; reflexivity|reflexivity|vm_compute; reflexivity| |].
  - pose proof ex_posts_good as Hg. by apply Forall_app in Hg as [Hg _].
  - simpl. intros rank Hr. assert (rank = 0 ∨ rank = 1) as [-> | ->] by lia;
      eexists _, 0; split_and!; [reflexivity|done|by left|reflexivity|done|by left].
Qed.

Lemma ex_threads_run : ∃ s, ex_runs ex_labels (Threads ex_sys ∅) = Some (Ret (s, ex_history)).
Proof. apply history_of_Some. vm_compute. reflexivity. Qed.

(** From the cold start, where the first open also opens the address file; its
    server's descriptor is 0, so that file stays local. *)
Definition ex_cold_labels : list (thread_label (S:=ex_fs)) :=
  [ TCall 1 (OpOpen ex_path O_RDONLY) ex_t; TServe 1; TFree 1; TTrigger 1;
    TCall 2 (OpRead 0 4) ex_t; TCall 3 (OpOpen ex_path O_RDONLY) ex_t; TReturn 1;
    TCall 4 (OpRead 2 4) ex_t; TServe 3; TTrigger 3; TWake 4; TServe 4; TFree 4; TFree 3;
    TTrigger 4; TReturn 4; TReturn 3 ].

Definition ex_cold_history : list happening :=
  [ Invoke 1 (OpOpen ex_path O_RDONLY); Effect 1 (OpOpen ex_path O_RDONLY) (0, []);
    Invoke 2 (OpRead 0 4); Effect 2 (OpRead 0 4) (4, s2t "0123"); Return 2 (4, s2t "0123");
    Invoke 3 (OpOpen ex_path O_RDONLY); Effect 3 (OpOpen ex_path O_RDONLY) (2, []);
    Return 1 (0, []); Invoke 4 (OpRead 2 4); Effect 4 (OpRead 2 4) (4, s2t "0123");
    Return 4 (4, s2t "0123"); Return 3 (2, []) ].

Lemma ex_cold_run : ∃ s,
  ex_runs ex_cold_labels (Threads ex_start ∅) = Some (Ret (s, ex_cold_history)).
Proof. apply history_of_Some. vm_compute. reflexivity. Qed.

Lemma concurrent_calls_are_linearizable_witness :
  ∃ known p', replay ex_env (cl_conf (cl ex_start)) ex_cold_history (∅, ex_posted_os)
      = Some (known, p') ∧
    is_Some (phase_after 4 ex_cold_history Outside) ∧ px_fds p' !! 1 = Some (Ofd 2 O_RDWR 52).
Proof.
  destruct ex_cold_run as [s Hr].
  destruct (concurrent_calls_are_linearizable (HOk:=sized_mercury_ok) (T:=ex_tr) (S:=ex_fs)
    (SOk:=cluster_service_ok (HOk:=sized_mercury_ok) (λ _, true) ex_template ex_resolve ex_lost
            (λ _ _, eq_refl))
    ex_cold_labels ex_start ex_posted_os _ ex_env_ok ex_start_sim ltac:(vm_compute; reflexivity) Hr)
    as (known & p' & Hrep & Hph & _).
  change (dom (address_cache (cl ex_start))) with (∅ : gset Z) in Hrep.
  exists known, p'. split; [exact Hrep|]. split; [apply Hph|].
  assert ((λ x, px_fds x.2 !! 1) <$> replay ex_env (cl_conf (cl ex_start)) ex_cold_history
    (∅, ex_posted_os) = Some (Some (Ofd 2 O_RDWR 52))) as Hc by (vm_compute; reflexivity).
  rewrite Hrep in Hc. by injection Hc.
Defined.

Lemma warm_concurrent_calls_are_direct_calls_witness :
  ∃ p', plain_replay ex_history (cl_os (cl ex_sys)) = Some p' ∧
    is_Some (phase_after 2 ex_history Outside).
Proof.
  destruct ex_threads_run as [s Hr].
  destruct (warm_concurrent_calls_are_direct_calls (HOk:=sized_mercury_ok) (T:=ex_tr) (S:=ex_fs)
    (SOk:=cluster_service_ok (HOk:=sized_mercury_ok) (λ _, true) ex_template ex_resolve ex_lost
            (λ _ _, eq_refl))
    ex_labels ex_sys (cl_os (cl ex_sys)) _ ex_env_ok ex_sys_sim ex_sys_warm
    ltac:(vm_compute; reflexivity) Hr) as (s' & h & p' & Heq & Hrep & Hph & _).
  injection Heq as <- <-. exists p'. split; [exact Hrep|apply Hph].
Defined.

(** After two steps thread 2 waits for the open of thread 1. *)
Lemma ex_threads_prefix : ∃ s,
  ex_runs (take 2 ex_labels) (Threads ex_sys ∅) = Some (Ret (s, take 3 ex_history)) ∧
  bool_decide (is_Some (th_calls s !! 2%nat)) = true.
Proof.
  assert (match ex_runs (take 2 ex_labels) (Threads ex_sys ∅) with
    | Some (Ret (s, h)) => Some (bool_decide (is_Some (th_calls s !! 2%nat)), h)
    | _ => None
    end = Some (true, take 3 ex_history)) as Hr by (vm_compute; reflexivity).
  destruct (ex_runs _ _) as [[[s h]|]|]; try discriminate.
  injection Hr as Hb Hh. subst h. exists s. split; [reflexivity|exact Hb].
Qed.

Lemma concurrent_calls_complete_witness :
  ∃ s h u l s' h', ex_runs (take 2 ex_labels) (Threads ex_sys ∅) = Some (Ret (s, h)) ∧
    internal u l = true ∧ threads_run (T:=ex_tr) (S:=ex_fs) ex_env l s = Some (Ret (s', h')).
Proof.
  destruct ex_threads_prefix as (s & Hr & Ht).
  destruct (concurrent_calls_complete (HOk:=sized_mercury_ok) (T:=ex_tr) (S:=ex_fs)
    (SOk:=cluster_service_ok (HOk:=sized_mercury_ok) (λ _, true) ex_template ex_resolve ex_lost
            (λ _ _, eq_refl))
    (take 2 ex_labels) ex_sys (cl_os (cl ex_sys)) s (take 3 ex_history) ex_env_ok ex_sys_sim)
    as (Hprog & _).
  - intros fd [[path Hp] _]. simpl in Hp. by rewrite lookup_empty in Hp.
  - vm_compute. reflexivity.
  - exact Hr.
  - destruct (Hprog 2%nat) as (u & l & s' & h' & _ & Hl & Hrun); [by apply bool_decide_eq_true in Ht|].
    exists s, (take 3 ex_history), u, l, s', h'. split; [exact Hr|]. split; [exact Hl|exact Hrun].
Defined.

Lemma uninterrupted_call_is_the_wrapper_witness :
  ∃ ls h w', ex_runs ls (Threads ex_sys ∅) = Some (Ret (Threads w' ∅, h)) ∧
    last h = Some (Return 3 (0, [])).
Proof.
  assert (match hvac_op (T:=ex_tr) ex_env (OpOpen ex_path O_RDONLY) ex_t ex_sys with
    | Ret (_, a) => Some a | Fault _ => None end = Some (0, [])) as Ha
    by (vm_compute; reflexivity).
  destruct (hvac_op (T:=ex_tr) ex_env (OpOpen ex_path O_RDONLY) ex_t ex_sys) as [[w' a]|] eqn:Hr;
    [|discriminate]. injection Ha as ->.
  destruct (uninterrupted_call_is_the_wrapper (T:=ex_tr) (S:=ex_fs) (E:=ex_env) 3
    (OpOpen ex_path O_RDONLY) ex_t ex_sys w' ∅ _ ltac:(intros fd c o Hc; discriminate Hc)
    (lookup_empty _) Hr) as (ls & h & Hrun & Hlast & _).
  exists ls, h, w'. split; [exact Hrun|exact Hlast].
Defined.

Lemma accesses_are_the_calls_witness :
  ∃ w', hvac_op (T:=ex_tr) ex_env (OpOpen ex_path O_RDONLY) ex_t ex_sys = Ret (w', (0, [])) ∧
    alone (call_prog (hash ex_env) 1 (COpen ex_path 0)) (tables_of (cl ex_sys)) (tables_of (cl w')) ∧
    fd_redir_map (cl w') !! 0 = Some 1.
Proof.
  assert (match hvac_op (T:=ex_tr) ex_env (OpOpen ex_path O_RDONLY) ex_t ex_sys with
    | Ret (w, a) => Some (a, fd_redir_map (cl w) !! 0) | Fault _ => None end
    = Some ((0, []), Some 1)) as Ha by (vm_compute; reflexivity).
  destruct (hvac_op (T:=ex_tr) ex_env (OpOpen ex_path O_RDONLY) ex_t ex_sys) as [[w' a]|] eqn:Hr;
    [|discriminate]. apply (inj Some) in Ha. apply pair_eq in Ha as [-> Hm].
  pose proof (accesses_are_the_calls (T:=ex_tr) ex_env _ _ _ _ _ Hr) as Hal.
  exists w'. split; [reflexivity|]. split; [exact Hal|exact Hm].
Defined.

(** Thread 2 waits for the open of thread 1. *)
Definition ex_waiting : threads (T:=ex_tr) :=
  match ex_runs (take 2 ex_labels) (Threads ex_sys ∅) with
  | Some (Ret (s, _)) => s
  | _ => Threads ex_sys ∅
  end.

Definition ex_opener : call (T:=ex_tr) :=
  Call (OpOpen ex_path O_RDONLY) ex_t 0
    (InFlight (T:=ex_tr) (Some (0 : hg_addr (Transport:=ex_tr))) false (Sent (OpenRequest {| open_path := ex_path |}))).

(** What the calls of threads 1 and 2 are, as plain data. *)
Definition ex_open_of (c : option (call (T:=ex_tr))) : option (file_op * timing * Z * Z * bool * string) :=
  match c with
  | Some (Call op tm fd (InFlight (Some b) freed (Sent (OpenRequest inp)))) =>
      Some (op, tm, fd, b, freed, open_path inp)
  | _ => None
  end.

Definition ex_wait_of (c : option (call (T:=ex_tr))) : option (file_op * timing * Z * Z * Z) :=
  match c with
  | Some (Call op tm fd (Threads.Waiting _ _ count off)) => Some (op, tm, fd, count, off)
  | _ => None
  end.

Lemma ex_waiting_calls : ∃ l h,
  th_calls ex_waiting !! 1%nat = Some ex_opener ∧
  th_calls ex_waiting !! 2%nat = Some (Call (OpRead 0 4) ex_t 0 (Threads.Waiting l h 4 (-1))).
Proof.
  assert (ex_open_of (th_calls ex_waiting !! 1%nat) =
    Some (OpOpen ex_path O_RDONLY, ex_t, 0, 0, false, ex_path)) as H1 by (vm_compute; reflexivity).
  assert (ex_wait_of (th_calls ex_waiting !! 2%nat) = Some (OpRead 0 4, ex_t, 0, 4, -1)) as H2
    by (vm_compute; reflexivity).
  destruct (th_calls ex_waiting !! 1%nat) as [[op tm fd [|[b|] freed [[|[q]]| | |]]]|]; try discriminate H1.
  destruct (th_calls ex_waiting !! 2%nat) as [[op2 tm2 fd2 [l h count off|]]|]; try discriminate H2.
  injection H1 as -> -> -> -> -> ->. injection H2 as -> -> -> -> ->. exists l, h. by split.
Qed.

Lemma ex_waiting_related : ∃ p,
  sim (T:=ex_tr) (S:=ex_fs) ex_env (th_world ex_waiting) p ∧
  opening (T:=ex_tr) (S:=ex_fs) ex_env (th_world ex_waiting) p 0 ex_path 0 ex_bytes.
Proof.
  destruct ex_threads_prefix as (s & Hr & _).
  assert (Hs : ex_waiting = s) by (unfold ex_waiting; by rewrite Hr).
  destruct ex_waiting_calls as (_ & _ & Ht & _).
  assert (Hd : disciplined ex_env (take 2 ex_labels) (Threads (T:=ex_tr) ex_sys ∅) = true)
    by (vm_compute; reflexivity).
  assert (Hlive : fs_live (FileService:=ex_fs) (net (th_world ex_waiting)) 0)
    by (vm_compute; by eexists).
  assert (Hfile : fs_file (FileService:=ex_fs) (net (th_world ex_waiting)) 0 ex_path = Some ex_bytes)
    by (vm_compute; reflexivity).
  rewrite Hs in *. clear Hs.
  pose proof (threads_steps (HOk:=sized_mercury_ok) (T:=ex_tr) (S:=ex_fs)
    (SOk:=cluster_service_ok (HOk:=sized_mercury_ok) (λ _, true) ex_template ex_resolve ex_lost
            (λ _ _, eq_refl)) (E:=ex_env) (pending_open ex_sys) _ _ _ _ _ _ ex_env_ok
    (threads_start (T:=ex_tr) (S:=ex_fs) (E:=ex_env) ex_sys _ ex_sys_sim) Hd Hr) as Hends.
  destruct Hends as [(s' & h' & p & ph & Heq & _ & _ & Hi & _)|[Hno _]]; [|inversion Hno].
  injection Heq as <- _. exists p. split; [apply (ti_sim _ _ _ _ _ Hi)|].
  pose proof (ti_calls _ _ _ _ _ Hi 1%nat) as Hc.
  rewrite Ht in Hc. destruct Hc as (_ & b & [= <-] & _ & Hfl). cbn [in_flight_ok c_stage ex_opener] in Hfl.
  destruct Hfl as (_ & _ & full & d & Ho & [= <-]).
  assert (d = ex_bytes) as ->; [|exact Ho].
  pose proof (op_file _ _ _ _ _ _ Ho Hlive) as Hf. rewrite Hfile in Hf. by injection Hf.
Qed.

Lemma timed_out_wait_repeats_bytes_witness :
  ∃ s' w', ex_runs [TTimeout 2; TServe 1; TTrigger 1] ex_waiting =
      Some (Ret (s', [Effect 2 (OpRead 0 4) (4, s2t "0123"); Return 2 (4, s2t "0123")])) ∧
    hvac_op (T:=ex_tr) ex_env (OpRead 0 4) ex_t (th_world s') = Ret (w', (4, s2t "0123")).
Proof.
  destruct ex_waiting_related as (p & Hs & Ho).
  destruct ex_waiting_calls as (l & h & Ht & Hu).
  destruct (timed_out_wait_repeats_bytes (HOk:=sized_mercury_ok) (T:=ex_tr) (S:=ex_fs)
    (SOk:=cluster_service_ok (HOk:=sized_mercury_ok) (λ _, true) ex_template ex_resolve ex_lost
            (λ _ _, eq_refl)) (E:=ex_env)
    ex_waiting p 2 ex_t 1 (OpOpen ex_path O_RDONLY) ex_t 0 ex_path 0 ex_bytes 4 false l h 4 ex_t
    ex_env_ok Hs Ho ltac:(lia) Hu Ht ltac:(vm_compute; reflexivity)
    ltac:(lia)) as (s' & w' & Hr & Hop & _).
  exists s', w'. split; [exact Hr|exact Hop].
Defined.

(** ** Closes that arrive later *)

#[local] Existing Instance delayed_transport.

Abbreviation ex_late_tr := (delayed_transport ex_tr).
Abbreviation ex_late_fs := (delayed_service (T:=ex_tr) (S:=ex_fs) (Haddr:=Z.eq_dec)).

Definition ex_late : world (delayed ex_tr) :=
  World ex_sys_client (Delayed (T:=ex_tr) {[ 0 := ex_sys_node ]} []).

(** Open, close, open again and read while the first close is on its way; it
    arrives; close, which never arrives within the run. *)
Definition ex_late_events : list (event (S:=ex_late_fs)) :=
  [ App (OpOpen ex_path O_RDONLY) ex_t; App (OpRead 0 4) ex_t; App (OpClose 0) ex_t;
    App (OpOpen ex_path O_RDONLY) ex_t; App (OpRead 0 3) ex_t;
    Background (S:=ex_late_fs) (inr 0%nat); App (OpRead 0 3) ex_t; App (OpClose 0) ex_t ].

Lemma ex_late_sim : sim (T:=ex_late_tr) (S:=ex_late_fs) ex_env ex_late (cl_os (cl ex_sys)).
Proof.
  destruct ex_sys_fresh as [F1 F2 F3 F4 F5]. destruct ex_sys_addressed as [A1 A2].
  apply (sim_fresh (T:=ex_late_tr) (S:=ex_late_fs)).
  - split; [exact F1|exact F2|exact F3| |exact F5].
    split; [exact F4|split; [apply NoDup_nil_2|apply Forall_nil_2]].
  - split; [exact A1|exact A2].
Qed.

Lemma ex_late_accounted :
  accounted (T:=ex_late_tr) (S:=ex_late_fs) (E:=ex_env) ex_late.
Proof.
  intros t r Hr Hs. exfalso. destruct Hs as [x Hs].
  apply (delayed_view_Some (T:=ex_tr) (S:=ex_fs) (Haddr:=Z.eq_dec)) in Hs as [_ Hs].
  simpl in Hs. apply bind_Some in Hs as (s & Hs & Hv).
  apply lookup_singleton_Some in Hs as [_ <-]. revert Hv. unfold node_view. simpl.
  by rewrite lookup_singleton_ne by lia.
Qed.

Lemma late_closes_are_invisible_witness :
  ∃ w', hvac_run (T:=ex_late_tr) (S:=ex_late_fs) ex_env ex_late_events ex_late
      = Ret (w', [(0, []); (4, s2t "0123"); (0, []); (0, []); (3, s2t "012"); (3, s2t "345"); (0, [])]) ∧
    in_flight (arrive_all ex_tr (net w')) = [] ∧
    (is_Some (fs_view (FileService:=ex_fs) (served (arrive_all ex_tr (net w'))) 0 1) ↔
     ∃ fd, is_remote (T:=ex_late_tr) ex_env w' fd 0 1).
Proof.
  destruct (late_closes_are_invisible (HOk:=sized_mercury_ok) (T:=ex_tr) (S:=ex_fs)
    (SOk:=cluster_service_ok (HOk:=sized_mercury_ok) (λ _, true) ex_template ex_resolve ex_lost
            (λ _ _, eq_refl)) (Haddr:=Z.eq_dec)
    ex_late_events ex_late (cl_os (cl ex_sys))
    [(0, []); (4, s2t "0123"); (0, []); (0, []); (3, s2t "012"); (3, s2t "345"); (0, [])]
    ex_env_ok ex_late_sim ex_late_accounted
    ltac:(vm_compute; reflexivity) ltac:(vm_compute; reflexivity)) as (w' & Hr & _ & Hq & Hv).
  exists w'. split; [exact Hr|]. split; [exact Hq|]. apply (Hv 0 1). lia.
Defined.
