(* ===== verification/JobExample.v ===== *)
(** * Two processes on one server

    The theorems of [Job.v] at the cluster of [System.v]: two client processes
    that open the same file at one server, with the examples of
    [SystemProps.v] for the servers, the files and the environment. *)

From S2P Require Import Prelude CText Posix Wire Server ServerSpec Mover NodeProps AddrFile.
From S2P Require Import FdState Comm Stats ClientComm ClientCommProps Client Wrappers Service Sim Cut OpenSteps ReadSteps CallSteps.
From S2P Require Import Threads ThreadSteps ThreadInv ThreadsProps Job Room Boot Delivery Transparency System SystemProps.

Local Open Scope Z_scope.

(** Processes 0 and 1 of the job, both as they start. *)
Definition two_processes (w : world cluster) : job (T:=ex_tr) :=
  Job (net w) {[ 0%nat := (cl w, ∅); 1%nat := (cl w, ∅) ]}.

Abbreviation ex_jobs := (job_runs (T:=ex_tr) (S:=ex_fs) (λ _, ex_env)).
Abbreviation ex_service_ok := (cluster_service_ok (HOk:=sized_mercury_ok) (λ _, true) ex_template
  ex_resolve ex_lost (λ _ _, eq_refl)).

Lemma two_processes_process w i s :
  process i (two_processes w) = Some s → s = Threads w ∅.
Proof.
  unfold process, two_processes. simpl. intros Hs. apply bind_Some in Hs as (x & Hx & [= <-]).
  apply lookup_insert_Some in Hx as [[<- <-]|[_ [<- <-]%lookup_singleton_Some]]; by destruct w.
Qed.

(** Neither has opened anything. *)
Lemma two_processes_start w p :
  sim (T:=ex_tr) (S:=ex_fs) ex_env w p → fd_map (cl w) = ∅ →
  job_start (T:=ex_tr) (S:=ex_fs) (E:=λ _, ex_env) (λ _, cl_conf (cl w)) (λ _, p) (two_processes w).
Proof.
  intros Hs Hm. split.
  - intros i s ->%two_processes_process. done.
  - intros i i' s s' g g' t r ->%two_processes_process _ (q & Hq & _). simpl in Hq.
    by rewrite Hm, lookup_empty in Hq.
Qed.

(** Each process opens the file and reads; their opens are answered in the
    other order, the mover runs, and process 0 closes before process 1 has
    read all. *)
Definition ex_job_labels : list (nat * thread_label (S:=ex_fs)) :=
  [ (0%nat, TCall 1 (OpOpen ex_path O_RDONLY) ex_t); (1%nat, TCall 1 (OpOpen ex_path O_RDONLY) ex_t);
    (1%nat, TServe 1); (0%nat, TServe 1); (0%nat, TFree 1); (1%nat, TTrigger 1);
    (0%nat, TTrigger 1); (1%nat, TFree 1); (0%nat, TReturn 1); (1%nat, TReturn 1);
    (1%nat, TServers (S:=ex_fs) (0, Moves EvWait));
    (0%nat, TCall 1 (OpRead 0 4) ex_t); (1%nat, TCall 1 (OpRead 0 6) ex_t);
    (1%nat, TServe 1); (0%nat, TServe 1); (0%nat, TFree 1); (0%nat, TTrigger 1);
    (0%nat, TReturn 1); (0%nat, TCall 1 (OpClose 0) ex_t);
    (1%nat, TTrigger 1); (1%nat, TFree 1); (1%nat, TReturn 1);
    (1%nat, TCall 2 (OpRead 0 6) ex_t); (1%nat, TServe 2); (1%nat, TFree 2);
    (1%nat, TTrigger 2); (1%nat, TReturn 2) ].

Definition ex_job_history_1 : list happening :=
  [ Invoke 1 (OpOpen ex_path O_RDONLY); Effect 1 (OpOpen ex_path O_RDONLY) (0, []);
    Return 1 (0, []);
    Invoke 1 (OpRead 0 6); Effect 1 (OpRead 0 6) (6, s2t "012345"); Return 1 (6, s2t "012345");
    Invoke 2 (OpRead 0 6); Effect 2 (OpRead 0 6) (4, s2t "6789"); Return 2 (4, s2t "6789") ].

Definition job_history {A} (r : option (res (A * list (nat * happening)))) :
    option (list (nat * happening)) :=
  match r with Some (Ret (_, h)) => Some h | _ => None end.

Lemma job_history_Some {A} (r : option (res (A * list (nat * happening)))) i h :
  own i <$> job_history r = Some h → ∃ s h', r = Some (Ret (s, h')) ∧ own i h' = h.
Proof. destruct r as [[[s h']|]|]; intros [= <-]. by exists s, h'. Qed.

Lemma ex_job_run : ∃ j h, ex_jobs ex_job_labels (two_processes ex_sys) = Some (Ret (j, h)) ∧
  own 1 h = ex_job_history_1.
Proof. apply job_history_Some. vm_compute. reflexivity. Qed.

Lemma warm_job_is_transparent_witness :
  ∃ p', plain_replay ex_job_history_1 (cl_os (cl ex_sys)) = Some p' ∧
    is_Some (phase_after 2 ex_job_history_1 Outside).
Proof.
  destruct ex_job_run as (j & h & Hr & Hh).
  destruct (warm_job_is_transparent (HOk:=sized_mercury_ok) (T:=ex_tr) (S:=ex_fs)
    (SOk:=ex_service_ok) (E:=λ _, ex_env) (λ _, ex_env_ok) ex_job_labels
    (λ _, cl_conf (cl ex_sys)) (λ _, cl_os (cl ex_sys)) (two_processes ex_sys) (Ret (j, h))
    (two_processes_start ex_sys _ ex_sys_sim eq_refl)) as (j' & h' & Heq & Hall).
  - intros i s ->%two_processes_process. exact ex_sys_warm.
  - vm_compute. reflexivity.
  - exact Hr.
  - injection Heq as <- <-.
    destruct (Hall 1%nat (Threads ex_sys ∅) eq_refl) as (s' & p' & _ & Hp & Hph & _).
    rewrite Hh in Hp, Hph. exists p'. split; [exact Hp|apply Hph].
Defined.

(** From the cold start both processes open the address file too, so their
    second file gets descriptor 2. *)
Definition ex_cold_job_labels : list (nat * thread_label (S:=ex_fs)) :=
  [ (0%nat, TCall 1 (OpOpen ex_path O_RDONLY) ex_t); (1%nat, TCall 1 (OpOpen ex_path O_RDONLY) ex_t);
    (0%nat, TServe 1); (1%nat, TServe 1); (0%nat, TFree 1); (1%nat, TTrigger 1);
    (0%nat, TTrigger 1); (1%nat, TFree 1); (0%nat, TReturn 1); (1%nat, TReturn 1);
    (0%nat, TCall 1 (OpOpen ex_path O_RDONLY) ex_t); (1%nat, TCall 1 (OpRead 0 4) ex_t);
    (1%nat, TServe 1); (1%nat, TFree 1); (1%nat, TTrigger 1); (1%nat, TReturn 1) ].

Definition ex_cold_job_history_1 : list happening :=
  [ Invoke 1 (OpOpen ex_path O_RDONLY); Effect 1 (OpOpen ex_path O_RDONLY) (0, []);
    Return 1 (0, []);
    Invoke 1 (OpRead 0 4); Effect 1 (OpRead 0 4) (4, s2t "0123"); Return 1 (4, s2t "0123") ].

Lemma ex_cold_job_run : ∃ j h,
  ex_jobs ex_cold_job_labels (two_processes ex_start) = Some (Ret (j, h)) ∧
  own 1 h = ex_cold_job_history_1.
Proof. apply job_history_Some. vm_compute. reflexivity. Qed.

Lemma job_is_linearizable_witness :
  ∃ known p', replay ex_env (cl_conf (cl ex_start)) ex_cold_job_history_1 (∅, ex_posted_os)
      = Some (known, p') ∧
    is_Some (phase_after 1 ex_cold_job_history_1 Outside).
Proof.
  destruct ex_cold_job_run as (j & h & Hr & Hh).
  pose proof (job_is_linearizable (HOk:=sized_mercury_ok) (T:=ex_tr) (S:=ex_fs)
    (SOk:=ex_service_ok) (E:=λ _, ex_env) (λ _, ex_env_ok) ex_cold_job_labels
    (λ _, cl_conf (cl ex_start)) (λ _, ex_posted_os) (two_processes ex_start) (Ret (j, h))
    (two_processes_start ex_start _ ex_start_sim eq_refl) ltac:(vm_compute; reflexivity) Hr) as Hall.
  destruct (Hall 1%nat (Threads ex_start ∅) eq_refl) as (s' & known & p' & _ & Hp & Hph & _).
  rewrite Hh in Hp, Hph. change (dom (address_cache (cl ex_start))) with (∅ : gset Z) in Hp.
  exists known, p'. split; [exact Hp|apply Hph].
Defined.

(** After four steps both opens are answered and no callback has run. *)
Lemma ex_job_prefix : ∃ j h s, ex_jobs (take 4 ex_job_labels) (two_processes ex_sys) = Some (Ret (j, h)) ∧
  process 1 j = Some s ∧ is_Some (th_calls s !! 1%nat).
Proof.
  assert (match ex_jobs (take 4 ex_job_labels) (two_processes ex_sys) with
    | Some (Ret (j, h)) =>
        match process 1 j with Some s => bool_decide (is_Some (th_calls s !! 1%nat)) | None => false end
    | _ => false
    end = true) as Hr by (vm_compute; reflexivity).
  destruct (ex_jobs _ _) as [[[j h]|]|]; try discriminate.
  destruct (process 1 j) as [s|] eqn:Hs; [|discriminate].
  exists j, h, s. split; [reflexivity|]. split; [exact Hs|]. by apply bool_decide_eq_true in Hr.
Qed.

Lemma job_calls_complete_witness :
  ∃ j h u l j' h', ex_jobs (take 4 ex_job_labels) (two_processes ex_sys) = Some (Ret (j, h)) ∧
    internal u l = true ∧
    job_run (T:=ex_tr) (S:=ex_fs) (λ _, ex_env) (1%nat, l) j = Some (Ret (j', h')).
Proof.
  destruct ex_job_prefix as (j & h & s & Hr & Hs & Ht).
  destruct (job_calls_complete (HOk:=sized_mercury_ok) (T:=ex_tr) (S:=ex_fs)
    (SOk:=ex_service_ok) (E:=λ _, ex_env) (λ _, ex_env_ok) (take 4 ex_job_labels)
    (λ _, cl_conf (cl ex_sys)) (λ _, cl_os (cl ex_sys)) (two_processes ex_sys) j h
    (two_processes_start ex_sys _ ex_sys_sim eq_refl)) as (Hprog & _).
  - intros i s0 fd ->%two_processes_process [[path Hp] _]. simpl in Hp.
    by rewrite lookup_empty in Hp.
  - vm_compute. reflexivity.
  - exact Hr.
  - destruct (Hprog 1%nat s 1%nat Hs Ht) as (u & l & j' & h' & _ & Hl & Hrun).
    exists j, h, u, l, j', h'. split; [exact Hr|]. split; [exact Hl|exact Hrun].
Defined.


Abbreviation ex_boots := (boot_runs (T:=ex_tr) (S:=ex_fs) (λ _, ex_env)).


