(* ===== verification/RacingSystem.v ===== *)
(** * A cluster whose handlers race their movers

    [System.v] runs a node's handler in one step. Here a request runs the
    handler of [NodeThreads.v], one access to the shared state after the other,
    and before each access the node's data mover goes on as far as the node's
    plan says: between a handler's lookup in path_cache_map and its open, or
    between the mover's copy and its insertion. The plan is part of the node's
    state and arbitrary, so that every interleaving of the two threads is some
    plan's. The cluster keeps the promises of [Service.v] under all of them. *)

From S2P Require Import Prelude CText Posix Wire Server ServerSpec Mover NodeProps NodeThreads.
From S2P Require Import FdState Comm Stats ClientComm Service System.

Local Open Scope Z_scope.

(** ** Nodes and requests *)

Section racing.
Context {H : Mercury}.
Context (calloc_ok : Z → bool) (template : text) (resolve : text → option Z) (lost : losses Z).

#[local] Abbreviation fine_run := (fine_run (H:=H) calloc_ok template).

(** A node, and what its mover does before each access of its handlers. *)
Record racing : Type := Racing {
  rc_node : node (H:=H);
  rc_plan : list (list (fine_label (H:=H)))
}.

(** The mover's steps; one that it cannot take is none. *)
Definition mover_turn (l : fine_label) (n : node) : node :=
  if is_mover l then match fine_run l n with Some (Ret n') => n' | _ => n end else n.

Definition mover_turns (ls : list fine_label) (n : node) : node :=
  foldl (λ n l, mover_turn l n) n ls.

(** The handler's accesses to its end, each after the mover's part. *)
Fixpoint handler_turns (fuel : nat) (plan : list (list fine_label)) (n : node) :
    res (racing * rpc_answer) :=
  let n1 := mover_turns (default [] (head plan)) n in
  match nd_handler n1, fuel with
  | HDone a, _ => Ret (Racing (Node (nd_server n1) HIdle (nd_copy n1)) (tail plan), a)
  | _, O => Fault Blocked
  | _, Datatypes.S fuel' =>
      match fine_run FHandler n1 with
      | Some (Ret n2) => handler_turns fuel' (tail plan) n2
      | Some (Fault f) => Fault f
      | None => Fault Blocked
      end
  end.

(** A handler takes at most five accesses. *)
Definition serve_racing (c : rpc_call) (r : racing) : res (racing * rpc_answer) :=
  match fine_run (FBegin c) (rc_node r) with
  | Some (Ret n) => handler_turns 5 (rc_plan r) n
  | Some (Fault f) => Fault f
  | None => Fault Blocked
  end.

Abbreviation racing_cluster := (gmap Z racing).

(** A request to a node; a fault ends the node. What becomes of requests to
    nodes that are gone is a parameter, as in [System.v]. *)
Definition on_racing (n : Z) (c : rpc_call) (w : racing_cluster) :
    racing_cluster * reply rpc_answer :=
  match w !! n with
  | None => (w, lost_reply (when_down lost n))
  | Some r =>
      match serve_racing c r with
      | Ret (r', a) => (<[n := r']> w, Reply a)
      | Fault _ => (delete n w, broken_reply (when_ended lost n))
      end
  end.

Definition to_racing (a : option Z) (c : rpc_call) (w : racing_cluster) :
    racing_cluster * reply rpc_answer :=
  match a with Some n => on_racing n c w | None => (w, NotSent) end.

(** The answer a request expects. *)
Definition expect {A} (f : rpc_answer → option A) (x : racing_cluster * reply rpc_answer) :
    racing_cluster * reply A :=
  (fst x, match snd x with
          | Reply a => match f a with Some b => Reply b | None => NeverAnswered end
          | NotSent => NotSent
          | CallbackError => CallbackError
          | NeverAnswered => NeverAnswered
          end).

#[local] Instance racing_transport : Transport H racing_cluster := {|
  hg_addr := Z;
  hg_addr_lookup2 _ a := resolve a;
  hg_addr_garbage := None;
  hg_output_garbage := {| seek_ret := 0 |};
  hg_create_ret _ a := with_addr a;
  hg_addr_free_ret _ a := with_addr a;
  hg_release_ret _ := HG_SUCCESS;
  forward_open a inp w :=
    expect (λ x, if x is AnOpen _ out then Some out else None) (to_racing a (CallOpen 0 inp) w);
  forward_read a inp w :=
    expect (λ x, if x is AnRead out then Some out else None) (to_racing a (CallRead 0 0 inp) w);
  forward_seek a inp w :=
    expect (λ x, if x is AnSeek out then Some out else None) (to_racing a (CallSeek 0 inp) w);
  forward_close a inp w :=
    let x := to_racing a (CallClose 0 inp) w in
    (fst x, match snd x with NotSent => 1 | _ => HG_SUCCESS end);
  forward_stats a inp w :=
    (w, match a with
        | Some n => match w !! n, when_down lost n with None, Refused => 1 | _, _ => HG_SUCCESS end
        | None => 1
        end)
|}.

(** Between requests: the mover takes a step, the plan becomes another one, or
    the node goes down, as nodes may ([may_go]). *)
Inductive racing_event : Type :=
| RMoves (l : fine_label (H:=H))
| RPlans (plan : list (list (fine_label (H:=H))))
| RGoesDown.

Definition racing_background (n : Z) (e : racing_event) (w : racing_cluster) : racing_cluster :=
  match w !! n with
  | None => w
  | Some r =>
      match e with
      | RMoves l => <[n := Racing (mover_turn l (rc_node r)) (rc_plan r)]> w
      | RPlans plan => <[n := Racing (rc_node r) plan]> w
      | RGoesDown => if may_go lost n (nd_server (rc_node r)) then delete n w else w
      end
  end.

Definition racing_ok (r : racing) : Prop :=
  fine_inv (rc_node r) ∧ nd_handler (rc_node r) = HIdle.

Definition racing_view (r : racing) (fd : Z) : option (bytes * Z) :=
  node_view (nd_server (rc_node r)) fd.

#[local] Instance racing_service : FileService racing_transport := {|
  fs_ok w := map_Forall (λ _, racing_ok) w;
  fs_known w n := when_down lost n = Refused ∨ is_Some (w !! n);
  fs_live w n := is_Some (w !! n);
  fs_view w n fd := w !! n ≫= λ r, racing_view r fd;
  fs_file w n p := w !! n ≫= λ r, content (sv_os (nd_server (rc_node r))) p;
  fs_event := (Z * racing_event)%type;
  fs_background e := racing_background (fst e) (snd e)
|}.

(** ** Lemmas: the mover *)

Context {HOk : MercuryOk H}.

Lemma mover_frame_refl (s : server) : posix_ok (sv_os s) → mover_frame s s.
Proof. intros Ho. by split. Qed.

Lemma mover_frame_trans (s1 s2 s3 : server) :
  mover_frame s1 s2 → mover_frame s2 s3 → mover_frame s1 s3.
Proof.
  intros [A1 A2 [A3 A4] A5 A6] [B1 B2 [B3 B4] B5 B6].
  split; [done|by etrans|split; congruence|congruence|auto].
Qed.

Lemma mover_turn_frame l n :
  fine_inv n → fine_inv (mover_turn l n) ∧ nd_handler (mover_turn l n) = nd_handler n ∧
    mover_frame (nd_server n) (nd_server (mover_turn l n)).
Proof.
  intros Hi. assert (Hrefl : mover_frame (nd_server n) (nd_server n)) by (apply mover_frame_refl, Hi).
  unfold mover_turn. destruct (is_mover l) eqn:Hl; [|done].
  destruct (fine_run l n) as [[n'|]|] eqn:Hr; [|done..].
  destruct (mover_step_frame calloc_ok template l n n' Hl Hr Hi) as (Hpc & Hf & _).
  split_and!; [by eapply fine_step_inv|done|done].
Qed.

Lemma mover_turns_frame ls n :
  fine_inv n → fine_inv (mover_turns ls n) ∧ nd_handler (mover_turns ls n) = nd_handler n ∧
    mover_frame (nd_server n) (nd_server (mover_turns ls n)).
Proof.
  revert n. induction ls as [|l ls IH]; intros n Hi; simpl.
  - split_and!; [done|done|apply mover_frame_refl, Hi].
  - destruct (mover_turn_frame l n Hi) as (H1 & H2 & H3). destruct (IH _ H1) as (H4 & H5 & H6).
    split_and!; [done|congruence|by eapply mover_frame_trans].
Qed.

(** ** Lemmas: a handler to its end *)

(** A property of the handler that the mover keeps, and that every access
    keeps while it makes fewer accesses remain, holds at the end. *)
Lemma handler_turns_end (P : handler_pc (H:=H) → server → Prop) (left : handler_pc (H:=H) → nat) :
  (∀ pc s s', mover_frame s s' → P pc s → P pc s') →
  (∀ pc s c, fine_inv (Node s pc c) → P pc s → (∃ a, pc = HDone a) ∨
     ∃ s' pc', handler_next calloc_ok pc s = Ret (s', pc') ∧ P pc' s' ∧ (left pc' < left pc)%nat) →
  ∀ fuel plan n, fine_inv n → P (nd_handler n) (nd_server n) → (left (nd_handler n) ≤ fuel)%nat →
  ∃ r a, handler_turns fuel plan n = Ret (r, a) ∧ racing_ok r ∧
    P (HDone a) (nd_server (rc_node r)).
Proof.
  intros Hm Hn. induction fuel as [|fuel IH]; intros plan n Hi HP Hf; cbn [handler_turns];
    destruct (mover_turns_frame (default [] (head plan)) n Hi) as (Hi1 & Hpc & Hfr);
    set (n1 := mover_turns _ n) in *; rewrite <-Hpc in HP, Hf; apply (Hm _ _ _ Hfr) in HP;
    destruct n1 as [s pc c]; cbn [nd_handler nd_server nd_copy] in *;
    destruct (Hn pc s c Hi1 HP) as [[a ->]|(s' & pc' & Hr & HP' & Hlt)].
  1,3: exists (Racing (Node s HIdle c) (tail plan)), a; split; [done|]; split; [|done]; split; [|done];
    apply server_inv_fine; [|done|apply (fi_copy _ Hi1)];
    apply (fine_inv_server _ _ _ Hi1); by intros f [].
  - lia.
  - assert (Hstep : fine_step calloc_ok template FHandler (Node s pc c) (Node s' pc' c)).
    { unfold fine_step. cbn [NodeThreads.fine_run nd_server nd_handler nd_copy].
      destruct pc; try (by rewrite Hr); apply mret_Ret in Hr as [_ ->]; lia. }
    assert (Hpc' : ∀ a, pc ≠ HDone a) by (intros a ->; apply mret_Ret in Hr as [_ ->]; lia).
    pose proof (fine_step_inv _ _ _ _ _ Hstep Hi1) as Hi2. unfold fine_step in Hstep.
    rewrite Hstep. destruct (IH (tail plan) (Node s' pc' c) Hi2 HP') as (r & a & Hrun & ? & ?);
      [simpl; lia|]. exists r, a. split; [|done].
    by destruct pc.
Qed.

(** Everything the handler does not touch is as before it began. *)
Record left_alone (s0 s : server) (f : Z) : Prop := {
  la_files : files_extend (sv_os s0) (sv_os s);
  la_nofile : px_nofile (sv_os s) = px_nofile (sv_os s0);
  la_fds g : g ≠ f → px_fds (sv_os s) !! g = px_fds (sv_os s0) !! g
}.

Lemma left_alone_refl s f : left_alone s s f.
Proof. by split. Qed.

Lemma left_alone_mover s0 s s' f : mover_frame s s' → left_alone s0 s f → left_alone s0 s' f.
Proof.
  intros [_ He [Hfd Hn] _ _] [A1 A2 A3]. split; [by etrans|congruence|].
  intros g Hg. rewrite Hfd. by apply A3.
Qed.

(** What a descriptor reads does not depend on other files. *)
Lemma node_view_grown s s' fd :
  posix_ok (sv_os s) → files_extend (sv_os s) (sv_os s') →
  px_fds (sv_os s') !! fd = px_fds (sv_os s) !! fd → node_view s' fd = node_view s fd.
Proof.
  intros Hok [_ Hex] Hfd. unfold node_view. rewrite Hfd.
  destruct (px_fds (sv_os s) !! fd) as [o|] eqn:Eo; [|done]. destruct (readable o); [|done].
  destruct (ok_fds _ Hok _ _ Eo) as ([d Hd] & _). by rewrite Hd, (lookup_weaken _ _ _ _ Hd Hex).
Qed.

(** ** Lemmas: the requests *)

(** A handler starts on an idle node. *)
Lemma serve_begin c pc r :
  racing_ok r → handler_begin c (nd_server (rc_node r)) = Ret (nd_server (rc_node r), pc) →
  serve_racing c r =
    handler_turns 5 (rc_plan r) (Node (nd_server (rc_node r)) pc (nd_copy (rc_node r))) ∧
  fine_inv (Node (nd_server (rc_node r)) pc (nd_copy (rc_node r))).
Proof.
  intros [Hi Hh] Hb.
  assert (Hrun : fine_run (FBegin c) (rc_node r)
    = Some (Ret (Node (nd_server (rc_node r)) pc (nd_copy (rc_node r))))).
  { cbn [NodeThreads.fine_run]. by rewrite Hh, Hb. }
  split; [|by eapply fine_step_inv]. unfold serve_racing. by rewrite Hrun.
Qed.

Lemma index_cache_os path (s s' : server) q :
  index_cache path s = Ret (s', q) → sv_os s' = sv_os s.
Proof. unfold index_cache, run. destruct (path_cache_map s !! path); by intros [= <- _]. Qed.

(** What an open handler's access does to the descriptors. *)
Lemma open_access_alone inp d f pc pc' s0 s s' :
  posix_ok (sv_os s) → opening inp d f pc s → handler_next calloc_ok pc s = Ret (s', pc') →
  left_alone s0 s f → left_alone s0 s' f.
Proof.
  intros Hok [_ Hpc] Hr [A1 A2 A3]. destruct (handler_next_frame _ _ _ _ _ Hok Hr) as [He _].
  assert (Hsame : sv_os s' = sv_os s → left_alone s0 s' f).
  { intros Eq. split; rewrite Eq; done. }
  destruct pc as [|i|i|i|i redir|i out| | | | | | |a]; try done; cbn [handler_next] in Hr.
  - injection Hr as <- _. by apply Hsame.
  - bind_in Hr s1 q E. apply mret_Ret in Hr as [-> _].
    by apply Hsame, (index_cache_os _ _ _ _ E).
  - bind_in Hr s1 q E. apply mret_Ret in Hr as [-> _].
    by apply Hsame, (index_cache_os _ _ _ _ E).
  - bind_in Hr s1 fd E. apply mret_Ret in Hr as [-> _]. destruct Hpc as ((_ & Hf & Hlt) & _).
    unfold sys, zoom, run in E. destruct (os_open redir O_RDONLY (sv_os s)) as [p fd'] eqn:Ho.
    injection E as <- <-. pose proof (first_free_nonneg (px_fds (sv_os s))) as Hnn.
    destruct (os_open_fds _ _ _ _ _ Ho) as [Hnf Hfds].
    split; [by etrans|simpl; congruence|]. intros g Hg. simpl. rewrite <-A3 by done.
    rewrite os_open_plain in Ho by done. cbv zeta in Ho. rewrite Hf in Ho.
    destruct (px_nofile (sv_os s) <=? f); [by simplify_eq|].
    destruct (px_paths (sv_os s) !! redir); simplify_eq; [|done]. simpl.
    by rewrite lookup_insert_ne.
  - injection Hr as <- _. by apply Hsame.
  - apply mret_Ret in Hr as [-> _]. by split.
Qed.

Lemma serve_open_room r path d :
  let s := nd_server (rc_node r) in let f := first_free (px_fds (sv_os s)) in
  racing_ok r → content (sv_os s) path = Some d → f < px_nofile (sv_os s) →
  ∃ r' inp out, serve_racing (CallOpen 0 {| open_path := path |}) r = Ret (r', AnOpen inp out) ∧
    racing_ok r' ∧ left_alone s (nd_server (rc_node r')) f ∧ ret_status out = f ∧
    racing_view r' f = Some (d, 0).
Proof.
  intros s f Hok Hd Hlt. set (inp := {| open_path := path |}).
  destruct (serve_begin (CallOpen 0 inp) (HOpenFind inp) r Hok eq_refl) as [Hs Hi].
  destruct (handler_turns_end (λ pc s', opening inp d f pc s' ∧ left_alone s s' f) open_left)
    with (fuel := 5%nat) (plan := rc_plan r)
         (n := Node (nd_server (rc_node r)) (HOpenFind inp) (nd_copy (rc_node r)))
    as (r' & a & Hr & Hok' & [[_ Hop] Ha]).
  - intros pc s1 s2 Hm [H1 H2]. split; [by eapply opening_frame|by eapply left_alone_mover].
  - intros pc s1 c Hi1 [H1 H2]. destruct (opening_next calloc_ok _ _ _ _ _ _ Hi1 H1)
      as [[out ->]|(s2 & pc2 & Hn & Ho & Hl)]; [left; by eexists|right].
    exists s2, pc2. split; [done|]. split; [|done]. split; [done|].
    by apply (open_access_alone inp d f pc pc2 s s1 s2); [apply (fi_os _ Hi1)|..].
  - done.
  - split; [|apply left_alone_refl]. split; [done|]. by split_and!.
  - simpl. lia.
  - destruct a as [i out| | |]; try done. destruct Hop as (-> & Hret & ino & Hfd & Hdat).
    exists r', inp, out. split_and!; [by rewrite Hs|done|done|done|].
    unfold racing_view, node_view. rewrite Hfd. simpl. by rewrite Hdat.
Qed.

(** A node without a free descriptor. *)
Definition refusing (inp : hvac_open_in_t) (pc : handler_pc (H:=H)) : Prop :=
  match pc with
  | HOpenFind i | HOpenLog i | HOpenIndex i | HOpenCall i _ => i = inp
  | HOpenRecord _ out | HDone (AnOpen _ out) => ret_status out = -1
  | _ => False
  end.

Lemma serve_open_full r path :
  let s := nd_server (rc_node r) in
  racing_ok r → px_nofile (sv_os s) ≤ first_free (px_fds (sv_os s)) →
  ∃ r' inp out, serve_racing (CallOpen 0 {| open_path := path |}) r = Ret (r', AnOpen inp out) ∧
    racing_ok r' ∧ left_alone s (nd_server (rc_node r')) (-1) ∧ ret_status out = -1 ∧
    px_fds (sv_os (nd_server (rc_node r'))) = px_fds (sv_os s).
Proof.
  intros s Hok Hfull. set (inp := {| open_path := path |}).
  destruct (serve_begin (CallOpen 0 inp) (HOpenFind inp) r Hok eq_refl) as [Hs Hi].
  destruct (handler_turns_end (λ pc s', refusing inp pc ∧ left_alone s s' (-1) ∧
      px_fds (sv_os s') = px_fds (sv_os s)) open_left)
    with (fuel := 5%nat) (plan := rc_plan r)
         (n := Node (nd_server (rc_node r)) (HOpenFind inp) (nd_copy (rc_node r)))
    as (r' & a & Hr & Hok' & Hop & Ha & Hfds).
  - intros pc s1 s2 Hm (H1 & H2 & H3). split_and!; [done|by eapply left_alone_mover|].
    destruct Hm as [_ _ [-> _] _ _]. done.
  - intros pc s1 c Hi1 (H1 & H2 & H3). pose proof (fi_handler _ Hi1) as Hh. simpl in Hh.
    destruct pc as [|i|i|i|i redir|i out| | | | | | |a]; try done; simpl in H1; subst.
    + right. eexists _, _. split; [apply open_find_next|].
      destruct (path_cache_map s1 !! open_path inp); (split; [done|simpl; lia]).
    + right. destruct Hh as [q Hq]. destruct (open_index_next calloc_ok inp s1 q Hq) as [Hl _].
      eexists _, _. split; [exact Hl|]. split; [done|simpl; lia].
    + right. destruct Hh as [q Hq]. destruct (open_index_next calloc_ok inp s1 q Hq) as [_ Hl].
      eexists _, _. split; [exact Hl|]. split; [done|simpl; lia].
    + right. assert (Ho : os_open redir O_RDONLY (sv_os s1) = (sv_os s1, -1)).
      { rewrite os_open_plain by done. cbv zeta. rewrite H3, (la_nofile _ _ _ H2).
        by rewrite (proj2 (Z.leb_le _ _)). }
      eexists _, _. split; [by apply open_call_next|]. split_and!; [done| |done|simpl; lia].
      destruct H2 as [A1 A2 A3]. by split.
    + right. eexists _, _. split; [done|]. split_and!; [done| |done|simpl; lia].
      destruct H2 as [A1 A2 A3]. by split.
    + left. by eexists.
  - done.
  - split_and!; [done|apply left_alone_refl|done].
  - simpl. lia.
  - destruct a as [i out| | |]; try done. exists r', i, out. by rewrite Hs.
Qed.

Lemma node_view_mover s s' fd x :
  mover_frame s s' → node_view s fd = Some x → node_view s' fd = Some x.
Proof.
  intros [_ [_ Hdat] [Hfd _] _ _]. destruct x as [d o]. intros (f & Hf & Hr & Hd & Ho)%node_view_Some.
  unfold node_view. rewrite Hfd, Hf, Hr, (lookup_weaken _ _ _ _ Hd Hdat). simpl. by rewrite Ho.
Qed.

Lemma node_view_moved s s' fd f d n :
  readable f = true → px_data (sv_os s) !! ofd_ino f = Some d →
  sv_os s' = set_fds (<[fd := Ofd (ofd_ino f) (ofd_mode f) n]> (px_fds (sv_os s))) (sv_os s) →
  node_view s' fd = Some (d, n).
Proof.
  intros Hr Hd Hos. unfold node_view. rewrite Hos. simpl. rewrite lookup_insert_eq.
  unfold readable in *. simpl. by rewrite Hr, Hd.
Qed.

(** A read takes one access. *)
Definition reading (inp : hvac_rpc_in_t H) (fd : Z) (d : bytes) (o o' : Z)
    (out : hvac_rpc_out_t * bytes) (pc : handler_pc (H:=H)) (s : server) : Prop :=
  match pc with
  | HRead ir rr i => ir = 0 ∧ rr = 0 ∧ i = inp ∧ node_view s fd = Some (d, o)
  | HDone (AnRead out') => out' = out ∧ node_view s fd = Some (d, o')
  | _ => False
  end.

Context (Hcalloc : ∀ n, 0 ≤ n < 2 ^ 31 → calloc_ok n = true).

Lemma serve_read r fd d o count off :
  let s := nd_server (rc_node r) in
  let inp := mk_rpc_in count (snd (hg_bulk_create (to_uint64 count))) fd off in
  let at_ := if off =? -1 then o else off in
  let m := n_read d at_ count in
  racing_ok r → racing_view r fd = Some (d, o) →
  0 ≤ fd < 2 ^ 31 → 0 ≤ count < 2 ^ 31 → -1 ≤ off < 2 ^ 63 →
  ∃ r', serve_racing (CallRead 0 0 inp) r = Ret (r', AnRead ({| rpc_ret := m |}, slice d at_ m)) ∧
    racing_ok r' ∧ left_alone s (nd_server (rc_node r')) fd ∧
    racing_view r' fd = Some (d, if off =? -1 then o + m else o).
Proof.
  intros s inp at_ m Hok Hv Hfd Hc Hoff.
  assert (Hin1 : input_val inp = count) by (apply to_int32_id; lia).
  assert (Hin2 : accessfd inp = fd) by (apply to_int32_id; lia).
  assert (Hin3 : rd_offset inp = off) by (apply to_int64_id; lia).
  set (o' := if off =? -1 then o + m else o).
  destruct (serve_begin (CallRead 0 0 inp) (HRead 0 0 inp) r Hok eq_refl) as [Hs Hi].
  destruct (handler_turns_end (λ pc s',
      reading inp fd d o o' ({| rpc_ret := m |}, slice d at_ m) pc s' ∧ left_alone s s' fd)
      (λ pc, if pc is HRead _ _ _ then 1%nat else 0%nat))
    with (fuel := 5%nat) (plan := rc_plan r)
         (n := Node (nd_server (rc_node r)) (HRead 0 0 inp) (nd_copy (rc_node r)))
    as (r' & a & Hr & Hok' & Hop & Ha).
  - intros pc s1 s2 Hm [H1 H2]. split; [|by eapply left_alone_mover].
    destruct pc as [| | | | | | | | | | | |[| | |]]; try done.
    + destruct H1 as (? & ? & ? & ?). split_and!; try done. by eapply node_view_mover.
    + destruct H1 as (? & ?). split; [done|]. by eapply node_view_mover.
  - intros pc s1 c Hi1 [H1 H2]. destruct pc as [| | | | | |ir rr i| | | | | |a]; try done.
    2: by left; eexists.
    right. destruct H1 as (-> & -> & -> & (f & Hf & Hrd & Hd & Hfo)%node_view_Some).
    destruct (ok_fds _ (fi_os _ Hi1) _ _ Hf) as (_ & _ & Hpos).
    destruct (read_handler_slice calloc_ok inp s1 f d (to_uint64 count)) as (s2 & Hrun & Hos);
      rewrite ?Hin1, ?Hin2, ?Hin3; try done; [lia|by apply Hcalloc|rewrite to_uint64_id; lia|].
    rewrite Hin1, Hin3, Hfo in Hrun. rewrite Hin1, Hin2, Hin3, Hfo in Hos. fold at_ in Hrun, Hos. fold m in Hrun, Hos.
    exists s2, (HDone (AnRead ({| rpc_ret := m |}, slice d at_ m))).
    split; [cbn [handler_next]; by rewrite (bind_run _ _ _ _ _ Hrun)|]. split; [|simpl; lia].
    destruct H2 as [A1 A2 A3]. unfold o'. destruct (off =? -1).
    + split.
      * split; [done|]. by eapply node_view_moved.
      * split; rewrite Hos; simpl; [done..|]. intros g Hg. by rewrite lookup_insert_ne, A3.
    + split.
      * split; [done|]. unfold node_view. rewrite Hos, Hf, Hrd, Hd. simpl. by rewrite Hfo.
      * by split; rewrite Hos.
  - done.
  - split; [|apply left_alone_refl]. by split_and!.
  - simpl. lia.
  - destruct a as [|out| |]; try done. destruct Hop as [-> Hv']. exists r'. by rewrite Hs.
Qed.

(** A close takes four. *)
Definition being_closed (inp : hvac_close_in_t) (pc : handler_pc (H:=H)) (s : server) : Prop :=
  match pc with
  | HCloseCall i => i = inp ∧ is_Some (px_fds (sv_os s) !! close_fd inp)
  | HCloseFind i | HClosePush i | HCloseErase i =>
      i = inp ∧ px_fds (sv_os s) !! close_fd inp = None
  | HDone AnClose => px_fds (sv_os s) !! close_fd inp = None
  | _ => False
  end.

Lemma closing_mover inp pc s s' : mover_frame s s' → being_closed inp pc s → being_closed inp pc s'.
Proof.
  intros [_ _ [Hf _] _ _]. unfold being_closed.
  destruct pc as [| | | | | | | | | | | |[| | |]]; try done; by rewrite Hf.
Qed.

Definition close_left (pc : handler_pc (H:=H)) : nat :=
  match pc with
  | HCloseCall _ => 4 | HCloseFind _ => 3 | HClosePush _ => 2 | HCloseErase _ => 1 | _ => 0
  end.

Lemma index_fd_to_path_os fd (s s' : server) p :
  index_fd_to_path fd s = Ret (s', p) → sv_os s' = sv_os s.
Proof. unfold index_fd_to_path, run. destruct (fd_to_path s !! fd); by intros [= <- _]. Qed.

Lemma closing_next inp pc s :
  being_closed inp pc s → (∃ a, pc = HDone a) ∨
  ∃ s' pc', handler_next calloc_ok pc s = Ret (s', pc') ∧ being_closed inp pc' s' ∧
    (close_left pc' < close_left pc)%nat ∧
    (sv_os s' = sv_os s ∨
     sv_os s' = set_fds (delete (close_fd inp) (px_fds (sv_os s))) (sv_os s)).
Proof.
  intros Hp. destruct pc as [| | | | | | | |i|i|i|i|a]; try done; [| | | |left; by eexists].
  all: right; destruct Hp as [-> Hp].
  - destruct Hp as [o Ho]. eexists _, _.
    split; [rewrite (close_call_next calloc_ok inp s (set_fds (delete (close_fd inp)
      (px_fds (sv_os s))) (sv_os s)) 0); [done|unfold os_close; by rewrite Ho]|].
    split; [split; [done|apply lookup_delete_eq]|]. split; [simpl; lia|by right].
  - destruct (index_fd_to_path_run (close_fd inp) s) as (s1 & p & Hi).
    pose proof (index_fd_to_path_os _ _ _ _ Hi) as Hos.
    exists s1, (if path_cache_map s1 !! p is Some _ then HCloseErase inp else HClosePush inp).
    split; [cbn [handler_next]; by rewrite (bind_run _ _ _ _ _ Hi)|].
    split; [destruct (path_cache_map s1 !! p); by rewrite <-Hos in Hp|].
    split; [destruct (path_cache_map s1 !! p); simpl; lia|by left].
  - destruct (index_fd_to_path_run (close_fd inp) s) as (s1 & p & Hi).
    pose proof (index_fd_to_path_os _ _ _ _ Hi) as Hos.
    exists (cond_signal (set_queue (data_queue s1 ++ [p]) s1)), (HCloseErase inp).
    assert (Hc : sv_os (cond_signal (set_queue (data_queue s1 ++ [p]) s1)) = sv_os s).
    { unfold cond_signal. simpl. by destruct (mv_pc s1). }
    split; [cbn [handler_next]; by rewrite (bind_run _ _ _ _ _ Hi)|].
    split; [split; [done|by rewrite Hc]|]. split; [simpl; lia|by left].
  - eexists _, _. split; [done|]. split; [done|]. split; [simpl; lia|by left].
Qed.

Lemma serve_close r fd x :
  let s := nd_server (rc_node r) in
  racing_ok r → racing_view r fd = Some x → 0 ≤ fd < 2 ^ 31 →
  ∃ r', serve_racing (CallClose 0 (mk_close_in fd)) r = Ret (r', AnClose) ∧
    racing_ok r' ∧ left_alone s (nd_server (rc_node r')) fd ∧ racing_view r' fd = None.
Proof.
  intros s Hok Hv Hfd. set (inp := mk_close_in fd).
  assert (Hcf : close_fd inp = fd) by (apply to_int32_id; lia).
  destruct (serve_begin (CallClose 0 inp) (HCloseCall inp) r Hok eq_refl) as [Hs Hi].
  destruct (handler_turns_end (λ pc s', being_closed inp pc s' ∧ left_alone s s' fd) close_left)
    with (fuel := 5%nat) (plan := rc_plan r)
         (n := Node (nd_server (rc_node r)) (HCloseCall inp) (nd_copy (rc_node r)))
    as (r' & a & Hr & Hok' & Hop & Ha).
  - intros pc s1 s2 Hm [H1 H2]. split; [|by eapply left_alone_mover].
    by eapply closing_mover.
  - intros pc s1 c Hi1 [H1 H2].
    destruct (closing_next inp pc s1 H1) as [[out ->]|(s2 & pc2 & Hn & Ho & Hl & Hc)];
      [left; by eexists|right].
    exists s2, pc2. split; [done|]. split; [split; [done|]|done]. destruct H2 as [A1 A2 A3].
    rewrite Hcf in Hc. destruct Hc as [Hc|Hc]; split; rewrite Hc; simpl; try done.
    intros g Hg. rewrite lookup_delete_ne by done. by apply A3.
  - done.
  - split; [|apply left_alone_refl]. split; [done|]. rewrite Hcf.
    destruct x as [d o]. apply node_view_Some in Hv as (f & Hf & _). by eexists.
  - simpl. lia.
  - destruct a as [| | |]; try done. exists r'. rewrite Hs. split_and!; try done.
    unfold being_closed in Hop. rewrite Hcf in Hop. unfold racing_view, node_view. by rewrite Hop.
Qed.

(** ** Lemmas: the cluster *)

Lemma on_racing_run n c (w : racing_cluster) r r' a :
  w !! n = Some r → serve_racing c r = Ret (r', a) →
  on_racing n c w = (<[n := r']> w, Reply a).
Proof. unfold on_racing. by intros -> ->. Qed.

(** A node whose descriptors other than one are as they were. *)
Lemma racing_next (w : racing_cluster) (n : Z) r r' fd :
  fs_ok w → w !! n = Some r → racing_ok r' →
  left_alone (nd_server (rc_node r)) (nd_server (rc_node r')) fd →
  extends w (<[n := r']> w) ∧ others_same w (<[n := r']> w) n fd ∧
  (∀ f, fs_view (<[n := r']> w) n f = racing_view r' f) ∧
  fs_view w n fd = racing_view r fd.
Proof.
  intros Ho Hn Hi [He _ Hfds]. assert (Hr : racing_ok r) by (by apply (Ho n)).
  split_and!.
  - split; simpl.
    + by apply map_Forall_insert_2.
    + intros a [?|Ha]; [by left|right]. destruct (decide (a = n)) as [->|].
      * rewrite lookup_insert_eq. by eexists.
      * by rewrite lookup_insert_ne.
    + intros a. destruct (decide (a = n)) as [->|]; [by rewrite lookup_insert_eq, Hn|].
      by rewrite lookup_insert_ne.
    + done.
    + intros a p d _. destruct (decide (a = n)) as [->|]; [|by rewrite lookup_insert_ne].
      rewrite lookup_insert_eq, Hn. simpl. by apply content_extend.
  - unfold others_same. simpl. intros b f Hne. destruct (decide (b = n)) as [->|].
    + rewrite lookup_insert_eq, Hn. simpl. unfold racing_view.
      destruct Hr as [Hr _]. apply node_view_grown; [apply (fi_os _ Hr)|done|]. apply Hfds. congruence.
    + by rewrite lookup_insert_ne.
  - intros f. simpl. by rewrite lookup_insert_eq.
  - simpl. by rewrite Hn.
Qed.

Lemma racing_view_node (w : racing_cluster) (n : Z) fd x :
  fs_view w n fd = Some x → ∃ r, w !! n = Some r ∧ racing_view r fd = Some x.
Proof. simpl. destruct (w !! n) as [r|]; [by exists r|done]. Qed.

Lemma left_alone_any s s' f : left_alone s s' f → px_fds (sv_os s') = px_fds (sv_os s) →
  ∀ g, left_alone s s' g.
Proof. intros [A1 A2 _] Hf g. by split; [..|intros ? _; rewrite Hf]. Qed.

Lemma racing_open (w : racing_cluster) (n : Z) path d :
  fs_ok w → fs_known w n → (fs_live w n → fs_file w n path = Some d) →
  ∃ w' r, forward_open (Some n) {| open_path := path |} w = (w', r) ∧ settles r ∧
    extends w w' ∧
    (open_ret r = -1 ∧ (∀ b f, fs_view w' b f = fs_view w b f) ∨
     0 ≤ open_ret r < 2 ^ 31 ∧ fs_view w n (open_ret r) = None ∧
     fs_view w' n (open_ret r) = Some (d, 0) ∧
     others_same w w' n (open_ret r)).
Proof.
  intros Ho Hk Hd. cbn [forward_open racing_transport to_racing].
  destruct (w !! n) as [r|] eqn:Hn.
  2:{ exists w, NotSent. unfold on_racing. rewrite Hn. simpl in Hk. rewrite Hn in Hk.
      destruct Hk as [-> |[? ?]]; [|done].
      split_and!; [done|by left|by split|by left]. }
  assert (Hr : racing_ok r) by (by apply (Ho n)).
  simpl in Hd. rewrite Hn in Hd. specialize (Hd (mk_is_Some _ _ eq_refl)). simpl in Hd.
  set (s := nd_server (rc_node r)) in *. set (f := first_free (px_fds (sv_os s))).
  destruct (Z.lt_ge_cases f (px_nofile (sv_os s))) as [Hlt|Hge].
  - destruct (serve_open_room r path d Hr Hd Hlt) as (r' & i & out & Hs & Hok & Hla & Hret & Hv).
    destruct (racing_next w n r r' f Ho Hn Hok Hla) as (Hex & Hot & Hv1 & Hv0).
    exists (<[n := r']> w), (Reply out). rewrite (on_racing_run _ _ _ _ _ _ Hn Hs).
    split; [done|]. split; [right; by exists out|]. split; [done|]. right. cbn [open_ret].
    replace (ret_status out) with f by done. destruct Hr as [Hi _]. pose proof (fi_nofile _ Hi) as Hnf.
    pose proof (first_free_nonneg (px_fds (sv_os s))).
    split; [unfold s in *; lia|]. split; [etrans; [exact Hv0|]|by split; [etrans; [apply Hv1|]|]].
    unfold racing_view, node_view. unfold f. by rewrite first_free_fresh.
  - destruct (serve_open_full r path Hr Hge) as (r' & i & out & Hs & Hok & Hla & Hret & Hf).
    pose proof (left_alone_any _ _ _ Hla Hf) as Hany.
    exists (<[n := r']> w), (Reply out). rewrite (on_racing_run _ _ _ _ _ _ Hn Hs).
    split; [done|]. split; [right; by exists out|].
    split; [by apply (racing_next w n r r' 0 Ho Hn Hok (Hany 0))|]. left. split; [done|].
    intros b g. destruct (racing_next w n r r' (g + 1) Ho Hn Hok (Hany (g + 1))) as (_ & Hot & _).
    apply Hot. intros Heq. injection Heq. lia.
Qed.

Lemma racing_read (w : racing_cluster) (n : Z) fd d o count off :
  fs_ok w → fs_view w n fd = Some (d, o) →
  0 ≤ fd < 2 ^ 31 → 0 ≤ count < 2 ^ 31 → -1 ≤ off < 2 ^ 63 →
  let at_ := if off =? -1 then o else off in
  let m := n_read d at_ count in
  ∃ w' out, forward_read (Some n)
      (mk_rpc_in count (snd (hg_bulk_create (to_uint64 count))) fd off) w
      = (w', Reply (out, slice d at_ m)) ∧
    rpc_ret out = m ∧ extends w w' ∧
    fs_view w' n fd = Some (d, if off =? -1 then o + m else o) ∧
    others_same w w' n fd.
Proof.
  intros Ho Hv Hfd Hc Hoff at_ m. destruct (racing_view_node w n fd _ Hv) as (r & Hn & Hvr).
  destruct (serve_read r fd d o count off (Ho n r Hn) Hvr Hfd Hc Hoff) as (r' & Hs & Hok & Hla & Hv').
  destruct (racing_next w n r r' fd Ho Hn Hok Hla) as (Hex & Hot & Hv1 & _).
  exists (<[n := r']> w), {| rpc_ret := m |}.
  cbn [forward_read racing_transport to_racing]. rewrite (on_racing_run _ _ _ _ _ _ Hn Hs).
  split_and!; [done..| |done]. by rewrite Hv1.
Qed.

Lemma racing_close (w : racing_cluster) (n : Z) fd d o :
  fs_ok w → fs_view w n fd = Some (d, o) → 0 ≤ fd < 2 ^ 31 →
  ∃ w' r, forward_close (Some n) (mk_close_in fd) w = (w', r) ∧
    extends w w' ∧ fs_view w' n fd = None ∧ others_same w w' n fd.
Proof.
  intros Ho Hv Hfd. destruct (racing_view_node w n fd _ Hv) as (r & Hn & Hvr).
  destruct (serve_close r fd _ (Ho n r Hn) Hvr Hfd) as (r' & Hs & Hok & Hla & Hv').
  destruct (racing_next w n r r' fd Ho Hn Hok Hla) as (Hex & Hot & Hv1 & _).
  exists (<[n := r']> w), HG_SUCCESS.
  cbn [forward_close racing_transport to_racing]. rewrite (on_racing_run _ _ _ _ _ _ Hn Hs).
  split_and!; [done..| |done]. by rewrite Hv1.
Qed.

(** A node that changed and whose descriptors read as before. *)
Lemma racing_same (w : racing_cluster) (n : Z) r r' :
  fs_ok w → w !! n = Some r → racing_ok r' →
  mover_frame (nd_server (rc_node r)) (nd_server (rc_node r')) →
  extends w (<[n := r']> w) ∧ ∀ b f, fs_view (<[n := r']> w) b f = fs_view w b f.
Proof.
  intros Ho Hn Hok Hm.
  assert (Hla : ∀ f, left_alone (nd_server (rc_node r)) (nd_server (rc_node r')) f).
  { intros f. by eapply left_alone_mover, left_alone_refl. }
  split; [by apply (racing_next w n r r' 0)|]. intros b f.
  destruct (racing_next w n r r' (f + 1) Ho Hn Hok (Hla _)) as (_ & Hot & _).
  apply Hot. intros Heq. injection Heq. lia.
Qed.

Lemma racing_background_ok (w : racing_cluster) e :
  fs_ok w → extends w (fs_background e w) ∧
    ∀ b f, fs_view (fs_background e w) b f = fs_view w b f.
Proof.
  intros Ho. destruct e as [n e]. simpl. unfold racing_background.
  assert (Hrefl : extends w w) by (by split).
  destruct (w !! n) as [r|] eqn:Hn; [|done]. pose proof (Ho n r Hn) as [Hi Hh].
  destruct e as [l|plan|].
  - destruct (mover_turn_frame l _ Hi) as (Hi' & Hh' & Hm).
    apply (racing_same w n r); [done|done| |done]. split; [done|]. simpl. by rewrite Hh'.
  - apply (racing_same w n r); [done..|]. apply mover_frame_refl, Hi.
  - destruct (may_go _ _ _) eqn:Hgo; [|done]. apply andb_true_iff in Hgo as [Hidle Hl].
    split; [split|]; simpl.
    + by apply map_Forall_delete.
    + intros a Ha. destruct (decide (a = n)) as [->|]; [left; by destruct (when_down lost n)|].
      by rewrite lookup_delete_ne.
    + intros a [x [_ Hx]%lookup_delete_Some]. by eexists.
    + done.
    + intros a p d [x [Hne Hx]%lookup_delete_Some]. by rewrite lookup_delete_ne.
    + intros b f. destruct (decide (b = n)) as [->|]; [|by rewrite lookup_delete_ne].
      rewrite lookup_delete_eq, Hn. simpl. unfold racing_view. by rewrite idle_view.
Qed.

Lemma racing_service_ok : FileServiceOk racing_service.
Proof.
  split.
  - done.
  - done.
  - done.
  - apply racing_open.
  - intros w a fd d o count off Ho _. by apply racing_read.
  - intros w a fd d o Ho _. by apply racing_close.
  - apply racing_background_ok.
Qed.

(** ** Lemmas: every interleaving is a plan *)

(** Accesses a handler still makes. *)
Definition accesses_left (pc : handler_pc (H:=H)) : nat :=
  match pc with
  | HRead _ _ _ | HSeek _ => 1
  | _ => open_left pc + close_left pc
  end.

Lemma handler_next_left pc (s s' : server) pc' :
  handler_next calloc_ok pc s = Ret (s', pc') →
  pc = HIdle ∨ (∃ a, pc = HDone a) ∨ (accesses_left pc' < accesses_left pc)%nat.
Proof.
  intros Hr. destruct pc as [|i|i|i|i q|i out|ir rr i|i|i|i|i|i|a]; try (by eauto); right; right;
    cbn [handler_next] in Hr;
    repeat match type of Hr with
    | (mbind _ _) _ = _ => first [assert_in Hr | let s1 := fresh "s" in let x := fresh "x" in
        let E := fresh "E" in bind_in Hr s1 x E]
    end; apply mret_Ret in Hr as [_ ->]; simpl; try lia.
  all: match goal with |- context [match ?c with _ => _ end] => destruct c end; simpl; lia.
Qed.

(** The labels of one request after its start: the handler's accesses and the
    mover's steps. *)
Definition in_request (l : fine_label (H:=H)) : bool :=
  match l with FHandler => true | _ => is_mover l end.

Lemma mover_keeps_handler l (n n' : node (H:=H)) :
  is_mover l = true → fine_run l n = Some (Ret n') → nd_handler n' = nd_handler n.
Proof.
  intros Hl Hr. destruct n as [s pc c], l; try done; cbn [NodeThreads.fine_run nd_server nd_handler nd_copy] in Hr.
  - destruct e; try done; destruct c; try done;
      apply bind_Some in Hr as (s' & _ & Hr); by simplify_eq.
  - destruct c; try done. destruct (mv_pc s); try done. destruct (local_list s); [done|].
    destruct (os_mkdtemp _ _ _). by simplify_eq.
  - destruct c; try done. destruct (local_list s); [done|]. by destruct (fs_copy _ _ _); simplify_eq.
  - destruct c; try done. destruct (local_list s); [done|]. by simplify_eq.
  - destruct c; try done. destruct (local_list s); [done|]. by simplify_eq.
Qed.

(** Only the head and the tail of a plan matter. *)
Lemma handler_turns_first fuel l plan n n1 :
  is_mover l = true → fine_run l n = Some (Ret n1) →
  handler_turns fuel ((l :: default [] (head plan)) :: tail plan) n = handler_turns fuel plan n1.
Proof.
  intros Hl Hr. assert (Ht : mover_turn l n = n1) by (unfold mover_turn; by rewrite Hl, Hr).
  assert (Hts : mover_turns (default [] (head ((l :: default [] (head plan)) :: tail plan))) n
    = mover_turns (default [] (head plan)) n1) by (rewrite <-Ht; done).
  destruct fuel; cbn [handler_turns]; by rewrite Hts.
Qed.

Lemma plan_of_labels ls fuel n n' a :
  forallb in_request ls = true → fine_runs calloc_ok template ls n = Some (Ret n') →
  nd_handler n' = HDone a → (accesses_left (nd_handler n) ≤ fuel)%nat →
  ∃ plan, handler_turns fuel plan n = Ret (Racing (Node (nd_server n') HIdle (nd_copy n')) [], a).
Proof.
  revert fuel n. induction ls as [|l ls IH]; intros fuel n Hls Hr Ha Hf.
  - injection Hr as ->. exists []. destruct fuel; cbn [handler_turns]; simpl; by rewrite Ha.
  - cbn [forallb] in Hls. apply andb_true_iff in Hls as [Hl Hls]. cbn [fine_runs] in Hr.
    apply bind_Some in Hr as ([n1|f] & Hr1 & Hr2); [|done].
    destruct (is_mover l) eqn:Hm.
    + pose proof (mover_keeps_handler l n n1 Hm Hr1) as Hpc.
      destruct (IH fuel n1 Hls Hr2 Ha) as [plan Hp]; [by rewrite Hpc|].
      exists ((l :: default [] (head plan)) :: tail plan).
      by rewrite (handler_turns_first fuel l plan n n1 Hm Hr1).
    + destruct l; try done. destruct n as [s pc c].
      assert (∃ s2 pc2, handler_next calloc_ok pc s = Ret (s2, pc2) ∧ n1 = Node s2 pc2 c)
        as (s2 & pc2 & Hn & ->) by exact (fine_handler calloc_ok template s pc c n1 Hr1).
      assert (Hpc : pc ≠ HIdle ∧ ∀ b, pc ≠ HDone b).
      { split; [intros ->; discriminate Hr1|intros b ->; discriminate Hr1]. }
      destruct (handler_next_left _ _ _ _ Hn) as [?|[[b ?]|Hlt]];
        [by destruct Hpc|by destruct (proj2 Hpc b)|].
      cbn [nd_handler] in Hf. destruct fuel as [|fuel]; [lia|].
      destruct (IH fuel (Node s2 pc2 c) Hls Hr2 Ha) as [plan Hp]; [simpl; lia|].
      exists ([] :: plan). cbn [handler_turns].
      change (mover_turns (default [] (head ([] :: plan))) (Node s pc c)) with (Node s pc c).
      rewrite Hr1. destruct Hpc as [Hp1 Hp2].
      destruct pc as [| | | | | | | | | | | |b]; [by destruct Hp1|exact Hp..|by destruct (Hp2 b)].
Qed.

(** Conversely a plan is one. *)
Lemma fine_runs_app ls ls' (n n1 : node (H:=H)) :
  fine_runs calloc_ok template ls n = Some (Ret n1) →
  fine_runs calloc_ok template (ls ++ ls') n = fine_runs calloc_ok template ls' n1.
Proof.
  revert n. induction ls as [|l ls IH]; intros n; [by intros [= ->]|]. cbn [app fine_runs].
  intros ([n2|f] & Hr1 & Hr2)%bind_Some; [|done]. rewrite Hr1. by apply IH.
Qed.

Lemma mover_turns_labels (ls : list (fine_label (H:=H))) n :
  ∃ ls', forallb in_request ls' = true ∧
    fine_runs calloc_ok template ls' n = Some (Ret (mover_turns ls n)).
Proof.
  revert n. induction ls as [|l ls IH]; intros n; [by exists []|].
  destruct (IH (mover_turn l n)) as (ls' & Hl' & Hr').
  change (mover_turns (l :: ls) n) with (mover_turns ls (mover_turn l n)).
  unfold mover_turn in *. destruct (is_mover l) eqn:Hl; [|by exists ls'].
  destruct (fine_run l n) as [[n'|f]|] eqn:Hr; [|by exists ls'..].
  exists (l :: ls'). cbn [forallb fine_runs]. rewrite Hr. split; [|done].
  rewrite Hl', andb_true_r. by destruct l.
Qed.

Lemma turns_are_labels fuel plan n r a :
  handler_turns fuel plan n = Ret (r, a) →
  ∃ ls n1, forallb in_request ls = true ∧ fine_runs calloc_ok template ls n = Some (Ret n1) ∧
    nd_handler n1 = HDone a ∧ rc_node r = Node (nd_server n1) HIdle (nd_copy n1).
Proof.
  revert plan n. induction fuel as [|fuel IH]; intros plan n Hr; cbn [handler_turns] in Hr;
    destruct (mover_turns_labels (default [] (head plan)) n) as (ls1 & Hl1 & Hr1);
    set (n1 := mover_turns _ n) in *; destruct (nd_handler n1) eqn:Hpc; try done.
  1,14: injection Hr as <- <-; exists ls1, n1; by rewrite Hpc.
  all: destruct (fine_run FHandler n1) as [[n2|f]|] eqn:Hh; [|done..];
    destruct (IH _ _ Hr) as (ls2 & n3 & Hl2 & Hr2 & Hd & Hq);
    exists (ls1 ++ FHandler :: ls2), n3; split; [|split; [|done]];
    [by rewrite forallb_app, Hl1|]; rewrite (fine_runs_app _ _ _ _ Hr1); cbn [fine_runs]; by rewrite Hh.
Qed.

Lemma accesses_begin c (s s' : server) pc :
  handler_begin (H:=H) c s = Ret (s', pc) → (accesses_left pc ≤ 5)%nat.
Proof.
  destruct c; cbn [handler_begin]; intros Hr;
    try (assert_in Hr); apply mret_Ret in Hr as [_ ->]; simpl; lia.
Qed.

(** The plans are the interleavings: what a request under some plan does to
    the node and answers is exactly what some run of the two threads does in
    which the handler starts, takes its accesses with the mover's steps
    anywhere between them, and responds. *)
Theorem plans_are_the_interleavings c (n n' : node (H:=H)) a :
  (∃ plan plan', serve_racing c (Racing n plan) = Ret (Racing n' plan', a)) ↔
  (∃ ls n1, forallb in_request ls = true ∧
     fine_runs calloc_ok template (FBegin c :: ls) n = Some (Ret n1) ∧
     nd_handler n1 = HDone a ∧ fine_run FRespond n1 = Some (Ret n')).
Proof.
  split.
  - intros (plan & plan' & Hs). unfold serve_racing in Hs. cbn [rc_node rc_plan] in Hs.
    destruct (fine_run (FBegin c) n) as [[n0|f]|] eqn:Hb; [|done..].
    destruct (turns_are_labels _ _ _ _ _ Hs) as (ls & n1 & Hls & Hr & Hd & Hn).
    exists ls, n1. cbn [fine_runs]. rewrite Hb. split_and!; [done|done|done|].
    cbn [NodeThreads.fine_run]. rewrite Hd. simpl in Hn. by rewrite Hn.
  - intros (ls & n1 & Hls & Hr & Hd & Hf). cbn [fine_runs] in Hr.
    apply bind_Some in Hr as ([n0|f] & Hb & Hr); [|done].
    destruct (plan_of_labels ls 5 n0 n1 a Hls Hr Hd) as [plan Hp].
    { cbn [NodeThreads.fine_run] in Hb. destruct (nd_handler n); try done.
      destruct (handler_begin c (nd_server n)) as [[s' pc]|] eqn:Hh; [|done].
      injection Hb as <-. by eapply accesses_begin. }
    exists plan, []. unfold serve_racing. cbn [rc_node rc_plan]. rewrite Hb, Hp.
    cbn [NodeThreads.fine_run] in Hf. rewrite Hd in Hf. by injection Hf as <-.
Qed.

End racing.
