(* ===== verification/Whole.v ===== *)
(** * The whole system

    The composition of all that runs at the same time: client processes with
    their threads ([Job.v]), each of which starts Mercury at its first open
    ([Boot.v]), close requests that arrive later ([Delivery.v]),
    and server nodes whose handlers race their movers ([RacingSystem.v]), from
    the moment every part has just started. *)

From S2P Require Import Prelude CText Posix Wire Server ServerSpec Mover NodeProps NodeThreads AddrFile.
From S2P Require Import FdState Comm Stats ClientComm ClientCommProps Client Wrappers Service Sim Cut.
From S2P Require Import OpenSteps ReadSteps CallSteps Threads ThreadSteps ThreadInv ThreadsProps Job Room Boot.
From S2P Require Import Delivery Transparency System SystemProps JobExample RacingSystem.

Local Open Scope Z_scope.

Section whole.
Context {H : Mercury}.
Context (calloc_ok : Z → bool) (template : text) (resolve : text → option Z) (lost : losses Z).
Context (E : nat → environment).

Abbreviation nodes_transport := (racing_transport (H:=H) calloc_ok template resolve lost).
Abbreviation nodes_service := (racing_service (H:=H) calloc_ok template resolve lost).
Abbreviation whole_transport := (delayed_transport nodes_transport).
Abbreviation whole_service :=
  (delayed_service (T:=nodes_transport) (S:=nodes_service) (Haddr:=Z.eq_dec)).
Abbreviation whole_job := (job (T:=whole_transport)).
Abbreviation whole_runs := (boot_runs (T:=whole_transport) (S:=whole_service) E).
Abbreviation whole_disciplined := (boot_disciplined (T:=whole_transport) (S:=whole_service) E).





(** ** Lemmas *)


Context {HOk : MercuryOk H}.




(** ** Properties *)

Context (Hcalloc : ∀ n, 0 ≤ n < 2 ^ 31 → calloc_ok n = true).

#[local] Instance nodes_service_ok : FileServiceOk nodes_service :=
  racing_service_ok calloc_ok template resolve lost Hcalloc.
#[local] Instance whole_service_ok : FileServiceOk whole_service :=
  delayed_service_ok (SOk:=nodes_service_ok).

(** C4. The cluster keeps the promises of the file-service interface although
    its movers run between any two accesses of its handlers: whatever the plan
    of each node, a request is answered, an open gives a new descriptor
    reading the requested path's bytes from the start, a read the next or
    the addressed slice, a close forgets its descriptor alone, and the
    movers' steps, or a node that goes down while it has no file open, change
    nothing a client can see. *)
Theorem racing_cluster_keeps_promises : FileServiceOk nodes_service.
Proof. exact nodes_service_ok. Qed.


End whole.

(** ** Witnesses *)

Abbreviation ex_nodes_tr := (racing_transport (H:=sized_mercury) (λ _, true) ex_template ex_resolve ex_lost).
Abbreviation ex_nodes_fs := (racing_service (H:=sized_mercury) (λ _, true) ex_template ex_resolve ex_lost).
Abbreviation ex_whole_tr := (delayed_transport ex_nodes_tr).
Abbreviation ex_whole_fs := (delayed_service (T:=ex_nodes_tr) (S:=ex_nodes_fs) (Haddr:=Z.eq_dec)).
Abbreviation ex_whole_runs := (boot_runs (T:=ex_whole_tr) (S:=ex_whole_fs) (λ _, ex_env)).












Lemma racing_cluster_keeps_promises_witness : FileServiceOk ex_nodes_fs.
Proof.
  exact (racing_cluster_keeps_promises (HOk:=sized_mercury_ok) (λ _, true) ex_template ex_resolve ex_lost
           (λ _ _, eq_refl)).
Defined.

