(* ===== verification/Timer.v ===== *)
(** * Timing statistics

    [src/src/mthvac_timer.h]: the table of calls and times per tag that every
    HVAC_TIMING scope adds to, the call history of selected tags, their reset,
    and the reports. Every operation holds the one mutex from its first access
    to its last, so operations are atomic, and the compare-exchange loop of the
    guard finds the value it loaded. *)

From S2P Require Import Prelude CText FdState Stats.

Local Open Scope Z_scope.

(** ** State *)

Record Stat : Type := MkStat {
  total_us : double;
  calls : Z               (* uint64_t *)
}.

Definition stat_default : Stat := MkStat dzero 0.

Record timers : Type := Timers {
  table : gmap string Stat;
  detailed_tags : gset string;
  call_history : gmap string (list Z)
}.

Definition timers_initial : timers := Timers ∅ ∅ ∅.

(** ** Operations *)

Definition enable_detailed_call_logging_for_tag (tag : string) (t : timers) : timers :=
  Timers (table t) ({[tag]} ∪ detailed_tags t) (call_history t).

Definition disable_detailed_call_logging_for_tag (tag : string) (t : timers) : timers :=
  Timers (table t) (detailed_tags t ∖ {[tag]}) (call_history t).

(** ~TimerGuard, for a scope that lasted [elapsed_us] microseconds. *)
Definition timer_guard_end (tag : string) (elapsed_us : Z) (t : timers) : timers :=
  let us := to_uint64 elapsed_us in
  let s := default stat_default (table t !! tag) in
  let s' := MkStat (dadd (total_us s) (dbl_of_Z us)) (to_uint64 (calls s + 1)) in
  Timers (<[tag := s']> (table t)) (detailed_tags t)
    (if bool_decide (tag ∈ detailed_tags t)
     then <[tag := default [] (call_history t !! tag) ++ [us]]> (call_history t)
     else call_history t).

Definition reset_all_stats (t : timers) : timers :=
  Timers ((λ _, stat_default) <$> table t) (detailed_tags t)
    (map_imap (λ tag ds, Some (if bool_decide (tag ∈ detailed_tags t) then [] else ds))
              (call_history t)).

(** ** Reports

    The table is an unordered_map: the order of a report's rows is its
    iteration order, [rows]. *)

Definition avg_us (s : Stat) : double :=
  if calls s =? 0 then dzero else ddiv (total_us s) (dbl_of_Z (calls s)).

(** One row: the tag left-aligned, three right-aligned columns. *)
Definition stat_row (w1 w2 w3 w4 : nat) (r : string * Stat) : text :=
  pad_right w1 sp (s2t (fst r)) ++ pad_left w2 sp (print_u (calls (snd r))) ++
  pad_left w3 sp (print_double 2 (total_us (snd r))) ++
  pad_left w4 sp (print_double 2 (avg_us (snd r))) ++ [nl].

Definition header_row (w1 w2 w3 w4 : nat) : text :=
  pad_right w1 sp (s2t "Section") ++ pad_left w2 sp (s2t "Calls") ++
  pad_left w3 sp (s2t "Total(us)") ++ pad_left w4 sp (s2t "Avg(us)").

Definition epoch_text (prefix : string) (epoch_num : Z) : text :=
  if 0 <=? epoch_num then s2t prefix ++ print_d epoch_num else [].

Definition total_line_width : nat := 75 + 12 + 18 + 15.

(** print_all_stats: what goes to standard output. *)
Definition print_all_stats (rows : list (string * Stat)) (epoch_num : Z) : text :=
  [nl] ++ s2t "=== HVAC timing summary (" ++ epoch_text "Epoch: " epoch_num ++ s2t ") ===" ++ [nl] ++
  header_row 75 12 18 15 ++ [nl] ++ replicate total_line_width (chr 45) ++ [nl] ++
  concat (stat_row 75 12 18 15 <$> rows) ++
  replicate total_line_width (chr 61) ++ [nl].

Inductive report : Type :=
| ToFile (t : text)
| ToConsole (t : text)
| NoReport.

(** export_all_stats_to_file: [filename] is NULL, empty or a name; [opened]
    says the file could be opened. *)
Definition export_all_stats_to_file (filename : option text) (opened : bool)
    (rows : list (string * Stat)) (epoch_num : Z) : report :=
  match filename with
  | Some (_ :: _) =>
      if opened
      then ToFile (header_row 75 12 18 15 ++ [nl] ++ replicate 83 (chr 45) ++ [nl] ++
                   concat (stat_row 45 12 15 15 <$> rows) ++ replicate 83 (chr 61) ++ [nl])
      else ToConsole (print_all_stats rows epoch_num)
  | _ => ToConsole (print_all_stats rows epoch_num)
  end.

(** The rows of a call history: (i + 1),duration. *)
Fixpoint history_rows (i : Z) (durations : list Z) : text :=
  match durations with
  | [] => []
  | d :: ds => print_u (i + 1) ++ s2t "," ++ print_u d ++ [nl] ++ history_rows (i + 1) ds
  end.

Definition quote : text := [chr 34].

(** export_tag_call_history_to_file: what it appends to the file. *)
Definition export_tag_call_history_to_file (tag : string) (filename : option text)
    (opened : bool) (epoch_num : Z) (t : timers) : report :=
  match filename with
  | Some (_ :: _) =>
      if opened
      then ToFile (
        [nl] ++ s2t "=== HVAC Detailed Call History for Tag: " ++ quote ++ s2t tag ++ quote ++
        s2t " (" ++ epoch_text ", For Client Epoch: " epoch_num ++ s2t ") ===" ++ [nl] ++
        s2t "Call_Index,Duration_us" ++ [nl] ++
        match call_history t !! tag with
        | Some durations =>
            history_rows 0 durations ++
            (if durations is [] then
               s2t "(No calls recorded for this tag in this period/since last reset)" ++ [nl]
             else [])
        | None =>
            s2t "(Tag " ++ quote ++ s2t tag ++ quote ++
            s2t " not found in detailed history or not enabled for detailed logging)" ++ [nl]
        end ++
        s2t "--- End of detailed history for tag: " ++ quote ++ s2t tag ++ quote ++
        s2t " (Exported " ++
        print_u (Z.of_nat (length (default [] (call_history t !! tag)))) ++ s2t " calls) ---" ++ [nl] ++
        replicate 78 (chr 61) ++ [nl])
      else NoReport
  | _ => NoReport
  end.

(** ** The client's entry points *)

(** The one tag the client details. No scope of the program carries it. *)
Definition hvac_setup_detailed_logging : timers → timers :=
  enable_detailed_call_logging_for_tag "CLIENT_hvac_open_rpc_wait_data".

Definition hvac_trigger_print_all_stats : list (string * Stat) → Z → text := print_all_stats.

Definition hvac_trigger_reset_all_stats : timers → timers := reset_all_stats.

Definition hvac_client_export_tag_details (tag_name : option string)
    (output_filename : option text) (opened : bool) (epoch_num : Z) (t : timers) : report :=
  match tag_name, output_filename with
  | Some tag, Some f => export_tag_call_history_to_file tag (Some f) opened epoch_num t
  | _, _ => NoReport
  end.

(** ** Reference: the log of what happened *)

Inductive timer_event : Type :=
| TEnable (tag : string)
| TDisable (tag : string)
| TEnd (tag : string) (elapsed_us : Z)
| TReset.

Definition timer_step (t : timers) (e : timer_event) : timers :=
  match e with
  | TEnable tag => enable_detailed_call_logging_for_tag tag t
  | TDisable tag => disable_detailed_call_logging_for_tag tag t
  | TEnd tag us => timer_guard_end tag us t
  | TReset => reset_all_stats t
  end.

Definition timer_run (es : list timer_event) (t : timers) : timers := foldl timer_step t es.

(** The durations of a tag's scopes since the last reset. *)
Definition log_step (tag : string) (ds : list Z) (e : timer_event) : list Z :=
  match e with
  | TEnd tag' us => if bool_decide (tag' = tag) then ds ++ [to_uint64 us] else ds
  | TReset => []
  | _ => ds
  end.

Definition since_reset (tag : string) (es : list timer_event) : list Z :=
  foldl (log_step tag) [] es.

Definition ended (tag : string) (e : timer_event) : bool :=
  match e with TEnd tag' _ => bool_decide (tag' = tag) | _ => false end.

Definition disables (tag : string) (e : timer_event) : bool :=
  match e with TDisable tag' => bool_decide (tag' = tag) | _ => false end.

Definition sum_us (ds : list Z) : double := foldl (λ x d, dadd x (dbl_of_Z d)) dzero ds.

Lemma sum_us_snoc ds d : sum_us (ds ++ [d]) = dadd (sum_us ds) (dbl_of_Z d).
Proof. unfold sum_us. by rewrite foldl_app. Qed.

Lemma since_reset_snoc tag es e :
  since_reset tag (es ++ [e]) = log_step tag (since_reset tag es) e.
Proof. unfold since_reset. by rewrite foldl_app. Qed.

Lemma timer_run_snoc es e t : timer_run (es ++ [e]) t = timer_step (timer_run es t) e.
Proof. unfold timer_run. by rewrite foldl_app. Qed.

Lemma table_after tag es :
  table (timer_run es timers_initial) !! tag =
    if existsb (ended tag) es
    then Some (MkStat (sum_us (since_reset tag es))
                      (to_uint64 (Z.of_nat (length (since_reset tag es)))))
    else None.
Proof.
  induction es as [|e es IH] using rev_ind; [done|].
  rewrite timer_run_snoc, since_reset_snoc, existsb_app. simpl. rewrite orb_false_r.
  destruct e as [tag'|tag'|tag' us|]; simpl; rewrite ?orb_false_r; [done|done| |].
  - case_bool_decide as Ht.
    + subst tag'. rewrite orb_true_r, lookup_insert_eq, IH. f_equal.
      rewrite sum_us_snoc, length_app. simpl.
      destruct (existsb (ended tag) es) eqn:Hex; simpl.
      * f_equal. unfold to_uint64, to_unsigned. rewrite Zplus_mod_idemp_l. f_equal. lia.
      * assert (since_reset tag es = []) as ->; [|done]. revert Hex. clear.
        induction es as [|e es IH] using rev_ind; [done|].
        rewrite existsb_app, since_reset_snoc. intros [H1 H2]%orb_false_iff.
        rewrite IH by done. simpl in H2. rewrite orb_false_r in H2.
        destruct e; simpl in *; [done..| |done]. by rewrite H2.
    + rewrite orb_false_r, lookup_insert_ne by done. done.
  - rewrite lookup_fmap, IH. by destruct (existsb (ended tag) es).
Qed.

(** The history of one tag: whether it is detailed, and the durations kept. A
    scope's is kept when the tag is detailed at its end; a reset clears the
    history only of a tag that is detailed then. *)
Definition record_step (tag : string) (x : bool * list Z) (e : timer_event) : bool * list Z :=
  let '(on, ds) := x in
  match e with
  | TEnable tag' => (bool_decide (tag' = tag) || on, ds)
  | TDisable tag' => (negb (bool_decide (tag' = tag)) && on, ds)
  | TEnd tag' us => (on, if bool_decide (tag' = tag) && on then ds ++ [to_uint64 us] else ds)
  | TReset => (on, if on then [] else ds)
  end.

Definition recorded (tag : string) (es : list timer_event) : bool * list Z :=
  foldl (record_step tag) (false, []) es.

Lemma recorded_snoc tag es e : recorded tag (es ++ [e]) = record_step tag (recorded tag es) e.
Proof. unfold recorded. by rewrite foldl_app. Qed.

Lemma history_after tag es :
  let t := timer_run es timers_initial in
  (bool_decide (tag ∈ detailed_tags t), default [] (call_history t !! tag)) = recorded tag es.
Proof.
  cbv zeta. induction es as [|e es IH] using rev_ind; [done|].
  rewrite timer_run_snoc, recorded_snoc, <-IH. clear IH.
  destruct (timer_run es timers_initial) as [tb dt ch].
  destruct e as [tag'|tag'|tag' us|]; simpl; f_equal.
  - rewrite <-bool_decide_or. apply bool_decide_ext. set_solver.
  - rewrite <-bool_decide_not, <-bool_decide_and. apply bool_decide_ext. set_solver.
  - destruct (decide (tag' = tag)) as [->|Hne].
    + rewrite (bool_decide_true (tag = tag)) by done. simpl.
      destruct (bool_decide (tag ∈ dt)); [by rewrite lookup_insert_eq|done].
    + rewrite (bool_decide_false (tag' = tag)) by done. simpl.
      destruct (bool_decide (tag' ∈ dt)); [by rewrite lookup_insert_ne|done].
  - rewrite map_lookup_imap. destruct (ch !! tag); simpl; by case_bool_decide.
Qed.

(** While a tag stays detailed, what is kept is what ended since the reset. *)
Lemma recorded_detailed tag es1 es2 :
  existsb (disables tag) es2 = false →
  recorded tag (es1 ++ TEnable tag :: TReset :: es2) = (true, since_reset tag es2).
Proof.
  induction es2 as [|e es IH] using rev_ind.
  - intros _. change [TEnable tag; TReset] with ([TEnable tag] ++ [TReset]).
    rewrite app_assoc, !recorded_snoc. destruct (recorded tag es1) as [on ds].
    simpl. by rewrite bool_decide_true.
  - rewrite existsb_app. intros [He1 He2]%orb_false_iff. simpl in He2. rewrite orb_false_r in He2.
    rewrite !app_comm_cons, app_assoc, recorded_snoc, since_reset_snoc, IH by done.
    destruct e as [tag'|tag'|tag' us|]; simpl in *.
    + by rewrite orb_true_r.
    + by rewrite He2.
    + by rewrite andb_true_r.
    + done.
Qed.

(** ** Properties *)

(** C29. After any sequence of scope ends, resets and switches of the detailed
    logs, a tag's counter is the number of its scopes since the last reset
    (modulo 2^64) and its total the sum of their times in order, whether or not
    the tag existed before the reset. Its history are the times of the scopes
    that ended while the tag was detailed, and a reset empties it only when the
    tag is detailed at that moment: what an earlier detailed phase recorded
    survives the resets after it. From a reset on, as long as the tag stays
    detailed, the history is exactly what the counter and the total count. *)
Theorem timers_account_for_scopes tag es :
  let ds := since_reset tag es in
  let t := timer_run es timers_initial in
  table t !! tag =
    (if existsb (ended tag) es
     then Some (MkStat (sum_us ds) (to_uint64 (Z.of_nat (length ds)))) else None) ∧
  default [] (call_history t !! tag) = snd (recorded tag es) ∧
  (∀ es1 es2, es = es1 ++ TEnable tag :: TReset :: es2 → existsb (disables tag) es2 = false →
     default [] (call_history t !! tag) = since_reset tag es2).
Proof.
  intros ds t. pose proof (f_equal snd (history_after tag es)) as Hh. cbn [snd] in Hh.
  split_and!; [apply table_after|exact Hh|].
  intros es1 es2 -> Hd. unfold t. by rewrite Hh, recorded_detailed.
Qed.

(** The exported table's rows are narrower than its header: a row whose
    fields fit has 87 columns and a newline, the header 120 columns. *)
Lemma export_rows_narrower_than_header tag s :
  (length (s2t tag) ≤ 45)%nat → (length (print_u (calls s)) ≤ 12)%nat →
  (length (print_double 2 (total_us s)) ≤ 15)%nat → (length (print_double 2 (avg_us s)) ≤ 15)%nat →
  length (stat_row 45 12 15 15 (tag, s)) = 88%nat ∧
  length (header_row 75 12 18 15) = 120%nat.
Proof.
  intros H1 H2 H3 H4. split; [|vm_compute; reflexivity].
  unfold stat_row, pad_right, pad_left. simpl fst. simpl snd.
  rewrite !length_app, !length_replicate. simpl length. lia.
Qed.

(** ** Witness: the first phase's 5 survives a reset, the second phase's 7 and 8
    stand alone *)

Definition ex_timer_events : list timer_event :=
  [TEnable "a"; TEnd "a" 5; TDisable "a"; TReset].

Lemma timers_account_for_scopes_witness :
  default [] (call_history (timer_run ex_timer_events timers_initial) !! "a") = [5] ∧
  default [] (call_history (timer_run (ex_timer_events ++ TEnable "a" :: TReset ::
    [TEnd "a" 7; TEnd "b" 1; TEnd "a" 8]) timers_initial) !! "a") = [7; 8].
Proof.
  split.
  - exact (proj1 (proj2 (timers_account_for_scopes "a" ex_timer_events))).
  - exact (proj2 (proj2 (timers_account_for_scopes "a" _)) ex_timer_events
           [TEnd "a" 7; TEnd "b" 1; TEnd "a" 8] eq_refl eq_refl).
Defined.

Example export_history_csv :
  history_rows 0 [7; 8] = s2t "1,7" ++ [nl] ++ s2t "2,8" ++ [nl].
Proof. vm_compute. reflexivity. Qed.
