(* ===== verification/Logging.v ===== *)
(** * The logging front end

    [src/src/hvac_logging.c] over the log4c library: how [hvac_init_logging]
    reads its settings, and what [log_preformatter_internal] passes on for one
    message. *)

From S2P Require Import Prelude CText.

Local Open Scope Z_scope.

(** ** log4c priorities *)

Definition LOG4C_PRIORITY_FATAL : Z := 0.
Definition LOG4C_PRIORITY_ALERT : Z := 100.
Definition LOG4C_PRIORITY_CRIT : Z := 200.
Definition LOG4C_PRIORITY_ERROR : Z := 300.
Definition LOG4C_PRIORITY_WARN : Z := 400.
Definition LOG4C_PRIORITY_NOTICE : Z := 500.
Definition LOG4C_PRIORITY_INFO : Z := 600.
Definition LOG4C_PRIORITY_DEBUG : Z := 700.
Definition LOG4C_PRIORITY_TRACE : Z := 800.

(** The two programs are compiled with HVAC_CLIENT or HVAC_SERVER. *)
Inductive build : Type := HVAC_CLIENT | HVAC_SERVER.

Definition L4C_CAT_NAME (b : build) : text :=
  match b with HVAC_CLIENT => s2t "HVAC_CLIENT" | HVAC_SERVER => s2t "hvac_server" end.
Definition L4C_LOG_DIR (b : build) : text := s2t ".".
Definition L4C_LOG_NAME_PREFIX (b : build) : text :=
  match b with HVAC_CLIENT => s2t "hvac_intercept_log" | HVAC_SERVER => s2t "hvac_server_log" end.

(** ** hvac_init_logging *)

(** The level given to the root category. *)
Definition log_level (level_str : option text) : Z :=
  match level_str with
  | Some s =>
      let level := atoi s in
      if level <? LOG4C_PRIORITY_FATAL then LOG4C_PRIORITY_FATAL
      else if LOG4C_PRIORITY_TRACE <? level then LOG4C_PRIORITY_TRACE
      else level
  | None => LOG4C_PRIORITY_NOTICE
  end.

(** The buffer malloc'ed for prefix_and_pid, and what sprintf writes in it,
    with its terminating NUL. *)
Definition prefix_buffer_size (prefix : text) : Z := Z.of_nat (length prefix) + 7.
Definition prefix_and_pid (prefix : text) (pid : Z) : text := prefix ++ s2t "." ++ print_d pid.
Definition prefix_written (prefix : text) (pid : Z) : Z :=
  Z.of_nat (length (prefix_and_pid prefix pid)) + 1.

(** What log4c is told, call by call; the rolling-file and size-window data it
    hands out are the only ones there are. *)
Inductive log4c_call : Type :=
| log4c_category_set_priority (category : string) (priority : Z)
| log4c_appender_set_type (appender type : string)
| rollingfile_udata_set_logdir (dir : text)
| rollingfile_udata_set_files_prefix (prefix : text)
| log4c_rollingpolicy_set_type (policy type : string)
| sizewin_udata_set_file_maxsize (bytes : Z)
| sizewin_udata_set_max_num_files (n : Z)
| log4c_rollingpolicy_set_udata (policy : string)
| rollingfile_udata_set_policy (policy : string)
| log4c_appender_set_udata (appender : string)
| log4c_rollingpolicy_init (policy : string)
| log4c_appender_set_layout (appender layout : string)
| log4c_category_set_appender (category appender : string)
| log4c_fini.

Inductive init_logging : Type :=
| LogUnavailable                         (* log4c_init failed: go on without *)
| LogReady (calls : list log4c_call)
| LogOverflow (calls : list log4c_call). (* sprintf wrote past the buffer *)

Definition param_max_file_size : Z := 100 * 1024 * 1024.
Definition param_max_num_files : Z := 10.
Definition param_layout_to_use : string := "dated".

(** The calls before the file name is built, and those after it. *)
Definition before_prefix (getenv : string → option text) : list log4c_call :=
  [ log4c_category_set_priority "root" (log_level (getenv "HVAC_LOG_LEVEL"));
    log4c_appender_set_type "aname" "rollingfile" ].

Definition after_prefix (dir prefix_and_pid : text) : list log4c_call :=
  [ rollingfile_udata_set_logdir dir;
    rollingfile_udata_set_files_prefix prefix_and_pid;
    log4c_rollingpolicy_set_type "a_policy_name" "sizewin";
    sizewin_udata_set_file_maxsize param_max_file_size;
    sizewin_udata_set_max_num_files param_max_num_files;
    log4c_rollingpolicy_set_udata "a_policy_name";
    rollingfile_udata_set_policy "a_policy_name";
    log4c_appender_set_udata "aname";
    log4c_rollingpolicy_init "a_policy_name";
    log4c_appender_set_layout "aname" param_layout_to_use;
    log4c_category_set_appender "root" "aname" ].

Definition hvac_init_logging (log4c_init_ret : Z) (getenv : string → option text) (pid : Z)
    (b : build) : init_logging :=
  if negb (log4c_init_ret =? 0) then LogUnavailable
  else
    let dir := default (L4C_LOG_DIR b) (getenv "HVAC_LOG_DIR") in
    let prefix := default (L4C_LOG_NAME_PREFIX b) (getenv "HVAC_LOG_PREFIX") in
    let calls := before_prefix getenv ++ after_prefix dir (prefix_and_pid prefix pid) in
    if prefix_written prefix pid <=? prefix_buffer_size prefix then LogReady calls
    else LogOverflow calls.

Definition HVAC_finalize_logging : list log4c_call := [log4c_fini].

(** ** log_preformatter_internal *)

Definition MAX_STR_LEN : Z := 1024.

(** vsnprintf(buf, n, ...): the text kept of [full]. *)
Definition vsnprintf (n : Z) (full : text) : text := take (Z.to_nat (n - 1)) full.

(** A message as it reaches log4c under the build's category, and the redirection flag of the thread
    while log4c has it. *)
Record log_call : Type := LogCall {
  lc_priority : Z;
  lc_text : text;
  lc_redirect_disabled : bool
}.

(** [expanded] is the format string with its arguments; the flag the thread
    had before does not matter, and is false afterwards. *)
Definition log_preformatter_internal (priority : Z) (file : text) (linenum : Z)
    (expanded : text) (tl_disable_redirect : bool) : log_call * bool :=
  let expanded_format := vsnprintf MAX_STR_LEN expanded in
  let tl_during := true in
  (LogCall priority
     (s2t "[" ++ filename file ++ s2t ":" ++ print_u linenum ++ s2t "] " ++ expanded_format)
     tl_during,
   false).

(** ** The macros of hvac_logging.h *)

(** The macro adds the calling file and line to a message. *)
Definition L4C_LOG_AT_PRIORITY (priority : Z) (file : text) (line : Z) (expanded : text)
    (tl_disable_redirect : bool) : log_call * bool :=
  log_preformatter_internal priority file line expanded tl_disable_redirect.

Inductive log_macro : Type :=
| L4C_FATAL | L4C_ALERT | L4C_CRIT | L4C_ERR | L4C_WARN | L4C_NOTICE | L4C_INFO | L4C_DEBUG
| L4C_TRACE.

Definition macro_priority (m : log_macro) : Z :=
  match m with
  | L4C_FATAL => LOG4C_PRIORITY_FATAL
  | L4C_ALERT => LOG4C_PRIORITY_ALERT
  | L4C_CRIT => LOG4C_PRIORITY_CRIT
  | L4C_ERR => LOG4C_PRIORITY_ERROR
  | L4C_WARN => LOG4C_PRIORITY_WARN
  | L4C_NOTICE => LOG4C_PRIORITY_NOTICE
  | L4C_INFO => LOG4C_PRIORITY_INFO
  | L4C_DEBUG => LOG4C_PRIORITY_DEBUG
  | L4C_TRACE => LOG4C_PRIORITY_TRACE
  end.

Definition log_with (m : log_macro) (file : text) (line : Z) (expanded : text) (tl : bool) :
    log_call * bool :=
  L4C_LOG_AT_PRIORITY (macro_priority m) file line expanded tl.

(** [strerror] of errno is the system's. *)
Definition L4C_PERROR (msg strerror file : text) (line : Z) (tl : bool) : log_call * bool :=
  log_with L4C_ERR file line (msg ++ s2t ": " ++ strerror) tl.

(** ** Lemmas *)

Lemma put_digits_length fuel n acc k :
  0 ≤ n < 10 ^ Z.of_nat k → (k ≠ 0)%nat →
  (length (put_digits fuel n acc) ≤ k + length acc)%nat.
Proof.
  revert n acc k. induction fuel as [|f IH]; intros n acc k Hn Hk; simpl; [lia|].
  destruct (Z.ltb_spec n 10); simpl; [lia|].
  destruct k as [|[|k]]; [done|simpl in Hn; lia|].
  etrans; [apply (IH _ _ (S k))|simpl; lia]; [|done].
  split; [apply Z.div_pos; lia|]. apply Z.div_lt_upper_bound; [lia|].
  replace (Z.of_nat (S (S k))) with (1 + Z.of_nat (S k)) in Hn by lia.
  rewrite Z.pow_add_r in Hn by lia. lia.
Qed.

Lemma put_digits_length_ge fuel n acc k :
  10 ^ Z.of_nat k ≤ n < 2 ^ Z.of_nat fuel →
  (S k + length acc ≤ length (put_digits fuel n acc))%nat.
Proof.
  revert n acc k. induction fuel as [|f IH]; intros n acc k Hn.
  - pose proof (Z.pow_pos_nonneg 10 (Z.of_nat k)). simpl in Hn. lia.
  - simpl. destruct (Z.ltb_spec n 10).
    + destruct k as [|k]; [simpl; lia|].
      replace (Z.of_nat (S k)) with (1 + Z.of_nat k) in Hn by lia.
      rewrite Z.pow_add_r in Hn by lia. pose proof (Z.pow_pos_nonneg 10 (Z.of_nat k)). lia.
    + destruct k as [|k].
      * transitivity (1 + length (digit_chr (n mod 10) :: acc))%nat; [simpl; lia|].
        apply (IH _ _ 0%nat). split.
        { simpl. apply Z.div_le_lower_bound; lia. }
        apply Z.div_lt_upper_bound; [lia|].
        replace (Z.of_nat (S f)) with (1 + Z.of_nat f) in Hn by lia.
        rewrite Z.pow_add_r in Hn by lia. pose proof (Z.pow_pos_nonneg 2 (Z.of_nat f)). lia.
      * transitivity (S k + length (digit_chr (n mod 10) :: acc))%nat; [simpl; lia|].
        apply IH. replace (Z.of_nat (S k)) with (1 + Z.of_nat k) in Hn by lia.
        replace (Z.of_nat (S f)) with (1 + Z.of_nat f) in Hn by lia.
        rewrite !Z.pow_add_r in Hn by lia. split; [apply Z.div_le_lower_bound; lia|].
        apply Z.div_lt_upper_bound; lia.
Qed.

(** A number has more than [k] digits exactly from 10^k on. *)
Lemma print_u_length n k :
  0 ≤ n → (0 < k)%nat → (length (print_u n) ≤ k)%nat ↔ n < 10 ^ Z.of_nat k.
Proof.
  intros Hn Hk. unfold print_u. split; intros Hl.
  - destruct (Z_lt_le_dec n (10 ^ Z.of_nat k)) as [|Hge]; [done|].
    pose proof (put_digits_length_ge (S (Z.to_nat (Z.log2 n))) n [] k) as Hx.
    destruct (print_u_fuel n Hn) as [_ Hf]. specialize (Hx ltac:(lia)). simpl in *. lia.
  - etrans; [apply (put_digits_length _ n [] k); [lia|lia]|simpl; lia].
Qed.

(** The file name fits its buffer. *)
Lemma init_ready getenv pid b :
  0 ≤ pid → (∃ calls, hvac_init_logging 0 getenv pid b = LogReady calls) ↔ pid < 100000.
Proof.
  intros Hp. pose proof (print_u_length pid 5 Hp ltac:(lia)) as Hl.
  change (10 ^ Z.of_nat 5) with 100000 in Hl. rewrite <-Hl.
  unfold hvac_init_logging, prefix_written, prefix_buffer_size, prefix_and_pid.
  simpl. set (pre := default (L4C_LOG_NAME_PREFIX b) _). rewrite !length_app. simpl.
  unfold print_d. destruct (Z.ltb_spec pid 0); [lia|].
  match goal with |- context [?a <=? ?b] => destruct (Z.leb_spec a b) end.
  - split; [lia|by eexists].
  - split; [by intros [? ?]|lia].
Qed.

(** ** Properties *)

(** The calls about an object. *)
Definition configures (appender : string) (c : log4c_call) : bool :=
  match c with
  | log4c_appender_set_type a _ | log4c_appender_set_udata a | log4c_appender_set_layout a _ =>
      bool_decide (a = appender)
  | rollingfile_udata_set_logdir _ | rollingfile_udata_set_files_prefix _
  | rollingfile_udata_set_policy _ | sizewin_udata_set_file_maxsize _
  | sizewin_udata_set_max_num_files _ | log4c_rollingpolicy_set_type _ _
  | log4c_rollingpolicy_set_udata _ | log4c_rollingpolicy_init _ => true
  | _ => false
  end.

(** C40. The level given to log4c is between FATAL and TRACE and is the
    requested one when that is in the range; NOTICE when none is requested. The
    appender is attached to the root category by the last call, after the root
    has its level and the appender all its settings, so that no message meets a
    half-configured logger. The name built for the log file fits the buffer
    allocated for it exactly for process ids of at most five digits: a longer
    pid overflows the heap buffer. *)
Theorem logging_settings getenv pid b :
  0 ≤ pid →
  let level := log_level (getenv "HVAC_LOG_LEVEL") in
  0 ≤ level ≤ 800 ∧
  (∀ s, getenv "HVAC_LOG_LEVEL" = Some s → 0 ≤ atoi s ≤ 800 → level = atoi s) ∧
  (getenv "HVAC_LOG_LEVEL" = None → level = LOG4C_PRIORITY_NOTICE) ∧
  ((∃ calls, hvac_init_logging 0 getenv pid b = LogReady calls) ↔ pid < 100000) ∧
  (∀ calls, hvac_init_logging 0 getenv pid b = LogReady calls → ∃ settings,
     calls = log4c_category_set_priority "root" level :: settings ++
             [log4c_category_set_appender "root" "aname"] ∧
     forallb (configures "aname") settings = true).
Proof.
  intros Hp level. split; [|split; [|split; [|split]]].
  - unfold level, log_level, LOG4C_PRIORITY_FATAL, LOG4C_PRIORITY_TRACE, LOG4C_PRIORITY_NOTICE.
    destruct (getenv "HVAC_LOG_LEVEL") as [s|]; [|lia].
    destruct (Z.ltb_spec (atoi s) 0); [lia|]. destruct (Z.ltb_spec 800 (atoi s)); lia.
  - unfold level, log_level, LOG4C_PRIORITY_FATAL, LOG4C_PRIORITY_TRACE.
    intros s -> Hs. destruct (Z.ltb_spec (atoi s) 0); [lia|].
    destruct (Z.ltb_spec 800 (atoi s)); lia.
  - unfold level. by intros ->.
  - by apply init_ready.
  - unfold hvac_init_logging. simpl. destruct (_ <=? _); [|done]. intros calls [= <-].
    eexists (_ :: removelast (after_prefix _ _)). split; reflexivity.
Qed.

(** Whatever the macro, while log4c writes its message the thread's
    redirection is off, so that the library does not serve the logger's own
    file operations; and the message proper is cut at 1023 characters. *)
Lemma macro_guards m file line expanded tl :
  let '(c, tl') := log_with m file line expanded tl in
  lc_priority c = macro_priority m ∧ lc_redirect_disabled c = true ∧ tl' = false ∧
  ∃ pre, lc_text c = pre ++ take 1023 expanded.
Proof.
  simpl. split_and!; [done..|].
  exists (s2t "[" ++ filename file ++ s2t ":" ++ print_u line ++ s2t "] ").
  unfold vsnprintf, MAX_STR_LEN. change (Z.to_nat (1024 - 1)) with 1023%nat.
  by rewrite <-!(assoc_L (++)).
Qed.

(** ** Witness *)

Lemma logging_settings_witness :
  ¬ ∃ calls, hvac_init_logging 0 (λ _, None) 4194304 HVAC_CLIENT = LogReady calls.
Proof.
  destruct (logging_settings (λ _, None) 4194304 HVAC_CLIENT ltac:(lia))
    as (_ & _ & _ & Hiff & _).
  intros Hs. apply Hiff in Hs. lia.
Defined.
