(* ===== verification/Startup.v ===== *)
(** * Starting a server, and the RPCs both sides register

    [src/src/mthvac_server.cpp], the registrations of
    [src/src/mthvac_comm.cpp] and [hvac_client_comm_register_rpc] of
    [src/src/mthvac_comm_client.cpp]. A run of the start-up is the state it
    reaches when it enters its sleep loop, or the way the process ended
    before. *)

From S2P Require Import Prelude CText Posix Wire AddrFile Comm.

Local Open Scope Z_scope.

(** ** Registered RPCs *)

Record rpc : Type := Rpc { rpc_name : string; rpc_responds : bool }.

Definition hvac_rpc_register : rpc := Rpc "hvac_base_rpc" true.
Definition hvac_open_rpc_register : rpc := Rpc "hvac_open_rpc" true.
(** HG_Registered_disable_response, whose return code is asserted. *)
Definition hvac_close_rpc_register (disable_ret : Z) : res rpc :=
  if disable_ret =? HG_SUCCESS then Ret (Rpc "hvac_close_rpc" false) else Fault AssertFailed.
Definition hvac_seek_rpc_register : rpc := Rpc "hvac_seek_rpc" true.
Definition hvac_trigger_srv_print_stats_rpc_register : rpc :=
  Rpc "hvac_rpc_trigger_srv_print_stats" true.

(** The client's registrations, in its order. *)
Definition hvac_client_comm_register_rpc (disable_ret : Z) : res (list rpc) :=
  match hvac_close_rpc_register disable_ret with
  | Ret c => Ret [hvac_open_rpc_register; hvac_rpc_register; c; hvac_seek_rpc_register;
                  hvac_trigger_srv_print_stats_rpc_register]
  | Fault f => Fault f
  end.

(** ** The server process *)

Record startup : Type := Startup {
  su_os : posix;
  su_comm : comm;
  su_pid_file : option text;      (* what /tmp/hvac_server.pid was given *)
  su_mover : bool;                (* the data mover's thread runs *)
  su_rpcs : list rpc;             (* registered, in order *)
  hvac_server_count : Z;          (* uint32_t *)
  g_running : bool
}.

Definition su_set_os (o : posix) '(Startup _ c p m r n g : startup) := Startup o c p m r n g.
Definition su_set_comm (c : comm) '(Startup o _ p m r n g : startup) := Startup o c p m r n g.
Definition su_set_pid (p : option text) '(Startup o c _ m r n g : startup) := Startup o c p m r n g.
Definition su_set_mover (m : bool) '(Startup o c p _ r n g : startup) := Startup o c p m r n g.
Definition su_add_rpc (x : rpc) '(Startup o c p m r n g : startup) := Startup o c p m (r ++ [x]) n g.
Definition su_set_count (n : Z) '(Startup o c p m r _ g : startup) := Startup o c p m r n g.

(** What the start-up finds around it. *)
Record start_env : Type := StartEnv {
  se_getenv : string → option text;
  se_pid : Z;
  se_pid_file_opens : bool;
  se_mover_created : bool;
  se_init : init_results;
  se_self_addr : text;
  se_disable_ret : Z
}.

Section start.
Context (E : start_env).

Definition register (x : rpc) : St startup unit := modify (su_add_rpc x).

Definition hvac_start_comm_server : St startup unit :=
  (if se_pid_file_opens E
   then modify (su_set_pid (Some (print_d (se_pid E) ++ [nl]))) else mret tt) ;;
  (if se_mover_created E then modify (su_set_mover true) else mret tt) ;;
  zoom su_comm su_set_comm (hvac_init_comm true (se_getenv E "SLURM_PROCID") (se_init E)) ;;
  rank ← gets (λ s, hvac_server_rank (su_comm s));
  zoom su_os su_set_os
    (hvac_comm_list_addr (se_getenv E "SLURM_JOBID") rank (se_self_addr E)) ;;
  register hvac_rpc_register ;;
  register hvac_open_rpc_register ;;
  (λ s, match hvac_close_rpc_register (se_disable_ret E) with
        | Ret c => register c s
        | Fault f => Fault f
        end) ;;
  register hvac_seek_rpc_register ;;
  register hvac_trigger_srv_print_stats_rpc_register.

(** main, up to the sleep loop of the start-up. *)
Definition server_main (argv : list text) : St startup unit :=
  match argv with
  | _ :: count :: _ =>
      modify (su_set_count (to_uint32 (atoi count))) ;; hvac_start_comm_server
  | _ => fail (Exited (-1))
  end.

(** The handler of SIGINT and SIGTERM. *)
Definition signal_exit (signum : Z) : St startup unit :=
  modify (λ '(Startup o c p m r n _), Startup o c p m r n false) ;; fail (Exited 0).

(** ** Properties *)

(** C22. A server whose main reaches its loop has taken its count from its
    argument and its rank from SLURM_PROCID, has posted its address so that a
    lookup of any rank finds the first post for it, and serves exactly the
    RPCs a client registers, with the same response mode; and a main without an
    argument, the way the README starts it, exits at once. *)
Theorem server_start_ready argv s s' es r :
  Forall good_post (es ++ [(atoi (default [] (se_getenv E "SLURM_PROCID")), se_self_addr E)]) →
  (content (su_os s) (ports_file (se_getenv E "SLURM_JOBID")) = Some (posts_text es) ∨
   px_paths (su_os s) !! ports_file (se_getenv E "SLURM_JOBID") = None ∧ es = []) →
  su_rpcs s = [] →
  server_main argv s = Ret (s', tt) →
  (∃ prog count rest, argv = prog :: count :: rest ∧ hvac_server_count s' = to_uint32 (atoi count)) ∧
  (∃ p, se_getenv E "SLURM_PROCID" = Some p ∧ hvac_server_rank (su_comm s') = atoi p) ∧
  (∃ file, content (su_os s') (ports_file (se_getenv E "SLURM_JOBID")) = Some file ∧
     lookup_in_file r file =
       first_post r (es ++ [(hvac_server_rank (su_comm s'), se_self_addr E)])) ∧
  (∃ client, hvac_client_comm_register_rpc (se_disable_ret E) = Ret client ∧
     client ≡ₚ su_rpcs s') ∧
  ∀ prog s0, server_main [prog] s0 = Fault (Exited (-1)).
Proof.
  intros Hgood Hold Hr0 Hrun. unfold server_main in Hrun.
  destruct argv as [|prog [|count rest]]; [done|done|].
  destruct s as [os c pf mv rp n g]. simpl in Hold, Hr0. subst rp.
  unfold hvac_start_comm_server, hvac_init_comm, hvac_comm_list_addr, register in Hrun.
  destruct (se_getenv E "SLURM_PROCID") as [p|] eqn:Hp; [|by destruct (se_pid_file_opens E), (se_mover_created E)].
  destruct (hvac_close_rpc_register (se_disable_ret E)) as [x|f] eqn:Hx;
    [|destruct (se_pid_file_opens E), (se_mover_created E);
      unfold_st_in Hrun; by destruct (append_file _ _ _)].
  destruct (append_file (ports_file (se_getenv E "SLURM_JOBID"))
             (print_entry (atoi p) (se_self_addr E)) os) as [os'|] eqn:Ha;
    [|destruct (se_pid_file_opens E), (se_mover_created E);
      unfold_st_in Hrun; by rewrite Ha in Hrun].
  assert (hvac_server_rank (su_comm s') = atoi p ∧ su_os s' = os' ∧
    hvac_server_count s' = to_uint32 (atoi count) ∧
    su_rpcs s' = [hvac_rpc_register; hvac_open_rpc_register; x; hvac_seek_rpc_register;
                  hvac_trigger_srv_print_stats_rpc_register]) as (E1 & E2 & E3 & E4).
  { destruct (se_pid_file_opens E), (se_mover_created E);
      unfold_st_in Hrun; rewrite Ha in Hrun; simpl in Hrun; by simplify_eq/=. }
  split_and!.
  - by exists prog, count, rest.
  - by exists p.
  - rewrite E1, E2. simpl in Hgood. exists (posts_text (es ++ [(atoi p, se_self_addr E)])).
    split; [|apply find_rank_posts; [done|lia]].
    rewrite posts_text_snoc. destruct Hold as [Hc|[Hn ->]].
    + by eapply append_file_content.
    + by eapply append_file_new.
  - unfold hvac_client_comm_register_rpc. rewrite Hx, E4. eexists. split; [done|].
    apply Permutation_swap.
  - done.
Qed.

End start.

(** ** Witness *)

Definition ex_startup : startup := Startup ex_ports_os comm_initial None false [] 0 true.

Definition ex_start_env_ok : start_env := StartEnv
  (λ name, if String.eqb name "SLURM_PROCID" then Some (s2t "3")
           else if String.eqb name "SLURM_JOBID" then Some (s2t "77") else None)
  4242 true true (InitResults true true true)
  (s2t "ofi+tcp://10.0.0.4:5000") HG_SUCCESS.

Lemma ex_posts_good4 : Forall good_post (ex_posts ++ [(3, s2t "ofi+tcp://10.0.0.4:5000")]).
Proof. repeat constructor; simpl; try lia; try done. Qed.

Lemma server_start_ready_witness :
  ∃ s', server_main ex_start_env_ok [s2t "hvac_server"; s2t "4"] ex_startup = Ret (s', tt) ∧
    ∃ file, content (su_os s') "./.ports.cfg.77" = Some file ∧
      lookup_in_file 3 file = Some (s2t "ofi+tcp://10.0.0.4:5000").
Proof.
  eexists. destruct (server_start_ready ex_start_env_ok [s2t "hvac_server"; s2t "4"] ex_startup _
    ex_posts 3 ex_posts_good4 (or_introl eq_refl) eq_refl
    ltac:(vm_compute; reflexivity)) as (_ & _ & (file & Hf & Hl) & _).
  split; [vm_compute; reflexivity|]. exists file. split; [exact Hf|]. rewrite Hl. reflexivity.
Defined.
